(** * udptunnel: the framing protocol and the relay handlers

    A shallow embedding of [src/udptunnel.c]: the stream parser
    [tcp_to_udp], the datagram sender [send_udp_packet], the encoder
    [udp_to_tcp] and the dispatch part of [main_loop], over an explicit
    model of the two sockets.  System calls take their results from a
    [world] and leave an [event] in its trace; [exit] is an outcome of its
    own, so a handler that terminates the process is told apart from one
    that returns. *)

From Stdlib Require Import ZArith List Lia Bool.
From Stdlib Require Import Strings.Byte.
From Stdlib Require Strings.String.
Import String.StringSyntax.
Import ListNotations.
Open Scope string_scope.
Open Scope list_scope.
Open Scope Z_scope.

(** ** Machine data *)

Abbreviation byte := Byte.byte.
Abbreviation string := String.string.

Definition Z_of_byte (b : byte) : Z := Z.of_N (Byte.to_N b).

Definition byte_of_Z (z : Z) : byte :=
  match Byte.of_N (Z.to_N (z mod 256)) with
  | Some b => b
  | None => x00
  end.

(** [#define TCPBUFFERSIZE 65536] and [#define UDPBUFFERSIZE (TCPBUFFERSIZE - 2)]. *)
Definition TCPBUFFERSIZE : Z := 65536.
Definition UDPBUFFERSIZE : Z := TCPBUFFERSIZE - 2.

(** [sizeof(relay->handshake)] and [sizeof(uint16_t)]. *)
Definition HANDSHAKE_SIZE : Z := 32.
Definition LENGTH_SIZE : Z := 2.

(** The value of [ECONNREFUSED] in Linux's [errno.h]. *)
Definition ECONNREFUSED : Z := 111.

(** [htons] applied to an [int]: the argument is converted to [uint16_t]
    and laid out in memory most significant byte first. *)
Definition htons (n : Z) : list byte :=
  let u := n mod 65536 in
  [byte_of_Z (Z.shiftr u 8); byte_of_Z (Z.land u 255)].

(** [ntohs( *(uint16_t * ) p)] on the two bytes found at [p]. *)
Definition ntohs (p : list byte) : Z :=
  match p with
  | hi :: lo :: _ => Z.lor (Z.shiftl (Z_of_byte hi) 8) (Z_of_byte lo)
  | _ => 0
  end.

(** Memory blocks are lists of bytes addressed by offset. *)
Definition mem_read (m : list byte) (off n : Z) : list byte :=
  firstn (Z.to_nat n) (skipn (Z.to_nat off) m).

Definition mem_write (m : list byte) (off : Z) (data : list byte) : list byte :=
  firstn (Z.to_nat off) m ++ data ++ skipn (Z.to_nat off + length data) m.

(** [memmove(m + dst, m + src, n)]: the source range is read before
    anything is written, so overlap is harmless. *)
Definition memmove (m : list byte) (dst src n : Z) : list byte :=
  mem_write m dst (mem_read m src n).

(** [memcmp(a, b, n) == 0]. *)
Fixpoint bytes_eqb (a b : list byte) : bool :=
  match a, b with
  | [], [] => true
  | x :: a', y :: b' => Byte.eqb x y && bytes_eqb a' b'
  | _, _ => false
  end.

Definition memcmp_eq (a b : list byte) (n : Z) : bool :=
  bytes_eqb (firstn (Z.to_nat n) a) (firstn (Z.to_nat n) b).

(** ** Program data *)

(** [struct sockaddr_storage]: the family and the rest of the address. *)
Record sockaddr_storage := mkAddr {
  ss_family : Z;
  ss_data : list byte
}.

(** The anonymous enum of [struct relay]. *)
Inductive parse_state :=
| uninitialized
| reading_handshake
| reading_length
| reading_packet.

(** [struct relay].  [buf_ptr] and [packet_start] point into [buf] and are
    kept as offsets from its first byte. *)
Record relay := mkRelay {
  remote_udpaddr : sockaddr_storage;
  udp_sock : Z;
  tcp_sock : Z;
  expect_handshake : bool;
  handshake : list byte;
  udp_timeout : Z;
  tcp_timeout : Z;
  buf : list byte;
  buf_ptr : Z;
  packet_start : Z;
  packet_length : Z;
  state : parse_state
}.

Definition set_remote_udpaddr (r : relay) (a : sockaddr_storage) : relay :=
  mkRelay a (udp_sock r) (tcp_sock r) (expect_handshake r) (handshake r)
          (udp_timeout r) (tcp_timeout r) (buf r) (buf_ptr r)
          (packet_start r) (packet_length r) (state r).

Definition set_buffer (r : relay) (b : list byte) (bp ps : Z) : relay :=
  mkRelay (remote_udpaddr r) (udp_sock r) (tcp_sock r) (expect_handshake r)
          (handshake r) (udp_timeout r) (tcp_timeout r) b bp ps
          (packet_length r) (state r).

Definition set_parser (r : relay) (st : parse_state) (len : Z) : relay :=
  mkRelay (remote_udpaddr r) (udp_sock r) (tcp_sock r) (expect_handshake r)
          (handshake r) (udp_timeout r) (tcp_timeout r) (buf r) (buf_ptr r)
          (packet_start r) len st.

(** The levels the program passes to the logger. *)
Inductive log_level := log_err | log_warning | log_notice | log_info | log_debug.

(** ** The process and its environment *)

(** What is queued on the stream socket: a segment of bytes (the empty
    segment is the peer's shutdown, on which [read] returns 0) or a pending
    error. *)
Inductive rx_item :=
| RxData (data : list byte)
| RxErr (errno : Z).

(** What is queued on the datagram socket. *)
Inductive dgram_item :=
| Dgram (data : list byte) (from : sockaddr_storage)
| DgramErr (errno : Z).

(** The calls the process makes, in order.  [EvSendto] carries the result
    of the call: [None] when the datagram was handed to the network. *)
Inductive event :=
| EvRead (fd count : Z)
| EvRecvfrom (fd size : Z)
| EvSendto (fd : Z) (payload : list byte) (dest : sockaddr_storage) (err : option Z)
| EvSend (fd : Z) (data : list byte)
| EvGetsockopt (fd : Z)
| EvLog (level : log_level) (msg : string).

(** [out_res] scripts the output calls ([sendto], [getsockopt], [send]) in
    the order they are made: [Some e] fails the call with [errno = e],
    [None] lets it succeed, as does an exhausted script. *)
Record world := mkWorld {
  tcp_rx : list rx_item;
  udp_rx : list dgram_item;
  out_res : list (option Z);
  trace : list event
}.

(** A call returns, or ends the process through [exit], or never comes
    back. *)
Inductive outcome (A : Type) :=
| Ret (a : A)
| Exit (status : Z)
| Diverge.
Arguments Ret {A} a.
Arguments Exit {A} status.
Arguments Diverge {A}.

Definition M (A : Type) : Type := world -> outcome A * world.

Definition ret {A} (a : A) : M A := fun w => (Ret a, w).

Definition bind {A B} (m : M A) (k : A -> M B) : M B :=
  fun w =>
    match m w with
    | (Ret a, w') => k a w'
    | (Exit s, w') => (Exit s, w')
    | (Diverge, w') => (Diverge, w')
    end.

Notation "x <- m ;; k" := (bind m (fun x => k))
  (at level 61, m at next level, right associativity).
Notation "m ;;; k" := (bind m (fun _ => k))
  (at level 61, right associativity).

Definition emit (e : event) : M unit :=
  fun w => (Ret tt, mkWorld (tcp_rx w) (udp_rx w) (out_res w) (trace w ++ [e])).

Definition exit {A} (status : Z) : M A := fun w => (Exit status, w).

(** Next result of an output call. *)
Definition next_out : M (option Z) :=
  fun w =>
    match out_res w with
    | [] => (Ret None, w)
    | x :: rest => (Ret x, mkWorld (tcp_rx w) (udp_rx w) rest (trace w))
    end.

(** [log_printf] and [log_printf_exit] of [libs/log/log.c], up to the
    filtering and formatting of the message. *)
Definition log_printf (level : log_level) (msg : string) : M unit :=
  emit (EvLog level msg).

Definition log_printf_exit {A} (status : Z) (level : log_level) (msg : string) : M A :=
  emit (EvLog level msg) ;;; exit status.

(** Modelled from the spec: [err_sys] is a macro of [libs/utils/utils.h],
    which is not among the sources.  Section 7 has every other socket
    failure end the process with status 1 and the underlying reason. *)
Definition err_sys {A} (msg : string) : M A :=
  emit (EvLog log_err msg) ;;; exit 1.

(** [read(fd, p, count)]: at most [count] bytes of the first queued
    segment; what does not fit stays queued.  Nothing queued blocks. *)
Definition sys_read (fd count : Z) : M (Z + list byte) :=
  fun w =>
    let w1 := mkWorld (tcp_rx w) (udp_rx w) (out_res w) (trace w ++ [EvRead fd count]) in
    match tcp_rx w with
    | [] => (Diverge, w1)
    | RxErr e :: rest =>
        (Ret (inl e), mkWorld rest (udp_rx w1) (out_res w1) (trace w1))
    | RxData l :: rest =>
        if Z.of_nat (length l) <=? count then
          (Ret (inr l), mkWorld rest (udp_rx w1) (out_res w1) (trace w1))
        else
          (Ret (inr (firstn (Z.to_nat count) l)),
           mkWorld (RxData (skipn (Z.to_nat count) l) :: rest)
                   (udp_rx w1) (out_res w1) (trace w1))
    end.

(** [recvfrom(fd, p, size, 0, &addr, &addrlen)]: one datagram, cut to
    [size] bytes, and its sender. *)
Definition sys_recvfrom (fd size : Z) : M (Z + list byte * sockaddr_storage) :=
  fun w =>
    let w1 := mkWorld (tcp_rx w) (udp_rx w) (out_res w) (trace w ++ [EvRecvfrom fd size]) in
    match udp_rx w with
    | [] => (Diverge, w1)
    | DgramErr e :: rest =>
        (Ret (inl e), mkWorld (tcp_rx w1) rest (out_res w1) (trace w1))
    | Dgram d from :: rest =>
        (Ret (inr (firstn (Z.to_nat size) d, from)),
         mkWorld (tcp_rx w1) rest (out_res w1) (trace w1))
    end.

Definition sys_sendto (fd : Z) (payload : list byte) (dest : sockaddr_storage)
  : M (option Z) :=
  res <- next_out ;;
  emit (EvSendto fd payload dest res) ;;;
  ret res.

Definition sys_getsockopt_so_error (fd : Z) : M (option Z) :=
  res <- next_out ;;
  emit (EvGetsockopt fd) ;;;
  ret res.

Definition sys_send (fd : Z) (data : list byte) : M (option Z) :=
  res <- next_out ;;
  emit (EvSend fd data) ;;;
  ret res.

(** ** The program *)

(** The token [parse_args] installs:
    ["udptunnel by md.\0\0\0\x01\x03\x06\x10\x15\x21\x28\x36\x45\x55\x66\x78\x91"],
    of which [memcpy] takes 32 bytes. *)
Definition default_handshake : list byte :=
  firstn 32 (String.list_byte_of_string "udptunnel by md."
             ++ [x00; x00; x00]
             ++ [x01; x03; x06; x10; x15; x21; x28; x36; x45; x55; x66; x78; x91]
             ++ [x00]).

(** [send_udp_packet]. *)
Definition send_udp_packet (r : relay) : M unit :=
  if ss_family (remote_udpaddr r) =? 0 then
    log_printf log_info "Ignoring a packet for a still unknown UDP destination!"
  else
    res <- sys_sendto (udp_sock r)
             (mem_read (buf r) (packet_start r) (packet_length r))
             (remote_udpaddr r) ;;
    match res with
    | None => ret tt
    | Some errno =>
        if negb (errno =? ECONNREFUSED) then err_sys "sendto(udp)"
        else
          log_printf log_info "sendto(udp) returned ECONNREFUSED: ignored" ;;;
          g <- sys_getsockopt_so_error (udp_sock r) ;;
          match g with
          | None => ret tt
          | Some _ => err_sys "getsockopt(udp, SOL_SOCKET, SO_ERROR)"
          end
    end.

(** The body of the [while] loop of [tcp_to_udp], one branch per state.
    No branch is taken in state [uninitialized]. *)
Definition parse_step (r : relay) : M relay :=
  match state r with
  | reading_handshake =>
      if negb (memcmp_eq (skipn (Z.to_nat (packet_start r)) (buf r))
                         (handshake r) HANDSHAKE_SIZE)
      then log_printf_exit 0 log_info "Received a bad handshake, exiting"
      else
        log_printf log_debug "Received a good handshake" ;;;
        ret (set_parser
               (set_buffer r (buf r) (buf_ptr r) (packet_start r + HANDSHAKE_SIZE))
               reading_length LENGTH_SIZE)
  | reading_length =>
      let len := ntohs (skipn (Z.to_nat (packet_start r)) (buf r)) in
      ret (set_parser
             (set_buffer r (buf r) (buf_ptr r) (packet_start r + LENGTH_SIZE))
             reading_packet len)
  | reading_packet =>
      send_udp_packet r ;;;
      let src := packet_start r + packet_length r in
      let b := memmove (buf r) 0 src (buf_ptr r - src) in
      let bp := buf_ptr r - (packet_length r + (packet_start r - 0)) in
      ret (set_parser (set_buffer r b bp 0) reading_length LENGTH_SIZE)
  | uninitialized => ret r
  end.

(** The [while] loop itself.  [fuel] bounds the number of iterations; the
    loop that is still running when it is used up is reported as
    [Diverge]. *)
Fixpoint parse_loop (fuel : nat) (r : relay) : M relay :=
  match fuel with
  | O => fun w => (Diverge, w)
  | S fuel' =>
      if buf_ptr r - packet_start r >=? packet_length r then
        r' <- parse_step r ;; parse_loop fuel' r'
      else ret r
  end.

(** Twice the unparsed bytes, plus two: an iteration either consumes a
    byte or moves from [reading_packet] to [reading_length]. *)
Definition loop_fuel (r : relay) : nat :=
  Z.to_nat (2 * (buf_ptr r - packet_start r) + 2).

(** First part of [tcp_to_udp]: the state machine is set up on the first
    call. *)
Definition init_parser (r : relay) : relay :=
  match state r with
  | uninitialized =>
      set_buffer
        (if expect_handshake r then set_parser r reading_handshake HANDSHAKE_SIZE
         else set_parser r reading_length LENGTH_SIZE)
        (buf r) 0 0
  | _ => r
  end.

(** [tcp_to_udp]. *)
Definition tcp_to_udp (r : relay) : M relay :=
  let r := init_parser r in
  rd <- sys_read (tcp_sock r) (0 + TCPBUFFERSIZE - buf_ptr r) ;;
  match rd with
  | inl _ => err_sys "read(tcp)"
  | inr data =>
      let read_len := Z.of_nat (length data) in
      if read_len =? 0 then
        log_printf_exit 0 log_notice "Remote closed the connection"
      else
        let r := set_buffer r (mem_write (buf r) (buf_ptr r) data)
                              (buf_ptr r + read_len) (packet_start r) in
        parse_loop (loop_fuel r) r
  end.

(** [struct out_packet] once [udp_to_tcp] has filled it: the two bytes of
    [length], set from [htons(buflen)], then the datagram in [buf]. *)
Definition out_packet (data : list byte) : list byte :=
  htons (Z.of_nat (length data)) ++ data.

(** [udp_to_tcp]; [send] takes the first [buflen + sizeof(p.length)] bytes
    of the packet. *)
Definition udp_to_tcp (r : relay) : M relay :=
  rc <- sys_recvfrom (udp_sock r) UDPBUFFERSIZE ;;
  match rc with
  | inl _ => err_sys "recvfrom(udp)"
  | inr (data, from) =>
      let buflen := Z.of_nat (length data) in
      if buflen =? 0 then ret r
      else
        let r := set_remote_udpaddr r from in
        let p := out_packet data in
        s <- sys_send (tcp_sock r) (firstn (Z.to_nat (buflen + LENGTH_SIZE)) p) ;;
        match s with
        | None => ret r
        | Some _ => err_sys "send(tcp)"
        end
  end.

(** The dispatch of [main_loop].  [select] reports a socket readable when
    something is queued on it; both handlers run off the same report, the
    stream one first.  When nothing is queued [select] blocks: the run
    ends there with the relay alive, which is the [Ret] of this model
    (idle time-outs need the wall clock and are left out, as is the
    error return of [select]; [Timed.main_loop] below has both). *)
Fixpoint main_loop (fuel : nat) (r : relay) : M relay :=
  match fuel with
  | O => fun w => (Diverge, w)
  | S fuel' => fun w =>
      let tcp_ready := match tcp_rx w with [] => false | _ => true end in
      let udp_ready := match udp_rx w with [] => false | _ => true end in
      if negb (tcp_ready || udp_ready) then (Ret r, w)
      else
        (r1 <- (if tcp_ready then tcp_to_udp r else ret r) ;;
         r2 <- (if udp_ready then udp_to_tcp r1 else ret r1) ;;
         main_loop fuel' r2) w
  end.

(** Every pass of [main_loop] takes at least one byte or one item off a
    queue, or exits. *)
Definition rx_size (i : rx_item) : nat :=
  match i with RxData l => S (length l) | RxErr _ => 1 end.

Definition run_fuel (w : world) : nat :=
  S (list_sum (map rx_size (tcp_rx w)) + length (udp_rx w)).

Definition run (r : relay) : M relay :=
  fun w => main_loop (run_fuel w) r w.

(** The relay as [main] sets it up: [memset] to zero, then the token and
    the role. *)
Definition relay_zero : relay :=
  mkRelay (mkAddr 0 []) 0 0 false (repeat x00 32) 0 0
          (repeat x00 (Z.to_nat TCPBUFFERSIZE)) 0 0 0 uninitialized.

Definition server_relay (token : list byte) (tcp udp timeout : Z)
    (dest : sockaddr_storage) : relay :=
  mkRelay dest udp tcp true (firstn 32 token) 0 timeout
          (buf relay_zero) 0 0 0 uninitialized.

Definition client_relay (token : list byte) (tcp udp timeout : Z) : relay :=
  mkRelay (mkAddr 0 []) udp tcp false (firstn 32 token) timeout 0
          (buf relay_zero) 0 0 0 uninitialized.

(** ** Reading a trace *)

(** The datagrams handed to the network. *)
Fixpoint datagrams (t : list event) : list (list byte) :=
  match t with
  | [] => []
  | EvSendto _ p _ None :: t' => p :: datagrams t'
  | _ :: t' => datagrams t'
  end.

(** The bytes written to the stream. *)
Fixpoint stream_of (t : list event) : list byte :=
  match t with
  | [] => []
  | EvSend _ d :: t' => d ++ stream_of t'
  | _ :: t' => stream_of t'
  end.

Definition new_world (rx : list rx_item) (dg : list dgram_item) : world :=
  mkWorld rx dg [] [].

(** ** Notions used in the statements *)

Definition add_trace (w : world) (evs : list event) : world :=
  mkWorld (tcp_rx w) (udp_rx w) (out_res w) (trace w ++ evs).

(** The unparsed bytes: what lies between [packet_start] and [buf_ptr]. *)
Definition pending (r : relay) : list byte :=
  mem_read (buf r) (packet_start r) (buf_ptr r - packet_start r).

(** [buf] has its declared size and the two pointers are in order inside
    it. *)
Definition buf_ok (r : relay) : Prop :=
  length (buf r) = Z.to_nat TCPBUFFERSIZE /\
  0 <= packet_start r <= buf_ptr r /\ buf_ptr r <= TCPBUFFERSIZE.

(** The loop of [tcp_to_udp] has stopped: less than [packet_length]
    unparsed bytes. *)
Definition at_rest (r : relay) : Prop :=
  buf_ptr r - packet_start r < packet_length r.

(** What the handlers never change. *)
Definition same_config (r r' : relay) : Prop :=
  remote_udpaddr r' = remote_udpaddr r /\ udp_sock r' = udp_sock r /\
  tcp_sock r' = tcp_sock r /\ expect_handshake r' = expect_handshake r /\
  handshake r' = handshake r.

(** The successful [sendto] of payload [d] by relay [r]. *)
Definition sent (r : relay) (d : list byte) : event :=
  EvSendto (udp_sock r) d (remote_udpaddr r) None.

(** A parser past any handshake, in step with a stream of frames: its
    unparsed bytes followed by the bytes [fut] still to come are the
    frames of [ds], the header of the first one being consumed already in
    state [reading_packet]. *)
Inductive synced (r : relay) (fut : list byte) : list (list byte) -> Prop :=
| synced_length ds :
    state r = reading_length -> packet_length r = LENGTH_SIZE ->
    packet_start r = 0 ->
    pending r ++ fut = concat (map out_packet ds) ->
    synced r fut ds
| synced_packet d ds :
    state r = reading_packet -> packet_length r = Z.of_nat (length d) ->
    packet_start r = LENGTH_SIZE ->
    pending r ++ fut = d ++ concat (map out_packet ds) ->
    synced r fut (d :: ds).

(** Iterations the loop can still make, counting the test that ends it. *)
Definition loop_need (r : relay) : Z :=
  buf_ptr r - packet_start r
  + match state r with reading_packet => 2 | _ => 1 end.

(** A datagram that carries at least one byte. *)
Definition nonempty (d : list byte) : bool :=
  match d with [] => false | _ => true end.

Definition dgram_of (x : list byte * sockaddr_storage) : dgram_item :=
  Dgram (fst x) (snd x).

(** What the code keeps true of the parser between two passes of its
    loop: the buffer is in order and [packet_length] is the size the state
    waits for. *)
Definition parser_ok (r : relay) : Prop :=
  buf_ok r /\
  match state r with
  | uninitialized => False
  | reading_handshake => packet_length r = HANDSHAKE_SIZE
  | reading_length => packet_length r = LENGTH_SIZE
  | reading_packet => 0 <= packet_length r
  end.

(** The relays a relay can become: each step is one call of a handler that
    returns, whatever the sockets hold and whatever the output calls
    answer. *)
Inductive reachable (r0 : relay) : relay -> Prop :=
| reach_refl : reachable r0 r0
| reach_tcp r w r' w' :
    reachable r0 r -> tcp_to_udp r w = (Ret r', w') -> reachable r0 r'
| reach_udp r w r' w' :
    reachable r0 r -> udp_to_tcp r w = (Ret r', w') -> reachable r0 r'.

(** Where a state stands in the life of a connection. *)
Definition phase (s : parse_state) : nat :=
  match s with
  | uninitialized => 0
  | reading_handshake => 1
  | reading_length | reading_packet => 2
  end.

(** The handlers only ever add to the trace. *)
Definition extends (w w' : world) : Prop :=
  exists evs, trace w' = trace w ++ evs.

(** A relay that has not seen the whole handshake yet. *)
Definition awaiting_handshake (r : relay) : Prop :=
  buf_ok r /\ state r = reading_handshake /\
  packet_length r = HANDSHAKE_SIZE /\ packet_start r = 0 /\
  buf_ptr r < HANDSHAKE_SIZE /\ length (handshake r) = 32%nat.

Definition is_read (e : event) : Prop :=
  match e with EvRead _ _ => True | _ => False end.

(** What is left of a run once [tcp_to_udp] has read into the buffer:
    the rest of its [while] loop, then the next passes of [main_loop]. *)
Definition resume (loop_passes passes : nat) (r : relay) : M relay :=
  r' <- parse_loop loop_passes r ;; main_loop passes r'.

(** A server-side parser in front of a first frame [frame] whose payload
    of [len] bytes cannot end inside the buffer: the handshake is not yet
    complete, or it is consumed and the header is awaited, or the header
    is consumed too.  [fut] is what is still to come. *)
Inductive jammed (len : Z) (frame : list byte) (r : relay) (fut : list byte) : Prop :=
| jammed_handshake :
    state r = reading_handshake -> packet_length r = HANDSHAKE_SIZE ->
    packet_start r = 0 ->
    pending r ++ fut = handshake r ++ frame ->
    jammed len frame r fut
| jammed_length :
    state r = reading_length -> packet_length r = LENGTH_SIZE ->
    packet_start r = HANDSHAKE_SIZE ->
    pending r ++ fut = frame ->
    jammed len frame r fut
| jammed_packet :
    state r = reading_packet -> packet_length r = len ->
    packet_start r = HANDSHAKE_SIZE + LENGTH_SIZE ->
    jammed len frame r fut.

(** Projections of an updated relay. *)
Ltac relay_fields :=
  cbn [remote_udpaddr udp_sock tcp_sock expect_handshake handshake
       udp_timeout tcp_timeout buf buf_ptr packet_start packet_length state
       set_parser set_buffer set_remote_udpaddr].

(** ** The address parser of [libs/network/network.c] *)

(** C strings are the bytes in front of their terminating NUL; a pointer
    that may be [NULL] is an [option]. *)

(** [strchr(s, c)], as the offset of the first [c] in [s]. *)
Fixpoint strchr (s : list byte) (c : byte) : option nat :=
  match s with
  | [] => None
  | x :: s' => if Byte.eqb x c then Some O else option_map S (strchr s' c)
  end.

(** [isdigit] in the C locale. *)
Definition isdigit (b : byte) : bool :=
  (48 <=? Z_of_byte b) && (Z_of_byte b <=? 57).

(** [strdup] of a string that is only kept when it is not empty. *)
Definition nonempty_string (s : list byte) : option (list byte) :=
  match s with [] => None | _ => Some s end.

(** [parse_address_port]: the pair [( *address, *port)]. *)
Definition parse_address_port (input : list byte)
  : option (list byte) * option (list byte) :=
  match input with
  | [] => (None, None)
  | c0 :: _ =>
      match (if Byte.eqb c0 "["%byte then strchr input "]"%byte else None) with
      | Some p =>
          let len := (p - 0 - 1)%nat in
          let address := firstn len (skipn 1 input) in
          let port :=
            match strchr (skipn p input) ":"%byte with
            | Some q => nonempty_string (skipn (p + q + 1) input)
            | None => None
            end in
          (Some address, port)
      | None =>
          match strchr input ":"%byte with
          | Some p =>
              match strchr (skipn (p + 1) input) ":"%byte with
              | Some _ => (Some input, None)
              | None =>
                  let len := (p - 0)%nat in
                  ((if Nat.eqb len 0 then None else Some (firstn len input)),
                   nonempty_string (skipn (p + 1) input))
              end
          | None =>
              if forallb isdigit input then (None, Some input)
              else (Some input, None)
          end
      end
  end.

(** The test that opens the first branch of [parse_address_port]. *)
Definition bracketed (input : list byte) : Prop :=
  exists rest, input = "["%byte :: rest /\ In "]"%byte rest.

(** ** The client's opening and the two ends of a tunnel *)

(** [send_handshake]: the token goes out through [sendto] on the stream
    socket. *)
Definition send_handshake (r : relay) : M unit :=
  res <- sys_sendto (tcp_sock r)
           (firstn (Z.to_nat HANDSHAKE_SIZE) (handshake r)) (remote_udpaddr r) ;;
  match res with
  | None => ret tt
  | Some _ => err_sys "sendto(tcp, handshake)"
  end.

(** The end of [main] in client mode: [send_handshake(&relay)], then
    [main_loop(&relay)]. *)
Definition client_session (r : relay) : M relay :=
  send_handshake r ;;; run r.

(** The bytes a process has written on socket [fd], through [send] or
    through a [sendto] that succeeded. *)
Fixpoint wire (fd : Z) (t : list event) : list byte :=
  match t with
  | [] => []
  | EvSend fd' d :: t' => if fd' =? fd then d ++ wire fd t' else wire fd t'
  | EvSendto fd' d _ None :: t' => if fd' =? fd then d ++ wire fd t' else wire fd t'
  | _ :: t' => wire fd t'
  end.

(** The first frame behind the handshake shares the buffer with it. *)
Definition first_fits (ds : list (list byte)) : Prop :=
  match ds with
  | [] => True
  | d :: _ => Z.of_nat (length d) <= TCPBUFFERSIZE - HANDSHAKE_SIZE - LENGTH_SIZE
  end.

(** A server-side parser in step with a stream that opens with the token:
    before the token is complete, before the first frame is delivered
    (the token still in the buffer), and like [synced] from then on. *)
Inductive tunnel (r : relay) (fut : list byte) : list (list byte) -> Prop :=
| tunnel_handshake ds :
    state r = reading_handshake -> packet_length r = HANDSHAKE_SIZE ->
    packet_start r = 0 -> first_fits ds ->
    pending r ++ fut = handshake r ++ concat (map out_packet ds) ->
    tunnel r fut ds
| tunnel_first_length ds :
    state r = reading_length -> packet_length r = LENGTH_SIZE ->
    packet_start r = HANDSHAKE_SIZE -> first_fits ds ->
    pending r ++ fut = concat (map out_packet ds) ->
    tunnel r fut ds
| tunnel_first_packet d ds :
    state r = reading_packet -> packet_length r = Z.of_nat (length d) ->
    packet_start r = HANDSHAKE_SIZE + LENGTH_SIZE -> first_fits (d :: ds) ->
    pending r ++ fut = d ++ concat (map out_packet ds) ->
    tunnel r fut (d :: ds)
| tunnel_synced ds :
    synced r fut ds -> tunnel r fut ds.

(** [parser_ok], and a packet is never read from the first two bytes of
    the buffer: its header was there. *)
Definition parser_ok2 (r : relay) : Prop :=
  parser_ok r /\ (state r = reading_packet -> LENGTH_SIZE <= packet_start r).

(** The calls [tcp_to_udp] may make on behalf of relay [r]. *)
Definition relay_event (r : relay) (e : event) : Prop :=
  match e with
  | EvRead fd count => fd = tcp_sock r /\ 0 <= count <= TCPBUFFERSIZE
  | EvSendto fd p dest _ =>
      fd = udp_sock r /\ dest = remote_udpaddr r /\
      Z.of_nat (length p) <= UDPBUFFERSIZE
  | EvGetsockopt fd => fd = udp_sock r
  | EvLog _ _ => True
  | EvSend _ _ | EvRecvfrom _ _ => False
  end.

(** A parser at a frame boundary in front of a header that announces
    65535 bytes, or past that header: the packet it waits for cannot end
    inside the buffer. *)
Inductive overlong (r : relay) (fut : list byte) : Prop :=
| overlong_length rest :
    state r = reading_length -> packet_length r = LENGTH_SIZE ->
    packet_start r = 0 ->
    pending r ++ fut = xff :: xff :: rest ->
    overlong r fut
| overlong_packet :
    state r = reading_packet ->
    TCPBUFFERSIZE < packet_start r + packet_length r ->
    overlong r fut.

(** The message that goes with an exit status: 0 follows the peer's
    shutdown or a wrong token, 1 follows the report of a failed call. *)
Definition exit_reason (status : Z) (e : event) : Prop :=
  match e with
  | EvLog lvl msg =>
      (status = 0 /\
       ((lvl = log_notice /\ msg = "Remote closed the connection") \/
        (lvl = log_info /\ msg = "Received a bad handshake, exiting"))) \/
      (status = 1 /\ lvl = log_err)
  | _ => False
  end.

(** An exit is announced by the last entry of the trace. *)
Definition exit_logged {A} (o : outcome A) (w : world) : Prop :=
  match o with
  | Exit s => exists t e, trace w = t ++ [e] /\ exit_reason s e
  | _ => True
  end.

(** What is queued on the stream socket, in the measure of [run_fuel]. *)
Definition tcp_queued (w : world) : nat := list_sum (map rx_size (tcp_rx w)).

(** The calls [udp_to_tcp] may make on behalf of relay [r]: a [send]
    carries one frame, a header that gives the size of what follows. *)
Definition udp_event (r : relay) (e : event) : Prop :=
  match e with
  | EvRecvfrom fd size => fd = udp_sock r /\ size = UDPBUFFERSIZE
  | EvSend fd data =>
      fd = tcp_sock r /\
      exists p, data = out_packet p /\
                0 < Z.of_nat (length p) <= UDPBUFFERSIZE /\
                ntohs data = Z.of_nat (length p)
  | EvLog _ _ => True
  | EvRead _ _ | EvSendto _ _ _ _ | EvGetsockopt _ => False
  end.

(** The destination of every [sendto] of a trace is [a]. *)
Definition sent_to (a : sockaddr_storage) (e : event) : Prop :=
  match e with
  | EvSendto _ _ dest _ => dest = a
  | _ => True
  end.

(** ** The socket layer of [libs/network/network.c] *)

Module Net.

(** Constants of the system headers, with their Linux values. *)
Definition AF_UNSPEC : Z := 0.
Definition AF_INET6 : Z := 10.
Definition SOCK_STREAM : Z := 1.
Definition SOCK_DGRAM : Z := 2.
Definition AI_PASSIVE : Z := 1.
Definition AI_ADDRCONFIG : Z := 32.
Definition AI_IDN : Z := 64.
Definition EAI_SYSTEM : Z := -11.
Definition EAI_OVERFLOW : Z := -12.
Definition NI_NUMERICHOST : Z := 1.
Definition NI_NUMERICSERV : Z := 2.
Definition IPPROTO_IPV6 : Z := 41.
Definition IPV6_V6ONLY : Z := 26.
Definition SOL_SOCKET : Z := 1.
Definition SO_REUSEADDR : Z := 2.
Definition F_GETFL : Z := 3.
Definition F_SETFL : Z := 4.
Definition O_NONBLOCK : Z := 2048.
Definition EINTR : Z := 4.
Definition EAGAIN : Z := 11.

(** One element of the list [getaddrinfo] returns; [ai_addrlen] is the
    size of [ai_addr] and is not kept apart. *)
Record addrinfo := mkAddrinfo {
  ai_family : Z;
  ai_socktype : Z;
  ai_protocol : Z;
  ai_addr : sockaddr_storage
}.

(** The calls into the system, with the arguments the code passes. *)
Inductive call :=
| Getaddrinfo (node service : option (list byte)) (family socktype flags : Z)
| Getnameinfo (addr : sockaddr_storage) (hostlen servlen flags : Z)
| Socket (family socktype protocol : Z)
| Bind (fd : Z) (addr : sockaddr_storage)
| Connect (fd : Z) (addr : sockaddr_storage)
| Listen (fd backlog : Z)
| Setsockopt (fd level optname value : Z)
| Close (fd : Z)
| Fcntl (fd cmd arg : Z)
| Select (readfds : list Z)
| Accept (fd : Z)
| Fork
| Sigaction (signum : Z)
| SdNotify
| SdListenFds
| SdIsSocket (fd family type listening : Z).

(** An argument of a log format: a string that may be [NULL], an [int],
    or [gai_strerror(err)]. *)
Inductive arg :=
| AStr (s : option (list byte))
| AInt (n : Z)
| AGai (err : Z).

(** What a process has done so far: its calls with the value each one
    returned, and the messages it has handed to the log. *)
Inductive entry :=
| Sys (c : call) (ret : Z)
| Log (level : log_level) (fmt : string) (args : list arg).

(** Everything a call can give back: its return value, [errno] when it
    fails, and what it stores through its pointer arguments. *)
Record reply := mkReply {
  ret_val : Z;
  errno : Z;
  addrs : list addrinfo;
  names : list byte * list byte;
  ready : list Z;
  peer : sockaddr_storage
}.

(** The system answers a call in the light of all that went before. *)
Record host := mkHost {
  os : list entry -> call -> reply;
  history : list entry
}.

Definition M (A : Type) : Type := host -> outcome A * host.

Definition ret {A} (a : A) : M A := fun h => (Ret a, h).

Definition bind {A B} (m : M A) (k : A -> M B) : M B :=
  fun h =>
    match m h with
    | (Ret a, h') => k a h'
    | (Exit s, h') => (Exit s, h')
    | (Diverge, h') => (Diverge, h')
    end.

Declare Scope net_scope.
Delimit Scope net_scope with net.
Notation "x <- m ;; k" := (bind m (fun x => k))
  (at level 61, m at next level, right associativity) : net_scope.
Notation "m ;;; k" := (bind m (fun _ => k))
  (at level 61, right associativity) : net_scope.
Local Open Scope net_scope.

Definition record (e : entry) : M unit :=
  fun h => (Ret tt, mkHost (os h) (history h ++ [e])).

Definition exit {A} (status : Z) : M A := fun h => (Exit status, h).

(** A call whose return value is the system's. *)
Definition syscall (c : call) : M reply :=
  fun h =>
    let r := os h (history h) c in
    (Ret r, mkHost (os h) (history h ++ [Sys c (ret_val r)])).

(** [log_printf] and [log_printf_exit] of [libs/log/log.c], up to the
    filtering and formatting of the message. *)
Definition log_printf (level : log_level) (fmt : string) (args : list arg) : M unit :=
  record (Log level fmt args).

Definition log_printf_exit {A} (status : Z) (level : log_level) (fmt : string)
    (args : list arg) : M A :=
  record (Log level fmt args) ;;; exit status.

(** Modelled from the spec: [err_sys] is a macro of [libs/utils/utils.h],
    which is not among the sources.  Section 7 has a failed call end the
    process with status 1 and the underlying reason. *)
Definition err_sys {A} (fmt : string) (args : list arg) : M A :=
  record (Log log_err fmt args) ;;; exit 1.

(** [getnameinfo(addr, addrlen, host, hostlen, serv, servlen, flags)]: a
    name that does not fit its buffer with its terminator is reported as
    [EAI_OVERFLOW]. *)
Definition sys_getnameinfo (addr : sockaddr_storage) (hostlen servlen flags : Z)
  : M (Z * list byte * list byte) :=
  fun h =>
    let c := Getnameinfo addr hostlen servlen flags in
    let r := os h (history h) c in
    let fits := (Z.of_nat (length (fst (names r))) <? hostlen)
                && (Z.of_nat (length (snd (names r))) <? servlen) in
    let err := if (ret_val r =? 0) && negb fits then EAI_OVERFLOW else ret_val r in
    (Ret (err, fst (names r), snd (names r)),
     mkHost (os h) (history h ++ [Sys c err])).

(** [snprintf(buf, size, ...)] keeps [size - 1] characters. *)
Definition snprintf (size : Z) (s : list byte) : list byte :=
  firstn (Z.to_nat (size - 1)) s.

(** [print_addr_port]; [buf] has 1100 bytes, [address] 1025 and [port]
    32. *)
Definition print_addr_port (addr : sockaddr_storage) : M (list byte) :=
  r <- sys_getnameinfo addr 1025 32 (Z.lor NI_NUMERICHOST NI_NUMERICSERV) ;;
  let '(err, address, port) := r in
  (if err =? EAI_SYSTEM then err_sys "getnameinfo" []
   else if negb (err =? 0) then
     log_printf_exit 1 log_err "getnameinfo: %s" [AGai err]
   else ret tt) ;;;
  if ss_family addr =? AF_INET6 then
    ret (snprintf (1100 - 1) ("["%byte :: address ++ "]"%byte :: ":"%byte :: port))
  else
    ret (snprintf (1100 - 1) (address ++ ":"%byte :: port)).

Definition ai_print_addr_port (ai : addrinfo) : M (list byte) :=
  print_addr_port (ai_addr ai).

(** The call of [getaddrinfo] and the two tests behind it, as they stand
    in each of the four functions below; [hints.ai_family] is
    [AF_UNSPEC]. *)
Definition lookup (address port : option (list byte)) (socktype flags : Z)
  : M (list addrinfo) :=
  r <- syscall (Getaddrinfo address port AF_UNSPEC socktype flags) ;;
  if ret_val r =? EAI_SYSTEM then
    err_sys "getaddrinfo(%s:%s)" [AStr address; AStr port]
  else if negb (ret_val r =? 0) then
    log_printf_exit 1 log_err "Cannot resolve %s:%s: %s"
      [AStr address; AStr port; AGai (ret_val r)]
  else ret (addrs r).

Definition sys_socket (ai : addrinfo) : M Z :=
  r <- syscall (Socket (ai_family ai) (ai_socktype ai) (ai_protocol ai)) ;;
  ret (ret_val r).

Definition sys_int (c : call) : M Z :=
  r <- syscall c ;; ret (ret_val r).

(** The [for] loop of [udp_listener]: the element it stops at and the
    descriptor, or nothing when the list is used up. *)
Fixpoint udp_listener_loop (res : list addrinfo) : M (option (addrinfo * Z)) :=
  match res with
  | [] => ret None
  | ai :: rest =>
      fd <- sys_socket ai ;;
      if fd <? 0 then udp_listener_loop rest
      else
        b <- sys_int (Bind fd (ai_addr ai)) ;;
        if b =? 0 then ret (Some (ai, fd))
        else sys_int (Close fd) ;;; udp_listener_loop rest
  end.

(** [udp_listener]. *)
Definition udp_listener (s : list byte) : M Z :=
  let '(address, port) := parse_address_port s in
  (match port with
   | None => log_printf_exit 2 log_err "Missing port in '%s'!" [AStr (Some s)]
   | Some _ => ret tt
   end) ;;;
  res <- lookup address port SOCK_DGRAM
           (Z.lor (Z.lor AI_ADDRCONFIG AI_PASSIVE) AI_IDN) ;;
  found <- udp_listener_loop res ;;
  match found with
  | None => err_sys "Cannot bind to %s" [AStr (Some s)]
  | Some (ai, fd) =>
      a <- ai_print_addr_port ai ;;
      log_printf log_info "Listening for UDP connections on %s" [AStr (Some a)] ;;;
      ret fd
  end.

(** The array [fd_list]: [None] is the null pointer; a cell that was
    never written is [None] too. *)
Definition int_array := option (list (option Z)).

(** [realloc(p, n * sizeof(int))], taken to succeed. *)
Definition realloc (p : int_array) (n : Z) : int_array :=
  let old := match p with None => [] | Some l => l end in
  Some (firstn (Z.to_nat n) old
        ++ repeat None (Z.to_nat n - length old)).

(** [p[i] = v]; nothing is stored through a null pointer or beyond the
    cells of [p]. *)
Fixpoint update (l : list (option Z)) (i : nat) (v : Z) : list (option Z) :=
  match l, i with
  | [], _ => []
  | _ :: t, O => Some v :: t
  | x :: t, S i' => x :: update t i' v
  end.

Definition store (p : int_array) (i : Z) (v : Z) : int_array :=
  match p with
  | None => None
  | Some l => Some (update l (Z.to_nat i) v)
  end.

(** The [for] loop of [tcp_listener], on [fd_list], [fd_num] and
    [allocated_fds]. *)
Fixpoint tcp_listener_loop (s : list byte) (res : list addrinfo)
    (fd_list : int_array) (fd_num allocated_fds : Z)
  : M (int_array * Z * Z) :=
  match res with
  | [] => ret (fd_list, fd_num, allocated_fds)
  | ai :: rest =>
      fd <- sys_socket ai ;;
      if fd <? 0 then tcp_listener_loop s rest fd_list fd_num allocated_fds
      else
        let opt := 1 in
        (if ai_family ai =? AF_INET6 then
           r <- sys_int (Setsockopt fd IPPROTO_IPV6 IPV6_V6ONLY opt) ;;
           if r <? 0 then err_sys "setsockopt(IPPROTO_IPV6, IPV6_V6ONLY)" []
           else ret tt
         else ret tt) ;;;
        r <- sys_int (Setsockopt fd SOL_SOCKET SO_REUSEADDR opt) ;;
        (if r <? 0 then err_sys "setsockopt(SOL_SOCKET, SO_REUSEADDR)" []
         else ret tt) ;;;
        r <- sys_int (Bind fd (ai_addr ai)) ;;
        (if r <? 0 then err_sys "Cannot bind to %s" [AStr (Some s)]
         else ret tt) ;;;
        r <- sys_int (Listen fd 128) ;;
        (if r <? 0 then err_sys "listen" [] else ret tt) ;;;
        let '(fd_list, allocated_fds) :=
          if allocated_fds <? fd_num + 1 + 1
          then (realloc fd_list (allocated_fds + 8), allocated_fds + 8)
          else (fd_list, allocated_fds) in
        let fd_list := store fd_list fd_num fd in
        let fd_num := fd_num + 1 in
        a <- ai_print_addr_port ai ;;
        log_printf log_info "Listening for TCP connections on %s" [AStr (Some a)] ;;;
        tcp_listener_loop s rest fd_list fd_num allocated_fds
  end.

(** [tcp_listener]. *)
Definition tcp_listener (s : list byte) : M int_array :=
  let '(address, port) := parse_address_port s in
  (match port with
   | None => log_printf_exit 2 log_err "Missing port in '%s'!" [AStr (Some s)]
   | Some _ => ret tt
   end) ;;;
  res <- lookup address port SOCK_STREAM
           (Z.lor (Z.lor AI_ADDRCONFIG AI_PASSIVE) AI_IDN) ;;
  st <- tcp_listener_loop s res None 0 0 ;;
  let '(fd_list, fd_num, allocated_fds) := st in
  let fd_list :=
    if allocated_fds <? fd_num + 1 + 1
    then realloc fd_list (allocated_fds + 1)
    else fd_list in
  let fd_list := store fd_list fd_num (-1) in
  match fd_list with
  | None => err_sys "socket" []
  | Some _ => ret fd_list
  end.

(** The [for] loop of [udp_client]. *)
Fixpoint udp_client_loop (res : list addrinfo) : M (option (addrinfo * Z)) :=
  match res with
  | [] => ret None
  | ai :: rest =>
      fd <- sys_socket ai ;;
      if fd <? 0 then udp_client_loop rest else ret (Some (ai, fd))
  end.

(** [udp_client], called with a [remote_udpaddr] that is not null: the
    descriptor and the address stored there. *)
Definition udp_client (s : list byte) : M (Z * sockaddr_storage) :=
  let '(address, port) := parse_address_port s in
  (match address, port with
   | Some _, Some _ => ret tt
   | _, _ =>
       log_printf_exit 2 log_err "Missing address or port in '%s'!" [AStr (Some s)]
   end) ;;;
  res <- lookup address port SOCK_DGRAM (Z.lor AI_ADDRCONFIG AI_IDN) ;;
  found <- udp_client_loop res ;;
  match found with
  | None => err_sys "socket" []
  | Some (ai, fd) =>
      a <- ai_print_addr_port ai ;;
      log_printf log_debug "The UDP destination is %s" [AStr (Some a)] ;;;
      ret (fd, ai_addr ai)
  end.

(** The [for] loop of [tcp_client]. *)
Fixpoint tcp_client_loop (res : list addrinfo) : M (option (addrinfo * Z)) :=
  match res with
  | [] => ret None
  | ai :: rest =>
      fd <- sys_socket ai ;;
      if fd <? 0 then tcp_client_loop rest
      else
        c <- sys_int (Connect fd (ai_addr ai)) ;;
        if c =? 0 then ret (Some (ai, fd))
        else sys_int (Close fd) ;;; tcp_client_loop rest
  end.

(** [tcp_client]. *)
Definition tcp_client (s : list byte) : M Z :=
  let '(address, port) := parse_address_port s in
  (match address, port with
   | Some _, Some _ => ret tt
   | _, _ =>
       log_printf_exit 2 log_err "Missing address or port in '%s'!" [AStr (Some s)]
   end) ;;;
  res <- lookup address port SOCK_STREAM (Z.lor AI_ADDRCONFIG AI_IDN) ;;
  found <- tcp_client_loop res ;;
  match found with
  | None => err_sys "Cannot connect to %s" [AStr (Some s)]
  | Some (ai, fd) =>
      a <- ai_print_addr_port ai ;;
      log_printf log_info "TCP connection opened to %s" [AStr (Some a)] ;;;
      ret fd
  end.

(** [accept_connections]: [listening_sockets] is the array up to its
    [-1]. *)

(** The first [for] loop: every listening socket is made non-blocking and
    entered in [readfds]. *)
Fixpoint set_nonblocking (socks : list Z) : M unit :=
  match socks with
  | [] => ret tt
  | sock :: rest =>
      flags <- sys_int (Fcntl sock F_GETFL 0) ;;
      (if flags <? 0 then err_sys "fcntl(F_GETFL)" [] else ret tt) ;;;
      r <- sys_int (Fcntl sock F_SETFL (Z.lor flags O_NONBLOCK)) ;;
      (if r <? 0 then err_sys "fcntl(F_SETFL, O_NONBLOCK)" [] else ret tt) ;;;
      set_nonblocking rest
  end.

(** The loop of the child: every listening socket is closed. *)
Fixpoint close_all (socks : list Z) : M unit :=
  match socks with
  | [] => ret tt
  | sock :: rest => sys_int (Close sock) ;;; close_all rest
  end.

(** The second [for] loop, from the socket it has come to; [Some fd] is
    the [return fd] of the child. *)
Fixpoint accept_ready (listening_sockets readfds socks : list Z) : M (option Z) :=
  match socks with
  | [] => ret None
  | listen_sock :: rest =>
      if negb (existsb (Z.eqb listen_sock) readfds)
      then accept_ready listening_sockets readfds rest
      else
        r <- syscall (Accept listen_sock) ;;
        let fd := ret_val r in
        if fd <? 0 then
          if errno r =? EAGAIN
          then accept_ready listening_sockets readfds rest
          else err_sys "accept" []
        else
          a <- print_addr_port (peer r) ;;
          log_printf log_notice "Received a TCP connection from %s"
            [AStr (Some a)] ;;;
          pid <- sys_int Fork ;;
          if pid <? 0 then err_sys "fork" []
          else if pid >? 0 then
            sys_int (Close fd) ;;;
            accept_ready listening_sockets readfds rest
          else
            close_all listening_sockets ;;;
            ret (Some fd)
  end.

(** The [while (1)] loop; [fuel] bounds the number of passes, and the
    loop that is still running when it is used up is reported as
    [Diverge].  The [nfds] argument of [select] comes from the macro
    [SET_MAX] of [libs/utils/utils.h], which is not among the sources,
    and is not recorded. *)
Fixpoint accept_connections (fuel : nat) (listening_sockets : list Z) : M Z :=
  match fuel with
  | O => fun h => (Diverge, h)
  | S fuel' =>
      set_nonblocking listening_sockets ;;;
      r <- syscall (Select listening_sockets) ;;
      if ret_val r <? 0 then
        if (errno r =? EINTR) || (errno r =? EAGAIN)
        then accept_connections fuel' listening_sockets
        else err_sys "select" []
      else
        let readfds :=
          filter (fun sock => existsb (Z.eqb sock) (ready r)) listening_sockets in
        got <- accept_ready listening_sockets readfds listening_sockets ;;
        match got with
        | Some fd => ret fd
        | None => accept_connections fuel' listening_sockets
        end
  end.

(** ** Socket activation, [udptunnel.c] *)

(** Constants of the systemd and signal headers, with their Linux
    values. *)
Definition SD_LISTEN_FDS_START : Z := 3.
Definition SIGCHLD : Z := 17.

(** [malloc(n * sizeof(int))] behind [NOFAIL]: [n] cells, none of them
    written. *)
Definition malloc (n : Z) : int_array := Some (repeat None (Z.to_nat n)).

(** [udp_listener_sa]. *)
Definition udp_listener_sa (num : Z) : M Z :=
  let fd := SD_LISTEN_FDS_START in
  (if negb (num =? 1) then
     log_printf_exit 2 log_err "UDP socket activation supports a single socket." []
   else ret tt) ;;;
  r <- sys_int (SdIsSocket fd AF_UNSPEC SOCK_DGRAM (-1)) ;;
  (if r <=? 0 then
     log_printf_exit 2 log_err "UDP socket activation fd %d is not valid." [AInt fd]
   else ret tt) ;;;
  ret fd.

(** The [for] loop of [tcp_listener_sa], with [count] descriptors still
    to look at. *)
Fixpoint tcp_listener_sa_loop (count : nat) (fd : Z) (fds : int_array) (fd_num : Z)
  : M (int_array * Z) :=
  match count with
  | O => ret (fds, fd_num)
  | S count' =>
      r <- sys_int (SdIsSocket fd AF_UNSPEC SOCK_STREAM 1) ;;
      (if r <=? 0 then
         log_printf_exit 2 log_err "TCP socket activation fd %d is not valid."
           [AInt fd]
       else ret tt) ;;;
      tcp_listener_sa_loop count' (fd + 1) (store fds fd_num fd) (fd_num + 1)
  end.

(** [tcp_listener_sa]; the loop runs from [SD_LISTEN_FDS_START] to
    [SD_LISTEN_FDS_START + num], not at all when [num] is negative. *)
Definition tcp_listener_sa (num : Z) : M int_array :=
  let fds := malloc (num + 1) in
  st <- tcp_listener_sa_loop (Z.to_nat num) SD_LISTEN_FDS_START fds 0 ;;
  let '(fds, fd_num) := st in
  ret (store fds fd_num (-1)).

(** The descriptors of an array, up to its [-1]: what the loops of
    [accept_connections] run over. *)
Fixpoint upto_end (l : list (option Z)) : list Z :=
  match l with
  | Some v :: t => if v =? -1 then [] else v :: upto_end t
  | _ => []
  end.

Definition descriptors (a : int_array) : list Z :=
  match a with
  | None => []
  | Some l => upto_end l
  end.

End Net.

(** ** [main], up to the call of [main_loop] *)

Module Main.

Import Net.
Local Open Scope net_scope.

(** [struct opts] as [parse_args] leaves it; an address that was not
    given is a null pointer. *)
Record opts := mkOpts {
  udpaddr : option (list byte);
  tcpaddr : option (list byte);
  is_server : bool;
  use_inetd : bool;
  handshake : option (list byte);
  timeout : Z
}.

(** A socket factory called on an address of [opts]; the null pointer
    is not followed, and [None] marks the place where the C code would
    follow it. *)
Definition with_address {A} (a : option (list byte)) (f : list byte -> Net.M A)
  : Net.M (option A) :=
  match a with
  | None => Net.ret None
  | Some s => x <- f s ;; Net.ret (Some x)
  end.

(** [main] from its first line to the call of [main_loop]: the relay
    that is handed to [send_handshake] and [main_loop].  [fuel] bounds
    the passes of the accept loop.  The calls of [log_set_options] are
    left out with the filtering of the log. *)
Definition main (fuel : nat) (o : opts) : Net.M (option relay) :=
  let token :=
    match handshake o with
    | Some t => firstn 32 t
    | None => repeat x00 32
    end in
  Net.sys_int Net.SdNotify ;;;
  if is_server o then
    r <- Net.sys_int (Net.Sigaction Net.SIGCHLD) ;;
    (if r =? -1 then Net.err_sys "sigaction" [] else Net.ret tt) ;;;
    let tcp_timeout := if negb (timeout o =? 0) then timeout o else 0 in
    tcp <- (if use_inetd o then Net.ret (Some 0)
            else
              socket_activation_fds <- Net.sys_int Net.SdListenFds ;;
              listening_sockets <-
                (if negb (socket_activation_fds =? 0)
                 then a <- Net.tcp_listener_sa socket_activation_fds ;;
                      Net.ret (Some a)
                 else with_address (tcpaddr o) Net.tcp_listener) ;;
              match listening_sockets with
              | None => Net.ret None
              | Some a =>
                  fd <- Net.accept_connections fuel (Net.descriptors a) ;;
                  Net.ret (Some fd)
              end) ;;
    match tcp with
    | None => Net.ret None
    | Some tcp_sock =>
        u <- with_address (udpaddr o) Net.udp_client ;;
        match u with
        | None => Net.ret None
        | Some (udp_sock, remote_udpaddr) =>
            Net.ret (Some (mkRelay remote_udpaddr udp_sock tcp_sock true token
                             0 tcp_timeout (buf relay_zero) 0 0 0 uninitialized))
        end
    end
  else
    let udp_timeout := if negb (timeout o =? 0) then timeout o else 0 in
    udp <- (if use_inetd o then Net.ret (Some 0)
            else
              socket_activation_fds <- Net.sys_int Net.SdListenFds ;;
              if negb (socket_activation_fds =? 0)
              then fd <- Net.udp_listener_sa socket_activation_fds ;;
                   Net.ret (Some fd)
              else with_address (udpaddr o) Net.udp_listener) ;;
    match udp with
    | None => Net.ret None
    | Some udp_sock =>
        t <- with_address (tcpaddr o) Net.tcp_client ;;
        match t with
        | None => Net.ret None
        | Some tcp_sock =>
            Net.ret (Some (mkRelay (mkAddr 0 []) udp_sock tcp_sock false token
                             udp_timeout 0 (buf relay_zero) 0 0 0 uninitialized))
        end
    end.

End Main.

(** No socket is passed by socket activation. *)
Definition no_activation (h : Net.host) : Prop :=
  forall hist, Net.ret_val (Net.os h hist Net.SdListenFds) = 0.

(** ** Notions for the socket layer *)

(** A computation adds [evs] to the history and leaves the system as it
    was; [P] relates its outcome to what it added. *)
Definition run_of {A} (m : Net.M A) (h : Net.host)
    (P : outcome A -> list Net.entry -> Prop) : Prop :=
  exists evs,
    snd (m h) = Net.mkHost (Net.os h) (Net.history h ++ evs) /\
    P (fst (m h)) evs.

(** The history [evs] later. *)
Definition later (h : Net.host) (evs : list Net.entry) : Net.host :=
  Net.mkHost (Net.os h) (Net.history h ++ evs).

Fixpoint remove_first (fd : Z) (l : list Z) : list Z :=
  match l with
  | [] => []
  | x :: t => if x =? fd then t else x :: remove_first fd t
  end.

(** The descriptors a stretch of history leaves open: those [socket] and
    [accept] have handed out and [close] has not taken back. *)
Definition track (open : list Z) (e : Net.entry) : list Z :=
  match e with
  | Net.Sys (Net.Socket _ _ _) fd => if fd <? 0 then open else open ++ [fd]
  | Net.Sys (Net.Accept _) fd => if fd <? 0 then open else open ++ [fd]
  | Net.Sys (Net.Close fd) _ => remove_first fd open
  | _ => open
  end.

Definition open_fds (open : list Z) (evs : list Net.entry) : list Z :=
  fold_left track evs open.

(** What [print_addr_port] is meant to produce from the two strings of
    [getnameinfo]. *)
Definition addr_port (family : Z) (address port : list byte) : list byte :=
  if family =? Net.AF_INET6
  then "["%byte :: address ++ "]"%byte :: ":"%byte :: port
  else address ++ ":"%byte :: port.

(** The answer of the system to the [getnameinfo] of [print_addr_port]. *)
Definition name_reply (h : Net.host) (addr : sockaddr_storage) : Net.reply :=
  Net.os h (Net.history h)
    (Net.Getnameinfo addr 1025 32 (Z.lor Net.NI_NUMERICHOST Net.NI_NUMERICSERV)).

(** No [connect] of a stretch of history succeeded, and no [bind]. *)
Definition none_connected (evs : list Net.entry) : Prop :=
  forall fd a v, In (Net.Sys (Net.Connect fd a) v) evs -> v <> 0.

Definition none_bound (evs : list Net.entry) : Prop :=
  forall fd a v, In (Net.Sys (Net.Bind fd a) v) evs -> v <> 0.

(** The [socket] call made for an element of the address list. *)
Definition socket_of (ai : Net.addrinfo) : Net.call :=
  Net.Socket (Net.ai_family ai) (Net.ai_socktype ai) (Net.ai_protocol ai).

Definition name_of (a : sockaddr_storage) : Net.call :=
  Net.Getnameinfo a 1025 32 (Z.lor Net.NI_NUMERICHOST Net.NI_NUMERICSERV).

(** A [socket] call that failed. *)
Definition socket_failed (e : Net.entry) : Prop :=
  exists ai v, e = Net.Sys (socket_of ai) v /\ v < 0.

(** [fd_list], [fd_num] and [allocated_fds] hold the descriptors [fds]:
    they fill the first cells, and one more cell is there. *)
Definition array_holds (fd_list : Net.int_array) (fd_num allocated_fds : Z)
    (fds : list Z) : Prop :=
  fd_num = Z.of_nat (length fds) /\
  match fd_list with
  | None => allocated_fds = 0 /\ fds = []
  | Some l =>
      Z.of_nat (length l) = allocated_fds /\
      firstn (length fds) l = map Some fds /\
      fd_num + 1 <= allocated_fds
  end.

(** Descriptor [fd] was made for an element of [res] and taken through
    the set-up of a listening socket, every call succeeding. *)
Definition listening (res : list Net.addrinfo) (evs : list Net.entry) (fd : Z)
  : Prop :=
  exists ai,
    In ai res /\ In (Net.Sys (socket_of ai) fd) evs /\
    (Net.ai_family ai = Net.AF_INET6 ->
     exists v, In (Net.Sys (Net.Setsockopt fd Net.IPPROTO_IPV6 Net.IPV6_V6ONLY 1) v) evs
               /\ 0 <= v) /\
    (exists v, In (Net.Sys (Net.Setsockopt fd Net.SOL_SOCKET Net.SO_REUSEADDR 1) v) evs
               /\ 0 <= v) /\
    (exists v, In (Net.Sys (Net.Bind fd (Net.ai_addr ai)) v) evs /\ 0 <= v) /\
    (exists v, In (Net.Sys (Net.Listen fd 128) v) evs /\ 0 <= v).

(** The system refuses every [socket]. *)
Definition no_sockets (h : Net.host) : Prop :=
  forall hist f t p, Net.ret_val (Net.os h hist (Net.Socket f t p)) < 0.

(** A stretch of history that ends on the report of a failed call, other
    than the report ["socket"]. *)
Definition ends_with_err (evs : list Net.entry) : Prop :=
  exists pre f a, evs = pre ++ [Net.Log log_err f a] /\ f <> "socket".

(** Every [getaddrinfo] succeeds. *)
Definition resolves (h : Net.host) : Prop :=
  forall hist n sv f t fl,
    Net.ret_val (Net.os h hist (Net.Getaddrinfo n sv f t fl)) = 0.

(** What the accept loop does as the parent: every [fork] returns a
    child's pid, every connection that [accept] hands out is closed
    before anything else is accepted, and nothing else is closed.
    [pending] is the accepted connection that is still open. *)
Fixpoint conns_closed (pending : option Z) (evs : list Net.entry) : bool :=
  match evs with
  | [] => match pending with None => true | Some _ => false end
  | Net.Sys (Net.Accept _) fd :: t =>
      if fd <? 0 then conns_closed pending t
      else match pending with
           | None => conns_closed (Some fd) t
           | Some _ => false
           end
  | Net.Sys (Net.Close fd') _ :: t =>
      match pending with
      | Some fd => (fd =? fd') && conns_closed None t
      | None => false
      end
  | Net.Sys Net.Fork pid :: t => (0 <? pid) && conns_closed pending t
  | _ :: t => conns_closed pending t
  end.

(** [evs] closes each of [socks] in turn, and does nothing else. *)
Definition closes (socks : list Z) (evs : list Net.entry) : Prop :=
  Forall2 (fun sock e => exists v, e = Net.Sys (Net.Close sock) v) socks evs.

(** A system to run examples on: [socket] hands out descriptor 5 and
    [accept] descriptor 7, [select] reports descriptor 5, [sd_is_socket]
    answers 1, [getaddrinfo] resolves to one address, [getnameinfo]
    answers [192.0.2.1] and [8080], and every other call returns 0, so
    that [fork] returns in the child. *)
Definition numeric_host : Net.host :=
  Net.mkHost
    (fun _ c =>
       Net.mkReply
         match c with
         | Net.Socket _ _ _ => 5
         | Net.Accept _ => 7
         | Net.SdIsSocket _ _ _ _ => 1
         | _ => 0
         end
         0 [Net.mkAddrinfo 2 1 6 (mkAddr 2 [x7f])]
         (String.list_byte_of_string "192.0.2.1", String.list_byte_of_string "8080")
         [5] (mkAddr 2 [x7f]))
    [].

(** ** The time stamp of [libs/log/log.c] *)

(** [strlen]: the bytes in front of the first NUL. *)
Fixpoint strlen (b : list byte) : nat :=
  match b with
  | [] => O
  | x :: t => if Byte.eqb x x00 then O else S (strlen t)
  end.

(** The C string a buffer holds. *)
Definition cstring (b : list byte) : list byte := firstn (strlen b) b.

(** The bytes [s] stored at offset [off] of buffer [b]; nothing is stored
    when they would not all fall inside it. *)
Definition put (b : list byte) (off : nat) (s : list byte) : list byte :=
  if (off + length s <=? length b)%nat
  then firstn off b ++ s ++ skipn (off + length s) b
  else b.

(** [b[i]]. *)
Definition peek (b : list byte) (i : nat) : byte := nth i b x00.

(** [snprintf(b + off, size, ...)] for the text [s]: [size - 1]
    characters at most, and the terminator. *)
Definition snprintf_at (b : list byte) (off size : nat) (s : list byte)
  : list byte :=
  match size with
  | O => b
  | S k => put b off (firstn k s ++ [x00])
  end.

(** [strftime(b + off, max, ...)] for the rendering [s]: stored with its
    terminator when both fit in [max] bytes.  When they do not, C leaves
    the contents of the buffer undefined; here it is left as it was. *)
Definition strftime_at (b : list byte) (off max : nat) (s : list byte)
  : list byte :=
  if (length s + 1 <=? max)%nat then put b off (s ++ [x00]) else b.

(** ["%03d"] for a value between 0 and 999. *)
Definition dec3 (n : Z) : list byte :=
  [byte_of_Z (48 + n / 100 mod 10); byte_of_Z (48 + n / 10 mod 10);
   byte_of_Z (48 + n mod 10)].

(** What the clock and the C library give [format_rfc3339_timestamp]:
    [tv_sec] and [tv_nsec] from [clock_gettime], when it succeeds, and
    for the [tm_info] that [localtime] makes of [tv_sec], when it is not
    null, what [strftime] renders for ["%Y-%m-%dT%H:%M:%S"] and for
    ["%z"]. *)
Record clock := mkClock {
  clock_gettime : option (Z * Z);
  localtime : Z -> option (list byte * list byte)
}.

Definition epoch_stamp : list byte :=
  String.list_byte_of_string "1970-01-01T00:00:00.000+00:00".

(** [format_rfc3339_timestamp(buffer, buffer_size)]: the buffer
    afterwards.  [tv_nsec] is below [10^9], so that [milliseconds] has
    three digits. *)
Definition format_rfc3339_timestamp (buffer : list byte) (buffer_size : nat)
    (c : clock) : list byte :=
  match clock_gettime c with
  | None => snprintf_at buffer 0 buffer_size epoch_stamp
  | Some (tv_sec, tv_nsec) =>
      match localtime c tv_sec with
      | None => snprintf_at buffer 0 buffer_size epoch_stamp
      | Some (date, zone) =>
          let milliseconds := Z.quot tv_nsec 1000000 in
          let buffer := strftime_at buffer 0 buffer_size date in
          let len := strlen buffer in
          let buffer :=
            snprintf_at buffer len (buffer_size - len)
              ("."%byte :: dec3 milliseconds) in
          let len := strlen buffer in
          let buffer := strftime_at buffer len (buffer_size - len) zone in
          let len := strlen buffer in
          if (5 <=? len)%nat && negb (Byte.eqb (peek buffer (len - 2)) ":"%byte)
          then
            let tz_hour := peek buffer (len - 4) in
            let tz_min1 := peek buffer (len - 3) in
            let tz_min2 := peek buffer (len - 2) in
            let tz_last := peek buffer (len - 1) in
            let buffer := put buffer (len - 2) [":"%byte] in
            let buffer := put buffer (len - 1) [tz_min1] in
            let buffer := put buffer len [tz_min2] in
            let buffer := put buffer (len + 1) [tz_last] in
            let buffer := put buffer (len + 2) [x00] in
            buffer
          else buffer
      end
  end.

(** A string without NUL. *)
Definition text (s : list byte) : Prop := Forall (fun x => x <> x00) s.
(** ** [main_loop] with its clock *)

Module Timed.

(** What [select] reports on return: an error with its [errno], or the
    sockets it leaves in [readfds] (none of them after the ten seconds
    have passed idle). *)
Inductive select_result :=
| SelErr (errno : Z)
| SelOk (tcp_ready udp_ready : bool).

(** A session: the sockets of the relay, the successive returns of
    [select], and the clock as the successive values of [time(NULL)]. *)
Record session := mkSession {
  sockets : world;
  selects : list select_result;
  clock : nat -> Z;
  ticks : nat
}.

Definition T (A : Type) : Type := session -> outcome A * session.

Definition ret {A} (a : A) : T A := fun s => (Ret a, s).

Definition bind {A B} (m : T A) (k : A -> T B) : T B :=
  fun s =>
    match m s with
    | (Ret a, s') => k a s'
    | (Exit st, s') => (Exit st, s')
    | (Diverge, s') => (Diverge, s')
    end.

Declare Scope timed_scope.
Delimit Scope timed_scope with timed.
Notation "x <- m ;; k" := (bind m (fun x => k))
  (at level 61, m at next level, right associativity) : timed_scope.
Notation "m ;;; k" := (bind m (fun _ => k))
  (at level 61, right associativity) : timed_scope.
Local Open Scope timed_scope.

(** A handler of the relay, run on the sockets of the session. *)
Definition lift {A} (m : M A) : T A :=
  fun s =>
    let '(o, w) := m (sockets s) in
    (o, mkSession w (selects s) (clock s) (ticks s)).

(** [time(NULL)]. *)
Definition time : T Z :=
  fun s => (Ret (clock s (ticks s)),
            mkSession (sockets s) (selects s) (clock s) (S (ticks s))).

(** [select(max, &readfds, NULL, NULL, ptv)]: [None] when the session has
    nothing more to report. *)
Definition sys_select : T (option select_result) :=
  fun s =>
    match selects s with
    | [] => (Ret None, s)
    | x :: rest =>
        (Ret (Some x), mkSession (sockets s) rest (clock s) (ticks s))
    end.

Definition EINTR : Z := 4.
Definition EAGAIN : Z := 11.

(** The body of the [while (1)] of [main_loop] behind a [select] that has
    returned [ready_fds >= 0]: the two tests of the deadlines, then the
    two handlers.  The relay and the two time stamps come back. *)
Definition pass (r : relay) (last_udp_input last_tcp_input : Z)
    (tcp_ready udp_ready : bool) : T (relay * Z * Z) :=
  let ready_fds := (if tcp_ready then 1 else 0) + (if udp_ready then 1 else 0) in
  (if negb (last_udp_input =? 0) && (ready_fds =? 0) then
     now <- time ;;
     if now - last_udp_input >? udp_timeout r then
       lift (log_printf_exit 0 log_notice
               "Exiting after a %ds timeout for UDP input")
     else ret tt
   else ret tt) ;;;
  (if negb (last_tcp_input =? 0) && (ready_fds =? 0) then
     now <- time ;;
     if now - last_tcp_input >? tcp_timeout r then
       lift (log_printf_exit 0 log_notice
               "Exiting after a %ds timeout for TCP input")
     else ret tt
   else ret tt) ;;;
  x <- (if tcp_ready then
          r' <- lift (tcp_to_udp r) ;;
          if negb (last_tcp_input =? 0) then
            now <- time ;; ret (r', now)
          else ret (r', last_tcp_input)
        else ret (r, last_tcp_input)) ;;
  let '(r1, last_tcp_input) := x in
  y <- (if udp_ready then
          r' <- lift (udp_to_tcp r1) ;;
          if negb (last_udp_input =? 0) then
            now <- time ;; ret (r', now)
          else ret (r', last_udp_input)
        else ret (r1, last_udp_input)) ;;
  let '(r2, last_udp_input) := y in
  ret (r2, last_udp_input, last_tcp_input).

(** The [while (1)] of [main_loop]; it is left with the relay when the
    session has no further [select] to report. *)
Fixpoint loop (fuel : nat) (r : relay) (last_udp_input last_tcp_input : Z)
  : T relay :=
  match fuel with
  | O => fun s => (Diverge, s)
  | S fuel' =>
      sel <- sys_select ;;
      match sel with
      | None => ret r
      | Some (SelErr errno) =>
          if (errno =? EINTR) || (errno =? EAGAIN)
          then loop fuel' r last_udp_input last_tcp_input
          else lift (err_sys "select")
      | Some (SelOk tcp_ready udp_ready) =>
          x <- pass r last_udp_input last_tcp_input tcp_ready udp_ready ;;
          let '(r', last_udp_input, last_tcp_input) := x in
          loop fuel' r' last_udp_input last_tcp_input
      end
  end.

(** [main_loop]. *)
Definition main_loop (fuel : nat) (r : relay) : T relay :=
  last_udp_input <- (if negb (udp_timeout r =? 0) then time else ret 0) ;;
  last_tcp_input <- (if negb (tcp_timeout r =? 0) then time else ret 0) ;;
  loop fuel r last_udp_input last_tcp_input.

End Timed.

(** The two messages of an idle time-out. *)
Definition timeout_log (e : event) : Prop :=
  e = EvLog log_notice "Exiting after a %ds timeout for UDP input" \/
  e = EvLog log_notice "Exiting after a %ds timeout for TCP input".

(** [select] came back with a socket to read. *)
Definition busy (x : Timed.select_result) : Prop :=
  match x with
  | Timed.SelOk false false => False
  | _ => True
  end.

(** Nothing in [evs] is the message of a time-out. *)
Definition no_timeout (evs : list event) : Prop :=
  Forall (fun e => ~ timeout_log e) evs.

(** A computation of the session that logs no time-out and leaves the
    list of [select] results alone. *)
Definition calm {A} (m : Timed.T A) (s : Timed.session)
    (P : outcome A -> Prop) : Prop :=
  exists evs,
    trace (Timed.sockets (snd (m s))) = trace (Timed.sockets s) ++ evs /\
    no_timeout evs /\
    Timed.selects (snd (m s)) = Timed.selects s /\
    P (fst (m s)).

(** The descriptors socket activation passes: [num] of them, from
    [SD_LISTEN_FDS_START] on. *)
Definition passed_fds (first : Z) (num : nat) : list Z :=
  map (fun i => first + Z.of_nat i) (seq 0 num).

(** A factory ends the process with status 1 or 2, or returns what
    satisfies [P]. *)
Definition factory {A} (P : A -> Prop) (o : outcome A) (evs : list Net.entry)
  : Prop :=
  match o with
  | Ret x => P x
  | Exit st => st = 1 \/ st = 2
  | Diverge => False
  end.

(** ** Notions for socket activation and for a given system *)

(** The question [tcp_listener_sa] asks about a descriptor. *)
Definition sa_check (fd : Z) : Net.call :=
  Net.SdIsSocket fd Net.AF_UNSPEC Net.SOCK_STREAM 1.

(** [evs] asks about each of [fds] in turn and nothing else, and every
    answer is positive. *)
Definition sa_checked (fds : list Z) (evs : list Net.entry) : Prop :=
  Forall2 (fun fd e => exists v, e = Net.Sys (sa_check fd) v /\ 0 < v) fds evs.

(** Every descriptor the system is asked about is a listening stream
    socket. *)
Definition all_listening (h : Net.host) : Prop :=
  forall hist fd, 0 < Net.ret_val (Net.os h hist (sa_check fd)).

(** What the system does with an address, at any time: every [connect]
    to it succeeds, or every one fails; the same for [bind]. *)
Definition accepts (h : Net.host) (a : sockaddr_storage) : Prop :=
  forall hist fd, Net.ret_val (Net.os h hist (Net.Connect fd a)) = 0.

Definition refuses (h : Net.host) (a : sockaddr_storage) : Prop :=
  forall hist fd, Net.ret_val (Net.os h hist (Net.Connect fd a)) <> 0.

Definition binds (h : Net.host) (a : sockaddr_storage) : Prop :=
  forall hist fd, Net.ret_val (Net.os h hist (Net.Bind fd a)) = 0.

Definition bind_fails (h : Net.host) (a : sockaddr_storage) : Prop :=
  forall hist fd, Net.ret_val (Net.os h hist (Net.Bind fd a)) <> 0.

(** The system has a socket for an element of the address list, at any
    time, or has none. *)
Definition socket_given (h : Net.host) (ai : Net.addrinfo) : Prop :=
  forall hist, 0 <= Net.ret_val (Net.os h hist (socket_of ai)).

Definition socket_refused (h : Net.host) (ai : Net.addrinfo) : Prop :=
  forall hist, Net.ret_val (Net.os h hist (socket_of ai)) < 0.

(** [getnameinfo] succeeds on an address, at any time, with names that
    fit the buffers of [print_addr_port]. *)
Definition named (h : Net.host) (a : sockaddr_storage) : Prop :=
  forall hist,
    let r := Net.os h hist (name_of a) in
    Net.ret_val r = 0 /\
    Z.of_nat (length (fst (Net.names r))) < 1025 /\
    Z.of_nat (length (snd (Net.names r))) < 32.

(** The [getaddrinfo] a factory makes first, and its answer. *)
Definition resolve (address port : option (list byte)) (socktype flags : Z)
  : Net.call :=
  Net.Getaddrinfo address port Net.AF_UNSPEC socktype flags.

Definition answer (h : Net.host) (c : Net.call) : Net.reply :=
  Net.os h (Net.history h) c.

(** Setting an option, binding and listening succeed on any socket, at
    any time. *)
Definition listens (h : Net.host) : Prop :=
  forall hist,
    (forall fd level optname value,
       0 <= Net.ret_val (Net.os h hist (Net.Setsockopt fd level optname value))) /\
    (forall fd a, 0 <= Net.ret_val (Net.os h hist (Net.Bind fd a))) /\
    (forall fd backlog, 0 <= Net.ret_val (Net.os h hist (Net.Listen fd backlog))).

(** A computation returns, with a value that satisfies [P], and leaves
    the system as it was. *)
Definition returns {A} (m : Net.M A) (h : Net.host) (P : A -> Prop) : Prop :=
  exists a evs, m h = (Ret a, later h evs) /\ P a.

(** ** Notions for the end of [main_loop] *)

(** The message that goes with an exit of [main_loop]: those of
    [exit_reason], and with status 0 the two of an idle time-out. *)
Definition end_reason (status : Z) (e : event) : Prop :=
  exit_reason status e \/ (status = 0 /\ timeout_log e).

(** The process sits in a [read] or a [recvfrom] on a socket that has
    nothing queued. *)
Definition blocked (w : world) : Prop :=
  exists t e,
    trace w = t ++ [e] /\
    (((exists fd count, e = EvRead fd count) /\ tcp_rx w = []) \/
     ((exists fd size, e = EvRecvfrom fd size) /\ udp_rx w = [])).

(** How a step of the session has ended: it has returned what
    satisfies [P], or the process has exited right behind the message
    that says why, or it is blocked. *)
Definition settles {A} (o : outcome A) (w : world) (P : A -> Prop) : Prop :=
  match o with
  | Ret a => P a
  | Exit st => exists t e, trace w = t ++ [e] /\ end_reason st e
  | Diverge => blocked w
  end.

(** A computation of the session that settles and leaves the list of
    [select] results alone. *)
Definition ends {A} (m : Timed.T A) (s : Timed.session) (P : A -> Prop) : Prop :=
  Timed.selects (snd (m s)) = Timed.selects s /\
  settles (fst (m s)) (Timed.sockets (snd (m s))) P.

(** What the handlers keep of a relay between two calls. *)
Definition relay_ok (r : relay) : Prop :=
  length (buf r) = Z.to_nat TCPBUFFERSIZE /\
  (state r = uninitialized \/ parser_ok r).

(** * Properties *)

(** ** Bytes and the length prefix *)

Lemma Z_of_byte_range (b : byte) : 0 <= Z_of_byte b < 256.
Proof.
  unfold Z_of_byte. pose proof (Byte.to_N_bounded b). lia.
Qed.

Lemma Z_of_byte_of_Z (z : Z) : Z_of_byte (byte_of_Z z) = z mod 256.
Proof.
  unfold Z_of_byte, byte_of_Z.
  assert (Hr : 0 <= z mod 256 < 256) by (apply Z.mod_pos_bound; lia).
  destruct (Byte.of_N (Z.to_N (z mod 256))) as [b|] eqn:E.
  - apply Byte.to_of_N in E. rewrite E. lia.
  - apply Byte.of_N_None_iff in E. lia.
Qed.

Lemma lor_shiftl_8 (hi lo : Z) :
  0 <= hi -> 0 <= lo < 256 -> Z.lor (Z.shiftl hi 8) lo = hi * 256 + lo.
Proof.
  intros Hhi Hlo.
  pose proof (Z.add_lor_land (Z.shiftl hi 8) lo) as Hadd.
  assert (Hz : Z.land (Z.shiftl hi 8) lo = 0).
  { apply Z.bits_inj'. intros n Hn.
    rewrite Z.land_spec, Z.bits_0.
    destruct (Z_lt_le_dec n 8) as [Hlt|Hge].
    - rewrite Z.shiftl_spec_low by lia. reflexivity.
    - assert (Hb : Z.testbit lo n = false).
      { destruct (Z.eq_dec lo 0) as [->|Hne]; [apply Z.bits_0|].
        apply Z.bits_above_log2; [lia|].
        assert (Z.log2 lo < 8) by (apply Z.log2_lt_pow2; lia). lia. }
      rewrite Hb. apply andb_false_r. }
  rewrite Hz in Hadd. rewrite Z.shiftl_mul_pow2 in Hadd |- * by lia.
  change (2 ^ 8) with 256 in Hadd |- *. lia.
Qed.

Lemma ntohs_htons (n : Z) (t : list byte) :
  0 <= n < 65536 -> ntohs (htons n ++ t) = n.
Proof.
  intros Hn. unfold htons, ntohs. cbn [app].
  rewrite !Z_of_byte_of_Z.
  rewrite (Z.mod_small n 65536) by lia.
  rewrite Z.shiftr_div_pow2 by lia. change (2 ^ 8) with 256.
  change 255 with (Z.ones 8). rewrite Z.land_ones by lia.
  change (2 ^ 8) with 256.
  assert (0 <= n / 256 < 256).
  { split; [apply Z.div_pos; lia | apply Z.div_lt_upper_bound; lia]. }
  rewrite (Z.mod_small (n / 256)) by lia.
  rewrite Z.mod_mod by lia.
  rewrite lor_shiftl_8.
  - pose proof (Z.div_mod n 256). lia.
  - lia.
  - apply Z.mod_pos_bound. lia.
Qed.

Lemma ntohs_range (p : list byte) : 0 <= ntohs p < 65536.
Proof.
  destruct p as [|hi [|lo t]]; cbn [ntohs]; try lia.
  pose proof (Z_of_byte_range hi). pose proof (Z_of_byte_range lo).
  rewrite lor_shiftl_8 by lia. lia.
Qed.

Lemma htons_length (n : Z) : length (htons n) = 2%nat.
Proof. reflexivity. Qed.

Lemma bytes_eqb_eq (a b : list byte) : bytes_eqb a b = true <-> a = b.
Proof.
  revert b. induction a as [|x a IH]; intros [|y b]; cbn [bytes_eqb];
    try (split; [discriminate | discriminate]); try tauto.
  rewrite andb_true_iff, IH. split.
  - intros [Hx ->]. apply Byte.byte_dec_bl in Hx. now subst.
  - intros H. injection H as -> ->. split; [apply Byte.byte_dec_lb|]; reflexivity.
Qed.

(** ** Memory blocks *)

Lemma mem_read_length (m : list byte) (off n : Z) :
  0 <= off -> 0 <= n -> off + n <= Z.of_nat (length m) ->
  length (mem_read m off n) = Z.to_nat n.
Proof.
  intros. unfold mem_read. rewrite length_firstn, length_skipn. lia.
Qed.

Lemma mem_write_length (m : list byte) (off : Z) (data : list byte) :
  0 <= off -> off + Z.of_nat (length data) <= Z.of_nat (length m) ->
  length (mem_write m off data) = length m.
Proof.
  intros. unfold mem_write.
  rewrite !length_app, length_firstn, length_skipn. lia.
Qed.

(** Bytes appended at the write offset extend every window that ends
    there. *)
Lemma mem_read_write_append (m : list byte) (ps bp : Z) (data : list byte) :
  0 <= ps <= bp -> bp + Z.of_nat (length data) <= Z.of_nat (length m) ->
  mem_read (mem_write m bp data) ps (bp + Z.of_nat (length data) - ps)
  = mem_read m ps (bp - ps) ++ data.
Proof.
  intros Hps Hlen. unfold mem_read, mem_write.
  rewrite skipn_app, length_firstn.
  replace (Z.to_nat ps - Nat.min (Z.to_nat bp) (length m))%nat with 0%nat by lia.
  cbn [skipn]. rewrite firstn_app, length_skipn, length_firstn.
  replace (Z.to_nat (bp + Z.of_nat (length data) - ps)
           - (Nat.min (Z.to_nat bp) (length m) - Z.to_nat ps))%nat
    with (length data) by lia.
  rewrite firstn_app, Nat.sub_diag. cbn [firstn].
  rewrite firstn_all, app_nil_r.
  rewrite firstn_all2 by (rewrite length_skipn, length_firstn; lia).
  f_equal. rewrite firstn_skipn_comm. do 2 f_equal. lia.
Qed.

Lemma mem_read_memmove (m : list byte) (src n : Z) :
  0 <= src -> 0 <= n -> src + n <= Z.of_nat (length m) ->
  mem_read (memmove m 0 src n) 0 n = mem_read m src n.
Proof.
  intros. unfold memmove.
  pose proof (mem_read_length m src n) as Hl.
  unfold mem_read at 1. unfold mem_write. cbn [Z.to_nat firstn skipn app].
  rewrite firstn_app, Hl by lia. rewrite Nat.sub_diag. cbn [firstn].
  rewrite app_nil_r. apply firstn_all2. lia.
Qed.

Lemma memmove_length (m : list byte) (src n : Z) :
  0 <= src -> 0 <= n -> src + n <= Z.of_nat (length m) ->
  length (memmove m 0 src n) = length m.
Proof.
  intros. unfold memmove. apply mem_write_length; [lia|].
  rewrite mem_read_length; lia.
Qed.

Lemma mem_read_prefix (m : list byte) (off n k : Z) :
  0 <= n <= k -> mem_read m off n = firstn (Z.to_nat n) (mem_read m off k).
Proof.
  intros. unfold mem_read. rewrite firstn_firstn. f_equal. lia.
Qed.

Lemma mem_read_suffix (m : list byte) (off j k : Z) :
  0 <= off -> 0 <= j <= k ->
  mem_read m (off + j) (k - j) = skipn (Z.to_nat j) (mem_read m off k).
Proof.
  intros. unfold mem_read. rewrite skipn_firstn_comm, skipn_skipn.
  f_equal; [lia | f_equal; lia].
Qed.

(** What [ntohs] and [memcmp] see at [m + off] is the start of any window
    read there. *)
Lemma firstn_skipn_window (m : list byte) (off n k : Z) :
  0 <= n <= k ->
  firstn (Z.to_nat n) (skipn (Z.to_nat off) m)
  = firstn (Z.to_nat n) (mem_read m off k).
Proof. intros. symmetry. rewrite <- mem_read_prefix by lia. reflexivity. Qed.

Lemma ntohs_firstn (p : list byte) : ntohs p = ntohs (firstn 2 p).
Proof. destruct p as [|a [|b t]]; reflexivity. Qed.

Lemma ntohs_window (m : list byte) (off k : Z) :
  2 <= k -> ntohs (skipn (Z.to_nat off) m) = ntohs (mem_read m off k).
Proof.
  intros. rewrite ntohs_firstn, (ntohs_firstn (mem_read m off k)).
  change 2%nat with (Z.to_nat 2). now rewrite (firstn_skipn_window m off 2 k) by lia.
Qed.

(** ** The handlers, step by step *)

Lemma add_trace_nil (w : world) : add_trace w [] = w.
Proof. destruct w. unfold add_trace. cbn. now rewrite app_nil_r. Qed.

Lemma add_trace_app (w : world) (a b : list event) :
  add_trace (add_trace w a) b = add_trace w (a ++ b).
Proof. unfold add_trace. cbn. now rewrite app_assoc. Qed.

Lemma same_config_refl (r : relay) : same_config r r.
Proof. repeat split. Qed.

Lemma same_config_trans (a b c : relay) :
  same_config a b -> same_config b c -> same_config a c.
Proof.
  unfold same_config. intros (?&?&?&?&?) (?&?&?&?&?).
  repeat split; congruence.
Qed.

(** A datagram goes out when the peer is known and [sendto] succeeds. *)
Lemma send_udp_packet_ok (r : relay) (w : world) :
  ss_family (remote_udpaddr r) <> 0 -> out_res w = [] ->
  send_udp_packet r w
  = (Ret tt, add_trace w [sent r (mem_read (buf r) (packet_start r) (packet_length r))]).
Proof.
  intros Hfam Hout. unfold send_udp_packet.
  apply Z.eqb_neq in Hfam. rewrite Hfam.
  unfold sys_sendto, bind, next_out, emit, ret, add_trace, sent.
  destruct w as [rx dg out tr]. cbn in *. subst out. reflexivity.
Qed.

Lemma pending_length (r : relay) :
  buf_ok r -> Z.of_nat (length (pending r)) = buf_ptr r - packet_start r.
Proof.
  intros (Hl & Hp & Hb). unfold pending.
  rewrite mem_read_length; unfold TCPBUFFERSIZE in *; lia.
Qed.

Lemma out_packet_length (d : list byte) :
  length (out_packet d) = (2 + length d)%nat.
Proof. unfold out_packet. now rewrite length_app, htons_length. Qed.

(** Two or more unparsed bytes at a frame boundary start a frame. *)
Lemma frames_nonempty (p fut : list byte) (ds : list (list byte)) :
  p ++ fut = concat (map out_packet ds) -> (2 <= length p)%nat ->
  exists d ds', ds = d :: ds'.
Proof.
  intros H Hp. destruct ds as [|d ds']; [|eauto].
  cbn in H. apply app_eq_nil in H as [-> _]. cbn in Hp. lia.
Qed.

Lemma split_header (p fut d rest : list byte) :
  p ++ fut = out_packet d ++ rest -> (2 <= length p)%nat ->
  Z.of_nat (length d) < 65536 ->
  ntohs p = Z.of_nat (length d) /\ skipn 2 p ++ fut = d ++ rest.
Proof.
  intros H Hp Hd. destruct p as [|a [|b p']]; cbn in Hp; try lia.
  unfold out_packet in H.
  pose proof (ntohs_htons (Z.of_nat (length d)) p') as Hn.
  unfold htons in H, Hn. cbn [app] in H, Hn.
  injection H as Ha Hb Hrest. subst a b. split.
  - apply Hn. lia.
  - exact Hrest.
Qed.

Lemma split_payload (p fut d rest : list byte) :
  p ++ fut = d ++ rest -> (length d <= length p)%nat ->
  firstn (length d) p = d /\ skipn (length d) p ++ fut = rest.
Proof.
  intros H Hd. split.
  - apply (f_equal (firstn (length d))) in H.
    rewrite !firstn_app, Nat.sub_diag, firstn_all in H.
    replace (length d - length p)%nat with 0%nat in H by lia.
    cbn [firstn] in H. now rewrite !app_nil_r in H.
  - apply (f_equal (skipn (length d))) in H.
    rewrite !skipn_app, Nat.sub_diag, skipn_all in H.
    replace (length d - length p)%nat with 0%nat in H by lia.
    exact H.
Qed.

(** The relay after the branches of the loop body. *)
Lemma parse_step_length (r : relay) (w : world) :
  state r = reading_length ->
  parse_step r w
  = (Ret (set_parser
            (set_buffer r (buf r) (buf_ptr r) (packet_start r + LENGTH_SIZE))
            reading_packet (ntohs (skipn (Z.to_nat (packet_start r)) (buf r)))),
     w).
Proof. intros H. unfold parse_step. now rewrite H. Qed.

Lemma parse_step_packet (r : relay) (w : world) :
  state r = reading_packet ->
  ss_family (remote_udpaddr r) <> 0 -> out_res w = [] ->
  parse_step r w
  = (Ret (set_parser
            (set_buffer r
               (memmove (buf r) 0 (packet_start r + packet_length r)
                  (buf_ptr r - (packet_start r + packet_length r)))
               (buf_ptr r - (packet_length r + (packet_start r - 0))) 0)
            reading_length LENGTH_SIZE),
     add_trace w [sent r (mem_read (buf r) (packet_start r) (packet_length r))]).
Proof.
  intros H Hfam Hout. unfold parse_step. rewrite H.
  unfold bind at 1. now rewrite send_udp_packet_ok.
Qed.

(** From any state in step with the stream the loop delivers the frames
    that are complete, in order, and stops in step with the rest. *)
Lemma parse_loop_synced (fuel : nat) :
  forall (r : relay) (fut : list byte) (ds : list (list byte)) (w : world),
    buf_ok r -> synced r fut ds ->
    Forall (fun d => Z.of_nat (length d) <= UDPBUFFERSIZE) ds ->
    ss_family (remote_udpaddr r) <> 0 -> out_res w = [] ->
    loop_need r <= Z.of_nat fuel ->
    exists r' done ds',
      parse_loop fuel r w = (Ret r', add_trace w (map (sent r) done)) /\
      ds = done ++ ds' /\ buf_ok r' /\ synced r' fut ds' /\ at_rest r' /\
      same_config r r'.
Proof.
  induction fuel as [|fuel IH]; intros r fut ds w Hok Hs Hds Hfam Hout Hfuel.
  { destruct Hok as (_ & ? & _). unfold loop_need in Hfuel.
    destruct (state r); lia. }
  cbn [parse_loop].
  destruct (buf_ptr r - packet_start r >=? packet_length r) eqn:Hge.
  2:{ exists r, [], ds. cbn [map]. rewrite add_trace_nil.
      repeat split; try apply Hok; auto. unfold at_rest. lia. }
  pose proof (pending_length r Hok) as Hpl.
  assert (Hok' := Hok). destruct Hok' as (Hlen & Hps & Hbp).
  unfold TCPBUFFERSIZE in *.
  destruct Hs as [ds Hst Hn Hstart Hpend | d ds Hst Hn Hstart Hpend].
  - (* a length prefix is complete *)
    unfold LENGTH_SIZE in *.
    destruct (frames_nonempty _ _ _ Hpend) as (d & ds' & ->); [lia|].
    cbn [map concat] in Hpend.
    inversion Hds as [|? ? Hd Hds']; subst. unfold UDPBUFFERSIZE, TCPBUFFERSIZE in Hd.
    destruct (split_header _ _ _ _ Hpend) as (Hnt & Hrest); [lia|lia|].
    unfold bind. rewrite parse_step_length by assumption.
    set (r1 := set_parser _ _ _).
    assert (Hp1 : pending r1 = skipn 2 (pending r)).
    { unfold pending, r1. relay_fields. unfold LENGTH_SIZE.
      replace (buf_ptr r - (packet_start r + 2))
        with ((buf_ptr r - packet_start r) - 2) by lia.
      change 2%nat with (Z.to_nat 2). apply mem_read_suffix; lia. }
    destruct (IH r1 fut (d :: ds') w) as (r' & done & ds2 & Hrun & Hsplit & Hok2 & Hs2 & Hrest2 & Hcfg).
    + unfold r1, buf_ok. relay_fields. unfold LENGTH_SIZE, TCPBUFFERSIZE. lia.
    + apply synced_packet.
      * reflexivity.
      * unfold r1. relay_fields.
        rewrite (ntohs_window _ _ (buf_ptr r - packet_start r)) by lia.
        exact Hnt.
      * unfold r1. relay_fields. unfold LENGTH_SIZE. lia.
      * rewrite Hp1. exact Hrest.
    + assumption.
    + exact Hfam.
    + exact Hout.
    + unfold loop_need, r1 in *. relay_fields. rewrite Hst in Hfuel. unfold LENGTH_SIZE. lia.
    + exists r', done, ds2. repeat split; try apply Hok2; try apply Hcfg; auto.
  - (* a payload is complete *)
    unfold LENGTH_SIZE in *.
    destruct (split_payload _ _ _ _ Hpend) as (Hfirst & Hrest); [lia|].
    inversion Hds as [|? ? Hd Hds']; subst.
    unfold bind. rewrite parse_step_packet by assumption.
    set (r1 := set_parser _ _ _).
    assert (Hpay : mem_read (buf r) (packet_start r) (packet_length r) = d).
    { rewrite (mem_read_prefix _ _ _ (buf_ptr r - packet_start r)) by lia.
      fold (pending r). rewrite Hn, Nat2Z.id. exact Hfirst. }
    rewrite Hpay.
    assert (Hp1 : pending r1 = skipn (length d) (pending r)).
    { unfold pending, r1. relay_fields.
      replace (buf_ptr r - (packet_length r + (packet_start r - 0)) - 0)
        with (buf_ptr r - (packet_start r + packet_length r)) by lia.
      rewrite mem_read_memmove by lia.
      replace (buf_ptr r - (packet_start r + packet_length r))
        with ((buf_ptr r - packet_start r) - packet_length r) by lia.
      rewrite mem_read_suffix by lia.
      fold (pending r). now rewrite Hn, Nat2Z.id. }
    destruct (IH r1 fut ds (add_trace w [sent r d])) as (r' & done & ds2 & Hrun & Hsplit & Hok2 & Hs2 & Hrest2 & Hcfg).
    + unfold r1, buf_ok. relay_fields. rewrite memmove_length by lia.
      unfold TCPBUFFERSIZE. lia.
    + apply synced_length; try reflexivity.
      rewrite Hp1. exact Hrest.
    + assumption.
    + exact Hfam.
    + exact Hout.
    + unfold loop_need, r1 in *. relay_fields. rewrite Hst in Hfuel. lia.
    + exists r', (d :: done), ds2. rewrite Hrun.
      rewrite add_trace_app. cbn [map app].
      repeat split; try apply Hok2; try apply Hcfg; auto.
      now rewrite Hsplit.
Qed.

(** ** One read, then the loop *)

(** [read] on a queue of segments: some bytes off the front, never more
    than asked for, and the stream as a whole is kept. *)
Lemma sys_read_segments (fd count : Z) (seg : list byte) (segs : list (list byte))
    (w : world) :
  tcp_rx w = map RxData (seg :: segs) -> seg <> [] -> 0 < count ->
  Forall (fun s => s <> []) segs ->
  exists data segs',
    sys_read fd count w
    = (Ret (inr data),
       mkWorld (map RxData segs') (udp_rx w) (out_res w)
               (trace w ++ [EvRead fd count])) /\
    data ++ concat segs' = seg ++ concat segs /\
    data <> [] /\ Z.of_nat (length data) <= count /\
    Forall (fun s => s <> []) segs' /\
    (list_sum (map rx_size (map RxData segs'))
     < list_sum (map rx_size (map RxData (seg :: segs))))%nat.
Proof.
  intros Hrx Hne Hc Hsegs. unfold sys_read. rewrite Hrx. cbn [map].
  destruct (Z.of_nat (length seg) <=? count) eqn:Hfit.
  - exists seg, segs. apply Z.leb_le in Hfit.
    cbn [map concat list_sum fold_right rx_size udp_rx out_res trace].
    repeat split; auto. unfold list_sum. lia.
  - exists (firstn (Z.to_nat count) seg), (skipn (Z.to_nat count) seg :: segs).
    apply Z.leb_gt in Hfit. cbn [map concat list_sum fold_right rx_size udp_rx out_res trace].
    repeat split.
    + now rewrite app_assoc, firstn_skipn.
    + intros H. apply (f_equal (@length _)) in H.
      rewrite length_firstn in H. cbn in H. lia.
    + rewrite length_firstn. lia.
    + constructor; auto. intros H. apply (f_equal (@length _)) in H.
      rewrite length_skipn in H. cbn in H. lia.
    + unfold list_sum. rewrite length_skipn. lia.
Qed.

Lemma loop_need_fuel (r : relay) :
  0 <= buf_ptr r - packet_start r -> loop_need r <= Z.of_nat (loop_fuel r).
Proof.
  intros. unfold loop_need, loop_fuel. destruct (state r); lia.
Qed.

(** In step and at rest, there is room for at least one more byte. *)
Lemma synced_room (r : relay) (fut : list byte) (ds : list (list byte)) :
  buf_ok r -> synced r fut ds -> at_rest r ->
  Forall (fun d => Z.of_nat (length d) <= UDPBUFFERSIZE) ds ->
  0 < TCPBUFFERSIZE - buf_ptr r.
Proof.
  intros (_ & Hps & Hbp) Hs Hrest Hds. unfold at_rest in Hrest.
  unfold UDPBUFFERSIZE, TCPBUFFERSIZE, LENGTH_SIZE in *.
  destruct Hs as [ds _ Hn Hstart _ | d ds _ Hn Hstart _].
  - unfold LENGTH_SIZE in *. lia.
  - inversion Hds; subst. unfold LENGTH_SIZE in *. lia.
Qed.

Lemma synced_state (r : relay) (fut : list byte) (ds : list (list byte)) :
  synced r fut ds -> state r = reading_length \/ state r = reading_packet.
Proof. intros [? H|? ? H]; auto. Qed.

Lemma init_parser_idem (r : relay) :
  state r <> uninitialized -> init_parser r = r.
Proof. unfold init_parser. destruct (state r); congruence. Qed.

Lemma init_parser_config (r : relay) : same_config r (init_parser r).
Proof.
  unfold init_parser. destruct (state r); try apply same_config_refl.
  destruct (expect_handshake r); repeat split.
Qed.

(** One invocation of [tcp_to_udp] on a parser in step with the stream:
    it reads, delivers the frames the new bytes complete, and is in step
    with what remains. *)
Lemma tcp_to_udp_synced (r : relay) (seg : list byte) (segs : list (list byte))
    (ds : list (list byte)) (w : world) :
  buf_ok (init_parser r) ->
  synced (init_parser r) (concat (seg :: segs)) ds ->
  at_rest (init_parser r) ->
  Forall (fun d => Z.of_nat (length d) <= UDPBUFFERSIZE) ds ->
  ss_family (remote_udpaddr r) <> 0 -> out_res w = [] ->
  tcp_rx w = map RxData (seg :: segs) ->
  Forall (fun s => s <> []) (seg :: segs) ->
  exists r' segs' done ds' count,
    tcp_to_udp r w
    = (Ret r', mkWorld (map RxData segs') (udp_rx w) []
                 (trace w ++ EvRead (tcp_sock r) count :: map (sent r) done)) /\
    ds = done ++ ds' /\
    buf_ok r' /\ synced r' (concat segs') ds' /\ at_rest r' /\
    same_config r r' /\
    Forall (fun s => s <> []) segs' /\
    (list_sum (map rx_size (map RxData segs'))
     < list_sum (map rx_size (map RxData (seg :: segs))))%nat.
Proof.
  intros Hok Hs Hrest Hds Hfam Hout Hrx Hsegs.
  pose proof (init_parser_config r) as (Ha & Hu & Ht & _).
  set (r0 := init_parser r) in *.
  pose proof (synced_room _ _ _ Hok Hs Hrest Hds) as Hroom.
  inversion Hsegs as [|? ? Hseg Hsegs']; subst.
  destruct (sys_read_segments (tcp_sock r0) (0 + TCPBUFFERSIZE - buf_ptr r0)
              seg segs w Hrx Hseg ltac:(lia) Hsegs')
    as (data & segs' & Hread & Hcat & Hdata & Hcount & Hne' & Hlt).
  unfold tcp_to_udp. fold r0. unfold bind at 1. rewrite Hread.
  destruct (Z.of_nat (length data) =? 0) eqn:Hz.
  { apply Z.eqb_eq in Hz. destruct data; [congruence | cbn in Hz; lia]. }
  set (r1 := set_buffer r0 _ _ _).
  set (w1 := mkWorld _ _ _ _).
  assert (Hok0 := Hok). destruct Hok0 as (Hlen & Hps & Hbp).
  assert (Hp1 : pending r1 = pending r0 ++ data).
  { unfold pending, r1. relay_fields.
    apply mem_read_write_append; unfold TCPBUFFERSIZE in *; lia. }
  assert (Hok1 : buf_ok r1).
  { unfold buf_ok, r1. relay_fields.
    rewrite mem_write_length by (unfold TCPBUFFERSIZE in *; lia). lia. }
  assert (Hs1 : synced r1 (concat segs') ds).
  { cbn [concat] in Hs. rewrite <- Hcat in Hs.
    destruct Hs as [ds Hst Hn Hstart Hpend | d ds Hst Hn Hstart Hpend].
    - apply synced_length; auto. now rewrite Hp1, <- app_assoc.
    - apply synced_packet; auto. now rewrite Hp1, <- app_assoc. }
  assert (Hfam1 : ss_family (remote_udpaddr r1) <> 0).
  { unfold r1. relay_fields. fold r0. congruence. }
  assert (Hout1 : out_res w1 = []) by exact Hout.
  assert (Hfuel1 : loop_need r1 <= Z.of_nat (loop_fuel r1)).
  { apply loop_need_fuel. destruct Hok1 as (_ & ? & _). lia. }
  destruct (parse_loop_synced _ r1 (concat segs') ds w1
              Hok1 Hs1 Hds Hfam1 Hout1 Hfuel1)
    as (r' & done & ds' & Hrun & Hsplit & Hok' & Hs' & Hrest' & Hcfg).
  assert (Hc : same_config r r').
  { eapply same_config_trans; [apply init_parser_config|]. fold r0.
    eapply same_config_trans; [|exact Hcfg]. repeat split. }
  exists r', segs', done, ds', (0 + TCPBUFFERSIZE - buf_ptr r0).
  rewrite Hrun. unfold add_trace, w1. cbn [tcp_rx udp_rx out_res trace].
  rewrite <- app_assoc. cbn [app].
  replace (sent r1) with (sent r).
  2:{ unfold sent, r1. relay_fields. now rewrite Ha, Hu. }
  rewrite Hout, Ht.
  repeat split; try apply Hok'; try apply Hc; auto.
Qed.

(** ** Whole runs *)

Lemma datagrams_app (a b : list event) :
  datagrams (a ++ b) = datagrams a ++ datagrams b.
Proof.
  induction a as [|e a IH]; [reflexivity|].
  destruct e as [| | ? ? ? [|] | | |]; cbn; now rewrite IH.
Qed.

Lemma datagrams_sent (r : relay) (l : list (list byte)) :
  datagrams (map (sent r) l) = l.
Proof. induction l as [|d l IH]; cbn; [|rewrite IH]; reflexivity. Qed.

Lemma stream_of_app (a b : list event) :
  stream_of (a ++ b) = stream_of a ++ stream_of b.
Proof.
  induction a as [|e a IH]; [reflexivity|].
  destruct e; cbn; rewrite IH; now rewrite ?app_assoc.
Qed.

(** In step, at rest and nothing more to come: every frame is out. *)
Lemma synced_end (r : relay) (ds : list (list byte)) :
  buf_ok r -> synced r [] ds -> at_rest r -> ds = [].
Proof.
  intros Hok Hs Hrest. pose proof (pending_length r Hok) as Hl.
  unfold at_rest in Hrest.
  destruct Hs as [ds _ Hn _ Hpend | d ds _ Hn _ Hpend];
    rewrite app_nil_r in Hpend; apply (f_equal (@length _)) in Hpend.
  - destruct ds as [|d ds]; [reflexivity|].
    cbn [map concat] in Hpend. rewrite length_app, out_packet_length in Hpend.
    unfold LENGTH_SIZE in *. lia.
  - rewrite length_app in Hpend. lia.
Qed.

(** The stream side of a run: whatever the segmentation, the frames come
    out as datagrams, all of them and in order. *)
Lemma main_loop_synced (fuel : nat) :
  forall (segs : list (list byte)) (r : relay) (ds : list (list byte)) (w : world),
    buf_ok (init_parser r) -> synced (init_parser r) (concat segs) ds ->
    at_rest (init_parser r) ->
    Forall (fun d => Z.of_nat (length d) <= UDPBUFFERSIZE) ds ->
    ss_family (remote_udpaddr r) <> 0 ->
    out_res w = [] -> udp_rx w = [] -> tcp_rx w = map RxData segs ->
    Forall (fun s => s <> []) segs ->
    (run_fuel w <= fuel)%nat ->
    exists r' w',
      main_loop fuel r w = (Ret r', w') /\
      datagrams (trace w') = datagrams (trace w) ++ ds /\
      same_config r r' /\ buf_ok (init_parser r') /\ at_rest (init_parser r').
Proof.
  induction fuel as [|fuel IH];
    intros segs r ds w Hok Hs Hrest Hds Hfam Hout Hudp Hrx Hsegs Hfuel.
  { unfold run_fuel in Hfuel. lia. }
  cbn [main_loop]. rewrite Hrx, Hudp.
  destruct segs as [|seg segs]; cbn [map orb negb].
  - pose proof (synced_end _ _ Hok Hs Hrest) as ->.
    exists r, w. rewrite app_nil_r. repeat split; try apply Hok; auto.
  - destruct (tcp_to_udp_synced r seg segs ds w Hok Hs Hrest Hds Hfam Hout Hrx Hsegs)
      as (r' & segs' & done & ds' & count & Hrun & Hsplit & Hok' & Hs' & Hrest'
          & Hcfg & Hne' & Hlt).
    unfold bind at 1. rewrite Hrun. unfold bind at 1. unfold ret at 1.
    set (w1 := mkWorld _ _ _ _).
    assert (Hst : state r' <> uninitialized).
    { destruct (synced_state _ _ _ Hs'); congruence. }
    pose proof (init_parser_idem r' Hst) as Hi.
    assert (Hds' : Forall (fun d => Z.of_nat (length d) <= UDPBUFFERSIZE) ds').
    { rewrite Hsplit in Hds. now apply Forall_app in Hds. }
    assert (Hfam' : ss_family (remote_udpaddr r') <> 0).
    { destruct Hcfg as (Ha & _). congruence. }
    assert (Hfuel' : (run_fuel w1 <= fuel)%nat).
    { unfold run_fuel, w1. cbn [tcp_rx udp_rx].
      unfold run_fuel in Hfuel. rewrite Hrx in Hfuel. lia. }
    rewrite <- Hi in Hok', Hs', Hrest'.
    destruct (IH segs' r' ds' w1 Hok' Hs' Hrest' Hds' Hfam' eq_refl Hudp eq_refl
                 Hne' Hfuel')
      as (r2 & w2 & Hrun2 & Hd2 & Hcfg2 & Hok2 & Hrest2).
    exists r2, w2. rewrite Hrun2. split; [reflexivity|].
      split; [|split; [eapply same_config_trans; eauto | auto]].
      rewrite Hd2. unfold w1. cbn [trace].
      rewrite datagrams_app. cbn [datagrams]. rewrite datagrams_sent.
      now rewrite Hsplit, app_assoc.
Qed.

(** The datagram side: what [udp_to_tcp] does with one datagram that fits
    its buffer. *)
Lemma udp_to_tcp_dgram (r : relay) (d : list byte) (from : sockaddr_storage)
    (rest : list dgram_item) (w : world) :
  udp_rx w = Dgram d from :: rest -> out_res w = [] ->
  Z.of_nat (length d) <= UDPBUFFERSIZE ->
  udp_to_tcp r w
  = (Ret (if nonempty d then set_remote_udpaddr r from else r),
     mkWorld (tcp_rx w) rest []
       (trace w ++ EvRecvfrom (udp_sock r) UDPBUFFERSIZE
                :: (if nonempty d then [EvSend (tcp_sock r) (out_packet d)] else []))).
Proof.
  intros Hrx Hout Hd. unfold udp_to_tcp, bind at 1, sys_recvfrom.
  rewrite Hrx. cbn [udp_rx tcp_rx out_res trace].
  rewrite firstn_all2 by lia.
  destruct d as [|b d].
  - cbn. unfold ret. now rewrite Hout.
  - replace (Z.of_nat (length (b :: d)) =? 0) with false
      by (symmetry; apply Z.eqb_neq; cbn [length]; lia).
    cbn [nonempty]. unfold sys_send, bind, next_out, emit, ret.
    cbn [out_res tcp_rx udp_rx trace]. rewrite Hout.
    rewrite firstn_all2
      by (rewrite out_packet_length; unfold LENGTH_SIZE; lia).
    relay_fields. cbn [tcp_rx udp_rx out_res trace].
    now rewrite <- app_assoc.
Qed.

Lemma main_loop_encode (fuel : nat) :
  forall (ds : list (list byte * sockaddr_storage)) (r : relay) (w : world),
    Forall (fun x => Z.of_nat (length (fst x)) <= UDPBUFFERSIZE) ds ->
    tcp_rx w = [] -> udp_rx w = map dgram_of ds -> out_res w = [] ->
    (run_fuel w <= fuel)%nat ->
    exists r' w',
      main_loop fuel r w = (Ret r', w') /\
      stream_of (trace w')
      = stream_of (trace w)
        ++ concat (map out_packet (filter nonempty (map fst ds))).
Proof.
  induction fuel as [|fuel IH]; intros ds r w Hds Htcp Hudp Hout Hfuel.
  { unfold run_fuel in Hfuel. lia. }
  cbn [main_loop]. rewrite Htcp, Hudp.
  destruct ds as [|[d from] ds]; cbn [map orb negb dgram_of fst snd].
  - exists r, w. cbn. now rewrite app_nil_r.
  - inversion Hds as [|? ? Hd Hds']; subst. cbn [fst] in Hd.
    unfold bind at 1. unfold ret at 1. unfold bind at 1.
    rewrite (udp_to_tcp_dgram r d from (map dgram_of ds) w) by assumption.
    set (r1 := if nonempty d then _ else _). set (w1 := mkWorld _ _ _ _).
    destruct (IH ds r1 w1 Hds' Htcp eq_refl eq_refl) as (r' & w' & Hrun & Hst).
    { unfold run_fuel, w1. cbn [tcp_rx udp_rx].
      unfold run_fuel in Hfuel. rewrite Htcp in *. rewrite Hudp in Hfuel.
      cbn [length map list_sum fold_right] in *. lia. }
    exists r', w'. split; [exact Hrun|]. rewrite Hst. unfold w1. cbn [trace].
    rewrite stream_of_app. cbn [filter]. destruct (nonempty d); cbn.
    + now rewrite app_nil_r, <- !app_assoc.
    + now rewrite app_nil_r.
Qed.

Lemma run_idle (r : relay) :
  run r (new_world [] []) = (Ret r, new_world [] []).
Proof. reflexivity. Qed.

(** ** C1: the codec round trip *)

(** C1 (as amended).  Datagrams of at most 65534 bytes go through
    [udp_to_tcp] on one end; the bytes it sends, cut into segments in any
    way, go through [tcp_to_udp] on an end that expects no handshake and
    knows its peer.  The datagrams that come out are the non-empty ones
    that went in, in the same order: each is framed as its length on two
    bytes, most significant first, and its payload, in a single [send];
    an empty datagram is not framed at all.  For a single non-empty
    datagram [d] the result is exactly [[d]]. *)
Theorem codec_roundtrip (enc dec : relay)
    (ds : list (list byte * sockaddr_storage)) (segs : list (list byte)) :
  Forall (fun x => Z.of_nat (length (fst x)) <= UDPBUFFERSIZE) ds ->
  state dec = uninitialized -> expect_handshake dec = false ->
  length (buf dec) = Z.to_nat TCPBUFFERSIZE ->
  ss_family (remote_udpaddr dec) <> 0 ->
  Forall (fun s => s <> []) segs ->
  concat segs
  = stream_of (trace (snd (run enc (new_world [] (map dgram_of ds))))) ->
  exists dec' w',
    run dec (new_world (map RxData segs) []) = (Ret dec', w') /\
    datagrams (trace w') = filter nonempty (map fst ds).
Proof.
  intros Hds Hst Hhs Hlen Hfam Hsegs Hstream.
  destruct (main_loop_encode (run_fuel (new_world [] (map dgram_of ds)))
              ds enc (new_world [] (map dgram_of ds)) Hds eq_refl eq_refl eq_refl
              (Nat.le_refl _))
    as (enc' & we & Hrun & Henc).
  unfold run in Hstream. rewrite Hrun in Hstream. cbn [snd] in Hstream.
  rewrite Henc in Hstream. cbn [new_world trace stream_of app] in Hstream.
  set (out := filter nonempty (map fst ds)) in *.
  assert (Hinit : init_parser dec
                  = set_buffer (set_parser dec reading_length LENGTH_SIZE) (buf dec) 0 0).
  { unfold init_parser. now rewrite Hst, Hhs. }
  destruct (main_loop_synced (run_fuel (new_world (map RxData segs) []))
              segs dec out (new_world (map RxData segs) []))
    as (dec' & w' & Hdec & Hd & _); try reflexivity; try assumption.
  - rewrite Hinit. unfold buf_ok. relay_fields. unfold TCPBUFFERSIZE in *. lia.
  - rewrite Hinit. apply synced_length; try reflexivity.
    unfold pending. relay_fields. cbn. exact Hstream.
  - rewrite Hinit. unfold at_rest. relay_fields. unfold LENGTH_SIZE. lia.
  - unfold out. clear -Hds. induction Hds as [|[d a] ds Hd _ IH]; cbn.
    + constructor.
    + cbn in Hd. destruct (nonempty d); [constructor|]; assumption.
  - exists dec', w'. split; [exact Hdec|]. exact Hd.
Qed.

(** Without the restriction to non-empty datagrams the round trip fails:
    on the empty datagram [udp_to_tcp] returns before it sends anything,
    so there is nothing to parse and nothing comes out, where C1 as the
    specification words it expects the empty datagram back. *)
Lemma codec_roundtrip_empty_datagram :
  ~ (forall (enc dec : relay) (ds : list (list byte * sockaddr_storage))
            (segs : list (list byte)),
        Forall (fun x => Z.of_nat (length (fst x)) <= UDPBUFFERSIZE) ds ->
        state dec = uninitialized -> expect_handshake dec = false ->
        length (buf dec) = Z.to_nat TCPBUFFERSIZE ->
        ss_family (remote_udpaddr dec) <> 0 ->
        Forall (fun s => s <> []) segs ->
        concat segs
        = stream_of (trace (snd (run enc (new_world [] (map dgram_of ds))))) ->
        exists dec' w',
          run dec (new_world (map RxData segs) []) = (Ret dec', w') /\
          datagrams (trace w') = map fst ds).
Proof.
  intros H.
  pose (peer := mkAddr 2 []).
  pose (enc := client_relay default_handshake 4 3 0).
  pose (dec := set_remote_udpaddr (client_relay default_handshake 4 3 0) peer).
  destruct (H enc dec [([], peer)] []) as (dec' & w' & Hrun & Hd).
  - repeat constructor. cbn. unfold UDPBUFFERSIZE, TCPBUFFERSIZE. lia.
  - reflexivity.
  - reflexivity.
  - apply repeat_length.
  - cbn. discriminate.
  - constructor.
  - vm_compute. reflexivity.
  - cbn [map] in Hrun. rewrite run_idle in Hrun.
    injection Hrun as _ <-. discriminate Hd.
Qed.

Lemma relay_zero_buf_length : length (buf relay_zero) = Z.to_nat TCPBUFFERSIZE.
Proof. apply repeat_length. Qed.

(** Three datagrams, the second one empty, and a segmentation that cuts
    through a header and through a payload. *)
Lemma codec_roundtrip_witness :
  exists dec' w',
    run (set_remote_udpaddr (client_relay default_handshake 4 3 0) (mkAddr 2 []))
        (new_world (map RxData [[x00; x02; x41]; [x42; x00]; [x01; x43]]) [])
    = (Ret dec', w') /\
    datagrams (trace w')
    = filter nonempty
        (map fst [([x41; x42], mkAddr 2 []); ([], mkAddr 2 []); ([x43], mkAddr 2 [])]).
Proof.
  apply (codec_roundtrip (client_relay default_handshake 4 3 0)).
  - repeat constructor; cbn; unfold UDPBUFFERSIZE, TCPBUFFERSIZE; lia.
  - reflexivity.
  - reflexivity.
  - exact relay_zero_buf_length.
  - cbn. discriminate.
  - repeat constructor; discriminate.
  - vm_compute. reflexivity.
Defined.

(** ** C2: a frame of the maximum size behind the handshake *)

(** C2.  The server-side relay is given the handshake followed by one
    frame of 65534 bytes.  The handshake stays at the front of the buffer
    (only a delivered packet compacts it), so the payload would have to
    end at offset 34 + 65534, past the 65536 bytes of [buf].  The buffer
    fills up, the next [read] is asked for 0 bytes and returns 0, and the
    relay takes that for the peer's shutdown: it exits with status 0 and
    has sent no datagram. *)
Theorem server_max_frame_lost :
  let payload := repeat x41 (Z.to_nat UDPBUFFERSIZE) in
  let stream := default_handshake ++ out_packet payload in
  let res := run (server_relay default_handshake 4 3 0 (mkAddr 2 []))
                 (new_world [RxData stream] []) in
  (fst res, trace (snd res))
  = (Exit 0,
     [EvRead 4 65536; EvLog log_debug "Received a good handshake";
      EvRead 4 0; EvLog log_notice "Remote closed the connection"])
  /\ datagrams (trace (snd res)) = [].
Proof. vm_compute. split; reflexivity. Qed.

(** Without a handshake in front the same frame is delivered whole. *)
Lemma client_max_frame_delivered :
  let payload := repeat x41 (Z.to_nat UDPBUFFERSIZE) in
  let res := run (set_remote_udpaddr (client_relay default_handshake 4 3 0)
                    (mkAddr 2 []))
                 (new_world [RxData (out_packet payload)] []) in
  match datagrams (trace (snd res)) with
  | [d] => bytes_eqb d payload
  | _ => false
  end = true.
Proof. vm_compute. reflexivity. Qed.

(** ** C3: the default handshake token *)

(** C3 (as amended).  The default token is 32 bytes: the 16 characters of
    ["udptunnel by md."], none of them NUL, then three NUL bytes, then the
    13 bytes 01 03 06 10 15 21 28 36 45 55 66 78 91. *)
Theorem default_handshake_bytes :
  default_handshake
  = [x75; x64; x70; x74; x75; x6e; x6e; x65; x6c; x20; x62; x79; x20; x6d; x64; x2e]
    ++ [x00; x00; x00]
    ++ [x01; x03; x06; x10; x15; x21; x28; x36; x45; x55; x66; x78; x91]
  /\ firstn 16 default_handshake = String.list_byte_of_string "udptunnel by md."
  /\ length default_handshake = 32%nat
  /\ handshake (server_relay default_handshake 4 3 0 (mkAddr 2 [])) = default_handshake
  /\ handshake (client_relay default_handshake 4 3 0) = default_handshake.
Proof. repeat split; reflexivity. Qed.

(** The specification has the last three of the first 16 bytes NUL; they
    are the characters ["md."]. *)
Lemma default_handshake_first16_tail :
  skipn 13 (firstn 16 default_handshake) = [x6d; x64; x2e] /\
  skipn 13 (firstn 16 default_handshake) <> [x00; x00; x00].
Proof. split; [reflexivity | discriminate]. Qed.

(** ** C5: a refused datagram *)

(** C5.  [sendto] fails with [ECONNREFUSED] and [getsockopt] succeeds:
    [send_udp_packet] logs at info level, reads [SO_ERROR] off the socket
    and returns, the relay being what it was; the next datagram, when
    [sendto] succeeds, goes out as usual.  [sendto] failing with any other
    [errno] ends the process. *)
Theorem send_udp_packet_refused (r : relay) (w : world) (rest : list (option Z)) :
  ss_family (remote_udpaddr r) <> 0 ->
  let payload := mem_read (buf r) (packet_start r) (packet_length r) in
  let attempt e := EvSendto (udp_sock r) payload (remote_udpaddr r) e in
  (out_res w = Some ECONNREFUSED :: None :: rest ->
   let w1 := mkWorld (tcp_rx w) (udp_rx w) rest
               (trace w ++ [attempt (Some ECONNREFUSED);
                            EvLog log_info "sendto(udp) returned ECONNREFUSED: ignored";
                            EvGetsockopt (udp_sock r)]) in
   send_udp_packet r w = (Ret tt, w1) /\
   (hd None rest = None ->
    send_udp_packet r w1
    = (Ret tt, mkWorld (tcp_rx w) (udp_rx w) (tl rest)
                 (trace w1 ++ [attempt None])))) /\
  (forall e, e <> ECONNREFUSED -> out_res w = Some e :: rest ->
   exists status,
     send_udp_packet r w
     = (Exit status,
        mkWorld (tcp_rx w) (udp_rx w) rest
          (trace w ++ [attempt (Some e); EvLog log_err "sendto(udp)"]))).
Proof.
  intros Hfam payload attempt. apply Z.eqb_neq in Hfam.
  destruct w as [rx dg out tr]. cbn [out_res tcp_rx udp_rx trace].
  unfold send_udp_packet. rewrite Hfam.
  unfold sys_sendto, sys_getsockopt_so_error, log_printf, err_sys, bind,
    next_out, emit, ret, exit.
  split.
  - intros ->. cbn [out_res tcp_rx udp_rx trace]. rewrite Z.eqb_refl.
    cbn [negb out_res tcp_rx udp_rx trace].
    rewrite <- !app_assoc. cbn [app]. split; [reflexivity|].
    intros Hnext. destruct rest as [|x rest']; cbn in Hnext; [|subst x];
      cbn [out_res tcp_rx udp_rx trace tl]; rewrite <- ?app_assoc; reflexivity.
  - intros e He ->. exists 1. cbn [out_res tcp_rx udp_rx trace].
    apply Z.eqb_neq in He. rewrite He. cbn [negb out_res tcp_rx udp_rx trace].
    rewrite <- !app_assoc. reflexivity.
Qed.

Lemma send_udp_packet_refused_witness :
  send_udp_packet (server_relay default_handshake 4 3 0 (mkAddr 2 []))
    (mkWorld [] [] [Some ECONNREFUSED; None; None] [])
  = (Ret tt,
     mkWorld [] [] [None]
       [EvSendto 3 [] (mkAddr 2 []) (Some ECONNREFUSED);
        EvLog log_info "sendto(udp) returned ECONNREFUSED: ignored";
        EvGetsockopt 3]).
Proof.
  exact (proj1 (proj1 (send_udp_packet_refused
                  (server_relay default_handshake 4 3 0 (mkAddr 2 []))
                  (mkWorld [] [] [Some ECONNREFUSED; None; None] []) [None]
                  ltac:(cbn; discriminate)) eq_refl)).
Defined.

(** ** C7: an empty datagram *)

(** C7.  On a datagram of no bytes [udp_to_tcp] returns right after
    [recvfrom]: nothing is sent on the stream socket, no output call is
    made and the relay is unchanged, its peer address included. *)
Theorem udp_to_tcp_empty (r : relay) (w : world) (from : sockaddr_storage)
    (rest : list dgram_item) :
  udp_rx w = Dgram [] from :: rest ->
  udp_to_tcp r w
  = (Ret r, mkWorld (tcp_rx w) rest (out_res w)
              (trace w ++ [EvRecvfrom (udp_sock r) UDPBUFFERSIZE])) /\
  stream_of (trace (snd (udp_to_tcp r w))) = stream_of (trace w) /\
  forall r', fst (udp_to_tcp r w) = Ret r' ->
             r' = r /\ remote_udpaddr r' = remote_udpaddr r.
Proof.
  intros Hrx.
  assert (H : udp_to_tcp r w
              = (Ret r, mkWorld (tcp_rx w) rest (out_res w)
                          (trace w ++ [EvRecvfrom (udp_sock r) UDPBUFFERSIZE]))).
  { unfold udp_to_tcp, bind, sys_recvfrom. rewrite Hrx. reflexivity. }
  rewrite H. cbn [fst snd trace]. repeat split.
  - rewrite stream_of_app. cbn. now rewrite app_nil_r.
  - congruence.
  - congruence.
Qed.

Lemma udp_to_tcp_empty_witness :
  udp_to_tcp
    (set_remote_udpaddr (client_relay default_handshake 4 3 0) (mkAddr 2 [x01]))
    (new_world [] [Dgram [] (mkAddr 10 [x02])])
  = (Ret (set_remote_udpaddr (client_relay default_handshake 4 3 0) (mkAddr 2 [x01])),
     mkWorld [] [] [] [EvRecvfrom 3 UDPBUFFERSIZE]).
Proof.
  exact (proj1 (udp_to_tcp_empty
                  (set_remote_udpaddr (client_relay default_handshake 4 3 0)
                     (mkAddr 2 [x01]))
                  (new_world [] [Dgram [] (mkAddr 10 [x02])])
                  (mkAddr 10 [x02]) [] eq_refl)).
Defined.

(** ** C8: no peer yet *)

(** C8.  With no peer address ([ss_family] is 0) [send_udp_packet] logs at
    info level and returns: no [sendto] is made, no output result is
    used up, and the loop body goes on to compact the buffer and wait for
    the next length prefix. *)
Theorem send_udp_packet_no_peer (r : relay) (w : world) :
  ss_family (remote_udpaddr r) = 0 ->
  send_udp_packet r w
  = (Ret tt,
     add_trace w [EvLog log_info
                    "Ignoring a packet for a still unknown UDP destination!"]) /\
  datagrams (trace (snd (send_udp_packet r w))) = datagrams (trace w) /\
  (state r = reading_packet ->
   exists r', fst (parse_step r w) = Ret r' /\
              state r' = reading_length /\ packet_length r' = LENGTH_SIZE /\
              remote_udpaddr r' = remote_udpaddr r).
Proof.
  intros Hfam.
  assert (H : send_udp_packet r w
              = (Ret tt,
                 add_trace w [EvLog log_info
                   "Ignoring a packet for a still unknown UDP destination!"])).
  { unfold send_udp_packet. now rewrite Hfam. }
  rewrite H. cbn [snd]. repeat split.
  - unfold add_trace. cbn [trace]. rewrite datagrams_app. cbn. apply app_nil_r.
  - intros Hst. unfold parse_step. rewrite Hst. unfold bind at 1. rewrite H.
    eexists. split; [reflexivity|]. repeat split.
Qed.

Lemma send_udp_packet_no_peer_witness :
  send_udp_packet (client_relay default_handshake 4 3 0) (new_world [] [])
  = (Ret tt,
     add_trace (new_world [] [])
       [EvLog log_info "Ignoring a packet for a still unknown UDP destination!"]).
Proof.
  exact (proj1 (send_udp_packet_no_peer (client_relay default_handshake 4 3 0)
                  (new_world [] []) eq_refl)).
Defined.

(** ** C6: a frame of length zero *)

(** C6.  The parser is reading a length, two bytes or more are unparsed and
    the first two decode to 0.  The first pass of the loop moves to
    [reading_packet] with [packet_length = 0]; the loop test holds at
    once; the second pass hands a payload of no bytes to [sendto], for the
    peer address, and goes back to [reading_length] at the start of the
    compacted buffer, the two header bytes gone.  Two passes of the loop
    are these two steps. *)
Theorem zero_length_frame_forwarded (r : relay) (w w1 : world) :
  buf_ok r -> state r = reading_length -> packet_length r = LENGTH_SIZE ->
  LENGTH_SIZE <= buf_ptr r - packet_start r ->
  ntohs (skipn (Z.to_nat (packet_start r)) (buf r)) = 0 ->
  ss_family (remote_udpaddr r) <> 0 ->
  next_out w = (Ret None, w1) ->
  exists r1 r2,
    parse_step r w = (Ret r1, w) /\
    state r1 = reading_packet /\ packet_length r1 = 0 /\
    (buf_ptr r1 - packet_start r1 >=? packet_length r1) = true /\
    parse_step r1 w = (Ret r2, add_trace w1 [sent r []]) /\
    state r2 = reading_length /\ packet_length r2 = LENGTH_SIZE /\
    packet_start r2 = 0 /\ pending r2 = skipn 2 (pending r) /\
    forall fuel,
      parse_loop (S (S fuel)) r w = parse_loop fuel r2 (add_trace w1 [sent r []]).
Proof.
  intros Hok Hst Hpl Hlen Hz Hfam Hnext.
  assert (Hok' := Hok). destruct Hok' as (Hbl & Hps & Hbp).
  unfold LENGTH_SIZE, TCPBUFFERSIZE in *.
  pose proof (parse_step_length r w Hst) as H1. rewrite Hz in H1.
  set (r1 := set_parser _ _ _) in H1.
  assert (Hsend : send_udp_packet r1 w = (Ret tt, add_trace w1 [sent r []])).
  { unfold send_udp_packet. unfold r1 at 1. relay_fields.
    apply Z.eqb_neq in Hfam. rewrite Hfam.
    unfold sys_sendto, bind. rewrite Hnext. reflexivity. }
  assert (H2 : parse_step r1 w
               = (Ret (set_parser
                         (set_buffer r1
                            (memmove (buf r1) 0 (packet_start r1 + packet_length r1)
                               (buf_ptr r1 - (packet_start r1 + packet_length r1)))
                            (buf_ptr r1 - (packet_length r1 + (packet_start r1 - 0))) 0)
                         reading_length LENGTH_SIZE),
                  add_trace w1 [sent r []])).
  { unfold parse_step at 1. unfold r1 at 1. relay_fields.
    unfold bind at 1. now rewrite Hsend. }
  set (r2 := set_parser _ _ _) in H2.
  assert (Hc1 : (buf_ptr r1 - packet_start r1 >=? packet_length r1) = true).
  { unfold r1. relay_fields. unfold LENGTH_SIZE. lia. }
  exists r1, r2. repeat split; auto.
  - unfold pending, r2, r1. relay_fields. unfold LENGTH_SIZE.
    replace (buf_ptr r - (0 + (packet_start r + 2 - 0)) - 0)
      with (buf_ptr r - (packet_start r + 2 + 0)) by lia.
    rewrite mem_read_memmove by lia.
    replace (packet_start r + 2 + 0) with (packet_start r + 2) by lia.
    replace (buf_ptr r - (packet_start r + 2))
      with ((buf_ptr r - packet_start r) - 2) by lia.
    change 2%nat with (Z.to_nat 2). apply mem_read_suffix; lia.
  - intros fuel. cbn [parse_loop].
    replace (buf_ptr r - packet_start r >=? packet_length r) with true
      by (symmetry; unfold LENGTH_SIZE in *; lia).
    unfold bind at 1. rewrite H1. rewrite Hc1.
    unfold bind at 1. now rewrite H2.
Qed.

Lemma zero_length_frame_forwarded_witness :
  exists r1 r2,
    parse_step
      (mkRelay (mkAddr 2 []) 3 4 false default_handshake 0 0
         ([x00; x00; x00; x01] ++ repeat x00 (Z.to_nat (TCPBUFFERSIZE - 4)))
         4 0 LENGTH_SIZE reading_length)
      (new_world [] [])
    = (Ret r1, new_world [] []) /\
    state r1 = reading_packet /\ packet_length r1 = 0 /\
    (buf_ptr r1 - packet_start r1 >=? packet_length r1) = true /\
    parse_step r1 (new_world [] [])
    = (Ret r2, add_trace (new_world [] []) [EvSendto 3 [] (mkAddr 2 []) None]) /\
    state r2 = reading_length /\ packet_length r2 = LENGTH_SIZE /\
    packet_start r2 = 0.
Proof.
  destruct (zero_length_frame_forwarded
              (mkRelay (mkAddr 2 []) 3 4 false default_handshake 0 0
                 ([x00; x00; x00; x01] ++ repeat x00 (Z.to_nat (TCPBUFFERSIZE - 4)))
                 4 0 LENGTH_SIZE reading_length)
              (new_world [] []) (new_world [] []))
    as (r1 & r2 & H1 & H2 & H3 & H4 & H5 & H6 & H7 & H8 & _).
  - unfold buf_ok. cbn [buf packet_start buf_ptr]. split.
    + rewrite length_app, repeat_length. unfold TCPBUFFERSIZE. cbn [length]. lia.
    + unfold TCPBUFFERSIZE. lia.
  - reflexivity.
  - reflexivity.
  - cbn. unfold LENGTH_SIZE. lia.
  - reflexivity.
  - cbn. discriminate.
  - reflexivity.
  - exists r1, r2. repeat split; assumption.
Defined.

(** ** The parser under any environment *)

Lemma send_udp_packet_cases (r : relay) (w : world) :
  exists w', send_udp_packet r w = (Ret tt, w') \/
             exists s, send_udp_packet r w = (Exit s, w').
Proof.
  unfold send_udp_packet.
  destruct (ss_family (remote_udpaddr r) =? 0).
  { eexists. left. reflexivity. }
  unfold sys_sendto, sys_getsockopt_so_error, log_printf, err_sys, bind,
    next_out, emit, ret, exit.
  destruct (out_res w) as [|[e|] rest]; cbn [out_res tcp_rx udp_rx trace].
  - eexists. left. reflexivity.
  - destruct (negb (e =? ECONNREFUSED)).
    + eexists. right. eexists. reflexivity.
    + cbn [out_res tcp_rx udp_rx trace].
      destruct rest as [|[e'|] rest']; cbn [out_res tcp_rx udp_rx trace];
        eexists; ((left; reflexivity) || (right; eexists; reflexivity)).
  - eexists. left. reflexivity.
Qed.

(** One pass of the loop body, taken when the loop test holds. *)
Lemma parse_step_ok (r r' : relay) (w w' : world) :
  parser_ok r -> packet_length r <= buf_ptr r - packet_start r ->
  parse_step r w = (Ret r', w') ->
  parser_ok r' /\ loop_need r' < loop_need r /\ same_config r r' /\
  (state r' = reading_length \/ state r' = reading_packet).
Proof.
  intros ((Hlen & Hps & Hbp) & Hst) Hcond Hstep.
  unfold parse_step in Hstep. unfold parser_ok, buf_ok, loop_need.
  unfold HANDSHAKE_SIZE, LENGTH_SIZE, TCPBUFFERSIZE in *.
  destruct (state r) eqn:Es; try contradiction.
  - (* reading_handshake *)
    destruct (negb _) in Hstep.
    + unfold log_printf_exit, bind, emit, exit in Hstep. discriminate.
    + unfold log_printf, bind, emit, ret in Hstep.
      injection Hstep as <- <-. relay_fields.
      unfold HANDSHAKE_SIZE, LENGTH_SIZE.
      repeat split; auto; lia.
  - (* reading_length *)
    unfold ret in Hstep. injection Hstep as <- <-. relay_fields.
    pose proof (ntohs_range (skipn (Z.to_nat (packet_start r)) (buf r))).
    unfold LENGTH_SIZE. repeat split; auto; lia.
  - (* reading_packet *)
    unfold bind at 1 in Hstep.
    destruct (send_udp_packet_cases r w) as (w1 & [Hs | (s & Hs)]);
      rewrite Hs in Hstep; [|discriminate].
    unfold ret in Hstep. injection Hstep as <- <-. relay_fields.
    rewrite memmove_length by lia.
    unfold LENGTH_SIZE. repeat split; auto; lia.
Qed.

(** The loop, whatever it is given: it stops within its fuel, and when it
    comes back the parser is in order, at rest, and has not gone back to
    the handshake. *)
Lemma parse_loop_ok (fuel : nat) :
  forall (r : relay) (w : world),
    parser_ok r -> loop_need r <= Z.of_nat fuel ->
    fst (parse_loop fuel r w) <> Diverge /\
    forall r' w',
      parse_loop fuel r w = (Ret r', w') ->
      parser_ok r' /\ at_rest r' /\ same_config r r' /\
      (state r' = reading_handshake -> state r = reading_handshake).
Proof.
  induction fuel as [|fuel IH]; intros r w Hok Hfuel.
  { destruct Hok as ((_ & ? & _) & _). unfold loop_need in Hfuel.
    destruct (state r); lia. }
  cbn [parse_loop].
  destruct (buf_ptr r - packet_start r >=? packet_length r) eqn:Hge.
  2:{ split; [cbn; discriminate|]. intros r' w' H.
      unfold ret in H. injection H as <- <-.
      split; [exact Hok|]. split; [unfold at_rest; lia|].
      split; [apply same_config_refl | auto]. }
  unfold bind.
  destruct (parse_step r w) as [[r1| |] w1] eqn:Hstep.
  - destruct (parse_step_ok r r1 w w1 Hok ltac:(lia) Hstep)
      as (Hok1 & Hneed & Hcfg & Hst1).
    destruct (IH r1 w1 Hok1 ltac:(lia)) as (Hnd & Hret).
    split; [exact Hnd|]. intros r' w' H.
    destruct (Hret r' w' H) as (Hok' & Hrest' & Hcfg' & Hst').
    split; [exact Hok'|]. split; [exact Hrest'|].
    split; [eapply same_config_trans; eauto|].
    intros Hh. specialize (Hst' Hh). destruct Hst1; congruence.
  - split; [cbn; discriminate|]. intros ? ? H. discriminate.
  - exfalso. unfold parse_step in Hstep.
    destruct Hok as (_ & Hst).
    destruct (state r); try contradiction.
    + destruct (negb _) in Hstep; cbn in Hstep; discriminate.
    + cbn in Hstep. discriminate.
    + unfold bind at 1 in Hstep.
      destruct (send_udp_packet_cases r w) as (w2 & [Hs | (s & Hs)]);
        rewrite Hs in Hstep; cbn in Hstep; discriminate.
Qed.

Lemma extends_refl (w : world) : extends w w.
Proof. exists []. now rewrite app_nil_r. Qed.

Lemma extends_trans (a b c : world) : extends a b -> extends b c -> extends a c.
Proof.
  intros (x & Hx) (y & Hy). exists (x ++ y). now rewrite Hy, Hx, app_assoc.
Qed.

Lemma send_udp_packet_extends (r : relay) (w : world) :
  extends w (snd (send_udp_packet r w)).
Proof.
  unfold send_udp_packet.
  destruct (ss_family (remote_udpaddr r) =? 0).
  { eexists. reflexivity. }
  unfold sys_sendto, sys_getsockopt_so_error, log_printf, err_sys, bind,
    next_out, emit, ret, exit.
  destruct (out_res w) as [|[e|] rest]; cbn [out_res tcp_rx udp_rx trace snd].
  - eexists. reflexivity.
  - destruct (negb (e =? ECONNREFUSED)); cbn [out_res tcp_rx udp_rx trace snd].
    + eexists. rewrite <- app_assoc. reflexivity.
    + destruct rest as [|[e'|] rest']; cbn [out_res tcp_rx udp_rx trace snd];
        eexists; rewrite <- ?app_assoc; reflexivity.
  - eexists. reflexivity.
Qed.

Lemma parse_step_extends (r : relay) (w : world) :
  extends w (snd (parse_step r w)).
Proof.
  unfold parse_step. destruct (state r).
  - apply extends_refl.
  - destruct (negb _); eexists; cbn; reflexivity.
  - apply extends_refl.
  - unfold bind at 1. pose proof (send_udp_packet_extends r w) as H.
    destruct (send_udp_packet r w) as [[[]| |] w1]; exact H.
Qed.

Lemma parse_loop_extends (fuel : nat) :
  forall (r : relay) (w : world), extends w (snd (parse_loop fuel r w)).
Proof.
  induction fuel as [|fuel IH]; intros r w; cbn [parse_loop].
  { apply extends_refl. }
  destruct (_ >=? _); [|apply extends_refl].
  unfold bind. pose proof (parse_step_extends r w) as H.
  destruct (parse_step r w) as [[r1| |] w1]; cbn [snd] in *; auto.
  eapply extends_trans; [exact H | apply IH].
Qed.

(** [read] under any queue. *)
Lemma sys_read_cases (fd count : Z) (w : world) :
  0 <= count ->
  (tcp_rx w = [] /\ fst (sys_read fd count w) = Diverge) \/
  (exists e w', sys_read fd count w = (Ret (inl e), w') /\
                trace w' = trace w ++ [EvRead fd count]) \/
  (exists data w', sys_read fd count w = (Ret (inr data), w') /\
                   trace w' = trace w ++ [EvRead fd count] /\
                   Z.of_nat (length data) <= count).
Proof.
  intros Hc. unfold sys_read.
  destruct (tcp_rx w) as [|[l|e] rest].
  - left. split; reflexivity.
  - right. right. destruct (Z.of_nat (length l) <=? count) eqn:Hfit.
    + apply Z.leb_le in Hfit. do 2 eexists. repeat split. exact Hfit.
    + do 2 eexists. repeat split. rewrite length_firstn. lia.
  - right. left. do 2 eexists. split; reflexivity.
Qed.

Lemma init_parser_ok (r : relay) :
  length (buf r) = Z.to_nat TCPBUFFERSIZE ->
  state r = uninitialized \/ parser_ok r ->
  parser_ok (init_parser r).
Proof.
  intros Hlen [Hst | Hok].
  - unfold init_parser. rewrite Hst.
    unfold parser_ok, buf_ok.
    destruct (expect_handshake r); relay_fields;
      unfold TCPBUFFERSIZE in *; repeat split; auto; lia.
  - rewrite init_parser_idem; [exact Hok|].
    destruct Hok as (_ & H). destruct (state r); try discriminate. contradiction.
Qed.

Lemma init_parser_state (r : relay) :
  state (init_parser r) = reading_handshake ->
  state r = reading_handshake \/
  (state r = uninitialized /\ expect_handshake r = true).
Proof.
  unfold init_parser. destruct (state r) eqn:Es; intros H;
    try (rewrite Es in H; discriminate); auto.
  destruct (expect_handshake r); relay_fields; auto.
  cbn in H. discriminate.
Qed.

(** One invocation of [tcp_to_udp], whatever the environment: it comes
    back (or exits) whenever something is queued, its [read] asks for the
    room that is left, and the relay it returns is in order. *)
Lemma tcp_to_udp_ok (r : relay) (w : world) :
  length (buf r) = Z.to_nat TCPBUFFERSIZE ->
  state r = uninitialized \/ parser_ok r ->
  (tcp_rx w <> [] -> fst (tcp_to_udp r w) <> Diverge) /\
  (exists evs,
      trace (snd (tcp_to_udp r w))
      = trace w ++ EvRead (tcp_sock r) (TCPBUFFERSIZE - buf_ptr (init_parser r)) :: evs) /\
  0 <= TCPBUFFERSIZE - buf_ptr (init_parser r) <= TCPBUFFERSIZE /\
  forall r' w',
    tcp_to_udp r w = (Ret r', w') ->
    parser_ok r' /\ at_rest r' /\ same_config r r' /\
    (state r' = reading_handshake ->
     state r = reading_handshake \/
     (state r = uninitialized /\ expect_handshake r = true)).
Proof.
  intros Hlen Hr.
  pose proof (init_parser_ok r Hlen Hr) as Hok0.
  pose proof (init_parser_config r) as Hcfg0.
  pose proof (init_parser_state r) as Hst0.
  unfold tcp_to_udp. set (r0 := init_parser r) in *.
  assert (Hb := Hok0). destruct Hb as ((Hl0 & Hps0 & Hbp0) & _).
  assert (Ht : tcp_sock r0 = tcp_sock r) by apply Hcfg0.
  rewrite Ht. replace (0 + TCPBUFFERSIZE - buf_ptr r0)
    with (TCPBUFFERSIZE - buf_ptr r0) by lia.
  unfold bind at 1 2 3.
  destruct (sys_read_cases (tcp_sock r) (TCPBUFFERSIZE - buf_ptr r0) w ltac:(lia))
    as [(Hrx & Hd) | [(e & w1 & Hread & Htr) | (data & w1 & Hread & Htr & Hcount)]].
  - (* nothing queued *)
    destruct (sys_read _ _ w) as [[x| |] w1] eqn:Hread; cbn in Hd; try discriminate.
    split; [intros H; contradiction|].
    split; [|split; [lia | intros; discriminate]].
    unfold sys_read in Hread. rewrite Hrx in Hread.
    injection Hread as <-. cbn [snd trace]. eexists. reflexivity.
  - (* read fails *)
    rewrite Hread.
    split; [cbn; discriminate|].
    split; [|split; [lia | intros; discriminate]].
    unfold err_sys, bind, emit, exit. cbn [snd trace]. rewrite Htr.
    rewrite <- app_assoc. eexists. reflexivity.
  - (* some bytes, or none *)
    rewrite Hread.
    destruct (Z.of_nat (length data) =? 0) eqn:Hz.
    { split; [cbn; discriminate|].
      split; [|split; [lia | intros; discriminate]].
      unfold log_printf_exit, bind, emit, exit. cbn [snd trace]. rewrite Htr.
      rewrite <- app_assoc. eexists. reflexivity. }
    set (r1 := set_buffer r0 _ _ _).
    assert (Hok1 : parser_ok r1).
    { destruct Hok0 as (_ & Hs0). unfold parser_ok, buf_ok, r1. relay_fields.
      rewrite mem_write_length by (unfold TCPBUFFERSIZE in *; lia).
      repeat split; auto; lia. }
    assert (Hfuel : loop_need r1 <= Z.of_nat (loop_fuel r1)).
    { apply loop_need_fuel. destruct Hok1 as ((_ & ? & _) & _). lia. }
    destruct (parse_loop_ok (loop_fuel r1) r1 w1 Hok1 Hfuel) as (Hnd & Hret).
    split; [intros _; exact Hnd|].
    split; [|split; [lia|]].
    + destruct (parse_loop_extends (loop_fuel r1) r1 w1) as (evs & Hevs).
      exists evs. rewrite Hevs, Htr, <- app_assoc. reflexivity.
    + intros r' w' H. destruct (Hret r' w' H) as (Hok' & Hrest' & Hc & Hs).
      split; [exact Hok'|]. split; [exact Hrest'|]. split.
      * eapply same_config_trans; [exact Hcfg0|].
        eapply same_config_trans; [|exact Hc]. repeat split.
      * intros Hh. apply Hst0. apply (Hs Hh).
Qed.

Lemma udp_to_tcp_relay (r r' : relay) (w w' : world) :
  udp_to_tcp r w = (Ret r', w') ->
  r' = r \/ exists a, r' = set_remote_udpaddr r a.
Proof.
  unfold udp_to_tcp, bind at 1, sys_recvfrom.
  destruct (udp_rx w) as [|[d from|e] rest]; try discriminate.
  - generalize (firstn (Z.to_nat UDPBUFFERSIZE) d). intros data.
    destruct (Z.of_nat (length data) =? 0).
    + unfold ret. intros H. injection H as <- _. now left.
    + unfold sys_send, bind, next_out, emit, ret, err_sys, exit.
      cbn [out_res tcp_rx udp_rx trace].
      destruct (out_res w) as [|[e|] rest']; cbn [out_res tcp_rx udp_rx trace];
        intros H; try discriminate; injection H as <- _; right; eauto.
Qed.

(** ** C9: the parse buffer *)

Lemma reachable_ok (r0 r : relay) :
  state r0 = uninitialized -> length (buf r0) = Z.to_nat TCPBUFFERSIZE ->
  reachable r0 r ->
  length (buf r) = Z.to_nat TCPBUFFERSIZE /\
  (state r = uninitialized \/ parser_ok r).
Proof.
  intros Hst Hlen Hreach.
  induction Hreach as [|r w r' w' _ IH Hstep|r w r' w' _ IH Hstep].
  - auto.
  - destruct IH as (Hl & Hr).
    destruct (tcp_to_udp_ok r w Hl Hr) as (_ & _ & _ & Hret).
    destruct (Hret r' w' Hstep) as (Hok & _).
    split; [apply Hok | now right].
  - destruct IH as (Hl & Hr).
    destruct (udp_to_tcp_relay r r' w w' Hstep) as [-> | (a & ->)]; auto.
Qed.

(** C9.  Start from the relay [main] sets up and let the handlers run any
    number of times, on any input.  Between calls [buf] keeps its 65536
    bytes and, once the parser is initialised,
    [buf <= packet_start <= buf_ptr <= buf + 65536].  The next call of
    [tcp_to_udp] first reads, asking for exactly the room left after
    [buf_ptr], which is between 0 and 65536 bytes, and it comes back or
    exits whenever something is queued. *)
Theorem parse_buffer_invariant (r0 r : relay) :
  state r0 = uninitialized -> length (buf r0) = Z.to_nat TCPBUFFERSIZE ->
  reachable r0 r ->
  length (buf r) = Z.to_nat TCPBUFFERSIZE /\
  (state r <> uninitialized ->
   0 <= packet_start r <= buf_ptr r /\ buf_ptr r <= TCPBUFFERSIZE) /\
  forall w,
    (exists evs,
        trace (snd (tcp_to_udp r w))
        = trace w
          ++ EvRead (tcp_sock r) (TCPBUFFERSIZE - buf_ptr (init_parser r)) :: evs) /\
    0 <= TCPBUFFERSIZE - buf_ptr (init_parser r) <= TCPBUFFERSIZE /\
    (tcp_rx w <> [] -> fst (tcp_to_udp r w) <> Diverge) /\
    (forall r' w',
        tcp_to_udp r w = (Ret r', w') ->
        state r' <> uninitialized /\
        0 <= packet_start r' <= buf_ptr r' /\ buf_ptr r' <= TCPBUFFERSIZE).
Proof.
  intros Hst Hlen Hreach.
  destruct (reachable_ok r0 r Hst Hlen Hreach) as (Hl & Hr).
  split; [exact Hl|]. split.
  - intros Hn. destruct Hr as [? | ((_ & Hp) & _)]; [contradiction | exact Hp].
  - intros w. destruct (tcp_to_udp_ok r w Hl Hr) as (Hnd & Htr & Hcount & Hret).
    repeat split; try apply Hcount; auto.
    + destruct (Hret r' w' H) as ((_ & Hs) & _).
      intros E. now rewrite E in Hs.
    + apply (Hret r' w' H).
    + apply (Hret r' w' H).
    + apply (Hret r' w' H).
Qed.

(** ** C10: the handshake state *)

Lemma parse_step_state (r r' : relay) (w w' : world) :
  parse_step r w = (Ret r', w') ->
  expect_handshake r' = expect_handshake r /\
  ((state r = uninitialized /\ state r' = uninitialized) \/
   (state r <> uninitialized /\
    (state r' = reading_length \/ state r' = reading_packet))).
Proof.
  unfold parse_step. destruct (state r) eqn:Es.
  - unfold ret. intros H. injection H as <- _. auto.
  - destruct (negb _).
    + unfold log_printf_exit, bind, emit, exit. discriminate.
    + unfold log_printf, bind, emit, ret. intros H. injection H as <- _.
      relay_fields. split; [reflexivity|]. right. split; [discriminate | auto].
  - unfold ret. intros H. injection H as <- _. relay_fields.
    split; [reflexivity|]. right. split; [discriminate | auto].
  - unfold bind at 1.
    destruct (send_udp_packet_cases r w) as (w1 & [Hs | (s & Hs)]); rewrite Hs;
      [|discriminate].
    unfold ret. intros H. injection H as <- _. relay_fields.
    split; [reflexivity|]. right. split; [discriminate | auto].
Qed.

Lemma parse_loop_state (fuel : nat) :
  forall (r r' : relay) (w w' : world),
    parse_loop fuel r w = (Ret r', w') ->
    expect_handshake r' = expect_handshake r /\
    (state r' = state r \/
     (state r <> uninitialized /\
      (state r' = reading_length \/ state r' = reading_packet))).
Proof.
  induction fuel as [|fuel IH]; intros r r' w w' H; cbn [parse_loop] in H.
  { discriminate. }
  destruct (_ >=? _) in H.
  2:{ unfold ret in H. injection H as <- _. auto. }
  unfold bind in H.
  destruct (parse_step r w) as [[r1| |] w1] eqn:Hstep; try discriminate.
  destruct (parse_step_state r r1 w w1 Hstep) as (He1 & Hs1).
  destruct (IH r1 r' w1 w' H) as (He & Hs).
  split; [congruence|].
  destruct Hs1 as [(Hu & Hu1) | (Hn & Hs1)].
  - destruct Hs as [Hs | (Hn1 & _)]; [left; congruence | congruence].
  - right. split; [exact Hn|].
    destruct Hs as [Hs | (_ & Hs)]; [rewrite Hs; exact Hs1 | exact Hs].
Qed.

Lemma tcp_to_udp_state (r r' : relay) (w w' : world) :
  tcp_to_udp r w = (Ret r', w') ->
  expect_handshake r' = expect_handshake r /\
  (phase (state r) <= phase (state r'))%nat /\
  state r' <> uninitialized /\
  (state r' = reading_handshake ->
   state r = reading_handshake \/
   (state r = uninitialized /\ expect_handshake r = true)).
Proof.
  unfold tcp_to_udp.
  pose proof (init_parser_config r) as (_ & _ & _ & He0 & _).
  pose proof (init_parser_state r) as Hh0.
  assert (Hp0 : (phase (state r) <= phase (state (init_parser r)))%nat
                /\ state (init_parser r) <> uninitialized).
  { unfold init_parser.
    destruct (state r) eqn:E; [destruct (expect_handshake r)| | |];
      cbn; rewrite ?E; cbn; (split; [lia | discriminate]). }
  set (r0 := init_parser r) in *.
  unfold bind at 1.
  destruct (sys_read _ _ w) as [[[e|data]| |] w1];
    [unfold err_sys, bind, emit, exit; discriminate | | discriminate..].
  - destruct (_ =? 0).
    { unfold log_printf_exit, bind, emit, exit. discriminate. }
    intros H. apply parse_loop_state in H. relay_fields.
    destruct H as (He & Hs). cbn [expect_handshake state set_buffer] in He, Hs.
    destruct Hp0 as (Hp0 & Hn0).
    split; [congruence|].
    destruct Hs as [Hs | (_ & Hs)].
    + rewrite Hs. repeat split; auto.
    + repeat split.
      * destruct Hs as [-> | ->]; cbn; destruct (state r); cbn; lia.
      * destruct Hs as [-> | ->]; discriminate.
      * destruct Hs as [-> | ->]; discriminate.
Qed.

Lemma udp_to_tcp_state (r r' : relay) (w w' : world) :
  udp_to_tcp r w = (Ret r', w') ->
  expect_handshake r' = expect_handshake r /\ state r' = state r.
Proof.
  intros H. destruct (udp_to_tcp_relay r r' w w' H) as [-> | (a & ->)]; auto.
Qed.

(** C10.  Along any sequence of handler calls the state never moves back:
    from [uninitialized] to [reading_handshake] to the two frame states.
    A relay found in [reading_handshake] either was there already or was
    [uninitialized] with [expect_handshake] set; from [reading_length] or
    [reading_packet] only these two are reached; and a relay that starts
    [uninitialized] without [expect_handshake] is never in
    [reading_handshake]. *)
Theorem handshake_state_once (r r' : relay) :
  reachable r r' ->
  (phase (state r) <= phase (state r'))%nat /\
  (state r' = reading_handshake ->
   state r = reading_handshake \/
   (state r = uninitialized /\ expect_handshake r = true)) /\
  (state r = reading_length \/ state r = reading_packet ->
   state r' = reading_length \/ state r' = reading_packet) /\
  (state r = uninitialized -> expect_handshake r = false ->
   state r' <> reading_handshake).
Proof.
  intros Hreach.
  assert (H : expect_handshake r' = expect_handshake r /\
              (phase (state r) <= phase (state r'))%nat /\
              (state r' = reading_handshake ->
               state r = reading_handshake \/
               (state r = uninitialized /\ expect_handshake r = true))).
  { induction Hreach as [|x w x' w' _ IH Hstep|x w x' w' _ IH Hstep].
    - auto.
    - destruct IH as (He & Hp & Hh).
      destruct (tcp_to_udp_state x x' w w' Hstep) as (He' & Hp' & _ & Hh').
      split; [congruence|]. split; [lia|].
      intros E. destruct (Hh' E) as [E1 | (E1 & E2)]; [auto|].
      right. split; [|congruence].
      rewrite E1 in Hp. cbn in Hp. destruct (state r); cbn in Hp; try lia.
      reflexivity.
    - destruct IH as (He & Hp & Hh).
      destruct (udp_to_tcp_state x x' w w' Hstep) as (He' & Hs').
      rewrite Hs'. split; [congruence | auto]. }
  destruct H as (He & Hp & Hh).
  split; [exact Hp|]. split; [exact Hh|]. split.
  - intros Hs.
    assert (Hp2 : phase (state r) = 2%nat) by (destruct Hs as [-> | ->]; reflexivity).
    rewrite Hp2 in Hp. destruct (state r'); cbn in Hp; try lia; auto.
  - intros Hu Hf E. destruct (Hh E) as [E1 | (_ & E2)]; congruence.
Qed.

Lemma parse_buffer_invariant_witness :
  match tcp_to_udp (client_relay default_handshake 4 3 0)
          (new_world [RxData [x00; x02; x41]] []) with
  | (Ret r, _) =>
      length (buf r) = Z.to_nat TCPBUFFERSIZE /\
      (state r <> uninitialized ->
       0 <= packet_start r <= buf_ptr r /\ buf_ptr r <= TCPBUFFERSIZE)
  | _ => False
  end.
Proof.
  destruct (tcp_to_udp (client_relay default_handshake 4 3 0)
              (new_world [RxData [x00; x02; x41]] [])) as [o w'] eqn:E.
  assert (Ho : match o with Ret _ => True | _ => False end).
  { change o with (fst (o, w')). rewrite <- E. vm_compute. exact I. }
  destruct o as [r| |]; try contradiction.
  destruct (parse_buffer_invariant (client_relay default_handshake 4 3 0) r
              eq_refl relay_zero_buf_length
              (reach_tcp _ _ _ _ _ (reach_refl _) E)) as (H1 & H2 & _).
  split; assumption.
Defined.

Lemma handshake_state_once_witness :
  match tcp_to_udp (server_relay default_handshake 4 3 0 (mkAddr 2 []))
          (new_world [RxData [x75; x64; x70]] []) with
  | (Ret r', _) =>
      (phase uninitialized <= phase (state r'))%nat /\
      (state r' = reading_handshake ->
       uninitialized = reading_handshake \/
       (uninitialized = uninitialized /\ true = true))
  | _ => False
  end.
Proof.
  destruct (tcp_to_udp (server_relay default_handshake 4 3 0 (mkAddr 2 []))
              (new_world [RxData [x75; x64; x70]] [])) as [o w'] eqn:E.
  assert (Ho : match o with Ret _ => True | _ => False end).
  { change o with (fst (o, w')). rewrite <- E. vm_compute. exact I. }
  destruct o as [r'| |]; try contradiction.
  destruct (handshake_state_once
              (server_relay default_handshake 4 3 0 (mkAddr 2 [])) r'
              (reach_tcp _ _ _ _ _ (reach_refl _) E)) as (H1 & H2 & _).
  split; assumption.
Defined.

(** ** C4: the handshake *)

Lemma memcmp_handshake (r : relay) :
  buf_ok r -> HANDSHAKE_SIZE <= buf_ptr r - packet_start r ->
  length (handshake r) = 32%nat ->
  memcmp_eq (skipn (Z.to_nat (packet_start r)) (buf r)) (handshake r) HANDSHAKE_SIZE
  = true
  <-> firstn 32 (pending r) = handshake r.
Proof.
  intros Hok Hlen Hhs. unfold memcmp_eq, HANDSHAKE_SIZE in *.
  rewrite (firstn_skipn_window _ _ 32 (buf_ptr r - packet_start r)) by lia.
  fold (pending r). change (Z.to_nat 32) with 32%nat.
  rewrite (@firstn_all2 _ 32 (handshake r)) by lia.
  apply bytes_eqb_eq.
Qed.

(** The loop on a parser that waits for the handshake. *)
Lemma parse_loop_handshake (fuel : nat) (r : relay) (w : world) :
  buf_ok r -> state r = reading_handshake -> packet_length r = HANDSHAKE_SIZE ->
  length (handshake r) = 32%nat ->
  (buf_ptr r - packet_start r < HANDSHAKE_SIZE ->
   parse_loop (S fuel) r w = (Ret r, w)) /\
  (HANDSHAKE_SIZE <= buf_ptr r - packet_start r ->
   firstn 32 (pending r) <> handshake r ->
   parse_loop (S fuel) r w
   = (Exit 0, add_trace w [EvLog log_info "Received a bad handshake, exiting"])) /\
  (HANDSHAKE_SIZE <= buf_ptr r - packet_start r ->
   firstn 32 (pending r) = handshake r ->
   parse_loop (S fuel) r w
   = parse_loop fuel
       (set_parser
          (set_buffer r (buf r) (buf_ptr r) (packet_start r + HANDSHAKE_SIZE))
          reading_length LENGTH_SIZE)
       (add_trace w [EvLog log_debug "Received a good handshake"])).
Proof.
  intros Hok Hst Hpl Hhs. cbn [parse_loop]. rewrite Hpl.
  split; [|split].
  - intros Hlt.
    replace (buf_ptr r - packet_start r >=? HANDSHAKE_SIZE) with false
      by (symmetry; lia).
    reflexivity.
  - intros Hge Hne.
    replace (buf_ptr r - packet_start r >=? HANDSHAKE_SIZE) with true
      by (symmetry; lia).
    unfold bind, parse_step. rewrite Hst.
    destruct (memcmp_eq _ _ _) eqn:Hcmp.
    + apply memcmp_handshake in Hcmp; auto. contradiction.
    + reflexivity.
  - intros Hge Heq.
    replace (buf_ptr r - packet_start r >=? HANDSHAKE_SIZE) with true
      by (symmetry; lia).
    unfold bind at 1. unfold parse_step. rewrite Hst.
    apply memcmp_handshake in Heq; auto. rewrite Heq. reflexivity.
Qed.

(** One invocation of [tcp_to_udp] while the handshake is awaited. *)
Lemma tcp_to_udp_handshake (r : relay) (seg : list byte)
    (segs : list (list byte)) (w : world) :
  awaiting_handshake (init_parser r) ->
  tcp_rx w = map RxData (seg :: segs) ->
  Forall (fun s => s <> []) (seg :: segs) ->
  exists data segs' count,
    data ++ concat segs' = seg ++ concat segs /\
    Forall (fun s => s <> []) segs' /\
    (list_sum (map rx_size (map RxData segs'))
     < list_sum (map rx_size (map RxData (seg :: segs))))%nat /\
    let seen := pending (init_parser r) ++ data in
    let w1 := mkWorld (map RxData segs') (udp_rx w) (out_res w)
                (trace w ++ [EvRead (tcp_sock r) count]) in
    let r1 := set_buffer (init_parser r)
                (mem_write (buf (init_parser r)) (buf_ptr (init_parser r)) data)
                (buf_ptr (init_parser r) + Z.of_nat (length data)) 0 in
    pending r1 = seen /\ buf_ok r1 /\
    ((length seen < 32)%nat ->
     tcp_to_udp r w = (Ret r1, w1) /\ awaiting_handshake r1) /\
    ((32 <= length seen)%nat -> firstn 32 seen <> handshake r ->
     tcp_to_udp r w
     = (Exit 0, add_trace w1 [EvLog log_info "Received a bad handshake, exiting"])) /\
    ((32 <= length seen)%nat -> firstn 32 seen = handshake r ->
     exists fuel,
       tcp_to_udp r w
       = parse_loop fuel
           (set_parser
              (set_buffer r1 (buf r1) (buf_ptr r1) (packet_start r1 + HANDSHAKE_SIZE))
              reading_length LENGTH_SIZE)
           (add_trace w1 [EvLog log_debug "Received a good handshake"]) /\
       Z.of_nat (length seen) <= Z.of_nat fuel).
Proof.
  intros (Hok & Hst & Hpl & Hps & Hbp & Hhs) Hrx Hsegs.
  pose proof (init_parser_config r) as (_ & _ & Ht & _ & Hh).
  set (r0 := init_parser r) in *.
  assert (Hb := Hok). destruct Hb as (Hlen & Hps' & Hbp').
  unfold HANDSHAKE_SIZE, TCPBUFFERSIZE in *.
  inversion Hsegs as [|? ? Hseg Hsegs']; subst.
  destruct (sys_read_segments (tcp_sock r0) (0 + TCPBUFFERSIZE - buf_ptr r0)
              seg segs w Hrx Hseg ltac:(unfold TCPBUFFERSIZE; lia) Hsegs')
    as (data & segs' & Hread & Hcat & Hdata & Hcount & Hne' & Hlt).
  unfold TCPBUFFERSIZE in *.
  exists data, segs', (0 + 65536 - buf_ptr r0).
  split; [exact Hcat|]. split; [exact Hne'|]. split; [exact Hlt|].
  cbv zeta. rewrite <- Ht, <- Hh.
  set (r1 := set_buffer r0 _ _ 0).
  set (w1 := mkWorld _ _ _ _) in *.
  assert (Hrun : tcp_to_udp r w = parse_loop (loop_fuel r1) r1 w1).
  { unfold tcp_to_udp. fold r0. unfold bind at 1. unfold TCPBUFFERSIZE.
    rewrite Hread. fold w1.
    replace (Z.of_nat (length data) =? 0) with false.
    2:{ symmetry. apply Z.eqb_neq. destruct data; [congruence | cbn; lia]. }
    unfold r1. now rewrite Hps. }
  assert (Hp1 : pending r1 = pending r0 ++ data).
  { unfold pending, r1. relay_fields. rewrite Hps.
    apply mem_read_write_append; lia. }
  assert (Hok1 : buf_ok r1).
  { unfold buf_ok, r1. relay_fields. unfold TCPBUFFERSIZE.
    rewrite mem_write_length by lia. lia. }
  assert (Hl1 : Z.of_nat (length (pending r0 ++ data)) = buf_ptr r1 - packet_start r1).
  { rewrite <- Hp1. apply pending_length. exact Hok1. }
  assert (Hfuel : exists n, loop_fuel r1 = S n /\
                            buf_ptr r1 - packet_start r1 <= Z.of_nat n).
  { unfold loop_fuel. exists (Z.to_nat (2 * (buf_ptr r1 - packet_start r1) + 1)).
    split; lia. }
  destruct Hfuel as (n & Hn & Hnle). rewrite Hn in Hrun.
  destruct (parse_loop_handshake n r1 w1 Hok1 Hst Hpl Hhs) as (Hwait & Hbad & Hgood).
  unfold HANDSHAKE_SIZE in *.
  split; [exact Hp1|]. split; [exact Hok1|]. split; [|split].
  - intros Hshort. rewrite Hrun. split; [apply Hwait; lia|].
    unfold awaiting_handshake, HANDSHAKE_SIZE. repeat split; try apply Hok1; auto.
    unfold r1 in *. relay_fields. cbn [buf_ptr packet_start set_buffer] in Hl1. lia.
  - intros Hlong Hne. rewrite Hrun. rewrite <- Hp1 in Hne. apply Hbad; [lia | exact Hne].
  - intros Hlong Heq. rewrite <- Hp1 in Heq. exists n. rewrite Hrun.
    split; [apply Hgood; [lia | exact Heq] | lia].
Qed.

Lemma awaiting_state (r : relay) :
  awaiting_handshake r -> init_parser r = r.
Proof.
  intros (_ & Hst & _). apply init_parser_idem. congruence.
Qed.

Lemma awaiting_pending_length (r : relay) :
  awaiting_handshake r -> (length (pending r) < 32)%nat.
Proof.
  intros (Hok & _ & _ & Hps & Hbp & _).
  pose proof (pending_length r Hok). unfold HANDSHAKE_SIZE in *. lia.
Qed.

Lemma datagrams_reads (evs : list event) :
  Forall is_read evs -> datagrams evs = [].
Proof.
  induction 1 as [|e evs He _ IH]; [reflexivity|].
  destruct e; try contradiction. exact IH.
Qed.

(** A stream whose first 32 bytes are not the token: the relay reads until
    it has them and exits with status 0. *)
Lemma main_loop_bad_handshake (fuel : nat) :
  forall (segs : list (list byte)) (r : relay) (w : world),
    awaiting_handshake (init_parser r) ->
    tcp_rx w = map RxData segs -> udp_rx w = [] ->
    Forall (fun s => s <> []) segs ->
    (32 <= length (pending (init_parser r) ++ concat segs))%nat ->
    firstn 32 (pending (init_parser r) ++ concat segs) <> handshake r ->
    (run_fuel w <= fuel)%nat ->
    exists w' evs,
      main_loop fuel r w = (Exit 0, w') /\
      trace w'
      = trace w ++ evs ++ [EvLog log_info "Received a bad handshake, exiting"] /\
      Forall is_read evs.
Proof.
  induction fuel as [|fuel IH]; intros segs r w Hwait Hrx Hudp Hsegs Hlen Hne Hfuel.
  { unfold run_fuel in Hfuel. lia. }
  pose proof (awaiting_pending_length _ Hwait) as Hshort.
  cbn [main_loop]. rewrite Hrx, Hudp.
  destruct segs as [|seg segs]; cbn [map orb negb].
  { cbn [concat] in Hlen. rewrite app_nil_r in Hlen. lia. }
  destruct (tcp_to_udp_handshake r seg segs w Hwait Hrx Hsegs)
    as (data & segs' & count & Hcat & Hne' & Hlt & H).
  cbv zeta in H. destruct H as (Hp1 & Hok1 & Hless & Hbad & _).
  set (seen := pending (init_parser r) ++ data) in *.
  set (w1 := mkWorld _ _ _ _) in *.
  set (r1 := set_buffer _ _ _ 0) in *.
  cbn [concat] in Hlen, Hne. rewrite <- Hcat, app_assoc in Hlen, Hne. fold seen in Hlen, Hne.
  unfold bind at 1.
  destruct (Nat.lt_ge_cases (length seen) 32) as [Hlt32 | Hge32].
  - destruct (Hless Hlt32) as (Hrun & Hwait1). rewrite Hrun.
    unfold bind at 1. unfold ret at 1.
    pose proof (awaiting_state _ Hwait1) as Hi.
    assert (Hh1 : handshake r1 = handshake r).
    { unfold r1. relay_fields. apply (init_parser_config r). }
    assert (Hfuel1 : (run_fuel w1 <= fuel)%nat).
    { unfold run_fuel, w1. cbn [tcp_rx udp_rx].
      unfold run_fuel in Hfuel. rewrite Hrx in Hfuel. lia. }
    rewrite <- Hp1, <- Hh1 in Hne. rewrite <- Hp1 in Hlen.
    rewrite <- Hi in Hwait1, Hlen, Hne at 1.
    destruct (IH segs' r1 w1 Hwait1 eq_refl Hudp Hne' Hlen Hne Hfuel1)
      as (w' & evs & Hloop & Htr & Hreads).
    exists w', (EvRead (tcp_sock r) count :: evs). split; [exact Hloop|].
    split; [|constructor; [exact I | exact Hreads]].
    rewrite Htr. unfold w1. cbn [trace]. rewrite <- !app_assoc. reflexivity.
  - rewrite Hbad; auto.
    + eexists. exists [EvRead (tcp_sock r) count]. split; [reflexivity|].
      split; [|repeat constructor].
      unfold add_trace, w1. cbn [trace]. rewrite <- !app_assoc; reflexivity.
    + intros E. apply Hne. rewrite firstn_app.
      replace (32 - length seen)%nat with 0%nat by lia.
      cbn [firstn]. now rewrite app_nil_r.
Qed.

(** A stream that is exactly the token: once the 32 bytes are in, the
    relay has consumed them and waits for a length prefix. *)
Lemma main_loop_good_handshake (fuel : nat) :
  forall (segs : list (list byte)) (r : relay) (w : world),
    awaiting_handshake (init_parser r) ->
    tcp_rx w = map RxData segs -> udp_rx w = [] ->
    Forall (fun s => s <> []) segs ->
    pending (init_parser r) ++ concat segs = handshake r ->
    (run_fuel w <= fuel)%nat ->
    exists r' w' evs,
      main_loop fuel r w = (Ret r', w') /\
      state r' = reading_length /\ packet_length r' = LENGTH_SIZE /\
      packet_start r' = HANDSHAKE_SIZE /\ buf_ptr r' = HANDSHAKE_SIZE /\
      trace w'
      = trace w ++ evs ++ [EvLog log_debug "Received a good handshake"] /\
      Forall is_read evs.
Proof.
  induction fuel as [|fuel IH]; intros segs r w Hwait Hrx Hudp Hsegs Hall Hfuel.
  { unfold run_fuel in Hfuel. lia. }
  pose proof (awaiting_pending_length _ Hwait) as Hshort.
  assert (Hhs : length (handshake r) = 32%nat).
  { pose proof (init_parser_config r) as (_ & _ & _ & _ & Hh).
    rewrite <- Hh. apply Hwait. }
  cbn [main_loop]. rewrite Hrx, Hudp.
  destruct segs as [|seg segs]; cbn [map orb negb].
  { cbn [concat] in Hall. rewrite app_nil_r in Hall. rewrite Hall in Hshort. lia. }
  destruct (tcp_to_udp_handshake r seg segs w Hwait Hrx Hsegs)
    as (data & segs' & count & Hcat & Hne' & Hlt & H).
  cbv zeta in H. destruct H as (Hp1 & Hok1 & Hless & _ & Hgood).
  set (seen := pending (init_parser r) ++ data) in *.
  set (w1 := mkWorld _ _ _ _) in *.
  set (r1 := set_buffer _ _ _ 0) in *.
  cbn [concat] in Hall. rewrite <- Hcat, app_assoc in Hall. fold seen in Hall.
  unfold bind at 1.
  destruct (Nat.lt_ge_cases (length seen) 32) as [Hlt32 | Hge32].
  - destruct (Hless Hlt32) as (Hrun & Hwait1). rewrite Hrun.
    unfold bind at 1. unfold ret at 1.
    pose proof (awaiting_state _ Hwait1) as Hi.
    assert (Hh1 : handshake r1 = handshake r).
    { unfold r1. relay_fields. apply (init_parser_config r). }
    assert (Hfuel1 : (run_fuel w1 <= fuel)%nat).
    { unfold run_fuel, w1. cbn [tcp_rx udp_rx].
      unfold run_fuel in Hfuel. rewrite Hrx in Hfuel. lia. }
    rewrite <- Hp1, <- Hh1 in Hall.
    rewrite <- Hi in Hwait1, Hall at 1.
    destruct (IH segs' r1 w1 Hwait1 eq_refl Hudp Hne' Hall Hfuel1)
      as (r' & w' & evs & Hloop & Hs & Hl & Hp & Hb & Htr & Hreads).
    exists r', w', (EvRead (tcp_sock r) count :: evs). split; [exact Hloop|].
    do 4 (split; [assumption|]).
    split; [|constructor; [exact I | exact Hreads]].
    rewrite Htr. unfold w1. cbn [trace]. rewrite <- !app_assoc; reflexivity.
  - (* the 32nd byte has arrived, and nothing follows it *)
    assert (Hlen : (length seen + length (concat segs') = 32)%nat).
    { rewrite <- length_app, Hall. exact Hhs. }
    assert (Hnil : segs' = []).
    { destruct segs' as [|s segs'']; [reflexivity|].
      inversion Hne' as [|? ? Hs _]; subst. cbn [concat] in Hlen.
      rewrite length_app in Hlen. destruct s; [congruence | cbn in Hlen; lia]. }
    subst segs'. cbn [concat] in Hall. rewrite app_nil_r in Hall.
    destruct (Hgood Hge32) as (n & Hrun & Hn).
    { rewrite firstn_all2 by lia. exact Hall. }
    rewrite Hrun. set (r2 := set_parser _ _ _) in *. set (w2 := add_trace _ _) in *.
    assert (Hb2 : buf_ptr r2 = 32).
    { unfold r2, r1. relay_fields.
      pose proof (pending_length _ Hok1) as Hpl. rewrite Hp1 in Hpl.
      unfold r1 in Hpl. cbn [buf_ptr packet_start set_buffer] in Hpl. lia. }
    assert (Hstop : parse_loop n r2 w2 = (Ret r2, w2)).
    { destruct n as [|n]; [lia|]. cbn [parse_loop].
      replace (buf_ptr r2 - packet_start r2 >=? packet_length r2) with false;
        [reflexivity|].
      symmetry. rewrite Hb2. unfold r2, r1. relay_fields.
      unfold HANDSHAKE_SIZE, LENGTH_SIZE. lia. }
    rewrite Hstop. unfold bind at 1. unfold ret at 1.
    destruct fuel as [|fuel].
    { unfold run_fuel in Hfuel. rewrite Hrx in Hfuel.
      cbn [map list_sum fold_right rx_size] in Hfuel. lia. }
    cbn [main_loop]. unfold w2, w1, add_trace. cbn [tcp_rx udp_rx map].
    rewrite Hudp. cbn [orb negb].
    exists r2. eexists. exists [EvRead (tcp_sock r) count].
    split; [reflexivity|].
    do 2 (split; [reflexivity|]).
    split; [unfold r2, r1; relay_fields; reflexivity|].
    split; [exact Hb2|].
    split; [|repeat constructor].
    cbn [trace]. rewrite <- !app_assoc; reflexivity.
Qed.

Lemma pending_past_handshake (r : relay) :
  buf_ok r -> packet_start r = 0 -> HANDSHAKE_SIZE <= buf_ptr r ->
  pending (set_parser
             (set_buffer r (buf r) (buf_ptr r) (packet_start r + HANDSHAKE_SIZE))
             reading_length LENGTH_SIZE)
  = skipn 32 (pending r).
Proof.
  intros (Hlen & Hps & Hbp) Hz Hge. unfold pending, mem_read. relay_fields.
  rewrite Hz. unfold HANDSHAKE_SIZE in *. cbn [Z.add].
  change (Z.to_nat 32) with 32%nat. change (Z.to_nat 0) with 0%nat.
  change (skipn 0 (buf r)) with (buf r).
  rewrite skipn_firstn_comm. f_equal. lia.
Qed.

(** A stream that opens with the token, whatever follows it: once the 32
    bytes are in, the relay logs the good handshake and goes on from
    [reading_length], with what it has read behind the token as its
    unparsed bytes. *)
Lemma main_loop_token_first (fuel : nat) :
  forall (segs : list (list byte)) (r : relay) (w : world),
    awaiting_handshake (init_parser r) ->
    tcp_rx w = map RxData segs -> udp_rx w = [] ->
    Forall (fun s => s <> []) segs ->
    firstn 32 (pending (init_parser r) ++ concat segs) = handshake r ->
    (run_fuel w <= fuel)%nat ->
    exists seen rest evs r2 w2 n m,
      seen ++ concat rest = pending (init_parser r) ++ concat segs /\
      (32 <= length seen)%nat /\
      Forall is_read evs /\
      trace w2 = trace w ++ evs ++ [EvLog log_debug "Received a good handshake"] /\
      tcp_rx w2 = map RxData rest /\ udp_rx w2 = [] /\ out_res w2 = out_res w /\
      buf_ok r2 /\ same_config (init_parser r) r2 /\
      state r2 = reading_length /\ packet_length r2 = LENGTH_SIZE /\
      packet_start r2 = HANDSHAKE_SIZE /\ pending r2 = skipn 32 seen /\
      main_loop fuel r w = resume n m r2 w2 /\
      loop_need r2 <= Z.of_nat n /\ (run_fuel w2 <= m)%nat.
Proof.
  induction fuel as [|fuel IH]; intros segs r w Hwait Hrx Hudp Hsegs Htok Hfuel.
  { unfold run_fuel in Hfuel. lia. }
  pose proof (awaiting_pending_length _ Hwait) as Hshort.
  assert (Hhs : length (handshake r) = 32%nat).
  { pose proof (init_parser_config r) as (_ & _ & _ & _ & Hh).
    rewrite <- Hh. apply Hwait. }
  cbn [main_loop]. rewrite Hrx, Hudp.
  destruct segs as [|seg segs]; cbn [map orb negb].
  { cbn [concat] in Htok. rewrite app_nil_r in Htok.
    rewrite firstn_all2 in Htok by lia. rewrite Htok in Hshort. lia. }
  destruct (tcp_to_udp_handshake r seg segs w Hwait Hrx Hsegs)
    as (data & segs' & count & Hcat & Hne' & Hlt & H).
  cbv zeta in H. destruct H as (Hp1 & Hok1 & Hless & _ & Hgood).
  set (seen := pending (init_parser r) ++ data) in *.
  set (w1 := mkWorld _ _ _ _) in *.
  set (r1 := set_buffer _ _ _ 0) in *.
  assert (Hall : seen ++ concat segs' = pending (init_parser r) ++ concat (seg :: segs)).
  { unfold seen. cbn [concat]. rewrite <- app_assoc, Hcat. reflexivity. }
  rewrite <- Hall in Htok.
  assert (Hh1 : handshake r1 = handshake r).
  { unfold r1. relay_fields. apply (init_parser_config r). }
  unfold bind at 1.
  destruct (Nat.lt_ge_cases (length seen) 32) as [Hlt32 | Hge32].
  - destruct (Hless Hlt32) as (Hrun & Hwait1). rewrite Hrun.
    unfold bind at 1. unfold ret at 1.
    pose proof (awaiting_state _ Hwait1) as Hi.
    assert (Hfuel1 : (run_fuel w1 <= fuel)%nat).
    { unfold run_fuel, w1. cbn [tcp_rx udp_rx].
      unfold run_fuel in Hfuel. rewrite Hrx in Hfuel. lia. }
    rewrite <- Hp1, <- Hh1 in Htok.
    rewrite <- Hi in Hwait1, Htok at 1.
    destruct (IH segs' r1 w1 Hwait1 eq_refl Hudp Hne' Htok Hfuel1)
      as (seen' & rest & evs & r2 & w2 & n & m & Hs & Hlong & Hreads & Htr & Ht
          & Hu & Ho & Hb2 & Hc2 & H).
    exists seen', rest, (EvRead (tcp_sock r) count :: evs), r2, w2, n, m.
    split. { rewrite Hs, Hi, Hp1. exact Hall. }
    split; [exact Hlong|].
    split; [constructor; [exact I | exact Hreads]|].
    split. { rewrite Htr. unfold w1. cbn [trace]. rewrite <- !app_assoc. reflexivity. }
    split; [exact Ht|]. split; [exact Hu|]. split; [exact Ho|].
    split; [exact Hb2|]. split; [|exact H].
    rewrite Hi in Hc2. destruct Hc2 as (A & B & C & D & E).
    unfold r1 in A, B, C, D, E. cbn [remote_udpaddr udp_sock tcp_sock
      expect_handshake handshake set_buffer] in A, B, C, D, E.
    repeat split; assumption.
  - destruct (Hgood Hge32) as (n & Hrun & Hn).
    { rewrite firstn_app in Htok.
      replace (32 - length seen)%nat with 0%nat in Htok by lia.
      cbn [firstn] in Htok. now rewrite app_nil_r in Htok. }
    rewrite Hrun. set (r2 := set_parser _ _ _) in *. set (w2 := add_trace _ _) in *.
    assert (Hps1 : packet_start r1 = 0) by reflexivity.
    assert (Hbp1 : Z.of_nat (length seen) = buf_ptr r1).
    { pose proof (pending_length _ Hok1) as Hpl. rewrite Hp1 in Hpl.
      rewrite Hps1 in Hpl. lia. }
    exists seen, segs', [EvRead (tcp_sock r) count], r2, w2, n, fuel.
    split; [exact Hall|]. split; [exact Hge32|]. split; [repeat constructor|].
    split. { unfold w2, w1, add_trace. cbn [trace]. rewrite <- !app_assoc. reflexivity. }
    split; [reflexivity|]. split; [exact Hudp|]. split; [reflexivity|].
    split. { destruct Hok1 as (A & B & C). unfold buf_ok, r2. relay_fields.
             unfold HANDSHAKE_SIZE. split; [exact A|]. lia. }
    split. { unfold same_config, r2, r1. relay_fields. repeat split. }
    split; [reflexivity|]. split; [reflexivity|].
    split. { unfold r2. relay_fields. rewrite Hps1. reflexivity. }
    split. { unfold r2. rewrite pending_past_handshake; auto.
             - now rewrite Hp1.
             - unfold HANDSHAKE_SIZE. lia. }
    split.
    + unfold resume, bind.
      destruct (parse_loop n r2 w2) as [[a| |] w']; reflexivity.
    + split.
      * unfold loop_need, r2. relay_fields. rewrite Hps1. unfold HANDSHAKE_SIZE. lia.
      * unfold run_fuel, w2, w1, add_trace. cbn [tcp_rx udp_rx].
        unfold run_fuel in Hfuel. rewrite Hrx, Hudp in Hfuel. rewrite Hudp.
        cbn [length] in *. lia.
Qed.

Lemma init_awaiting (r : relay) :
  state r = uninitialized -> expect_handshake r = true ->
  length (buf r) = Z.to_nat TCPBUFFERSIZE -> length (handshake r) = 32%nat ->
  awaiting_handshake (init_parser r) /\ pending (init_parser r) = [].
Proof.
  intros Hst He Hlen Hhs. unfold init_parser. rewrite Hst, He.
  unfold awaiting_handshake, buf_ok, pending. relay_fields.
  unfold HANDSHAKE_SIZE, TCPBUFFERSIZE in *. repeat split; auto; lia.
Qed.

(** C4.  A relay that expects the handshake is given a stream, cut into
    segments in any way.  If the stream has 32 bytes or more and its first
    32 are not the token, the relay reads until it has them, logs the bad
    handshake and exits with status 0, no datagram sent.  If its first 32
    bytes are the token, whatever follows them, the relay reads until it
    has them and logs the good handshake; it is then past the 32 bytes, in
    [reading_length], waiting for two bytes, with what it has read behind
    the token as its unparsed bytes, and the run goes on from there.  If
    the stream is the token and nothing else, the run ends there, the
    relay waiting for a length prefix. *)
Theorem handshake_strictness (r : relay) (segs : list (list byte)) (w : world) :
  state r = uninitialized -> expect_handshake r = true ->
  length (buf r) = Z.to_nat TCPBUFFERSIZE -> length (handshake r) = 32%nat ->
  tcp_rx w = map RxData segs -> udp_rx w = [] ->
  Forall (fun s => s <> []) segs ->
  ((32 <= length (concat segs))%nat ->
   firstn 32 (concat segs) <> handshake r ->
   exists w' evs,
     run r w = (Exit 0, w') /\
     trace w'
     = trace w ++ evs ++ [EvLog log_info "Received a bad handshake, exiting"] /\
     Forall is_read evs /\
     datagrams (trace w') = datagrams (trace w)) /\
  (firstn 32 (concat segs) = handshake r ->
   exists seen rest evs r2 w2 n m,
     seen ++ concat rest = concat segs /\ (32 <= length seen)%nat /\
     Forall is_read evs /\
     trace w2
     = trace w ++ evs ++ [EvLog log_debug "Received a good handshake"] /\
     tcp_rx w2 = map RxData rest /\ udp_rx w2 = [] /\ out_res w2 = out_res w /\
     buf_ok r2 /\ same_config r r2 /\
     state r2 = reading_length /\ packet_length r2 = LENGTH_SIZE /\
     packet_start r2 = HANDSHAKE_SIZE /\ pending r2 = skipn 32 seen /\
     run r w = resume n m r2 w2 /\
     loop_need r2 <= Z.of_nat n /\ (run_fuel w2 <= m)%nat) /\
  (concat segs = handshake r ->
   exists r' w' evs,
     run r w = (Ret r', w') /\
     state r' = reading_length /\ packet_length r' = LENGTH_SIZE /\
     packet_start r' = HANDSHAKE_SIZE /\ buf_ptr r' = HANDSHAKE_SIZE /\
     trace w'
     = trace w ++ evs ++ [EvLog log_debug "Received a good handshake"] /\
     Forall is_read evs).
Proof.
  intros Hst He Hlen Hhs Hrx Hudp Hsegs.
  destruct (init_awaiting r Hst He Hlen Hhs) as (Hwait & Hpend).
  split; [|split].
  - intros Hlong Hne.
    destruct (main_loop_bad_handshake (run_fuel w) segs r w Hwait Hrx Hudp Hsegs)
      as (w' & evs & Hrun & Htr & Hreads).
    + now rewrite Hpend.
    + now rewrite Hpend.
    + apply Nat.le_refl.
    + exists w', evs. repeat split; auto.
      rewrite Htr, !datagrams_app, (datagrams_reads evs Hreads). cbn.
      now rewrite app_nil_r.
  - intros Htok.
    destruct (main_loop_token_first (run_fuel w) segs r w Hwait Hrx Hudp Hsegs)
      as (seen & rest & evs & r2 & w2 & n & m & Hs & Hlong & Hreads & Htr & Ht
          & Hu & Ho & Hb2 & Hc2 & H).
    + now rewrite Hpend.
    + apply Nat.le_refl.
    + exists seen, rest, evs, r2, w2, n, m.
      rewrite Hpend in Hs. cbn [app] in Hs.
      repeat (split; [assumption|]).
      split; [|exact H].
      pose proof (init_parser_config r) as (A & B & C & D & E).
      destruct Hc2 as (A' & B' & C' & D' & E').
      repeat split; congruence.
  - intros Hall.
    destruct (main_loop_good_handshake (run_fuel w) segs r w Hwait Hrx Hudp Hsegs)
      as (r' & w' & evs & Hrun & H).
    + now rewrite Hpend.
    + apply Nat.le_refl.
    + exists r', w', evs. split; [exact Hrun | exact H].
Qed.

(** The token with its last byte changed, in two segments, one byte
    following; and the token followed by a frame of one byte, the
    segments cut inside the token. *)
Lemma handshake_strictness_witness :
  (exists w' evs,
     run (server_relay default_handshake 4 3 0 (mkAddr 2 []))
         (new_world (map RxData [firstn 31 default_handshake; [x00; x41]]) [])
     = (Exit 0, w') /\
     trace w'
     = [] ++ evs ++ [EvLog log_info "Received a bad handshake, exiting"] /\
     Forall is_read evs /\
     datagrams (trace w') = []) /\
  (exists seen rest evs r2 w2 n m,
     seen ++ concat rest
     = concat [firstn 31 default_handshake; [x91; x00; x01; x41]] /\
     (32 <= length seen)%nat /\
     Forall is_read evs /\
     trace w2 = [] ++ evs ++ [EvLog log_debug "Received a good handshake"] /\
     tcp_rx w2 = map RxData rest /\ udp_rx w2 = [] /\ out_res w2 = [] /\
     buf_ok r2 /\
     same_config (server_relay default_handshake 4 3 0 (mkAddr 2 [])) r2 /\
     state r2 = reading_length /\ packet_length r2 = LENGTH_SIZE /\
     packet_start r2 = HANDSHAKE_SIZE /\ pending r2 = skipn 32 seen /\
     run (server_relay default_handshake 4 3 0 (mkAddr 2 []))
         (new_world
            (map RxData [firstn 31 default_handshake; [x91; x00; x01; x41]]) [])
     = resume n m r2 w2 /\
     loop_need r2 <= Z.of_nat n /\ (run_fuel w2 <= m)%nat).
Proof.
  split.
  - apply (proj1 (handshake_strictness
                    (server_relay default_handshake 4 3 0 (mkAddr 2 []))
                    [firstn 31 default_handshake; [x00; x41]]
                    (new_world
                       (map RxData [firstn 31 default_handshake; [x00; x41]]) [])
                    eq_refl eq_refl relay_zero_buf_length eq_refl eq_refl eq_refl
                    ltac:(repeat constructor; discriminate))).
    + cbn. lia.
    + cbn. discriminate.
  - apply (proj1 (proj2 (handshake_strictness
                    (server_relay default_handshake 4 3 0 (mkAddr 2 []))
                    [firstn 31 default_handshake; [x91; x00; x01; x41]]
                    (new_world
                       (map RxData
                          [firstn 31 default_handshake; [x91; x00; x01; x41]]) [])
                    eq_refl eq_refl relay_zero_buf_length eq_refl eq_refl eq_refl
                    ltac:(repeat constructor; discriminate)))).
    reflexivity.
Defined.

(** ** C2, whatever the segmentation *)

(** [read] when the buffer is full: it is asked for nothing, returns
    nothing, and the relay takes the peer for gone. *)
Lemma tcp_to_udp_full (r : relay) (seg : list byte) (rest : list rx_item)
    (w : world) :
  buf_ptr (init_parser r) = TCPBUFFERSIZE ->
  tcp_rx w = RxData seg :: rest -> seg <> [] ->
  tcp_to_udp r w
  = (Exit 0,
     mkWorld (RxData seg :: rest) (udp_rx w) (out_res w)
       (trace w ++ [EvRead (tcp_sock r) 0;
                    EvLog log_notice "Remote closed the connection"])).
Proof.
  intros Hfull Hrx Hseg.
  pose proof (init_parser_config r) as (_ & _ & Ht & _).
  unfold tcp_to_udp. rewrite Hfull, Ht.
  replace (0 + TCPBUFFERSIZE - TCPBUFFERSIZE) with 0 by lia.
  unfold bind at 1. unfold sys_read. rewrite Hrx.
  replace (Z.of_nat (length seg) <=? 0) with false.
  2:{ symmetry. apply Z.leb_gt. destruct seg; [congruence | cbn [length]; lia]. }
  cbn [Z.to_nat firstn skipn length Z.of_nat Z.eqb].
  unfold log_printf_exit, bind, emit, exit. cbn [tcp_rx udp_rx out_res trace].
  now rewrite <- app_assoc.
Qed.

(** [read] when there is room: the call is the loop run on the buffer with
    the new bytes appended. *)
Lemma tcp_to_udp_read (r : relay) (seg : list byte) (segs : list (list byte))
    (w : world) :
  buf_ok (init_parser r) -> buf_ptr (init_parser r) < TCPBUFFERSIZE ->
  tcp_rx w = map RxData (seg :: segs) ->
  Forall (fun s => s <> []) (seg :: segs) ->
  exists data segs',
    data ++ concat segs' = seg ++ concat segs /\
    Forall (fun s => s <> []) segs' /\
    (list_sum (map rx_size (map RxData segs'))
     < list_sum (map rx_size (map RxData (seg :: segs))))%nat /\
    let r0 := init_parser r in
    let r1 := set_buffer r0 (mem_write (buf r0) (buf_ptr r0) data)
                (buf_ptr r0 + Z.of_nat (length data)) (packet_start r0) in
    let w1 := mkWorld (map RxData segs') (udp_rx w) (out_res w)
                (trace w ++ [EvRead (tcp_sock r) (TCPBUFFERSIZE - buf_ptr r0)]) in
    tcp_to_udp r w = parse_loop (loop_fuel r1) r1 w1 /\
    pending r1 = pending r0 ++ data /\ buf_ok r1 /\
    loop_need r1 <= Z.of_nat (loop_fuel r1).
Proof.
  intros Hok Hroom Hrx Hsegs.
  pose proof (init_parser_config r) as (_ & _ & Ht & _).
  assert (Hb := Hok). destruct Hb as (Hlen & Hps & Hbp).
  inversion Hsegs as [|? ? Hseg Hsegs']; subst.
  destruct (sys_read_segments (tcp_sock (init_parser r))
              (0 + TCPBUFFERSIZE - buf_ptr (init_parser r))
              seg segs w Hrx Hseg ltac:(lia) Hsegs')
    as (data & segs' & Hread & Hcat & Hdata & Hcount & Hne' & Hlt).
  exists data, segs'.
  split; [exact Hcat|]. split; [exact Hne'|]. split; [exact Hlt|].
  cbv zeta. set (r0 := init_parser r) in *.
  set (r1 := set_buffer r0 _ _ _).
  assert (Hok1 : buf_ok r1).
  { unfold buf_ok, r1. relay_fields.
    rewrite mem_write_length by (unfold TCPBUFFERSIZE in *; lia). lia. }
  split; [|split; [|split; [exact Hok1|]]].
  - unfold tcp_to_udp. fold r0. unfold bind at 1. rewrite Hread.
    replace (Z.of_nat (length data) =? 0) with false.
    2:{ symmetry. apply Z.eqb_neq. destruct data; [congruence | cbn; lia]. }
    rewrite Ht. replace (0 + TCPBUFFERSIZE - buf_ptr r0)
      with (TCPBUFFERSIZE - buf_ptr r0) by lia.
    reflexivity.
  - unfold pending, r1. relay_fields.
    apply mem_read_write_append; unfold TCPBUFFERSIZE in *; lia.
  - apply loop_need_fuel. destruct Hok1 as (_ & ? & _). lia.
Qed.

Section Jammed.

Variable payload : list byte.
Let len : Z := Z.of_nat (length payload).
Let frame : list byte := out_packet payload.

Hypothesis len_max : len < 65536.
Hypothesis len_jams : TCPBUFFERSIZE < HANDSHAKE_SIZE + LENGTH_SIZE + len.

(** The loop in front of such a frame: it gets past the handshake and
    the header when they are complete, and sends nothing. *)
Lemma parse_loop_jammed (fuel : nat) :
  forall (r : relay) (fut : list byte) (w : world),
    buf_ok r -> length (handshake r) = 32%nat ->
    jammed len frame r fut -> loop_need r <= Z.of_nat fuel ->
    exists r' evs,
      parse_loop fuel r w = (Ret r', add_trace w evs) /\
      buf_ok r' /\ jammed len frame r' fut /\ at_rest r' /\
      same_config r r' /\ buf_ptr r' = buf_ptr r /\ datagrams evs = [].
Proof.
  induction fuel as [|fuel IH]; intros r fut w Hok Hhs Hj Hfuel.
  { destruct Hok as (_ & ? & _). unfold loop_need in Hfuel.
    destruct (state r); lia. }
  destruct (Z_lt_le_dec (buf_ptr r - packet_start r) (packet_length r))
    as [Hlt | Hge].
  { exists r, []. rewrite add_trace_nil. cbn [parse_loop].
    replace (buf_ptr r - packet_start r >=? packet_length r) with false
      by (symmetry; lia).
    repeat split; try apply Hok; auto. }
  pose proof (pending_length r Hok) as Hpl.
  assert (Hb := Hok). destruct Hb as (Hlen & Hps & Hbp).
  unfold TCPBUFFERSIZE, HANDSHAKE_SIZE, LENGTH_SIZE in *.
  destruct Hj as [Hst Hn Hstart Hpend | Hst Hn Hstart Hpend | Hst Hn Hstart].
  - (* the handshake is complete, and it is the right one *)
    unfold HANDSHAKE_SIZE in *.
    destruct (split_payload _ _ _ _ Hpend) as (Hfirst & Hrest); [lia|].
    rewrite Hhs in Hfirst, Hrest.
    destruct (parse_loop_handshake fuel r w Hok Hst Hn Hhs) as (_ & _ & Hgood).
    rewrite Hgood by (unfold HANDSHAKE_SIZE; auto; lia).
    set (r1 := set_parser _ _ _). set (w1 := add_trace _ _).
    assert (Hp1 : pending r1 = skipn 32 (pending r)).
    { unfold pending, r1. relay_fields. unfold HANDSHAKE_SIZE.
      replace (buf_ptr r - (packet_start r + 32))
        with ((buf_ptr r - packet_start r) - 32) by lia.
      change 32%nat with (Z.to_nat 32). apply mem_read_suffix; lia. }
    destruct (IH r1 fut w1) as (r' & evs & Hrun & Hok' & Hj' & Hrest' & Hcfg & Hbp' & Hd).
    + unfold buf_ok, r1. relay_fields. unfold TCPBUFFERSIZE, HANDSHAKE_SIZE. lia.
    + exact Hhs.
    + apply jammed_length; try reflexivity.
      * unfold r1. relay_fields. lia.
      * rewrite Hp1. exact Hrest.
    + unfold loop_need, r1 in *. relay_fields. rewrite Hst in Hfuel.
      unfold HANDSHAKE_SIZE. lia.
    + exists r', (EvLog log_debug "Received a good handshake" :: evs).
      rewrite Hrun. unfold w1. rewrite add_trace_app. cbn [app].
      repeat split; try apply Hok'; try apply Hcfg; auto.
  - (* the header is complete *)
    unfold HANDSHAKE_SIZE, LENGTH_SIZE in *.
    assert (Hpend' : pending r ++ fut = out_packet payload ++ [])
      by (rewrite app_nil_r; exact Hpend).
    destruct (split_header _ _ _ _ Hpend') as (Hnt & Hrest); [lia | exact len_max |].
    cbn [parse_loop].
    replace (buf_ptr r - packet_start r >=? packet_length r) with true
      by (symmetry; lia).
    unfold bind. rewrite parse_step_length by assumption.
    set (r1 := set_parser _ _ _).
    destruct (IH r1 fut w) as (r' & evs & Hrun & Hok' & Hj' & Hrest' & Hcfg & Hbp' & Hd).
    + unfold buf_ok, r1. relay_fields. unfold TCPBUFFERSIZE, LENGTH_SIZE. lia.
    + exact Hhs.
    + apply jammed_packet; try reflexivity.
      * unfold r1. relay_fields.
        rewrite (ntohs_window _ _ (buf_ptr r - packet_start r)) by lia.
        exact Hnt.
      * unfold r1. relay_fields. unfold HANDSHAKE_SIZE, LENGTH_SIZE. lia.
    + unfold loop_need, r1 in *. relay_fields. rewrite Hst in Hfuel.
      unfold LENGTH_SIZE. lia.
    + exists r', evs. rewrite Hrun.
      repeat split; try apply Hok'; try apply Hcfg; auto.
  - (* the payload would have to end past the buffer *)
    unfold HANDSHAKE_SIZE, LENGTH_SIZE in *. lia.
Qed.

(** A run in front of such a frame, with more bytes to come than the
    buffer has room for: the buffer fills up and the relay exits. *)
Lemma main_loop_jammed (fuel : nat) :
  forall (segs : list (list byte)) (r : relay) (w : world),
    buf_ok (init_parser r) -> length (handshake r) = 32%nat ->
    jammed len frame (init_parser r) (concat segs) ->
    at_rest (init_parser r) ->
    TCPBUFFERSIZE < buf_ptr (init_parser r) + Z.of_nat (length (concat segs)) ->
    tcp_rx w = map RxData segs -> udp_rx w = [] ->
    Forall (fun s => s <> []) segs ->
    (run_fuel w <= fuel)%nat ->
    exists w' evs,
      main_loop fuel r w = (Exit 0, w') /\
      trace w'
      = trace w ++ evs ++ [EvLog log_notice "Remote closed the connection"] /\
      datagrams evs = [].
Proof.
  induction fuel as [|fuel IH];
    intros segs r w Hok Hhs Hj Hrest Hmore Hrx Hudp Hsegs Hfuel.
  { unfold run_fuel in Hfuel. lia. }
  assert (Hb := Hok). destruct Hb as (Hlen & Hps & Hbp).
  cbn [main_loop]. rewrite Hrx, Hudp.
  destruct segs as [|seg segs]; cbn [map orb negb].
  { cbn [concat length] in Hmore. lia. }
  unfold bind at 1.
  destruct (Z.eq_dec (buf_ptr (init_parser r)) TCPBUFFERSIZE) as [Hfull | Hroom].
  - inversion Hsegs as [|? ? Hseg _]; subst.
    rewrite (tcp_to_udp_full r seg (map RxData segs) w Hfull Hrx Hseg).
    eexists. exists [EvRead (tcp_sock r) 0]. split; [reflexivity|].
    split; [reflexivity|reflexivity].
  - destruct (tcp_to_udp_read r seg segs w Hok ltac:(lia) Hrx Hsegs)
      as (data & segs' & Hcat & Hne' & Hlt & H).
    cbv zeta in H. destruct H as (Hrun & Hp1 & Hok1 & Hneed).
    set (r1 := set_buffer _ _ _ _) in *. set (w1 := mkWorld _ _ _ _) in *.
    assert (Hh1 : handshake r1 = handshake r).
    { unfold r1. relay_fields. apply (init_parser_config r). }
    assert (Hj1 : jammed len frame r1 (concat segs')).
    { cbn [concat] in Hj. rewrite <- Hcat in Hj.
      destruct Hj as [Hst Hn Hstart Hpend | Hst Hn Hstart Hpend | Hst Hn Hstart].
      - apply jammed_handshake; auto.
        rewrite Hp1, <- app_assoc, Hpend. unfold r1. relay_fields. reflexivity.
      - apply jammed_length; auto. now rewrite Hp1, <- app_assoc.
      - apply jammed_packet; auto. }
    rewrite <- Hh1 in Hhs.
    destruct (parse_loop_jammed (loop_fuel r1) r1 (concat segs') w1 Hok1 Hhs Hj1 Hneed)
      as (r' & evs & Hloop & Hok' & Hj' & Hrest' & Hcfg & Hbp' & Hd).
    rewrite Hrun, Hloop. unfold bind at 1. unfold ret at 1.
    assert (Hst' : state r' <> uninitialized).
    { destruct Hj' as [E|E|E]; rewrite E; discriminate. }
    pose proof (init_parser_idem r' Hst') as Hi.
    assert (Hmore' : TCPBUFFERSIZE
                     < buf_ptr (init_parser r') + Z.of_nat (length (concat segs'))).
    { rewrite Hi, Hbp'. unfold r1. relay_fields.
      cbn [concat] in Hmore. rewrite <- Hcat in Hmore.
      rewrite length_app in Hmore. lia. }
    assert (Hhs' : length (handshake r') = 32%nat).
    { destruct Hcfg as (_ & _ & _ & _ & E). now rewrite E. }
    assert (Hfuel' : (run_fuel (add_trace w1 evs) <= fuel)%nat).
    { unfold run_fuel, add_trace, w1. cbn [tcp_rx udp_rx].
      unfold run_fuel in Hfuel. rewrite Hrx in Hfuel. lia. }
    rewrite <- Hi in Hok', Hj', Hrest'.
    destruct (IH segs' r' (add_trace w1 evs) Hok' Hhs' Hj' Hrest' Hmore'
                eq_refl Hudp Hne' Hfuel')
      as (w' & evs' & Hmain & Htr & Hd').
    exists w', (EvRead (tcp_sock r) (TCPBUFFERSIZE - buf_ptr (init_parser r))
                :: evs ++ evs').
    split; [exact Hmain|]. split.
    + rewrite Htr. unfold add_trace, w1. cbn [trace app].
      rewrite <- !app_assoc. cbn [app]. reflexivity.
    + cbn [datagrams]. rewrite datagrams_app, Hd, Hd'. reflexivity.
Qed.

End Jammed.

(** In server mode a first frame of more than 65502 bytes is never
    delivered, however the stream is cut: the relay ends up with a full
    buffer, reads nothing and exits with status 0.  The frame of 65534
    bytes of C2 is the case [length payload = 65534]. *)
Lemma server_large_first_frame_jams (r : relay) (payload : list byte)
    (segs : list (list byte)) (w : world) :
  state r = uninitialized -> expect_handshake r = true ->
  length (buf r) = Z.to_nat TCPBUFFERSIZE -> length (handshake r) = 32%nat ->
  TCPBUFFERSIZE - HANDSHAKE_SIZE - LENGTH_SIZE < Z.of_nat (length payload) ->
  Z.of_nat (length payload) <= UDPBUFFERSIZE ->
  tcp_rx w = map RxData segs -> udp_rx w = [] ->
  Forall (fun s => s <> []) segs ->
  concat segs = handshake r ++ out_packet payload ->
  exists w' evs,
    run r w = (Exit 0, w') /\
    trace w'
    = trace w ++ evs ++ [EvLog log_notice "Remote closed the connection"] /\
    datagrams (trace w') = datagrams (trace w).
Proof.
  intros Hst He Hlen Hhs Hbig Hmax Hrx Hudp Hsegs Hstream.
  destruct (init_awaiting r Hst He Hlen Hhs) as (Hwait & Hpend).
  destruct Hwait as (Hok & Hs0 & Hpl0 & Hps0 & Hbp0 & Hhs0).
  pose proof (init_parser_config r) as (_ & _ & _ & _ & Hh).
  assert (Hb := Hok). destruct Hb as (_ & Hps & _).
  unfold UDPBUFFERSIZE, TCPBUFFERSIZE, HANDSHAKE_SIZE, LENGTH_SIZE in *.
  destruct (main_loop_jammed payload ltac:(lia)
              ltac:(unfold TCPBUFFERSIZE, HANDSHAKE_SIZE, LENGTH_SIZE; lia)
              (run_fuel w) segs r w Hok Hhs)
    as (w' & evs & Hrun & Htr & Hd); auto.
  - apply jammed_handshake; auto. now rewrite Hpend, Hh.
  - unfold at_rest. rewrite Hpl0. unfold HANDSHAKE_SIZE. lia.
  - rewrite Hstream, length_app, out_packet_length, Hhs.
    unfold TCPBUFFERSIZE. lia.
  - exists w', evs. split; [exact Hrun|]. split; [exact Htr|].
    rewrite Htr, !datagrams_app, Hd. cbn. now rewrite app_nil_r.
Qed.

(** * The address parser *)

Lemma byte_eqb_eq (a b : byte) : Byte.eqb a b = true <-> a = b.
Proof.
  split; [apply Byte.byte_dec_bl | intros ->; apply Byte.byte_dec_lb; reflexivity].
Qed.

Lemma byte_eqb_neq (a b : byte) : Byte.eqb a b = false <-> a <> b.
Proof.
  rewrite <- byte_eqb_eq. destruct (Byte.eqb a b); split; congruence.
Qed.

Lemma strchr_none (s : list byte) (c : byte) :
  strchr s c = None <-> ~ In c s.
Proof.
  induction s as [|x s IH]; cbn [strchr In]; [tauto|].
  destruct (Byte.eqb x c) eqn:E.
  - apply byte_eqb_eq in E. split; [discriminate | tauto].
  - apply byte_eqb_neq in E. destruct (strchr s c); cbn [option_map].
    + split; [discriminate|]. intros H. exfalso. apply H. right.
      apply Decidable.not_not; [|intros Hn; apply IH in Hn; discriminate].
      destruct (in_dec Byte.byte_eq_dec c s); [left | right]; assumption.
    + split; [|reflexivity]. intros _ [H | H]; [congruence|]. now apply IH.
Qed.

Lemma strchr_first (a b : list byte) (c : byte) :
  ~ In c a -> strchr (a ++ c :: b) c = Some (length a).
Proof.
  induction a as [|x a IH]; intros Hn; cbn [strchr app length].
  - now rewrite (proj2 (byte_eqb_eq c c) eq_refl).
  - cbn [In] in Hn.
    rewrite (proj2 (byte_eqb_neq x c)) by tauto.
    rewrite IH by tauto. reflexivity.
Qed.

Lemma strchr_some (s : list byte) (c : byte) (n : nat) :
  strchr s c = Some n ->
  exists a b, s = a ++ c :: b /\ length a = n /\ ~ In c a.
Proof.
  revert n. induction s as [|x s IH]; intros n H; cbn [strchr] in H; [discriminate|].
  destruct (Byte.eqb x c) eqn:E.
  - apply byte_eqb_eq in E. injection H as <-. subst x.
    exists [], s. repeat split. intros [].
  - apply byte_eqb_neq in E. destruct (strchr s c) as [m|] eqn:Hs; [|discriminate].
    cbn in H. injection H as <-.
    destruct (IH m eq_refl) as (a & b & -> & Hl & Hn).
    exists (x :: a), b. cbn [app length In]. repeat split; [congruence|].
    intros [H | H]; [congruence | tauto].
Qed.

Lemma nonempty_string_some (s t : list byte) :
  nonempty_string s = Some t -> s = t /\ t <> [].
Proof. destruct s; cbn; [discriminate|]. intros H. injection H as <-. split; [reflexivity | discriminate]. Qed.

Lemma skipn_app_cons (a b : list byte) (c : byte) :
  skipn (length a + 1) (a ++ c :: b) = b.
Proof.
  rewrite skipn_app. replace (length a + 1 - length a)%nat with 1%nat by lia.
  rewrite skipn_all2 by lia. reflexivity.
Qed.

Lemma firstn_app_cons (a b : list byte) (c : byte) :
  firstn (length a) (a ++ c :: b) = a.
Proof.
  rewrite firstn_app, Nat.sub_diag, firstn_all. cbn [firstn]. apply app_nil_r.
Qed.

Lemma not_bracketed_test (c0 : byte) (rest : list byte) :
  ~ bracketed (c0 :: rest) ->
  (if Byte.eqb c0 "["%byte then strchr (c0 :: rest) "]"%byte else None) = None.
Proof.
  intros Hn. destruct (Byte.eqb c0 "["%byte) eqn:E; [|reflexivity].
  apply byte_eqb_eq in E. subst c0. apply strchr_none.
  intros [H | H]; [discriminate|]. apply Hn. exists rest. auto.
Qed.

(** X1.  [host:port]: a host without colon that does not open a bracketed
    address, a port without colon.  The host is what stands before the
    colon and the port what stands after it, each dropped when empty. *)
Theorem parse_host_port (host port : list byte) :
  ~ In ":"%byte host -> ~ In ":"%byte port ->
  ~ bracketed (host ++ ":"%byte :: port) ->
  parse_address_port (host ++ ":"%byte :: port)
  = (nonempty_string host, nonempty_string port).
Proof.
  intros Hh Hp Hb. unfold parse_address_port.
  destruct (host ++ ":"%byte :: port) as [|c0 rest] eqn:E.
  { destruct host; discriminate. }
  rewrite (not_bracketed_test c0 rest Hb). rewrite <- E.
  rewrite (strchr_first host port _ Hh).
  rewrite skipn_app_cons.
  rewrite (proj2 (strchr_none port _) Hp).
  rewrite Nat.sub_0_r, firstn_app_cons.
  destruct host; reflexivity.
Qed.

Lemma parse_host_port_witness :
  parse_address_port (String.list_byte_of_string "example.com:8080")
  = (Some (String.list_byte_of_string "example.com"),
     Some (String.list_byte_of_string "8080")).
Proof.
  apply (parse_host_port (String.list_byte_of_string "example.com")
           (String.list_byte_of_string "8080")).
  - cbn. intuition discriminate.
  - cbn. intuition discriminate.
  - intros (rest & H & _). discriminate H.
Defined.

(** X2.  [[address]:port]: whatever stands between the brackets is the
    address, colons included and even when empty; the port is what follows
    the colon after the closing bracket, dropped when empty. *)
Theorem parse_bracketed (address port : list byte) :
  ~ In "]"%byte address ->
  parse_address_port ("["%byte :: address ++ "]"%byte :: ":"%byte :: port)
  = (Some address, nonempty_string port).
Proof.
  intros Ha. unfold parse_address_port.
  cbn [Byte.eqb]. change (Byte.eqb "[" "[") with true. cbv iota.
  assert (Hs : strchr ("["%byte :: address ++ "]"%byte :: ":"%byte :: port) "]"%byte
               = Some (S (length address))).
  { cbn [strchr]. change (Byte.eqb "[" "]") with false. cbv iota.
    now rewrite (strchr_first address _ _ Ha). }
  rewrite Hs. cbv zeta.
  replace (S (length address) - 0 - 1)%nat with (length address) by lia.
  cbn [skipn]. rewrite firstn_app_cons.
  replace (skipn (length address) (address ++ "]"%byte :: ":"%byte :: port))
    with ("]"%byte :: ":"%byte :: port).
  2:{ rewrite skipn_app, Nat.sub_diag, skipn_all. reflexivity. }
  cbn [strchr]. change (Byte.eqb "]" ":") with false.
  change (Byte.eqb ":" ":") with true. cbv iota. cbn [option_map].
  replace (S (length address) + 1 + 1)%nat with (S (length address + 1 + 1)) by lia.
  cbn [skipn].
  replace (length address + 1 + 1)%nat with (length address + 2)%nat by lia.
  rewrite skipn_app. replace (length address + 2 - length address)%nat with 2%nat by lia.
  rewrite skipn_all2 by lia. reflexivity.
Qed.

Lemma parse_bracketed_witness :
  parse_address_port (String.list_byte_of_string "[2001:db8::1]:8080")
  = (Some (String.list_byte_of_string "2001:db8::1"),
     Some (String.list_byte_of_string "8080")).
Proof.
  apply (parse_bracketed (String.list_byte_of_string "2001:db8::1")
           (String.list_byte_of_string "8080")).
  cbn. intuition discriminate.
Defined.

(** X3.  Two colons or more and no bracketed address in front: the whole
    string is the address and there is no port, whatever follows the last
    colon. *)
Theorem parse_unbracketed_colons (a b c : list byte) :
  ~ In ":"%byte a ->
  ~ bracketed (a ++ ":"%byte :: b ++ ":"%byte :: c) ->
  parse_address_port (a ++ ":"%byte :: b ++ ":"%byte :: c)
  = (Some (a ++ ":"%byte :: b ++ ":"%byte :: c), None).
Proof.
  intros Ha Hb. unfold parse_address_port.
  destruct (a ++ ":"%byte :: b ++ ":"%byte :: c) as [|c0 rest] eqn:E.
  { destruct a; discriminate. }
  rewrite (not_bracketed_test c0 rest Hb). rewrite <- E.
  rewrite (strchr_first a _ _ Ha), skipn_app_cons.
  destruct (strchr (b ++ ":"%byte :: c) ":"%byte) eqn:Hs; [reflexivity|].
  apply strchr_none in Hs. exfalso. apply Hs. apply in_or_app. right. now left.
Qed.

Lemma parse_unbracketed_colons_witness :
  parse_address_port (String.list_byte_of_string "2001:db8::1:8080")
  = (Some (String.list_byte_of_string "2001:db8::1:8080"), None).
Proof.
  apply (parse_unbracketed_colons (String.list_byte_of_string "2001")
           (String.list_byte_of_string "db8") (String.list_byte_of_string ":1:8080")).
  - cbn. intuition discriminate.
  - intros (rest & H & _). discriminate H.
Defined.

Lemma nonempty_string_not_nil (s : list byte) : nonempty_string s <> Some [].
Proof. destruct s; cbn; [discriminate|]. intros H. discriminate H. Qed.

Lemma isdigit_not_punct (b : byte) :
  isdigit b = true -> b <> "["%byte /\ b <> ":"%byte.
Proof.
  intros H. split; intros ->; vm_compute in H; discriminate.
Qed.

(** X4.  Without a colon: a string of decimal digits is a port and has no
    address; a string with any other character in it, not opening a
    bracketed address, is an address and has no port. *)
Theorem parse_no_colon (input : list byte) :
  input <> [] ->
  (forallb isdigit input = true ->
   parse_address_port input = (None, Some input)) /\
  (~ In ":"%byte input -> ~ bracketed input -> forallb isdigit input = false ->
   parse_address_port input = (Some input, None)).
Proof.
  intros Hne. destruct input as [|c0 rest]; [congruence|]. split.
  - intros Hd. unfold parse_address_port.
    assert (Hall : forall x, In x (c0 :: rest) -> isdigit x = true)
      by (apply forallb_forall; exact Hd).
    destruct (isdigit_not_punct c0 (Hall c0 (or_introl eq_refl))) as (Hb & _).
    rewrite (proj2 (byte_eqb_neq c0 _) Hb).
    assert (Hc : strchr (c0 :: rest) ":"%byte = None).
    { apply strchr_none. intros Hin.
      destruct (isdigit_not_punct _ (Hall _ Hin)) as (_ & H). congruence. }
    now rewrite Hc, Hd.
  - intros Hc Hb Hd. unfold parse_address_port.
    rewrite (not_bracketed_test c0 rest Hb).
    now rewrite (proj2 (strchr_none _ _) Hc), Hd.
Qed.

Lemma parse_no_colon_witness :
  parse_address_port (String.list_byte_of_string "8080")
  = (None, Some (String.list_byte_of_string "8080")) /\
  parse_address_port (String.list_byte_of_string "localhost")
  = (Some (String.list_byte_of_string "localhost"), None).
Proof.
  split.
  - apply (proj1 (parse_no_colon (String.list_byte_of_string "8080")
                    ltac:(discriminate))).
    reflexivity.
  - apply (proj2 (parse_no_colon (String.list_byte_of_string "localhost")
                    ltac:(discriminate))).
    + cbn. intuition discriminate.
    + intros (rest & H & _). discriminate H.
    + reflexivity.
Defined.

(** X5.  What the parser never returns: a port is never the empty string;
    an address is the empty string only for an input that starts with
    ["[]"]; and nothing at all is returned only for the empty input and
    for [":"]. *)
Theorem parse_never_empty (input : list byte) :
  snd (parse_address_port input) <> Some [] /\
  (fst (parse_address_port input) = Some [] ->
   exists rest, input = "["%byte :: "]"%byte :: rest) /\
  (parse_address_port input = (None, None) <->
   input = [] \/ input = [":"%byte]).
Proof.
  unfold parse_address_port.
  destruct input as [|c0 rest].
  { cbn. repeat split; try discriminate; auto. }
  destruct (if Byte.eqb c0 "["%byte then strchr (c0 :: rest) "]"%byte else None)
    as [p|] eqn:Hbr.
  - (* bracketed *)
    destruct (Byte.eqb c0 "["%byte) eqn:E0; [|discriminate].
    apply byte_eqb_eq in E0. subst c0.
    cbn [strchr] in Hbr. change (Byte.eqb "[" "]") with false in Hbr. cbv iota in Hbr.
    destruct (strchr rest "]"%byte) as [m|] eqn:Hm; [|discriminate].
    cbn in Hbr. injection Hbr as <-.
    destruct (strchr_some _ _ _ Hm) as (a & b & -> & Hl & Hn).
    cbv zeta. cbn [fst snd]. split; [|split].
    + destruct (strchr (skipn _ _) _); [apply nonempty_string_not_nil | discriminate].
    + intros H. injection H as H. cbn [skipn] in H.
      match type of H with
      | firstn ?k _ = _ => replace k with (length a) in H by lia
      end.
      rewrite firstn_app_cons in H. subst a. exists b. reflexivity.
    + split; [discriminate|]. intros [H | H]; discriminate.
  - destruct (strchr (c0 :: rest) ":"%byte) as [p|] eqn:Hc.
    + destruct (strchr_some _ _ _ Hc) as (a & b & Hab & Hl & Hn).
      destruct (strchr (skipn (p + 1) (c0 :: rest)) ":"%byte) eqn:Hc2.
      * cbn [fst snd]. repeat split; try discriminate.
        intros [H | H]; [discriminate|]. injection H as -> ->.
        cbn in Hc. injection Hc as <-. cbn in Hc2. discriminate.
      * cbn [fst snd]. rewrite Hab in *. subst p. rewrite skipn_app_cons in *.
        rewrite Nat.sub_0_r, firstn_app_cons. split; [|split].
        -- apply nonempty_string_not_nil.
        -- destruct a; cbn; [discriminate|]. intros H. discriminate H.
        -- destruct a as [|x a]; cbn [length Nat.eqb].
           ++ destruct b; cbn [nonempty_string app].
              ** split; [auto | reflexivity].
              ** split; [discriminate|]. intros [H | H]; discriminate.
           ++ split; [discriminate|]. intros [H | H]; [discriminate|].
              destruct a; discriminate.
    + destruct (forallb isdigit (c0 :: rest)) eqn:Hd; cbn [fst snd];
        (split; [discriminate|split; [discriminate|]]);
        (split; [discriminate|]); intros [H | H]; try discriminate.
      * injection H as -> ->. cbn in Hc. discriminate.
      * injection H as -> ->. cbn in Hc. discriminate.
Qed.

(** X6.  Whatever is returned is read off the input: when both an address
    and a port come back, the input is [address:port] with no other colon,
    or it is [[address]] followed by some bytes without colon, a colon and
    the port. *)
Theorem parse_both_sound (input address port : list byte) :
  parse_address_port input = (Some address, Some port) ->
  (input = address ++ ":"%byte :: port /\
   ~ In ":"%byte address /\ ~ In ":"%byte port) \/
  (exists junk,
      input = "["%byte :: address ++ "]"%byte :: junk ++ ":"%byte :: port /\
      ~ In "]"%byte address /\ ~ In ":"%byte junk).
Proof.
  unfold parse_address_port.
  destruct input as [|c0 rest]; [discriminate|].
  destruct (if Byte.eqb c0 "["%byte then strchr (c0 :: rest) "]"%byte else None)
    as [p|] eqn:Hbr.
  - destruct (Byte.eqb c0 "["%byte) eqn:E0; [|discriminate].
    apply byte_eqb_eq in E0. subst c0.
    cbn [strchr] in Hbr. change (Byte.eqb "[" "]") with false in Hbr. cbv iota in Hbr.
    destruct (strchr rest "]"%byte) as [m|] eqn:Hm; [|discriminate].
    cbn in Hbr. injection Hbr as <-.
    destruct (strchr_some _ _ _ Hm) as (a & b & -> & Hl & Hn).
    cbv zeta. intros H. injection H as Ha Hp.
    cbn [skipn] in Ha, Hp.
    match type of Ha with
    | firstn ?k _ = _ => replace k with (length a) in Ha by lia
    end.
    rewrite firstn_app_cons in Ha. subst a m.
    rewrite skipn_app, Nat.sub_diag, skipn_all in Hp. cbn [skipn app] in Hp.
    destruct (strchr ("]"%byte :: b) ":"%byte) as [q|] eqn:Hq; [|discriminate].
    destruct (strchr_some _ _ _ Hq) as (j & t & Hj & Hlq & Hnq).
    destruct j as [|j0 j]; [discriminate|]. cbn [app] in Hj. injection Hj as <- ->.
    apply nonempty_string_some in Hp as (Hp & _).
    right. exists j. split; [|split; [exact Hn|]].
    + assert (Ht : t = port).
      { rewrite <- Hp. subst q. cbn [length]. rewrite skipn_app.
        rewrite skipn_all2 by lia.
        replace (length address + S (length j) + 1 - length address)%nat
          with (S (length j + 1)) by lia.
        cbn [skipn app]. now rewrite skipn_app_cons. }
      now rewrite Ht.
    + intros H. apply Hnq. now right.
  - destruct (strchr (c0 :: rest) ":"%byte) as [p|] eqn:Hc.
    + destruct (strchr_some _ _ _ Hc) as (a & b & Hab & Hl & Hn).
      rewrite Hab. subst p. rewrite skipn_app_cons.
      destruct (strchr b ":"%byte) eqn:Hc2; [discriminate|].
      rewrite Nat.sub_0_r, firstn_app_cons.
      intros H. injection H as Ha Hp.
      apply nonempty_string_some in Hp as (-> & _).
      destruct a; cbn in Ha; [discriminate|]. injection Ha as <-.
      left. split; [reflexivity|]. split; [exact Hn|]. now apply strchr_none.
    + destruct (forallb isdigit (c0 :: rest)); discriminate.
Qed.

Lemma parse_both_sound_witness :
  (String.list_byte_of_string "[::1]x:80"
   = String.list_byte_of_string "::1" ++ ":"%byte :: String.list_byte_of_string "80" /\
   ~ In ":"%byte (String.list_byte_of_string "::1") /\
   ~ In ":"%byte (String.list_byte_of_string "80")) \/
  (exists junk,
      String.list_byte_of_string "[::1]x:80"
      = "["%byte :: String.list_byte_of_string "::1" ++ "]"%byte :: junk
        ++ ":"%byte :: String.list_byte_of_string "80" /\
      ~ In "]"%byte (String.list_byte_of_string "::1") /\ ~ In ":"%byte junk).
Proof.
  apply (parse_both_sound (String.list_byte_of_string "[::1]x:80")).
  reflexivity.
Defined.

(** * The tunnel from end to end *)

(** The packet branch of the loop body, wherever the packet lies in the
    buffer. *)
Lemma packet_step (r : relay) (w : world) :
  buf_ok r -> state r = reading_packet ->
  0 <= packet_length r <= buf_ptr r - packet_start r ->
  ss_family (remote_udpaddr r) <> 0 -> out_res w = [] ->
  exists r1,
    parse_step r w
    = (Ret r1,
       add_trace w [sent r (firstn (Z.to_nat (packet_length r)) (pending r))]) /\
    buf_ok r1 /\ state r1 = reading_length /\ packet_length r1 = LENGTH_SIZE /\
    packet_start r1 = 0 /\
    pending r1 = skipn (Z.to_nat (packet_length r)) (pending r) /\
    same_config r r1.
Proof.
  intros Hok Hst Hpl Hfam Hout.
  assert (Hb := Hok). destruct Hb as (Hlen & Hps & Hbp).
  unfold TCPBUFFERSIZE in *.
  rewrite parse_step_packet by assumption.
  rewrite (mem_read_prefix _ _ _ (buf_ptr r - packet_start r)) by lia.
  fold (pending r).
  eexists. split; [reflexivity|]. relay_fields.
  split; [|split; [reflexivity|split; [reflexivity|split; [reflexivity|split]]]].
  - unfold buf_ok. relay_fields. rewrite memmove_length by lia.
    unfold TCPBUFFERSIZE. lia.
  - unfold pending. relay_fields.
    replace (buf_ptr r - (packet_length r + (packet_start r - 0)) - 0)
      with (buf_ptr r - (packet_start r + packet_length r)) by lia.
    rewrite mem_read_memmove by lia.
    replace (buf_ptr r - (packet_start r + packet_length r))
      with ((buf_ptr r - packet_start r) - packet_length r) by lia.
    apply mem_read_suffix; lia.
  - repeat split.
Qed.

Lemma first_fits_max (ds : list (list byte)) :
  Forall (fun d => Z.of_nat (length d) <= UDPBUFFERSIZE) ds ->
  Forall (fun d => Z.of_nat (length d) < 65536) ds.
Proof.
  apply Forall_impl. unfold UDPBUFFERSIZE, TCPBUFFERSIZE. intros; lia.
Qed.

Lemma parse_loop_stop (fuel : nat) (r : relay) (w : world) :
  buf_ptr r - packet_start r < packet_length r ->
  parse_loop (S fuel) r w = (Ret r, w).
Proof.
  intros H. cbn [parse_loop].
  replace (buf_ptr r - packet_start r >=? packet_length r) with false
    by (symmetry; lia).
  reflexivity.
Qed.

(** The loop of a parser in step with a tunnel stream. *)
Lemma parse_loop_tunnel (fuel : nat) :
  forall (r : relay) (fut : list byte) (ds : list (list byte)) (w : world),
    buf_ok r -> length (handshake r) = 32%nat -> tunnel r fut ds ->
    Forall (fun d => Z.of_nat (length d) <= UDPBUFFERSIZE) ds ->
    ss_family (remote_udpaddr r) <> 0 -> out_res w = [] ->
    loop_need r <= Z.of_nat fuel ->
    exists r' evs done ds',
      parse_loop fuel r w = (Ret r', add_trace w evs) /\
      datagrams evs = done /\ ds = done ++ ds' /\
      buf_ok r' /\ tunnel r' fut ds' /\ at_rest r' /\ same_config r r'.
Proof.
  induction fuel as [|fuel IH]; intros r fut ds w Hok Hhs Ht Hds Hfam Hout Hfuel.
  { destruct Hok as (_ & ? & _). unfold loop_need in Hfuel.
    destruct (state r); lia. }
  destruct (Z_lt_le_dec (buf_ptr r - packet_start r) (packet_length r))
    as [Hlt | Hge].
  { exists r, [], [], ds. rewrite add_trace_nil, parse_loop_stop by exact Hlt.
    split; [reflexivity|]. split; [reflexivity|]. split; [reflexivity|].
    split; [exact Hok|]. split; [exact Ht|]. split; [exact Hlt|].
    apply same_config_refl. }
  destruct Ht as [ds Hst Hn Hstart Hfit Hpend | ds Hst Hn Hstart Hfit Hpend
                 | d ds Hst Hn Hstart Hfit Hpend | ds Hs].
  4:{ (* past the first frame *)
      destruct (parse_loop_synced (S fuel) r fut ds w Hok Hs Hds Hfam Hout Hfuel)
        as (r' & done & ds' & Hrun & Hsplit & Hok' & Hs' & Hrest' & Hcfg).
      exists r', (map (sent r) done), done, ds'.
      rewrite datagrams_sent.
      split; [exact Hrun|]. split; [reflexivity|]. split; [exact Hsplit|].
      split; [exact Hok'|]. split; [now apply tunnel_synced|].
      split; [exact Hrest' | exact Hcfg]. }
  all: pose proof (pending_length r Hok) as Hpl.
  all: assert (Hb := Hok); destruct Hb as (Hlen & Hps & Hbp).
  all: unfold TCPBUFFERSIZE, HANDSHAKE_SIZE, LENGTH_SIZE in *.
  - (* the token is complete *)
    unfold HANDSHAKE_SIZE in *.
    destruct (split_payload _ _ _ _ Hpend) as (Hfirst & Hrest); [lia|].
    rewrite Hhs in Hfirst, Hrest.
    destruct (parse_loop_handshake fuel r w Hok Hst Hn Hhs) as (_ & _ & Hgood).
    rewrite Hgood by (unfold HANDSHAKE_SIZE; auto; lia).
    set (r1 := set_parser _ _ _). set (w1 := add_trace _ _).
    assert (Hp1 : pending r1 = skipn 32 (pending r)).
    { unfold pending, r1. relay_fields. unfold HANDSHAKE_SIZE.
      replace (buf_ptr r - (packet_start r + 32))
        with ((buf_ptr r - packet_start r) - 32) by lia.
      change 32%nat with (Z.to_nat 32). apply mem_read_suffix; lia. }
    assert (Hok1 : buf_ok r1).
    { unfold buf_ok, r1. relay_fields. unfold TCPBUFFERSIZE, HANDSHAKE_SIZE. lia. }
    assert (Ht1 : tunnel r1 fut ds).
    { apply tunnel_first_length; try reflexivity; auto.
      - unfold r1. relay_fields. lia.
      - rewrite Hp1. exact Hrest. }
    assert (Hf1 : loop_need r1 <= Z.of_nat fuel).
    { unfold loop_need, r1 in *. relay_fields. rewrite Hst in Hfuel.
      unfold HANDSHAKE_SIZE. lia. }
    destruct (IH r1 fut ds w1 Hok1 Hhs Ht1 Hds Hfam Hout Hf1)
      as (r' & evs & done & ds' & Hrun & Hd & Hsplit & Hok' & Ht' & Hrest' & Hcfg).
    exists r', (EvLog log_debug "Received a good handshake" :: evs), done, ds'.
    rewrite Hrun. unfold w1. rewrite add_trace_app. cbn [app datagrams].
    repeat split; try apply Hok'; try apply Hcfg; auto.
  - (* the first header is complete *)
    unfold HANDSHAKE_SIZE, LENGTH_SIZE in *.
    destruct (frames_nonempty _ _ _ Hpend) as (d & ds' & ->); [lia|].
    cbn [map concat] in Hpend.
    inversion Hds as [|? ? Hd Hds']; subst.
    unfold UDPBUFFERSIZE, TCPBUFFERSIZE in Hd.
    destruct (split_header _ _ _ _ Hpend) as (Hnt & Hrest); [lia|lia|].
    cbn [parse_loop].
    replace (buf_ptr r - packet_start r >=? packet_length r) with true
      by (symmetry; lia).
    unfold bind. rewrite parse_step_length by assumption.
    set (r1 := set_parser _ _ _).
    assert (Hp1 : pending r1 = skipn 2 (pending r)).
    { unfold pending, r1. relay_fields. unfold LENGTH_SIZE.
      replace (buf_ptr r - (packet_start r + 2))
        with ((buf_ptr r - packet_start r) - 2) by lia.
      change 2%nat with (Z.to_nat 2). apply mem_read_suffix; lia. }
    assert (Hok1 : buf_ok r1).
    { unfold buf_ok, r1. relay_fields. unfold TCPBUFFERSIZE, LENGTH_SIZE. lia. }
    assert (Ht1 : tunnel r1 fut (d :: ds')).
    { apply tunnel_first_packet; auto.
      - unfold r1. relay_fields.
        rewrite (ntohs_window _ _ (buf_ptr r - packet_start r)) by lia.
        exact Hnt.
      - unfold r1. relay_fields. unfold HANDSHAKE_SIZE, LENGTH_SIZE. lia.
      - rewrite Hp1. exact Hrest. }
    assert (Hf1 : loop_need r1 <= Z.of_nat fuel).
    { unfold loop_need, r1 in *. relay_fields. rewrite Hst in Hfuel.
      unfold LENGTH_SIZE. lia. }
    destruct (IH r1 fut (d :: ds') w Hok1 Hhs Ht1 Hds Hfam Hout Hf1)
      as (r' & evs & done & ds2 & Hrun & Hdg & Hsplit & Hok' & Ht' & Hrest' & Hcfg).
    exists r', evs, done, ds2. rewrite Hrun.
    repeat split; try apply Hok'; try apply Hcfg; auto.
  - (* the first payload is complete *)
    unfold HANDSHAKE_SIZE, LENGTH_SIZE in *.
    destruct (split_payload _ _ _ _ Hpend) as (Hfirst & Hrest); [lia|].
    inversion Hds as [|? ? Hd Hds']; subst.
    destruct (packet_step r w Hok Hst ltac:(lia) Hfam Hout)
      as (r1 & Hstep & Hok1 & Hst1 & Hpl1 & Hps1 & Hp1 & Hcfg1).
    rewrite Hn, Nat2Z.id in Hstep, Hp1. rewrite Hfirst in Hstep.
    cbn [parse_loop].
    replace (buf_ptr r - packet_start r >=? packet_length r) with true
      by (symmetry; lia).
    unfold bind. rewrite Hstep.
    assert (Hs1 : synced r1 fut ds).
    { apply synced_length; auto. rewrite Hp1. exact Hrest. }
    assert (Hfam1 : ss_family (remote_udpaddr r1) <> 0).
    { destruct Hcfg1 as (E & _). now rewrite E. }
    assert (Hf1 : loop_need r1 <= Z.of_nat fuel).
    { pose proof (pending_length r1 Hok1) as Hl1. rewrite Hp1 in Hl1.
      rewrite length_skipn in Hl1.
      unfold loop_need in *. rewrite Hst in Hfuel. rewrite Hst1. lia. }
    destruct (parse_loop_synced fuel r1 fut ds (add_trace w [sent r d])
                Hok1 Hs1 Hds' Hfam1 Hout Hf1)
      as (r' & done & ds' & Hrun & Hsplit & Hok' & Hs' & Hrest' & Hcfg).
    exists r', (sent r d :: map (sent r1) done), (d :: done), ds'.
    rewrite Hrun, add_trace_app. cbn [app datagrams sent].
    rewrite datagrams_sent.
    split; [reflexivity|]. split; [reflexivity|].
    split; [now rewrite Hsplit|]. split; [exact Hok'|].
    split; [now apply tunnel_synced|]. split; [exact Hrest'|].
    eapply same_config_trans; eauto.
Qed.
Lemma tunnel_state (r : relay) (fut : list byte) (ds : list (list byte)) :
  tunnel r fut ds -> state r <> uninitialized.
Proof.
  intros [? E|? E|? ? E|? Hs]; try (rewrite E; discriminate).
  destruct (synced_state _ _ _ Hs) as [E | E]; rewrite E; discriminate.
Qed.

Lemma tunnel_room (r : relay) (fut : list byte) (ds : list (list byte)) :
  buf_ok r -> tunnel r fut ds -> at_rest r ->
  Forall (fun d => Z.of_nat (length d) <= UDPBUFFERSIZE) ds ->
  buf_ptr r < TCPBUFFERSIZE.
Proof.
  intros Hok Ht Hrest Hds. assert (Hb := Hok). destruct Hb as (_ & Hps & Hbp).
  unfold at_rest in Hrest.
  destruct Ht as [ds _ Hn Hstart _ _ | ds _ Hn Hstart _ _
                 | d ds _ Hn Hstart Hfit _ | ds Hs].
  - unfold TCPBUFFERSIZE, HANDSHAKE_SIZE in *. lia.
  - unfold TCPBUFFERSIZE, HANDSHAKE_SIZE, LENGTH_SIZE in *. lia.
  - cbn [first_fits] in Hfit.
    unfold TCPBUFFERSIZE, HANDSHAKE_SIZE, LENGTH_SIZE in *. lia.
  - pose proof (synced_room _ _ _ Hok Hs Hrest Hds). lia.
Qed.

Lemma tunnel_end (r : relay) (ds : list (list byte)) :
  buf_ok r -> length (handshake r) = 32%nat ->
  tunnel r [] ds -> at_rest r -> ds = [].
Proof.
  intros Hok Hhs Ht Hrest. pose proof (pending_length r Hok) as Hl.
  unfold at_rest in Hrest.
  destruct Ht as [ds _ Hn Hstart _ Hpend | ds _ Hn Hstart _ Hpend
                 | d ds _ Hn Hstart _ Hpend | ds Hs].
  - rewrite app_nil_r in Hpend. apply (f_equal (@length _)) in Hpend.
    rewrite length_app in Hpend. unfold HANDSHAKE_SIZE in *. lia.
  - rewrite app_nil_r in Hpend. apply (f_equal (@length _)) in Hpend.
    destruct ds as [|d ds]; [reflexivity|].
    cbn [map concat] in Hpend. rewrite length_app, out_packet_length in Hpend.
    unfold LENGTH_SIZE in *. lia.
  - rewrite app_nil_r in Hpend. apply (f_equal (@length _)) in Hpend.
    rewrite length_app in Hpend. lia.
  - apply (synced_end r ds Hok Hs Hrest).
Qed.

(** Bytes appended to the buffer are taken off what is still to come. *)
Lemma tunnel_read (r : relay) (data fut : list byte) (ds : list (list byte))
    (b : list byte) (bp : Z) :
  let r1 := set_buffer r b bp (packet_start r) in
  pending r1 = pending r ++ data ->
  tunnel r (data ++ fut) ds -> tunnel r1 fut ds.
Proof.
  intros r1 Hp Ht.
  destruct Ht as [ds Hst Hn Hstart Hfit Hpend | ds Hst Hn Hstart Hfit Hpend
                 | d ds Hst Hn Hstart Hfit Hpend | ds Hs].
  - apply tunnel_handshake; auto. rewrite Hp, <- app_assoc. exact Hpend.
  - apply tunnel_first_length; auto. rewrite Hp, <- app_assoc. exact Hpend.
  - apply tunnel_first_packet; auto. rewrite Hp, <- app_assoc. exact Hpend.
  - apply tunnel_synced.
    destruct Hs as [ds Hst Hn Hstart Hpend | d ds Hst Hn Hstart Hpend].
    + apply synced_length; auto. rewrite Hp, <- app_assoc. exact Hpend.
    + apply synced_packet; auto. rewrite Hp, <- app_assoc. exact Hpend.
Qed.

(** The server side of a run: the token is taken in, then every frame
    comes out as a datagram, whatever the segmentation. *)
Lemma main_loop_tunnel (fuel : nat) :
  forall (segs : list (list byte)) (r : relay) (ds : list (list byte)) (w : world),
    buf_ok (init_parser r) -> length (handshake r) = 32%nat ->
    tunnel (init_parser r) (concat segs) ds -> at_rest (init_parser r) ->
    Forall (fun d => Z.of_nat (length d) <= UDPBUFFERSIZE) ds ->
    ss_family (remote_udpaddr r) <> 0 ->
    out_res w = [] -> udp_rx w = [] -> tcp_rx w = map RxData segs ->
    Forall (fun s => s <> []) segs ->
    (run_fuel w <= fuel)%nat ->
    exists r' w',
      main_loop fuel r w = (Ret r', w') /\
      datagrams (trace w') = datagrams (trace w) ++ ds.
Proof.
  induction fuel as [|fuel IH];
    intros segs r ds w Hok Hhs Ht Hrest Hds Hfam Hout Hudp Hrx Hsegs Hfuel.
  { unfold run_fuel in Hfuel. lia. }
  pose proof (init_parser_config r) as (Ha0 & _ & _ & _ & Hh0).
  cbn [main_loop]. rewrite Hrx, Hudp.
  destruct segs as [|seg segs]; cbn [map orb negb].
  - assert (Hhs0 : length (handshake (init_parser r)) = 32%nat) by congruence.
    pose proof (tunnel_end _ _ Hok Hhs0 Ht Hrest) as ->.
    exists r, w. now rewrite app_nil_r.
  - pose proof (tunnel_room _ _ _ Hok Ht Hrest Hds) as Hroom.
    destruct (tcp_to_udp_read r seg segs w Hok Hroom Hrx Hsegs)
      as (data & segs' & Hcat & Hne' & Hlt & H).
    cbv zeta in H. destruct H as (Hrun & Hp1 & Hok1 & Hneed).
    set (r1 := set_buffer _ _ _ _) in *. set (w1 := mkWorld _ _ _ _) in *.
    assert (Ht1 : tunnel r1 (concat segs') ds).
    { apply (tunnel_read (init_parser r) data); [exact Hp1|].
      cbn [concat] in Ht. now rewrite <- Hcat in Ht. }
    assert (Hhs1 : length (handshake r1) = 32%nat).
    { unfold r1. relay_fields. congruence. }
    assert (Hfam1 : ss_family (remote_udpaddr r1) <> 0).
    { unfold r1. relay_fields. congruence. }
    destruct (parse_loop_tunnel (loop_fuel r1) r1 (concat segs') ds w1
                Hok1 Hhs1 Ht1 Hds Hfam1 Hout Hneed)
      as (r' & evs & done & ds' & Hloop & Hdg & Hsplit & Hok' & Ht' & Hrest' & Hcfg).
    unfold bind at 1. rewrite Hrun, Hloop. unfold bind at 1. unfold ret at 1.
    pose proof (init_parser_idem r' (tunnel_state _ _ _ Ht')) as Hi.
    assert (Hhs' : length (handshake r') = 32%nat).
    { destruct Hcfg as (_ & _ & _ & _ & E). now rewrite E. }
    assert (Hfam' : ss_family (remote_udpaddr r') <> 0).
    { destruct Hcfg as (E & _). now rewrite E. }
    assert (Hds' : Forall (fun d => Z.of_nat (length d) <= UDPBUFFERSIZE) ds').
    { rewrite Hsplit in Hds. now apply Forall_app in Hds. }
    assert (Hfuel' : (run_fuel (add_trace w1 evs) <= fuel)%nat).
    { unfold run_fuel, add_trace, w1. cbn [tcp_rx udp_rx].
      unfold run_fuel in Hfuel. rewrite Hrx in Hfuel. lia. }
    rewrite <- Hi in Hok', Ht', Hrest'.
    destruct (IH segs' r' ds' (add_trace w1 evs) Hok' Hhs' Ht' Hrest' Hds' Hfam'
                Hout Hudp eq_refl Hne' Hfuel')
      as (r2 & w2 & Hmain & Hd2).
    exists r2, w2. split; [exact Hmain|].
    rewrite Hd2. unfold add_trace, w1. cbn [trace].
    rewrite !datagrams_app, Hdg, Hsplit. cbn [datagrams].
    now rewrite app_nil_r, app_assoc.
Qed.

(** The client side: the token, then a frame for every datagram that
    carries bytes. *)
Lemma wire_app (fd : Z) (a b : list event) :
  wire fd (a ++ b) = wire fd a ++ wire fd b.
Proof.
  induction a as [|e a IH]; [reflexivity|].
  destruct e as [| | fd' d dest [e|] | fd' d | |]; cbn [wire app]; auto;
    destruct (fd' =? fd); auto; rewrite IH; now rewrite app_assoc.
Qed.

Lemma main_loop_wire (fuel : nat) :
  forall (ds : list (list byte * sockaddr_storage)) (r : relay) (w : world),
    Forall (fun x => Z.of_nat (length (fst x)) <= UDPBUFFERSIZE) ds ->
    tcp_rx w = [] -> udp_rx w = map dgram_of ds -> out_res w = [] ->
    (run_fuel w <= fuel)%nat ->
    exists r' w',
      main_loop fuel r w = (Ret r', w') /\
      wire (tcp_sock r) (trace w')
      = wire (tcp_sock r) (trace w)
        ++ concat (map out_packet (filter nonempty (map fst ds))).
Proof.
  induction fuel as [|fuel IH]; intros ds r w Hds Htcp Hudp Hout Hfuel.
  { unfold run_fuel in Hfuel. lia. }
  cbn [main_loop]. rewrite Htcp, Hudp.
  destruct ds as [|[d from] ds]; cbn [map orb negb dgram_of fst snd].
  - exists r, w. cbn. now rewrite app_nil_r.
  - inversion Hds as [|? ? Hd Hds']; subst. cbn [fst] in Hd.
    unfold bind at 1. unfold ret at 1. unfold bind at 1.
    rewrite (udp_to_tcp_dgram r d from (map dgram_of ds) w) by assumption.
    set (r1 := if nonempty d then _ else _). set (w1 := mkWorld _ _ _ _).
    assert (Hsock : tcp_sock r1 = tcp_sock r).
    { unfold r1. destruct (nonempty d); reflexivity. }
    destruct (IH ds r1 w1 Hds' Htcp eq_refl eq_refl) as (r' & w' & Hrun & Hst).
    { unfold run_fuel, w1. cbn [tcp_rx udp_rx].
      unfold run_fuel in Hfuel. rewrite Htcp in *. rewrite Hudp in Hfuel.
      cbn [length map list_sum fold_right] in *. lia. }
    exists r', w'. split; [exact Hrun|]. rewrite Hsock in Hst. rewrite Hst.
    unfold w1. cbn [trace]. rewrite wire_app. cbn [filter].
    destruct (nonempty d); cbn [wire map concat app].
    + rewrite Z.eqb_refl. cbn [wire]. now rewrite app_nil_r, <- !app_assoc.
    + now rewrite app_nil_r.
Qed.

Lemma client_session_wire (c : relay) (ds : list (list byte * sockaddr_storage)) :
  length (handshake c) = 32%nat ->
  Forall (fun x => Z.of_nat (length (fst x)) <= UDPBUFFERSIZE) ds ->
  exists c' w',
    client_session c (new_world [] (map dgram_of ds)) = (Ret c', w') /\
    wire (tcp_sock c) (trace w')
    = handshake c ++ concat (map out_packet (filter nonempty (map fst ds))).
Proof.
  intros Hhs Hds. unfold client_session, send_handshake, sys_sendto.
  unfold bind, next_out, emit, ret. cbn [new_world out_res tcp_rx udp_rx trace app].
  set (w1 := mkWorld _ _ _ _).
  destruct (main_loop_wire (run_fuel w1) ds c w1 Hds eq_refl eq_refl eq_refl
              (Nat.le_refl _)) as (c' & w' & Hrun & Hw).
  exists c', w'. unfold run. split; [exact Hrun|]. rewrite Hw.
  unfold w1. cbn [trace wire]. rewrite Z.eqb_refl. cbn [wire].
  rewrite app_nil_r. change (Z.to_nat HANDSHAKE_SIZE) with 32%nat.
  now rewrite firstn_all2 by lia.
Qed.

(** X7.  The tunnel from the client's datagram socket to the server's.
    The client sends the token and frames every datagram it receives; the
    server, with the same token and a known peer, reads the stream in any
    segmentation.  If the first frame fits the buffer beside the token
    (65502 bytes at most) and the others have 65534 bytes at most, the
    server sends on exactly the non-empty datagrams the client received,
    in order, and goes on running. *)
Theorem tunnel_client_to_server (c s : relay)
    (ds : list (list byte * sockaddr_storage)) (segs : list (list byte)) :
  length (handshake c) = 32%nat -> handshake s = handshake c ->
  Forall (fun x => Z.of_nat (length (fst x)) <= UDPBUFFERSIZE) ds ->
  first_fits (filter nonempty (map fst ds)) ->
  state s = uninitialized -> expect_handshake s = true ->
  length (buf s) = Z.to_nat TCPBUFFERSIZE ->
  ss_family (remote_udpaddr s) <> 0 ->
  Forall (fun x => x <> []) segs ->
  concat segs
  = wire (tcp_sock c)
      (trace (snd (client_session c (new_world [] (map dgram_of ds))))) ->
  exists s' w',
    run s (new_world (map RxData segs) []) = (Ret s', w') /\
    datagrams (trace w') = filter nonempty (map fst ds).
Proof.
  intros Hhc Hhs Hds Hfit Hst He Hlen Hfam Hsegs Hstream.
  destruct (client_session_wire c ds Hhc Hds) as (c' & wc & Hrun & Hw).
  rewrite Hrun in Hstream. cbn [snd] in Hstream. rewrite Hw in Hstream.
  set (out := filter nonempty (map fst ds)) in *.
  assert (Hhs32 : length (handshake s) = 32%nat) by congruence.
  destruct (init_awaiting s Hst He Hlen Hhs32) as (Hwait & Hpend).
  destruct Hwait as (Hok & Hs0 & Hpl0 & Hps0 & Hbp0 & _).
  pose proof (init_parser_config s) as (_ & _ & _ & _ & Hh).
  destruct (main_loop_tunnel (run_fuel (new_world (map RxData segs) []))
              segs s out (new_world (map RxData segs) []) Hok Hhs32)
    as (s' & w' & Hmain & Hd); auto.
  - apply tunnel_handshake; auto. rewrite Hpend, Hh, Hhs. exact Hstream.
  - unfold at_rest. rewrite Hpl0, Hps0. lia.
  - unfold out. clear -Hds. induction Hds as [|[d a] ds Hd _ IH]; cbn.
    + constructor.
    + cbn in Hd. destruct (nonempty d); [constructor|]; assumption.
  - exists s', w'. split; [exact Hmain | exact Hd].
Qed.

Lemma tunnel_client_to_server_witness :
  exists s' w',
    run (server_relay default_handshake 4 3 0 (mkAddr 2 []))
        (new_world (map RxData [firstn 20 default_handshake;
                                skipn 20 default_handshake ++ [x00];
                                [x02; x41; x42; x00]; [x01; x43]]) [])
    = (Ret s', w') /\
    datagrams (trace w')
    = filter nonempty
        (map fst [([x41; x42], mkAddr 2 []); ([], mkAddr 2 []); ([x43], mkAddr 2 [])]).
Proof.
  apply (tunnel_client_to_server (client_relay default_handshake 4 3 0)).
  - reflexivity.
  - reflexivity.
  - repeat constructor; cbn; unfold UDPBUFFERSIZE, TCPBUFFERSIZE; lia.
  - cbn. unfold TCPBUFFERSIZE, HANDSHAKE_SIZE, LENGTH_SIZE. lia.
  - reflexivity.
  - reflexivity.
  - exact relay_zero_buf_length.
  - cbn. discriminate.
  - repeat constructor; discriminate.
  - vm_compute. reflexivity.
Defined.

(** * What the stream handler never does *)

Lemma relay_event_config (r r' : relay) (e : event) :
  same_config r r' -> relay_event r' e -> relay_event r e.
Proof.
  intros (Ha & Hu & Ht & _). destruct e; cbn; rewrite ?Ha, ?Hu, ?Ht; auto.
Qed.

Lemma send_udp_packet_events (r : relay) (w : world) :
  Z.of_nat (length (mem_read (buf r) (packet_start r) (packet_length r)))
  <= UDPBUFFERSIZE ->
  exists evs,
    trace (snd (send_udp_packet r w)) = trace w ++ evs /\
    Forall (relay_event r) evs.
Proof.
  intros Hlen. unfold send_udp_packet.
  destruct (ss_family (remote_udpaddr r) =? 0).
  { eexists. split; [reflexivity|]. repeat constructor. }
  unfold sys_sendto, sys_getsockopt_so_error, log_printf, err_sys, bind,
    next_out, emit, ret, exit.
  destruct (out_res w) as [|[e|] rest]; cbn [out_res tcp_rx udp_rx trace snd].
  - eexists. split; [reflexivity|]. repeat constructor. exact Hlen.
  - destruct (negb (e =? ECONNREFUSED)); cbn [out_res tcp_rx udp_rx trace snd].
    + eexists. split; [rewrite <- app_assoc; reflexivity|].
      repeat constructor. exact Hlen.
    + destruct rest as [|[e'|] rest']; cbn [out_res tcp_rx udp_rx trace snd];
        eexists; (split; [rewrite <- ?app_assoc; reflexivity|]);
        repeat constructor; exact Hlen.
  - eexists. split; [reflexivity|]. repeat constructor. exact Hlen.
Qed.

Lemma payload_bound (r : relay) :
  parser_ok2 r -> state r = reading_packet ->
  packet_length r <= buf_ptr r - packet_start r ->
  Z.of_nat (length (mem_read (buf r) (packet_start r) (packet_length r)))
  <= UDPBUFFERSIZE.
Proof.
  intros (((Hlen & Hps & Hbp) & Hst) & H2) Hs Hcond.
  specialize (H2 Hs). rewrite Hs in Hst.
  rewrite mem_read_length by (unfold TCPBUFFERSIZE in *; lia).
  unfold UDPBUFFERSIZE, TCPBUFFERSIZE, LENGTH_SIZE in *. lia.
Qed.

Lemma parse_step_events (r : relay) (w : world) :
  parser_ok2 r -> packet_length r <= buf_ptr r - packet_start r ->
  (exists evs,
      trace (snd (parse_step r w)) = trace w ++ evs /\
      Forall (relay_event r) evs) /\
  forall r' w', parse_step r w = (Ret r', w') -> parser_ok2 r'.
Proof.
  intros Hok2 Hcond. assert (Hok := proj1 Hok2). split.
  - unfold parse_step. destruct (state r) eqn:Es.
    + exists []. split; [now rewrite app_nil_r | constructor].
    + destruct (negb _); eexists; (split; [cbn; reflexivity|]); repeat constructor.
    + exists []. split; [cbn; now rewrite app_nil_r | constructor].
    + pose proof (payload_bound r Hok2 Es Hcond) as Hb.
      destruct (send_udp_packet_events r w Hb) as (evs & Htr & Hev).
      exists evs. split; [|exact Hev].
      unfold bind at 1. destruct (send_udp_packet r w) as [[[]| |] w1];
        cbn [snd] in *; exact Htr.
  - intros r' w' Hstep.
    destruct (parse_step_ok r r' w w' Hok Hcond Hstep) as (Hok' & _ & _ & Hst').
    split; [exact Hok'|]. intros Hp.
    unfold parse_step in Hstep. destruct (state r) eqn:Es.
    + destruct Hok as (_ & F). now rewrite Es in F.
    + destruct (negb _) in Hstep.
      * unfold log_printf_exit, bind, emit, exit in Hstep. discriminate.
      * unfold log_printf, bind, emit, ret in Hstep. injection Hstep as <- _.
        cbn in Hp. discriminate.
    + unfold ret in Hstep. injection Hstep as <- _. relay_fields.
      destruct Hok as ((_ & ? & _) & _). lia.
    + unfold bind at 1 in Hstep.
      destruct (send_udp_packet r w) as [[[]| |] w1]; try discriminate.
      unfold ret in Hstep. injection Hstep as <- _. cbn in Hp. discriminate.
Qed.

Lemma parse_loop_events (fuel : nat) :
  forall (r : relay) (w : world),
    parser_ok2 r ->
    (exists evs,
        trace (snd (parse_loop fuel r w)) = trace w ++ evs /\
        Forall (relay_event r) evs) /\
    forall r' w', parse_loop fuel r w = (Ret r', w') -> parser_ok2 r'.
Proof.
  induction fuel as [|fuel IH]; intros r w Hok2; cbn [parse_loop].
  { split; [|intros; discriminate].
    exists []. split; [cbn; now rewrite app_nil_r | constructor]. }
  destruct (buf_ptr r - packet_start r >=? packet_length r) eqn:Hge.
  2:{ split.
      - exists []. split; [cbn; now rewrite app_nil_r | constructor].
      - intros r' w' H. unfold ret in H. injection H as <- _. exact Hok2. }
  destruct (parse_step_events r w Hok2 ltac:(lia)) as ((evs & Htr & Hev) & Hret).
  unfold bind.
  destruct (parse_step r w) as [[r1| |] w1] eqn:Hstep; cbn [snd] in *.
  - pose proof (Hret r1 w1 eq_refl) as Hok1.
    destruct (parse_step_ok r r1 w w1 (proj1 Hok2) ltac:(lia) Hstep)
      as (_ & _ & Hcfg & _).
    destruct (IH r1 w1 Hok1) as ((evs1 & Htr1 & Hev1) & Hret1).
    split.
    + exists (evs ++ evs1). split; [now rewrite Htr1, Htr, app_assoc|].
      apply Forall_app. split; [exact Hev|].
      eapply Forall_impl; [|exact Hev1]. intros e. now apply relay_event_config.
    + exact Hret1.
  - split; [|intros; discriminate]. exists evs. auto.
  - split; [|intros; discriminate]. exists evs. auto.
Qed.

Lemma init_parser_ok2 (r : relay) :
  length (buf r) = Z.to_nat TCPBUFFERSIZE ->
  state r = uninitialized \/ parser_ok2 r ->
  parser_ok2 (init_parser r).
Proof.
  intros Hlen [Hst | Hok].
  - split; [apply init_parser_ok; auto|].
    unfold init_parser. rewrite Hst.
    destruct (expect_handshake r); cbn; discriminate.
  - rewrite init_parser_idem; [exact Hok|].
    destruct Hok as ((_ & H) & _). destruct (state r); try discriminate. contradiction.
Qed.

Lemma tcp_to_udp_events (r : relay) (w : world) :
  length (buf r) = Z.to_nat TCPBUFFERSIZE ->
  state r = uninitialized \/ parser_ok2 r ->
  (exists evs,
      trace (snd (tcp_to_udp r w)) = trace w ++ evs /\
      Forall (relay_event r) evs) /\
  forall r' w', tcp_to_udp r w = (Ret r', w') -> parser_ok2 r'.
Proof.
  intros Hlen Hr.
  pose proof (init_parser_ok2 r Hlen Hr) as Hok0.
  pose proof (init_parser_config r) as Hcfg0.
  unfold tcp_to_udp. set (r0 := init_parser r) in *.
  assert (Hb := Hok0). destruct Hb as (((Hl0 & Hps0 & Hbp0) & Hs0) & H20).
  assert (Ht : tcp_sock r0 = tcp_sock r) by apply Hcfg0.
  assert (Hrd : relay_event r (EvRead (tcp_sock r0) (0 + TCPBUFFERSIZE - buf_ptr r0))).
  { cbn [relay_event]. split; [exact Ht | unfold TCPBUFFERSIZE in *; lia]. }
  unfold bind at 1 2.
  destruct (sys_read_cases (tcp_sock r0) (0 + TCPBUFFERSIZE - buf_ptr r0) w ltac:(lia))
    as [(Hrx & Hd) | [(e & w1 & Hread & Htr) | (data & w1 & Hread & Htr & Hcount)]].
  - destruct (sys_read _ _ w) as [[x| |] w1] eqn:Hread; cbn in Hd; try discriminate.
    split; [|intros; discriminate].
    unfold sys_read in Hread. rewrite Hrx in Hread. injection Hread as <-.
    cbn [snd trace]. eexists. split; [reflexivity|]. repeat (constructor; [first [exact Hrd | exact I]|]). constructor.
  - rewrite Hread. split; [|intros; discriminate].
    unfold err_sys, bind, emit, exit. cbn [snd trace]. rewrite Htr, <- app_assoc.
    eexists. split; [reflexivity|]. repeat (constructor; [first [exact Hrd | exact I]|]). constructor.
  - rewrite Hread.
    destruct (Z.of_nat (length data) =? 0) eqn:Hz.
    { split; [|intros; discriminate].
      unfold log_printf_exit, bind, emit, exit. cbn [snd trace].
      rewrite Htr, <- app_assoc.
      eexists. split; [reflexivity|]. repeat (constructor; [first [exact Hrd | exact I]|]). constructor. }
    set (r1 := set_buffer r0 _ _ _).
    assert (Hok1 : parser_ok2 r1).
    { unfold parser_ok2, parser_ok, buf_ok, r1. relay_fields.
      rewrite mem_write_length by (unfold TCPBUFFERSIZE in *; lia).
      repeat split; auto; lia. }
    destruct (parse_loop_events (loop_fuel r1) r1 w1 Hok1) as ((evs & Hev & Hall) & Hret).
    split; [|exact Hret].
    exists (EvRead (tcp_sock r0) (0 + TCPBUFFERSIZE - buf_ptr r0) :: evs).
    split; [rewrite Hev, Htr, <- app_assoc; reflexivity|].
    constructor; [exact Hrd|].
    eapply Forall_impl; [|exact Hall]. intros e He.
    apply (relay_event_config r r0 e Hcfg0).
    apply (relay_event_config r0 r1 e); [repeat split | exact He].
Qed.

Lemma reachable_ok2 (r0 r : relay) :
  state r0 = uninitialized -> length (buf r0) = Z.to_nat TCPBUFFERSIZE ->
  reachable r0 r ->
  length (buf r) = Z.to_nat TCPBUFFERSIZE /\
  (state r = uninitialized \/ parser_ok2 r).
Proof.
  intros Hst Hlen Hreach.
  induction Hreach as [|r w r' w' _ IH Hstep|r w r' w' _ IH Hstep].
  - auto.
  - destruct IH as (Hl & Hr).
    destruct (tcp_to_udp_events r w Hl Hr) as (_ & Hret).
    pose proof (Hret r' w' Hstep) as Hok.
    split; [apply Hok | now right].
  - destruct IH as (Hl & Hr).
    destruct (udp_to_tcp_relay r r' w w' Hstep) as [-> | (a & ->)]; auto.
Qed.

(** X8.  What [tcp_to_udp] does to the outside, for any relay the program
    can be in and whatever the stream holds: it reads from the stream
    socket, asking for no more than the buffer has, and beyond logging it
    only calls [sendto] and [getsockopt] on the datagram socket.  Every
    datagram goes to the current peer address and has 65534 bytes at most;
    nothing is ever written on the stream socket. *)
Theorem tcp_to_udp_discipline (r0 r : relay) (w : world) :
  state r0 = uninitialized -> length (buf r0) = Z.to_nat TCPBUFFERSIZE ->
  reachable r0 r ->
  exists evs,
    trace (snd (tcp_to_udp r w)) = trace w ++ evs /\
    Forall (relay_event r) evs /\
    stream_of evs = [].
Proof.
  intros Hst Hlen Hreach.
  destruct (reachable_ok2 r0 r Hst Hlen Hreach) as (Hl & Hr).
  destruct (tcp_to_udp_events r w Hl Hr) as ((evs & Htr & Hev) & _).
  exists evs. split; [exact Htr|]. split; [exact Hev|].
  clear Htr. induction Hev as [|e evs He _ IH]; [reflexivity|].
  destruct e; cbn in He |- *; auto; contradiction.
Qed.

Lemma tcp_to_udp_discipline_witness :
  exists evs,
    trace (snd (tcp_to_udp (server_relay default_handshake 4 3 0 (mkAddr 2 []))
                  (new_world [RxData (default_handshake ++ [x00; x01; x41])] [])))
    = [] ++ evs /\
    Forall (relay_event (server_relay default_handshake 4 3 0 (mkAddr 2 []))) evs /\
    stream_of evs = [].
Proof.
  apply (tcp_to_udp_discipline (server_relay default_handshake 4 3 0 (mkAddr 2 []))).
  - reflexivity.
  - exact relay_zero_buf_length.
  - apply reach_refl.
Defined.

(** * A frame that announces 65535 bytes *)

Lemma ntohs_ffff (t : list byte) : ntohs (xff :: xff :: t) = 65535.
Proof. reflexivity. Qed.

Lemma parse_loop_overlong (fuel : nat) (r : relay) (fut : list byte) (w : world) :
  buf_ok r -> overlong r fut -> (2 <= fuel)%nat ->
  exists r',
    parse_loop fuel r w = (Ret r', w) /\
    buf_ok r' /\ overlong r' fut /\ at_rest r' /\ buf_ptr r' = buf_ptr r /\
    tcp_sock r' = tcp_sock r /\ state r' <> uninitialized.
Proof.
  intros Hok Ho Hfuel.
  destruct fuel as [|[|fuel]]; try lia.
  assert (Hb := Hok). destruct Hb as (Hlen & Hps & Hbp).
  pose proof (pending_length r Hok) as Hpl.
  destruct Ho as [rest Hst Hn Hstart Hpend | Hst Hbig].
  - destruct (Z_lt_le_dec (buf_ptr r - packet_start r) (packet_length r))
      as [Hlt | Hge].
    + exists r. rewrite parse_loop_stop by exact Hlt.
      repeat split; try apply Hok; auto.
      * eapply overlong_length; eauto.
      * rewrite Hst. discriminate.
    + unfold LENGTH_SIZE in *.
      cbn [parse_loop].
      replace (buf_ptr r - packet_start r >=? packet_length r) with true
        by (symmetry; lia).
      unfold bind at 1. rewrite parse_step_length by assumption.
      set (r1 := set_parser _ _ _).
      assert (Hnt : ntohs (skipn (Z.to_nat (packet_start r)) (buf r)) = 65535).
      { rewrite (ntohs_window _ _ (buf_ptr r - packet_start r)) by lia.
        fold (pending r).
        destruct (pending r) as [|a [|b p]]; cbn [length] in Hpl; try lia.
        cbn [app] in Hpend. injection Hpend as -> -> _. reflexivity. }
      replace (buf_ptr r1 - packet_start r1 >=? packet_length r1) with false.
      2:{ symmetry. unfold r1. relay_fields. rewrite Hnt.
          unfold LENGTH_SIZE, TCPBUFFERSIZE in *. lia. }
      exists r1. split; [reflexivity|].
      unfold r1. relay_fields. rewrite Hnt.
      unfold buf_ok, at_rest. relay_fields.
      unfold LENGTH_SIZE, TCPBUFFERSIZE in *.
      repeat split; try lia; auto; try discriminate.
      apply overlong_packet; relay_fields; [reflexivity|].
      rewrite ?Hnt. unfold TCPBUFFERSIZE, LENGTH_SIZE. lia.
  - exists r. rewrite parse_loop_stop by lia.
    repeat split; try apply Hok; auto.
    + now apply overlong_packet.
    + unfold at_rest. lia.
    + rewrite Hst. discriminate.
Qed.

Lemma main_loop_overlong (fuel : nat) :
  forall (segs : list (list byte)) (r : relay) (w : world),
    buf_ok (init_parser r) -> overlong (init_parser r) (concat segs) ->
    TCPBUFFERSIZE < buf_ptr (init_parser r) + Z.of_nat (length (concat segs)) ->
    tcp_rx w = map RxData segs -> udp_rx w = [] ->
    Forall (fun s => s <> []) segs ->
    (run_fuel w <= fuel)%nat ->
    exists w' evs,
      main_loop fuel r w = (Exit 0, w') /\
      trace w'
      = trace w ++ evs ++ [EvLog log_notice "Remote closed the connection"] /\
      Forall is_read evs.
Proof.
  induction fuel as [|fuel IH]; intros segs r w Hok Ho Hmore Hrx Hudp Hsegs Hfuel.
  { unfold run_fuel in Hfuel. lia. }
  assert (Hb := Hok). destruct Hb as (Hlen & Hps & Hbp).
  cbn [main_loop]. rewrite Hrx, Hudp.
  destruct segs as [|seg segs]; cbn [map orb negb].
  { cbn [concat length] in Hmore. lia. }
  unfold bind at 1.
  destruct (Z.eq_dec (buf_ptr (init_parser r)) TCPBUFFERSIZE) as [Hfull | Hroom].
  - inversion Hsegs as [|? ? Hseg _]; subst.
    rewrite (tcp_to_udp_full r seg (map RxData segs) w Hfull Hrx Hseg).
    eexists. exists [EvRead (tcp_sock r) 0]. split; [reflexivity|].
    split; [reflexivity | repeat constructor].
  - destruct (tcp_to_udp_read r seg segs w Hok ltac:(lia) Hrx Hsegs)
      as (data & segs' & Hcat & Hne' & Hlt & H).
    cbv zeta in H. destruct H as (Hrun & Hp1 & Hok1 & Hneed).
    set (r1 := set_buffer _ _ _ _) in *. set (w1 := mkWorld _ _ _ _) in *.
    assert (Ho1 : overlong r1 (concat segs')).
    { cbn [concat] in Ho. rewrite <- Hcat in Ho.
      destruct Ho as [rest Hst Hn Hstart Hpend | Hst Hbig].
      - apply (overlong_length r1 _ rest); auto.
        rewrite Hp1, <- app_assoc. exact Hpend.
      - apply overlong_packet; auto. }
    assert (Hf2 : (2 <= loop_fuel r1)%nat).
    { unfold loop_fuel. destruct Hok1 as (_ & ? & _). lia. }
    destruct (parse_loop_overlong (loop_fuel r1) r1 (concat segs') w1 Hok1 Ho1 Hf2)
      as (r' & Hloop & Hok' & Ho' & Hrest' & Hbp' & Hsock & Hst').
    rewrite Hrun, Hloop. unfold bind at 1. unfold ret at 1.
    pose proof (init_parser_idem r' Hst') as Hi.
    assert (Hmore' : TCPBUFFERSIZE
                     < buf_ptr (init_parser r') + Z.of_nat (length (concat segs'))).
    { rewrite Hi, Hbp'. unfold r1. relay_fields.
      cbn [concat] in Hmore. rewrite <- Hcat in Hmore.
      rewrite length_app in Hmore. lia. }
    assert (Hfuel' : (run_fuel w1 <= fuel)%nat).
    { unfold run_fuel, w1. cbn [tcp_rx udp_rx].
      unfold run_fuel in Hfuel. rewrite Hrx in Hfuel. lia. }
    rewrite <- Hi in Hok', Ho'.
    destruct (IH segs' r' w1 Hok' Ho' Hmore' eq_refl Hudp Hne' Hfuel')
      as (w' & evs' & Hmain & Htr & Hrd).
    exists w', (EvRead (tcp_sock r) (TCPBUFFERSIZE - buf_ptr (init_parser r)) :: evs').
    split; [exact Hmain|]. split.
    + rewrite Htr. unfold w1. cbn [trace app].
      rewrite <- !app_assoc. cbn [app]. reflexivity.
    + constructor; [exact I | exact Hrd].
Qed.

(** X9.  A relay that expects no handshake is given a stream whose first
    frame announces 65535 bytes, and the 65535 bytes or more that follow.
    Whatever the segmentation, the packet is never complete: the relay
    fills its buffer, takes the next [read], which returns nothing, for
    the peer's shutdown, and exits with status 0.  Until then it has only
    read: no datagram is sent and nothing is logged. *)
Theorem overlong_frame_jams (r : relay) (rest : list byte)
    (segs : list (list byte)) (w : world) :
  state r = uninitialized -> expect_handshake r = false ->
  length (buf r) = Z.to_nat TCPBUFFERSIZE ->
  tcp_rx w = map RxData segs -> udp_rx w = [] ->
  Forall (fun s => s <> []) segs ->
  concat segs = xff :: xff :: rest -> 65535 <= Z.of_nat (length rest) ->
  exists w' evs,
    run r w = (Exit 0, w') /\
    trace w'
    = trace w ++ evs ++ [EvLog log_notice "Remote closed the connection"] /\
    Forall is_read evs.
Proof.
  intros Hst He Hlen Hrx Hudp Hsegs Hstream Hrest.
  assert (Hinit : init_parser r
                  = set_buffer (set_parser r reading_length LENGTH_SIZE) (buf r) 0 0).
  { unfold init_parser. now rewrite Hst, He. }
  apply (main_loop_overlong (run_fuel w) segs r w); auto.
  - rewrite Hinit. unfold buf_ok. relay_fields. unfold TCPBUFFERSIZE in *. lia.
  - rewrite Hinit. apply (overlong_length _ _ rest); try reflexivity.
    unfold pending. relay_fields. cbn. exact Hstream.
  - rewrite Hinit. relay_fields. rewrite Hstream. cbn [length].
    unfold TCPBUFFERSIZE. lia.
Qed.

Lemma overlong_frame_jams_witness :
  exists w' evs,
    run (client_relay default_handshake 4 3 0)
        (new_world (map RxData [[xff]; xff :: repeat x41 (Z.to_nat 65535)]) [])
    = (Exit 0, w') /\
    trace w'
    = [] ++ evs ++ [EvLog log_notice "Remote closed the connection"] /\
    Forall is_read evs.
Proof.
  apply (overlong_frame_jams (client_relay default_handshake 4 3 0)
           (repeat x41 (Z.to_nat 65535))
           [[xff]; xff :: repeat x41 (Z.to_nat 65535)]
           (new_world (map RxData [[xff]; xff :: repeat x41 (Z.to_nat 65535)]) [])).
  - reflexivity.
  - reflexivity.
  - exact relay_zero_buf_length.
  - reflexivity.
  - reflexivity.
  - repeat constructor; discriminate.
  - cbn [concat app]. now rewrite app_nil_r.
  - rewrite repeat_length. lia.
Defined.

(** * How a run ends *)

Lemma send_udp_packet_end (r : relay) (w : world) :
  exit_logged (fst (send_udp_packet r w)) (snd (send_udp_packet r w)) /\
  tcp_rx (snd (send_udp_packet r w)) = tcp_rx w /\
  udp_rx (snd (send_udp_packet r w)) = udp_rx w.
Proof.
  unfold send_udp_packet.
  destruct (ss_family (remote_udpaddr r) =? 0).
  { cbn. auto. }
  unfold sys_sendto, sys_getsockopt_so_error, log_printf, err_sys, bind,
    next_out, emit, ret, exit.
  destruct (out_res w) as [|[e|] rest]; cbn [out_res tcp_rx udp_rx trace fst snd].
  - cbn. auto.
  - destruct (negb (e =? ECONNREFUSED)); cbn [out_res tcp_rx udp_rx trace fst snd].
    + split; [|auto]. do 2 eexists. split; [reflexivity|]. cbn. auto.
    + destruct rest as [|[e'|] rest']; cbn [out_res tcp_rx udp_rx trace fst snd];
        (split; [|auto]); try exact I.
      do 2 eexists. split; [reflexivity|]. cbn. auto.
  - cbn. auto.
Qed.

Lemma parse_step_end (r : relay) (w : world) :
  exit_logged (fst (parse_step r w)) (snd (parse_step r w)) /\
  tcp_rx (snd (parse_step r w)) = tcp_rx w /\
  udp_rx (snd (parse_step r w)) = udp_rx w.
Proof.
  unfold parse_step. destruct (state r).
  - cbn. auto.
  - destruct (negb _); cbn [fst snd].
    + split; [|auto]. do 2 eexists. split; [reflexivity|]. cbn. auto.
    + cbn. auto.
  - cbn. auto.
  - unfold bind at 1 2 3 4. pose proof (send_udp_packet_end r w) as H.
    destruct (send_udp_packet r w) as [[[]| |] w1]; cbn [fst snd] in *; auto.
Qed.

Lemma parse_loop_end (fuel : nat) :
  forall (r : relay) (w : world),
    exit_logged (fst (parse_loop fuel r w)) (snd (parse_loop fuel r w)) /\
    tcp_rx (snd (parse_loop fuel r w)) = tcp_rx w /\
    udp_rx (snd (parse_loop fuel r w)) = udp_rx w.
Proof.
  induction fuel as [|fuel IH]; intros r w; cbn [parse_loop].
  { cbn. auto. }
  destruct (_ >=? _); [|cbn; auto].
  unfold bind. pose proof (parse_step_end r w) as H.
  destruct (parse_step r w) as [[r1| |] w1]; cbn [fst snd] in *; auto.
  destruct (IH r1 w1) as (He & Ht & Hu).
  destruct H as (_ & Ht1 & Hu1). rewrite <- Ht1, <- Hu1. auto.
Qed.

Lemma sys_read_queue (fd count : Z) (w : world) (data : list byte) (w' : world) :
  sys_read fd count w = (Ret (inr data), w') -> data <> [] ->
  udp_rx w' = udp_rx w /\ (tcp_queued w' < tcp_queued w)%nat.
Proof.
  unfold sys_read, tcp_queued.
  destruct (tcp_rx w) as [|[l|e] rest]; try discriminate.
  destruct (Z.of_nat (length l) <=? count) eqn:Hfit; intros H Hne;
    injection H as <- <-; cbn [tcp_rx udp_rx map list_sum fold_right rx_size].
  - split; [reflexivity | lia].
  - split; [reflexivity|].
    assert (Hpos : (0 < Z.to_nat count)%nat).
    { destruct (Z.to_nat count); [|lia]. now cbn in Hne. }
    rewrite length_skipn. apply Z.leb_gt in Hfit. lia.
Qed.

Lemma tcp_to_udp_end (r : relay) (w : world) :
  length (buf r) = Z.to_nat TCPBUFFERSIZE ->
  state r = uninitialized \/ parser_ok r ->
  tcp_rx w <> [] ->
  fst (tcp_to_udp r w) <> Diverge /\
  exit_logged (fst (tcp_to_udp r w)) (snd (tcp_to_udp r w)) /\
  udp_rx (snd (tcp_to_udp r w)) = udp_rx w /\
  forall r' w',
    tcp_to_udp r w = (Ret r', w') ->
    parser_ok r' /\ length (buf r') = Z.to_nat TCPBUFFERSIZE /\
    (tcp_queued w' < tcp_queued w)%nat.
Proof.
  intros Hlen Hr Hrx.
  destruct (tcp_to_udp_ok r w Hlen Hr) as (Hnd & _ & Hcount & Hret).
  split; [exact (Hnd Hrx)|].
  unfold tcp_to_udp in *. set (r0 := init_parser r) in *.
  unfold bind at 1 2 3 4. unfold bind at 1 in Hret.
  destruct (sys_read (tcp_sock r0) (0 + TCPBUFFERSIZE - buf_ptr r0) w)
    as [[[e|data]| |] w1] eqn:Hread; cbn [fst snd].
  - split; [|split; [|intros; discriminate]].
    + do 2 eexists. split; [reflexivity|]. cbn. auto.
    + unfold sys_read in Hread.
      destruct (tcp_rx w) as [|[l|e'] rest]; try discriminate.
      * destruct (_ <=? _); discriminate.
      * now injection Hread as _ <-.
  - destruct (Z.of_nat (length data) =? 0) eqn:Hz; cbn [fst snd].
    + split; [|split; [|intros; discriminate]].
      * do 2 eexists. split; [reflexivity|]. cbn. auto.
      * unfold sys_read in Hread.
        destruct (tcp_rx w) as [|[l|e'] rest]; try discriminate.
        destruct (_ <=? _); now injection Hread as _ <-.
    + assert (Hne : data <> []).
      { intros ->. cbn in Hz. discriminate. }
      destruct (sys_read_queue _ _ _ _ _ Hread Hne) as (Hu1 & Hq1).
      match goal with |- context [parse_loop ?f ?x w1] =>
        destruct (parse_loop_end f x w1) as (He & Ht & Hu) end.
      split; [exact He|]. split; [congruence|].
      intros r' w' H. destruct (Hret r' w' H) as (Hok' & _).
      split; [exact Hok'|]. split; [apply Hok'|].
      rewrite H in Ht. cbn [snd] in Ht. unfold tcp_queued in *.
      now rewrite Ht.
  - exfalso. unfold sys_read in Hread.
    destruct (tcp_rx w) as [|[l|e'] rest]; try discriminate.
    destruct (_ <=? _); discriminate.
  - exfalso. unfold sys_read in Hread.
    destruct (tcp_rx w) as [|[l|e'] rest]; try discriminate.
    + contradiction.
    + destruct (_ <=? _); discriminate.
Qed.

Lemma udp_to_tcp_end (r : relay) (w : world) :
  udp_rx w <> [] ->
  fst (udp_to_tcp r w) <> Diverge /\
  exit_logged (fst (udp_to_tcp r w)) (snd (udp_to_tcp r w)) /\
  tcp_rx (snd (udp_to_tcp r w)) = tcp_rx w /\
  (length (udp_rx (snd (udp_to_tcp r w))) < length (udp_rx w))%nat.
Proof.
  intros Hrx.
  unfold udp_to_tcp, sys_recvfrom, sys_send, err_sys, bind, next_out, emit,
    ret, exit.
  destruct (udp_rx w) as [|[d from|e] rest]; [contradiction| |];
    cbn [tcp_rx udp_rx out_res trace fst snd length].
  - generalize (firstn (Z.to_nat UDPBUFFERSIZE) d). intros data.
    destruct (Z.of_nat (length data) =? 0);
      cbn [tcp_rx udp_rx out_res trace fst snd].
    + split; [discriminate|]. split; [exact I|]. split; [reflexivity | lia].
    + destruct (out_res w) as [|[e|] rest'];
        cbn [out_res tcp_rx udp_rx trace fst snd];
        (split; [discriminate|]); (split; [|split; [reflexivity | lia]]);
        try exact I.
      do 2 eexists. split; [reflexivity|]. cbn. auto.
  - split; [discriminate|]. split; [|split; [reflexivity | lia]].
    do 2 eexists. split; [reflexivity|]. cbn. auto.
Qed.

Lemma main_loop_end (fuel : nat) :
  forall (r : relay) (w : world),
    length (buf r) = Z.to_nat TCPBUFFERSIZE ->
    state r = uninitialized \/ parser_ok r ->
    (run_fuel w <= fuel)%nat ->
    match main_loop fuel r w with
    | (Ret _, w') => tcp_rx w' = [] /\ udp_rx w' = []
    | (Exit s, w') => exists t e, trace w' = t ++ [e] /\ exit_reason s e
    | (Diverge, _) => False
    end.
Proof.
  induction fuel as [|fuel IH]; intros r w Hlen Hr Hfuel.
  { unfold run_fuel in Hfuel. lia. }
  cbn [main_loop].
  assert (Hstep1 :
    exists o1 w1, (if match tcp_rx w with [] => false | _ => true end
                   then tcp_to_udp r else ret r) w = (o1, w1) /\
      o1 <> Diverge /\ exit_logged o1 w1 /\
      forall r1, o1 = Ret r1 ->
        length (buf r1) = Z.to_nat TCPBUFFERSIZE /\
        (state r1 = uninitialized \/ parser_ok r1) /\
        udp_rx w1 = udp_rx w /\
        (tcp_queued w1 <= tcp_queued w)%nat /\
        (tcp_rx w <> [] -> (tcp_queued w1 < tcp_queued w)%nat) /\
        (tcp_rx w = [] -> tcp_rx w1 = [])).
  { destruct (tcp_rx w) as [|i rest] eqn:Erx.
    - exists (Ret r), w. split; [reflexivity|]. split; [discriminate|].
      split; [exact I|]. intros r1 H. injection H as <-.
      repeat split; auto. contradiction.
    - assert (Hne : tcp_rx w <> []) by (rewrite Erx; discriminate).
      destruct (tcp_to_udp_end r w Hlen Hr Hne) as (Hnd & He & Hu & Hret).
      destruct (tcp_to_udp r w) as [o1 w1] eqn:E1. cbn [fst snd] in *.
      exists o1, w1. split; [reflexivity|]. split; [exact Hnd|].
      split; [exact He|]. intros r1 ->.
      destruct (Hret r1 w1 eq_refl) as (Hok & Hl & Hq).
      repeat split; auto; try lia. discriminate. }
  destruct Hstep1 as (o1 & w1 & E1 & Hnd1 & He1 & Hret1).
  destruct (negb _) eqn:Hidle.
  { destruct (tcp_rx w); [|discriminate]. destruct (udp_rx w); [|discriminate].
    auto. }
  unfold bind at 1. rewrite E1.
  destruct o1 as [r1|s|]; [|exact He1|contradiction].
  destruct (Hret1 r1 eq_refl) as (Hl1 & Hr1 & Hu1 & Hq1 & Hq1' & Hnil1).
  unfold bind at 1.
  assert (Hstep2 :
    exists o2 w2, (if match udp_rx w with [] => false | _ => true end
                   then udp_to_tcp r1 else ret r1) w1 = (o2, w2) /\
      o2 <> Diverge /\ exit_logged o2 w2 /\
      forall r2, o2 = Ret r2 ->
        length (buf r2) = Z.to_nat TCPBUFFERSIZE /\
        (state r2 = uninitialized \/ parser_ok r2) /\
        (run_fuel w2 < run_fuel w)%nat).
  { destruct (udp_rx w) as [|i rest] eqn:Eux.
    - exists (Ret r1), w1. split; [reflexivity|]. split; [discriminate|].
      split; [exact I|]. intros r2 H. injection H as <-.
      split; [exact Hl1|]. split; [exact Hr1|].
      assert (Hne : tcp_rx w <> []).
      { intros E. rewrite E in Hidle. discriminate. }
      specialize (Hq1' Hne). unfold run_fuel, tcp_queued in *.
      rewrite Hu1, Eux. cbn [length]. lia.
    - assert (Hne : udp_rx w1 <> []) by (rewrite Hu1; discriminate).
      destruct (udp_to_tcp_end r1 w1 Hne) as (Hnd & He & Ht & Hq).
      pose proof (udp_to_tcp_relay r1) as Hrel.
      destruct (udp_to_tcp r1 w1) as [o2 w2] eqn:E2. cbn [fst snd] in *.
      exists o2, w2. split; [reflexivity|]. split; [exact Hnd|].
      split; [exact He|]. intros r2 ->.
      assert (Hcfg : length (buf r2) = Z.to_nat TCPBUFFERSIZE /\
                     (state r2 = uninitialized \/ parser_ok r2)).
      { destruct (Hrel r2 w1 w2 E2) as [-> | (a & ->)]; auto. }
      split; [apply Hcfg|]. split; [apply Hcfg|].
      unfold run_fuel, tcp_queued in *. rewrite Ht, Eux. rewrite Hu1 in Hq. lia. }
  destruct Hstep2 as (o2 & w2 & E2 & Hnd2 & He2 & Hret2).
  rewrite E2. destruct o2 as [r2|s|]; [|exact He2|contradiction].
  destruct (Hret2 r2 eq_refl) as (Hl2 & Hr2 & Hq2).
  apply IH; auto. lia.
Qed.

(** * The datagram side *)

Lemma out_packet_frame (data : list byte) :
  0 < Z.of_nat (length data) <= UDPBUFFERSIZE ->
  firstn (Z.to_nat (Z.of_nat (length data) + LENGTH_SIZE)) (out_packet data)
  = out_packet data /\
  ntohs (out_packet data) = Z.of_nat (length data).
Proof.
  intros Hd. split.
  - apply firstn_all2. rewrite out_packet_length. unfold LENGTH_SIZE. lia.
  - unfold out_packet. apply ntohs_htons.
    unfold UDPBUFFERSIZE, TCPBUFFERSIZE in Hd. lia.
Qed.

(** X11.  What [udp_to_tcp] does to the outside, for any relay and
    whatever the sockets hold: one [recvfrom] of 65534 bytes on the
    datagram socket, and nothing else when it fails (status 1 behind the
    report), blocks, or gives an empty datagram, which leaves the relay as
    it was.  A datagram that is not empty is followed by exactly one
    [send] on the stream socket, of exactly one frame: two bytes that
    give, most significant first, the size of the payload behind them,
    between 1 and 65534.  When the [send] succeeds the relay comes back
    with the sender as its peer address and nothing else changed; when it
    fails the process ends with status 1 behind the report.  No other call
    is made, [sendto] in particular. *)
Theorem udp_to_tcp_discipline (r : relay) (w : world) :
  exists tail,
    trace (snd (udp_to_tcp r w))
    = trace w ++ EvRecvfrom (udp_sock r) UDPBUFFERSIZE :: tail /\
    match udp_rx w with
    | [] => tail = [] /\ fst (udp_to_tcp r w) = Diverge
    | DgramErr _ :: _ =>
        tail = [EvLog log_err "recvfrom(udp)"] /\ fst (udp_to_tcp r w) = Exit 1
    | Dgram d from :: _ =>
        let p := firstn (Z.to_nat UDPBUFFERSIZE) d in
        if nonempty p then
          0 < Z.of_nat (length p) <= UDPBUFFERSIZE /\
          ntohs (out_packet p) = Z.of_nat (length p) /\
          skipn 2 (out_packet p) = p /\
          match hd None (out_res w) with
          | None =>
              tail = [EvSend (tcp_sock r) (out_packet p)] /\
              fst (udp_to_tcp r w) = Ret (set_remote_udpaddr r from)
          | Some _ =>
              tail = [EvSend (tcp_sock r) (out_packet p);
                      EvLog log_err "send(tcp)"] /\
              fst (udp_to_tcp r w) = Exit 1
          end
        else tail = [] /\ fst (udp_to_tcp r w) = Ret r
    end.
Proof.
  unfold udp_to_tcp, sys_recvfrom, sys_send, err_sys, bind, next_out, emit,
    ret, exit.
  destruct (udp_rx w) as [|[d from|e] rest];
    cbn [tcp_rx udp_rx out_res trace fst snd].
  - eexists. split; [reflexivity|]. auto.
  - assert (Hcut : Z.of_nat (length (firstn (Z.to_nat UDPBUFFERSIZE) d))
                   <= UDPBUFFERSIZE).
    { assert (0 <= UDPBUFFERSIZE) by (unfold UDPBUFFERSIZE, TCPBUFFERSIZE; lia).
      rewrite length_firstn. lia. }
    cbv zeta.
    revert Hcut. generalize (firstn (Z.to_nat UDPBUFFERSIZE) d). intros data Hcut.
    destruct (Z.of_nat (length data) =? 0) eqn:Hz;
      cbn [tcp_rx udp_rx out_res trace fst snd].
    + apply Z.eqb_eq in Hz. destruct data; [|cbn in Hz; lia].
      cbn [nonempty]. eexists. split; [reflexivity|]. auto.
    + apply Z.eqb_neq in Hz.
      destruct (out_packet_frame data ltac:(lia)) as (Hfull & Hnt).
      rewrite Hfull.
      replace (nonempty data) with true by (destruct data; [contradiction | easy]).
      relay_fields.
      destruct (out_res w) as [|[e|] rest'];
        cbn [out_res tcp_rx udp_rx trace fst snd hd];
        rewrite <- ?app_assoc; cbn [app];
        (eexists; split; [reflexivity|]);
        (split; [lia|]); (split; [exact Hnt|]); (split; [reflexivity|]); auto.
  - eexists. rewrite <- app_assoc. split; [reflexivity|]. auto.
Qed.

(** X12.  The peer is learned from the datagrams that are relayed: when
    [udp_to_tcp] takes a non-empty datagram and its [send] succeeds, the
    sender becomes the peer address, and whatever the next call of
    [tcp_to_udp] finds on the stream, every datagram it sends goes to
    that sender.  An empty datagram leaves the relay as it was, the peer
    address included. *)
Theorem replies_follow_sender (r0 r : relay) (d : list byte)
    (from : sockaddr_storage) (rest : list dgram_item) (w : world) :
  state r0 = uninitialized -> length (buf r0) = Z.to_nat TCPBUFFERSIZE ->
  reachable r0 r ->
  udp_rx w = Dgram d from :: rest -> hd None (out_res w) = None ->
  exists r1 w1,
    udp_to_tcp r w = (Ret r1, w1) /\
    (d = [] -> r1 = r) /\
    (d <> [] ->
     remote_udpaddr r1 = from /\
     forall w2, exists evs,
       trace (snd (tcp_to_udp r1 w2)) = trace w2 ++ evs /\
       Forall (sent_to from) evs).
Proof.
  intros Hst Hlen Hreach Hrx Hout.
  destruct (reachable_ok2 r0 r Hst Hlen Hreach) as (Hl & Hr).
  assert (Hrun : udp_to_tcp r w
                 = (Ret (if Z.of_nat (length (firstn (Z.to_nat UDPBUFFERSIZE) d)) =? 0
                         then r else set_remote_udpaddr r from),
                    snd (udp_to_tcp r w))).
  { unfold udp_to_tcp, sys_recvfrom, sys_send, err_sys, bind, next_out, emit,
      ret, exit.
    rewrite Hrx. cbn [tcp_rx udp_rx out_res trace fst snd].
    destruct (Z.of_nat (length (firstn (Z.to_nat UDPBUFFERSIZE) d)) =? 0);
      [reflexivity|].
    destruct (out_res w) as [|[e|] rest']; cbn [hd] in Hout; try discriminate;
      reflexivity. }
  do 2 eexists. split; [exact Hrun|]. split.
  - intros ->. reflexivity.
  - intros Hne.
    replace (Z.of_nat (length (firstn (Z.to_nat UDPBUFFERSIZE) d)) =? 0)
      with false.
    2:{ symmetry. apply Z.eqb_neq. rewrite length_firstn.
        destruct d; [contradiction|]. cbn [length].
        unfold UDPBUFFERSIZE, TCPBUFFERSIZE. lia. }
    split; [reflexivity|]. intros w2.
    assert (Hr1 : state (set_remote_udpaddr r from) = uninitialized \/
                  parser_ok2 (set_remote_udpaddr r from)) by exact Hr.
    destruct (tcp_to_udp_events (set_remote_udpaddr r from) w2 Hl Hr1)
      as ((evs & Htr & Hev) & _).
    exists evs. split; [exact Htr|].
    eapply Forall_impl; [|exact Hev].
    intros [| | | | |] He; cbn in He |- *; auto. apply He.
Qed.

Lemma replies_follow_sender_witness :
  exists r1 w1,
    udp_to_tcp (client_relay default_handshake 4 3 0)
               (new_world [] [Dgram [x41] (mkAddr 2 [x7f])]) = (Ret r1, w1) /\
    ([x41] = [] -> r1 = client_relay default_handshake 4 3 0) /\
    ([x41] <> [] ->
     remote_udpaddr r1 = mkAddr 2 [x7f] /\
     forall w2, exists evs,
       trace (snd (tcp_to_udp r1 w2)) = trace w2 ++ evs /\
       Forall (sent_to (mkAddr 2 [x7f])) evs).
Proof.
  apply (replies_follow_sender (client_relay default_handshake 4 3 0)
           (client_relay default_handshake 4 3 0) [x41] (mkAddr 2 [x7f]) []).
  - reflexivity.
  - exact relay_zero_buf_length.
  - apply reach_refl.
  - reflexivity.
  - reflexivity.
Defined.

(** * The socket layer *)

Lemma run_of_ret {A} (a : A) (h : Net.host) (P : outcome A -> list Net.entry -> Prop) :
  P (Ret a) [] -> run_of (Net.ret a) h P.
Proof.
  intros HP. exists []. split; [|exact HP].
  cbn. rewrite app_nil_r. now destruct h.
Qed.

Lemma run_of_ret_eq {A} (a : A) (h : Net.host) :
  run_of (Net.ret a) h (fun o evs => o = Ret a /\ evs = []).
Proof. apply run_of_ret. auto. Qed.

Lemma run_of_bind {A B} (m : Net.M A) (k : A -> Net.M B) (h : Net.host)
    (P : outcome A -> list Net.entry -> Prop)
    (Q : outcome B -> list Net.entry -> Prop) :
  run_of m h P ->
  (forall a evs, P (Ret a) evs ->
     run_of (k a) (later h evs) (fun o evs' => Q o (evs ++ evs'))) ->
  (forall s evs, P (Exit s) evs -> Q (Exit s) evs) ->
  (forall evs, P Diverge evs -> Q Diverge evs) ->
  run_of (Net.bind m k) h Q.
Proof.
  intros (evs & Hh & HP) Hk He Hd. unfold run_of, Net.bind.
  destruct (m h) as [[a|s|] h1]; cbn [fst snd] in *; subst h1.
  - destruct (Hk a evs HP) as (evs' & Hh' & HQ).
    unfold later in *. cbn [Net.os Net.history] in *.
    exists (evs ++ evs'). split; [|exact HQ].
    rewrite Hh'. now rewrite app_assoc.
  - exists evs. split; [reflexivity | now apply He].
  - exists evs. split; [reflexivity | now apply Hd].
Qed.

Lemma run_of_weaken {A} (m : Net.M A) (h : Net.host)
    (P Q : outcome A -> list Net.entry -> Prop) :
  run_of m h P -> (forall o evs, P o evs -> Q o evs) -> run_of m h Q.
Proof. intros (evs & Hh & HP) H. exists evs. auto. Qed.

Lemma run_of_syscall (c : Net.call) (h : Net.host) :
  run_of (Net.syscall c) h
    (fun o evs =>
       o = Ret (Net.os h (Net.history h) c) /\
       evs = [Net.Sys c (Net.ret_val (Net.os h (Net.history h) c))]).
Proof. eexists. split; [reflexivity|]. cbn. auto. Qed.

Lemma run_of_sys_int (c : Net.call) (h : Net.host) :
  run_of (Net.sys_int c) h
    (fun o evs =>
       o = Ret (Net.ret_val (Net.os h (Net.history h) c)) /\
       evs = [Net.Sys c (Net.ret_val (Net.os h (Net.history h) c))]).
Proof. eexists. split; [reflexivity|]. cbn. auto. Qed.

Lemma run_of_err_sys {A} (fmt : string) (args : list Net.arg) (h : Net.host) :
  run_of (@Net.err_sys A fmt args) h
    (fun o evs => o = Exit 1 /\ evs = [Net.Log log_err fmt args]).
Proof. eexists. split; [reflexivity|]. cbn. auto. Qed.

Lemma run_of_log_exit {A} (s : Z) (lvl : log_level) (fmt : string)
    (args : list Net.arg) (h : Net.host) :
  run_of (@Net.log_printf_exit A s lvl fmt args) h
    (fun o evs => o = Exit s /\ evs = [Net.Log lvl fmt args]).
Proof. eexists. split; [reflexivity|]. cbn. auto. Qed.

Lemma run_of_log (lvl : log_level) (fmt : string) (args : list Net.arg)
    (h : Net.host) :
  run_of (Net.log_printf lvl fmt args) h
    (fun o evs => o = Ret tt /\ evs = [Net.Log lvl fmt args]).
Proof. eexists. split; [reflexivity|]. cbn. auto. Qed.

Lemma snprintf_fits (s : list byte) :
  Z.of_nat (length s) <= 1098 -> Net.snprintf (1100 - 1) s = s.
Proof. intros H. unfold Net.snprintf. apply firstn_all2. lia. Qed.

Lemma run_of_getnameinfo (addr : sockaddr_storage) (h : Net.host) :
  run_of (Net.sys_getnameinfo addr 1025 32
            (Z.lor Net.NI_NUMERICHOST Net.NI_NUMERICSERV)) h
    (fun o evs =>
       exists err,
         o = Ret (err, fst (Net.names (name_reply h addr)),
                  snd (Net.names (name_reply h addr))) /\
         evs = [Net.Sys (Net.Getnameinfo addr 1025 32
                           (Z.lor Net.NI_NUMERICHOST Net.NI_NUMERICSERV)) err] /\
         (err = 0 ->
          Z.of_nat (length (fst (Net.names (name_reply h addr)))) <= 1024 /\
          Z.of_nat (length (snd (Net.names (name_reply h addr)))) <= 31)).
Proof.
  unfold run_of, Net.sys_getnameinfo. fold (name_reply h addr).
  cbn [fst snd]. eexists. split; [reflexivity|].
  eexists. split; [reflexivity|]. split; [reflexivity|].
  destruct (Net.ret_val (name_reply h addr) =? 0) eqn:Hz; cbn [andb].
  - destruct ((_ <? 1025) && (_ <? 32)) eqn:Hfits; cbn [negb].
    + apply andb_prop in Hfits. destruct Hfits as (Hh%Z.ltb_lt & Hs%Z.ltb_lt).
      intros _. lia.
    + discriminate.
  - apply Z.eqb_neq in Hz. intros E. contradiction.
Qed.

(** [print_addr_port] on any address: the string it returns, or the
    report it exits on. *)
Lemma print_addr_port_run (addr : sockaddr_storage) (h : Net.host) :
  run_of (Net.print_addr_port addr) h
    (fun o evs =>
       let r := name_reply h addr in
       let c := Net.Getnameinfo addr 1025 32
                  (Z.lor Net.NI_NUMERICHOST Net.NI_NUMERICSERV) in
       (o = Ret (addr_port (ss_family addr) (fst (Net.names r)) (snd (Net.names r))) /\
        evs = [Net.Sys c 0] /\
        Z.of_nat (length (fst (Net.names r))) <= 1024 /\
        Z.of_nat (length (snd (Net.names r))) <= 31) \/
       (o = Exit 1 /\ exists err f a,
           err <> 0 /\ evs = [Net.Sys c err; Net.Log log_err f a] /\
           (f = "getnameinfo" \/ f = "getnameinfo: %s"))).
Proof.
  unfold Net.print_addr_port.
  eapply run_of_bind; [apply run_of_getnameinfo | | |].
  2:{ intros s evs (err & H & _). discriminate. }
  2:{ intros evs (err & H & _). discriminate. }
  intros a evs (err & Ha & -> & Hfit). injection Ha as ->.
  destruct (err =? Net.EAI_SYSTEM) eqn:Hs.
  { eapply run_of_bind; [apply run_of_err_sys | | |].
    - intros ? ? (H & _). discriminate.
    - intros s evs (H & ->). injection H as <-. right. split; [reflexivity|].
      exists err. do 2 eexists. split; [|split; [reflexivity | now left]].
      apply Z.eqb_eq in Hs. rewrite Hs. discriminate.
    - intros ? (H & _). discriminate. }
  destruct (err =? 0) eqn:Hz; cbn [negb].
  2:{ eapply run_of_bind; [apply run_of_log_exit | | |].
      - intros ? ? (H & _). discriminate.
      - intros s evs (H & ->). injection H as <-. right. split; [reflexivity|].
        exists err. do 2 eexists. split; [|split; [reflexivity | now right]].
        now apply Z.eqb_neq.
      - intros ? (H & _). discriminate. }
  apply Z.eqb_eq in Hz. subst err. destruct (Hfit eq_refl) as (Hh & Hp).
  eapply run_of_bind; [apply run_of_ret_eq | | |].
  2:{ intros s evs (H & _). discriminate. }
  2:{ intros evs (H & _). discriminate. }
  intros [] evs (_ & ->). cbv zeta.
  assert (Hok : forall evs0,
    run_of (Net.ret (addr_port (ss_family addr)
                       (fst (Net.names (name_reply h addr)))
                       (snd (Net.names (name_reply h addr)))))
      (later (later h evs0) [])
      (fun o evs' =>
         o = Ret (addr_port (ss_family addr)
                    (fst (Net.names (name_reply h addr)))
                    (snd (Net.names (name_reply h addr)))) /\ evs' = [])).
  { intros evs0. apply run_of_ret_eq. }
  replace (if ss_family addr =? Net.AF_INET6 then _ else _)
    with (Net.ret (addr_port (ss_family addr)
                     (fst (Net.names (name_reply h addr)))
                     (snd (Net.names (name_reply h addr))))).
  2:{ unfold addr_port. destruct (ss_family addr =? Net.AF_INET6);
        rewrite snprintf_fits; try reflexivity;
        cbn [length]; rewrite ?length_app; cbn [length]; lia. }
  eapply run_of_weaken; [apply Hok|].
  intros o evs' (-> & ->). left. cbn [app]. auto.
Qed.
Lemma open_fds_app (open : list Z) (a b : list Net.entry) :
  open_fds open (a ++ b) = open_fds (open_fds open a) b.
Proof. apply fold_left_app. Qed.

Lemma open_fds_cons (open : list Z) (e : Net.entry) (l : list Net.entry) :
  open_fds open (e :: l) = open_fds (track open e) l.
Proof. reflexivity. Qed.

Lemma none_connected_app (a b : list Net.entry) :
  none_connected a -> none_connected b -> none_connected (a ++ b).
Proof.
  intros Ha Hb fd x v Hin. apply in_app_or in Hin.
  destruct Hin; [eapply Ha | eapply Hb]; eauto.
Qed.

Lemma none_bound_app (a b : list Net.entry) :
  none_bound a -> none_bound b -> none_bound (a ++ b).
Proof.
  intros Ha Hb fd x v Hin. apply in_app_or in Hin.
  destruct Hin; [eapply Ha | eapply Hb]; eauto.
Qed.

Tactic Notation "run_step" uconstr(lemma) :=
  eapply run_of_bind; [eapply lemma | | |];
  [ | intros ? ? (H & _); discriminate H | intros ? (H & _); discriminate H ].

Lemma run_of_socket (ai : Net.addrinfo) (h : Net.host) :
  run_of (Net.sys_socket ai) h
    (fun o evs =>
       o = Ret (Net.ret_val (Net.os h (Net.history h) (socket_of ai))) /\
       evs = [Net.Sys (socket_of ai)
                (Net.ret_val (Net.os h (Net.history h) (socket_of ai)))]).
Proof. eexists. split; [reflexivity|]. cbn. auto. Qed.

(** The loop of [tcp_client]: what it leaves open and where it stops. *)
Lemma tcp_client_loop_run (res : list Net.addrinfo) :
  forall h,
    run_of (Net.tcp_client_loop res) h
      (fun o evs =>
         match o with
         | Ret (Some (ai, fd)) =>
             0 <= fd /\ In ai res /\ open_fds [] evs = [fd] /\
             exists pre,
               evs = pre ++ [Net.Sys (socket_of ai) fd;
                             Net.Sys (Net.Connect fd (Net.ai_addr ai)) 0] /\
               none_connected pre
         | Ret None => open_fds [] evs = [] /\ none_connected evs
         | _ => False
         end).
Proof.
  induction res as [|ai rest IH]; intros h; cbn [Net.tcp_client_loop].
  { apply run_of_ret. split; [reflexivity|]. intros ? ? ? []. }
  run_step run_of_socket.
  intros fd evs (Hfd & ->). injection Hfd as ->.
  set (fd := Net.ret_val _).
  destruct (fd <? 0) eqn:Hneg.
  { eapply run_of_weaken; [apply IH|].
    intros [[[ai' fd']|]| |] evs'; cbn beta iota; auto.
    - intros (Hpos & Hin & Hopen & pre & -> & Hnc).
      split; [exact Hpos|]. split; [now right|]. split.
      + cbn [app open_fds fold_left track socket_of]. rewrite Hneg. exact Hopen.
      + exists (Net.Sys (socket_of ai) fd :: pre). split; [reflexivity|].
        intros f a v [H | H]; [discriminate | eapply Hnc; eauto].
    - intros (Hopen & Hnc). split.
      + cbn [app open_fds fold_left track socket_of]. rewrite Hneg. exact Hopen.
      + intros f a v [H | H]; [discriminate | eapply Hnc; eauto]. }
  apply Z.ltb_ge in Hneg.
  run_step run_of_sys_int.
  intros c evs (Hc & ->). injection Hc as ->.
  set (c := Net.ret_val _).
  destruct (c =? 0) eqn:Hz.
  { apply Z.eqb_eq in Hz. apply run_of_ret.
    split; [exact Hneg|]. split; [now left|]. split.
    - cbn [app open_fds fold_left track socket_of].
      replace (fd <? 0) with false by (symmetry; apply Z.ltb_ge; exact Hneg).
      reflexivity.
    - exists []. rewrite Hz. split; [reflexivity|]. intros ? ? ? []. }
  apply Z.eqb_neq in Hz.
  run_step run_of_sys_int.
  intros x evs (Hx & ->). injection Hx as ->.
  set (x := Net.ret_val _).
  eapply run_of_weaken; [apply IH|].
  assert (Hopen0 : forall v evs',
            open_fds [] ([Net.Sys (socket_of ai) fd] ++
                         [Net.Sys (Net.Connect fd (Net.ai_addr ai)) c] ++
                         [Net.Sys (Net.Close fd) v] ++ evs')
            = open_fds [] evs').
  { intros v evs'. cbn [app open_fds fold_left track socket_of remove_first].
    replace (fd <? 0) with false by (symmetry; apply Z.ltb_ge; exact Hneg).
    cbn [app remove_first]. now rewrite Z.eqb_refl. }
  assert (Hnc0 : forall v evs',
            none_connected evs' ->
            none_connected ([Net.Sys (socket_of ai) fd] ++
                            [Net.Sys (Net.Connect fd (Net.ai_addr ai)) c] ++
                            [Net.Sys (Net.Close fd) v] ++ evs')).
  { intros v evs' Hnc f a w Hin. cbn [app In] in Hin.
    destruct Hin as [H | [H | [H | H]]]; try discriminate.
    - injection H as _ _ <-. exact Hz.
    - eapply Hnc; eauto. }
  intros [[[ai' fd']|]| |] evs'; cbn beta iota; auto.
  - intros (Hpos & Hin & Hopen & pre & -> & Hnc).
    split; [exact Hpos|]. split; [now right|]. split.
    + rewrite <- ?app_assoc. rewrite Hopen0. exact Hopen.
    + exists ([Net.Sys (socket_of ai) fd] ++
              [Net.Sys (Net.Connect fd (Net.ai_addr ai)) c] ++
              [Net.Sys (Net.Close fd) x] ++ pre).
      split; [now rewrite <- !app_assoc|]. apply (Hnc0 _ pre Hnc).
  - intros (Hopen & Hnc). split.
    + rewrite <- ?app_assoc. rewrite Hopen0. exact Hopen.
    + rewrite <- ?app_assoc. apply Hnc0. exact Hnc.
Qed.
Lemma lookup_run (address port : option (list byte)) (socktype flags : Z)
    (h : Net.host) :
  run_of (Net.lookup address port socktype flags) h
    (fun o evs =>
       let c := Net.Getaddrinfo address port Net.AF_UNSPEC socktype flags in
       let r := Net.os h (Net.history h) c in
       (o = Ret (Net.addrs r) /\ evs = [Net.Sys c 0]) \/
       (o = Exit 1 /\ exists err f a,
           err <> 0 /\ evs = [Net.Sys c err; Net.Log log_err f a] /\
           (f = "getaddrinfo(%s:%s)" \/ f = "Cannot resolve %s:%s: %s"))).
Proof.
  unfold Net.lookup.
  run_step run_of_syscall.
  intros r evs (Hr & ->). injection Hr as ->.
  set (c := Net.Getaddrinfo _ _ _ _ _). set (r := Net.os h (Net.history h) c).
  destruct (Net.ret_val r =? Net.EAI_SYSTEM) eqn:Hs.
  { eapply run_of_weaken; [apply run_of_err_sys|].
    intros o evs (-> & ->). right. split; [reflexivity|].
    do 3 eexists. split; [|split; [reflexivity | now left]].
    apply Z.eqb_eq in Hs. rewrite Hs. discriminate. }
  destruct (Net.ret_val r =? 0) eqn:Hz; cbn [negb].
  - apply Z.eqb_eq in Hz. apply run_of_ret. left. rewrite Hz. auto.
  - eapply run_of_weaken; [apply run_of_log_exit|].
    intros o evs (-> & ->). right. split; [reflexivity|].
    do 3 eexists. split; [|split; [reflexivity | now right]]. now apply Z.eqb_neq.
Qed.

(** [tcp_client], in full. *)
Lemma tcp_client_run (s : list byte) (h : Net.host) :
  run_of (Net.tcp_client s) h
    (fun o evs =>
       match o with
       | Ret fd =>
           0 <= fd /\ open_fds [] evs = [fd] /\
           exists address port ai pre a,
             parse_address_port s = (Some address, Some port) /\
             evs = Net.Sys (Net.Getaddrinfo (Some address) (Some port)
                              Net.AF_UNSPEC Net.SOCK_STREAM
                              (Z.lor Net.AI_ADDRCONFIG Net.AI_IDN)) 0
                   :: pre
                   ++ [Net.Sys (socket_of ai) fd;
                       Net.Sys (Net.Connect fd (Net.ai_addr ai)) 0;
                       Net.Sys (name_of (Net.ai_addr ai)) 0;
                       Net.Log log_info "TCP connection opened to %s"
                         [Net.AStr (Some a)]] /\
             none_connected pre
       | Exit st =>
           (st = 2 /\
            (fst (parse_address_port s) = None \/
             snd (parse_address_port s) = None) /\
            evs = [Net.Log log_err "Missing address or port in '%s'!"
                     [Net.AStr (Some s)]]) \/
           (st = 1 /\ exists pre f a,
               evs = pre ++ [Net.Log log_err f a] /\
               (f = "Cannot connect to %s" ->
                open_fds [] pre = [] /\ none_connected pre))
       | Diverge => False
       end).
Proof.
  unfold Net.tcp_client.
  destruct (parse_address_port s) as [address port] eqn:Hparse.
  assert (Hmiss : forall h0,
    run_of (@Net.log_printf_exit unit 2 log_err "Missing address or port in '%s'!"
              [Net.AStr (Some s)]) h0
      (fun o evs => o = Exit 2 /\
         evs = [Net.Log log_err "Missing address or port in '%s'!"
                  [Net.AStr (Some s)]])).
  { intros h0. apply run_of_log_exit. }
  destruct address as [address|].
  2:{ eapply run_of_bind; [apply Hmiss | | |].
      - intros ? ? (H & _). discriminate.
      - intros st evs (H & ->). injection H as <-. left. cbn [fst snd]. auto.
      - intros ? (H & _). discriminate. }
  destruct port as [port|].
  2:{ eapply run_of_bind; [apply Hmiss | | |].
      - intros ? ? (H & _). discriminate.
      - intros st evs (H & ->). injection H as <-. left. cbn [fst snd]. auto.
      - intros ? (H & _). discriminate. }
  run_step run_of_ret_eq. intros [] evs0 (_ & ->). cbn [app].
  eapply run_of_bind; [apply lookup_run | | |]; cbv zeta.
  2:{ intros st evs [(H & _) | (H & err & f & a & Herr & -> & Hf)]; [discriminate|].
      injection H as <-. right. split; [reflexivity|].
      eexists [_], f, a. split; [reflexivity|].
      intros ->. destruct Hf; discriminate. }
  2:{ intros evs [(H & _) | (H & _)]; discriminate. }
  intros res evs [(Hres & ->) | (H & _)]; [|discriminate].
  eapply run_of_bind; [apply tcp_client_loop_run | | |]; cbv beta.
  2:{ intros st evs []. }
  2:{ intros evs []. }
  intros [[ai fd]|] evs.
  2:{ intros (Hopen & Hnc).
      eapply run_of_weaken; [apply run_of_err_sys|].
      intros o evs' (-> & ->). right. split; [reflexivity|].
      eexists (_ :: evs), _, _. split.
      - cbn [app]. reflexivity.
      - intros _. split.
        + cbn [open_fds fold_left track]. exact Hopen.
        + intros f a v [H | H]; [discriminate | eapply Hnc; eauto]. }
  intros (Hpos & Hin & Hopen & pre & -> & Hnc).
  unfold Net.ai_print_addr_port.
  eapply run_of_bind; [apply print_addr_port_run | | |]; cbv zeta.
  2:{ intros st evs [(H & _) | (H & err & f & a & Herr & -> & Hf)]; [discriminate|].
      injection H as <-. right. split; [reflexivity|].
      exists (Net.Sys (Net.Getaddrinfo (Some address) (Some port)
                         Net.AF_UNSPEC Net.SOCK_STREAM
                         (Z.lor Net.AI_ADDRCONFIG Net.AI_IDN)) 0
              :: (pre ++ [Net.Sys (socket_of ai) fd;
                          Net.Sys (Net.Connect fd (Net.ai_addr ai)) 0])
                 ++ [Net.Sys (name_of (Net.ai_addr ai)) err]), f, a.
      split.
      - cbn [app]. rewrite <- !app_assoc. cbn [app]. reflexivity.
      - intros ->. destruct Hf; discriminate. }
  2:{ intros evs [(H & _) | (H & _)]; discriminate. }
  intros a evs [(Ha & -> & Hlen) | (H & _)]; [|discriminate].
  run_step run_of_log. intros [] evs (_ & ->).
  apply run_of_ret. split; [exact Hpos|]. split.
  - cbn [app]. rewrite open_fds_cons. cbn [track].
    rewrite open_fds_app, Hopen. reflexivity.
  - exists address, port, ai, pre, a. split; [reflexivity|]. split; [|exact Hnc].
    cbn [app]. rewrite <- !app_assoc. reflexivity.
Qed.

(** The loop of [udp_listener]: what it leaves open and where it stops. *)
Lemma udp_listener_loop_run (res : list Net.addrinfo) :
  forall h,
    run_of (Net.udp_listener_loop res) h
      (fun o evs =>
         match o with
         | Ret (Some (ai, fd)) =>
             0 <= fd /\ In ai res /\ open_fds [] evs = [fd] /\
             exists pre,
               evs = pre ++ [Net.Sys (socket_of ai) fd;
                             Net.Sys (Net.Bind fd (Net.ai_addr ai)) 0] /\
               none_bound pre
         | Ret None => open_fds [] evs = [] /\ none_bound evs
         | _ => False
         end).
Proof.
  induction res as [|ai rest IH]; intros h; cbn [Net.udp_listener_loop].
  { apply run_of_ret. split; [reflexivity|]. intros ? ? ? []. }
  run_step run_of_socket.
  intros fd evs (Hfd & ->). injection Hfd as ->.
  set (fd := Net.ret_val _).
  destruct (fd <? 0) eqn:Hneg.
  { eapply run_of_weaken; [apply IH|].
    intros [[[ai' fd']|]| |] evs'; cbn beta iota; auto.
    - intros (Hpos & Hin & Hopen & pre & -> & Hnc).
      split; [exact Hpos|]. split; [now right|]. split.
      + cbn [app open_fds fold_left track socket_of]. rewrite Hneg. exact Hopen.
      + exists (Net.Sys (socket_of ai) fd :: pre). split; [reflexivity|].
        intros f a v [H | H]; [discriminate | eapply Hnc; eauto].
    - intros (Hopen & Hnc). split.
      + cbn [app open_fds fold_left track socket_of]. rewrite Hneg. exact Hopen.
      + intros f a v [H | H]; [discriminate | eapply Hnc; eauto]. }
  apply Z.ltb_ge in Hneg.
  run_step run_of_sys_int.
  intros c evs (Hc & ->). injection Hc as ->.
  set (c := Net.ret_val _).
  destruct (c =? 0) eqn:Hz.
  { apply Z.eqb_eq in Hz. apply run_of_ret.
    split; [exact Hneg|]. split; [now left|]. split.
    - cbn [app open_fds fold_left track socket_of].
      replace (fd <? 0) with false by (symmetry; apply Z.ltb_ge; exact Hneg).
      reflexivity.
    - exists []. rewrite Hz. split; [reflexivity|]. intros ? ? ? []. }
  apply Z.eqb_neq in Hz.
  run_step run_of_sys_int.
  intros x evs (Hx & ->). injection Hx as ->.
  set (x := Net.ret_val _).
  eapply run_of_weaken; [apply IH|].
  assert (Hopen0 : forall v evs',
            open_fds [] ([Net.Sys (socket_of ai) fd] ++
                         [Net.Sys (Net.Bind fd (Net.ai_addr ai)) c] ++
                         [Net.Sys (Net.Close fd) v] ++ evs')
            = open_fds [] evs').
  { intros v evs'. cbn [app open_fds fold_left track socket_of remove_first].
    replace (fd <? 0) with false by (symmetry; apply Z.ltb_ge; exact Hneg).
    cbn [app remove_first]. now rewrite Z.eqb_refl. }
  assert (Hnc0 : forall v evs',
            none_bound evs' ->
            none_bound ([Net.Sys (socket_of ai) fd] ++
                            [Net.Sys (Net.Bind fd (Net.ai_addr ai)) c] ++
                            [Net.Sys (Net.Close fd) v] ++ evs')).
  { intros v evs' Hnc f a w Hin. cbn [app In] in Hin.
    destruct Hin as [H | [H | [H | H]]]; try discriminate.
    - injection H as _ _ <-. exact Hz.
    - eapply Hnc; eauto. }
  intros [[[ai' fd']|]| |] evs'; cbn beta iota; auto.
  - intros (Hpos & Hin & Hopen & pre & -> & Hnc).
    split; [exact Hpos|]. split; [now right|]. split.
    + rewrite <- ?app_assoc. rewrite Hopen0. exact Hopen.
    + exists ([Net.Sys (socket_of ai) fd] ++
              [Net.Sys (Net.Bind fd (Net.ai_addr ai)) c] ++
              [Net.Sys (Net.Close fd) x] ++ pre).
      split; [now rewrite <- !app_assoc|]. apply (Hnc0 _ pre Hnc).
  - intros (Hopen & Hnc). split.
    + rewrite <- ?app_assoc. rewrite Hopen0. exact Hopen.
    + rewrite <- ?app_assoc. apply Hnc0. exact Hnc.
Qed.

(** [udp_listener], in full. *)
Lemma udp_listener_run (s : list byte) (h : Net.host) :
  run_of (Net.udp_listener s) h
    (fun o evs =>
       match o with
       | Ret fd =>
           0 <= fd /\ open_fds [] evs = [fd] /\
           exists address port ai pre a,
             parse_address_port s = (address, Some port) /\
             evs = Net.Sys (Net.Getaddrinfo address (Some port)
                              Net.AF_UNSPEC Net.SOCK_DGRAM
                              (Z.lor (Z.lor Net.AI_ADDRCONFIG Net.AI_PASSIVE)
                                     Net.AI_IDN)) 0
                   :: pre
                   ++ [Net.Sys (socket_of ai) fd;
                       Net.Sys (Net.Bind fd (Net.ai_addr ai)) 0;
                       Net.Sys (name_of (Net.ai_addr ai)) 0;
                       Net.Log log_info "Listening for UDP connections on %s"
                         [Net.AStr (Some a)]] /\
             none_bound pre
       | Exit st =>
           (st = 2 /\ snd (parse_address_port s) = None /\
            evs = [Net.Log log_err "Missing port in '%s'!" [Net.AStr (Some s)]]) \/
           (st = 1 /\ exists pre f a,
               evs = pre ++ [Net.Log log_err f a] /\
               (f = "Cannot bind to %s" ->
                open_fds [] pre = [] /\ none_bound pre))
       | Diverge => False
       end).
Proof.
  unfold Net.udp_listener.
  destruct (parse_address_port s) as [address port] eqn:Hparse.
  destruct port as [port|].
  2:{ eapply run_of_bind; [apply run_of_log_exit | | |].
      - intros ? ? (H & _). discriminate.
      - intros st evs (H & ->). injection H as <-. left. cbn [fst snd]. auto.
      - intros ? (H & _). discriminate. }
  run_step run_of_ret_eq. intros [] evs0 (_ & ->). cbn [app].
  eapply run_of_bind; [apply lookup_run | | |]; cbv zeta.
  2:{ intros st evs [(H & _) | (H & err & f & a & Herr & -> & Hf)]; [discriminate|].
      injection H as <-. right. split; [reflexivity|].
      eexists [_], f, a. split; [reflexivity|].
      intros ->. destruct Hf; discriminate. }
  2:{ intros evs [(H & _) | (H & _)]; discriminate. }
  intros res evs [(Hres & ->) | (H & _)]; [|discriminate].
  eapply run_of_bind; [apply udp_listener_loop_run | | |]; cbv beta.
  2:{ intros st evs []. }
  2:{ intros evs []. }
  intros [[ai fd]|] evs.
  2:{ intros (Hopen & Hnc).
      eapply run_of_weaken; [apply run_of_err_sys|].
      intros o evs' (-> & ->). right. split; [reflexivity|].
      eexists (_ :: evs), _, _. split.
      - cbn [app]. reflexivity.
      - intros _. split.
        + cbn [open_fds fold_left track]. exact Hopen.
        + intros f a v [H | H]; [discriminate | eapply Hnc; eauto]. }
  intros (Hpos & Hin & Hopen & pre & -> & Hnc).
  unfold Net.ai_print_addr_port.
  eapply run_of_bind; [apply print_addr_port_run | | |]; cbv zeta.
  2:{ intros st evs [(H & _) | (H & err & f & a & Herr & -> & Hf)]; [discriminate|].
      injection H as <-. right. split; [reflexivity|].
      exists (Net.Sys (Net.Getaddrinfo address (Some port)
                         Net.AF_UNSPEC Net.SOCK_DGRAM
                         (Z.lor (Z.lor Net.AI_ADDRCONFIG Net.AI_PASSIVE)
                                Net.AI_IDN)) 0
              :: (pre ++ [Net.Sys (socket_of ai) fd;
                          Net.Sys (Net.Bind fd (Net.ai_addr ai)) 0])
                 ++ [Net.Sys (name_of (Net.ai_addr ai)) err]), f, a.
      split.
      - cbn [app]. rewrite <- !app_assoc. cbn [app]. reflexivity.
      - intros ->. destruct Hf; discriminate. }
  2:{ intros evs [(H & _) | (H & _)]; discriminate. }
  intros a evs [(Ha & -> & Hlen) | (H & _)]; [|discriminate].
  run_step run_of_log. intros [] evs (_ & ->).
  apply run_of_ret. split; [exact Hpos|]. split.
  - cbn [app]. rewrite open_fds_cons. cbn [track].
    rewrite open_fds_app, Hopen. reflexivity.
  - exists address, port, ai, pre, a. split; [reflexivity|]. split; [|exact Hnc].
    cbn [app]. rewrite <- !app_assoc. reflexivity.
Qed.


(** The loop of [udp_client]. *)
Lemma udp_client_loop_run (res : list Net.addrinfo) :
  forall h,
    run_of (Net.udp_client_loop res) h
      (fun o evs =>
         match o with
         | Ret (Some (ai, fd)) =>
             0 <= fd /\ In ai res /\
             exists pre,
               evs = pre ++ [Net.Sys (socket_of ai) fd] /\
               Forall socket_failed pre
         | Ret None => Forall socket_failed evs
         | _ => False
         end).
Proof.
  induction res as [|ai rest IH]; intros h; cbn [Net.udp_client_loop].
  { apply run_of_ret. constructor. }
  run_step run_of_socket.
  intros fd evs (Hfd & ->). injection Hfd as ->.
  set (fd := Net.ret_val _).
  destruct (fd <? 0) eqn:Hneg.
  - apply Z.ltb_lt in Hneg.
    assert (Hf : socket_failed (Net.Sys (socket_of ai) fd)).
    { exists ai, fd. auto. }
    eapply run_of_weaken; [apply IH|].
    intros [[[ai' fd']|]| |] evs'; cbn beta iota; auto.
    + intros (Hpos & Hin & pre & -> & Hpre).
      split; [exact Hpos|]. split; [now right|].
      exists (Net.Sys (socket_of ai) fd :: pre). split; [reflexivity|].
      now constructor.
    + intros Hall. now constructor.
  - apply Z.ltb_ge in Hneg. apply run_of_ret.
    split; [exact Hneg|]. split; [now left|].
    exists []. split; [reflexivity | constructor].
Qed.

Lemma open_fds_failed (evs : list Net.entry) :
  Forall socket_failed evs -> open_fds [] evs = [].
Proof.
  induction 1 as [|e evs (ai & v & -> & Hv) _ IH]; [reflexivity|].
  rewrite open_fds_cons. cbn [track socket_of].
  replace (v <? 0) with true by (symmetry; apply Z.ltb_lt; exact Hv).
  exact IH.
Qed.

(** [udp_client], in full. *)
Lemma udp_client_run (s : list byte) (h : Net.host) :
  run_of (Net.udp_client s) h
    (fun o evs =>
       match o with
       | Ret (fd, remote) =>
           0 <= fd /\ open_fds [] evs = [fd] /\
           exists address port ai pre a,
             parse_address_port s = (Some address, Some port) /\
             remote = Net.ai_addr ai /\
             evs = Net.Sys (Net.Getaddrinfo (Some address) (Some port)
                              Net.AF_UNSPEC Net.SOCK_DGRAM
                              (Z.lor Net.AI_ADDRCONFIG Net.AI_IDN)) 0
                   :: pre
                   ++ [Net.Sys (socket_of ai) fd;
                       Net.Sys (name_of (Net.ai_addr ai)) 0;
                       Net.Log log_debug "The UDP destination is %s"
                         [Net.AStr (Some a)]] /\
             Forall socket_failed pre
       | Exit st =>
           (st = 2 /\
            (fst (parse_address_port s) = None \/
             snd (parse_address_port s) = None) /\
            evs = [Net.Log log_err "Missing address or port in '%s'!"
                     [Net.AStr (Some s)]]) \/
           (st = 1 /\ exists pre f a, evs = pre ++ [Net.Log log_err f a])
       | Diverge => False
       end).
Proof.
  unfold Net.udp_client.
  destruct (parse_address_port s) as [address port] eqn:Hparse.
  assert (Hmiss : forall h0,
    run_of (@Net.log_printf_exit unit 2 log_err "Missing address or port in '%s'!"
              [Net.AStr (Some s)]) h0
      (fun o evs => o = Exit 2 /\
         evs = [Net.Log log_err "Missing address or port in '%s'!"
                  [Net.AStr (Some s)]])).
  { intros h0. apply run_of_log_exit. }
  destruct address as [address|].
  2:{ eapply run_of_bind; [apply Hmiss | | |].
      - intros ? ? (H & _). discriminate.
      - intros st evs (H & ->). injection H as <-. left. cbn [fst snd]. auto.
      - intros ? (H & _). discriminate. }
  destruct port as [port|].
  2:{ eapply run_of_bind; [apply Hmiss | | |].
      - intros ? ? (H & _). discriminate.
      - intros st evs (H & ->). injection H as <-. left. cbn [fst snd]. auto.
      - intros ? (H & _). discriminate. }
  run_step run_of_ret_eq. intros [] evs0 (_ & ->). cbn [app].
  eapply run_of_bind; [apply lookup_run | | |]; cbv zeta.
  2:{ intros st evs [(H & _) | (H & err & f & a & Herr & -> & Hf)]; [discriminate|].
      injection H as <-. right. split; [reflexivity|].
      eexists [_], f, a. reflexivity. }
  2:{ intros evs [(H & _) | (H & _)]; discriminate. }
  intros res evs [(Hres & ->) | (H & _)]; [|discriminate].
  eapply run_of_bind; [apply udp_client_loop_run | | |]; cbv beta.
  2:{ intros st evs []. }
  2:{ intros evs []. }
  intros [[ai fd]|] evs.
  2:{ intros Hall.
      eapply run_of_weaken; [apply run_of_err_sys|].
      intros o evs' (-> & ->). right. split; [reflexivity|].
      eexists (_ :: evs), _, _. cbn [app]. reflexivity. }
  intros (Hpos & Hin & pre & -> & Hpre).
  unfold Net.ai_print_addr_port.
  eapply run_of_bind; [apply print_addr_port_run | | |]; cbv zeta.
  2:{ intros st evs [(H & _) | (H & err & f & a & Herr & -> & Hf)]; [discriminate|].
      injection H as <-. right. split; [reflexivity|].
      exists (Net.Sys (Net.Getaddrinfo (Some address) (Some port)
                         Net.AF_UNSPEC Net.SOCK_DGRAM
                         (Z.lor Net.AI_ADDRCONFIG Net.AI_IDN)) 0
              :: (pre ++ [Net.Sys (socket_of ai) fd])
                 ++ [Net.Sys (name_of (Net.ai_addr ai)) err]), f, a.
      cbn [app]. rewrite <- !app_assoc. cbn [app]. reflexivity. }
  2:{ intros evs [(H & _) | (H & _)]; discriminate. }
  intros a evs [(Ha & -> & Hlen) | (H & _)]; [|discriminate].
  run_step run_of_log. intros [] evs (_ & ->).
  apply run_of_ret. split; [exact Hpos|]. split.
  - cbn [app]. rewrite open_fds_cons. cbn [track].
    rewrite !open_fds_app, (open_fds_failed pre Hpre).
    cbn [open_fds fold_left track socket_of].
    replace (fd <? 0) with false by (symmetry; apply Z.ltb_ge; exact Hpos).
    reflexivity.
  - exists address, port, ai, pre, a. split; [reflexivity|]. split; [reflexivity|].
    split; [|exact Hpre].
    cbn [app]. rewrite <- !app_assoc. reflexivity.
Qed.

Lemma update_length (l : list (option Z)) (i : nat) (v : Z) :
  length (Net.update l i v) = length l.
Proof.
  revert i. induction l as [|x l IH]; intros [|i]; cbn; auto.
Qed.

Lemma update_firstn (l : list (option Z)) (i : nat) (v : Z) :
  (i < length l)%nat ->
  firstn (S i) (Net.update l i v) = firstn i l ++ [Some v].
Proof.
  revert i. induction l as [|x l IH]; intros [|i] Hi; cbn [length] in Hi; try lia.
  - reflexivity.
  - cbn [Net.update]. rewrite !firstn_cons. cbn [app]. f_equal.
    apply IH. lia.
Qed.

Lemma realloc_grow (l : list (option Z)) (n : Z) :
  Z.of_nat (length l) <= n ->
  Net.realloc (Some l) n = Some (l ++ repeat None (Z.to_nat n - length l)).
Proof.
  intros H. unfold Net.realloc. rewrite firstn_all2 by lia. reflexivity.
Qed.

Lemma array_holds_push (fd_list : Net.int_array) (fd_num allocated_fds fd : Z)
    (fds : list Z) :
  array_holds fd_list fd_num allocated_fds fds ->
  let '(fd_list', allocated') :=
    if allocated_fds <? fd_num + 1 + 1
    then (Net.realloc fd_list (allocated_fds + 8), allocated_fds + 8)
    else (fd_list, allocated_fds) in
  array_holds (Net.store fd_list' fd_num fd) (fd_num + 1) allocated' (fds ++ [fd]).
Proof.
  intros (Hn & Ha).
  assert (Hstore : forall l al,
            Z.of_nat (length l) = al -> fd_num + 1 + 1 <= al ->
            firstn (length fds) l = map Some fds ->
            array_holds (Net.store (Some l) fd_num fd) (fd_num + 1) al (fds ++ [fd])).
  { intros l al Hl Hal Hf. unfold array_holds, Net.store.
    split; [rewrite length_app; cbn [length]; lia|].
    rewrite update_length. split; [exact Hl|]. split; [|lia].
    rewrite length_app. cbn [length]. rewrite Nat.add_1_r.
    replace (Z.to_nat fd_num) with (length fds) by lia.
    rewrite update_firstn by lia. rewrite Hf, map_app. reflexivity. }
  destruct fd_list as [l|].
  - destruct Ha as (Hl & Hf & Hal).
    destruct (allocated_fds <? fd_num + 1 + 1) eqn:Hlt.
    + rewrite realloc_grow by lia. apply Hstore.
      * rewrite length_app, repeat_length. lia.
      * lia.
      * rewrite firstn_app. replace (length fds - length l)%nat with 0%nat by lia.
        cbn [firstn]. rewrite app_nil_r. exact Hf.
    + apply Z.ltb_ge in Hlt. apply Hstore; auto.
  - destruct Ha as (-> & ->). cbn [length] in Hn. subst fd_num.
    change (0 <? 0 + 1 + 1) with true. cbv iota.
    unfold array_holds. cbn. repeat split; lia.
Qed.

Lemma array_holds_end (fd_list : Net.int_array) (fd_num allocated_fds : Z)
    (fds : list Z) :
  array_holds fd_list fd_num allocated_fds fds ->
  exists junk,
    Net.store (if allocated_fds <? fd_num + 1 + 1
               then Net.realloc fd_list (allocated_fds + 1)
               else fd_list) fd_num (-1)
    = Some (map Some fds ++ Some (-1) :: junk).
Proof.
  intros (Hn & Ha).
  assert (Hstore : forall l,
            fd_num + 1 <= Z.of_nat (length l) ->
            firstn (length fds) l = map Some fds ->
            exists junk,
              Net.store (Some l) fd_num (-1)
              = Some (map Some fds ++ Some (-1) :: junk)).
  { intros l Hl Hf. unfold Net.store.
    exists (skipn (S (length fds)) (Net.update l (Z.to_nat fd_num) (-1))).
    f_equal.
    rewrite <- (firstn_skipn (S (length fds))
                  (Net.update l (Z.to_nat fd_num) (-1))) at 1.
    replace (Z.to_nat fd_num) with (length fds) by lia.
    rewrite update_firstn by lia. rewrite Hf, <- app_assoc. reflexivity. }
  destruct fd_list as [l|].
  - destruct Ha as (Hl & Hf & Hal).
    destruct (allocated_fds <? fd_num + 1 + 1) eqn:Hlt.
    + rewrite realloc_grow by lia. apply Hstore.
      * rewrite length_app, repeat_length. lia.
      * rewrite firstn_app. replace (length fds - length l)%nat with 0%nat by lia.
        cbn [firstn]. rewrite app_nil_r. exact Hf.
    + apply Hstore; [lia | exact Hf].
  - destruct Ha as (-> & ->). cbn [length] in Hn. subst fd_num.
    exists []. reflexivity.
Qed.

Lemma listening_more (res : list Net.addrinfo) (a b c : list Net.entry) (fd : Z) :
  listening res b fd -> listening res (a ++ b ++ c) fd.
Proof.
  intros (ai & Hin & Hs & H6 & Hr & Hb & Hl).
  assert (Hsub : forall e, In e b -> In e (a ++ b ++ c)).
  { intros e He. apply in_or_app. right. apply in_or_app. now left. }
  exists ai. split; [exact Hin|]. split; [auto|]. split.
  - intros Hf. destruct (H6 Hf) as (v & ? & ?). eauto.
  - split; [|split].
    + destruct Hr as (v & ? & ?). eauto.
    + destruct Hb as (v & ? & ?). eauto.
    + destruct Hl as (v & ? & ?). eauto.
Qed.

Lemma listening_res (ai : Net.addrinfo) (res : list Net.addrinfo)
    (evs : list Net.entry) (fd : Z) :
  listening res evs fd -> listening (ai :: res) evs fd.
Proof.
  intros (ai' & Hin & H). exists ai'. split; [now right | exact H].
Qed.

Ltac run_check lemma :=
  eapply run_of_bind; [apply lemma | | |];
  [ | | intros ? (H & _); discriminate H ].
Lemma later_later (h : Net.host) (a b : list Net.entry) :
  later (later h a) b = later h (a ++ b).
Proof. unfold later. cbn. now rewrite app_assoc. Qed.

Lemma later_nil (h : Net.host) : later h [] = h.
Proof. destruct h. unfold later. cbn. now rewrite app_nil_r. Qed.

Lemma ends_with_err_app (a b : list Net.entry) :
  ends_with_err b -> ends_with_err (a ++ b).
Proof.
  intros (pre & f & x & -> & Hf). exists (a ++ pre), f, x.
  split; [now rewrite app_assoc | exact Hf].
Qed.

Lemma ends_with_err_one (f : string) (a : list Net.arg) :
  f <> "socket" -> ends_with_err [Net.Log log_err f a].
Proof. intros Hf. exists [], f, a. auto. Qed.

Lemma listening_cons (res : list Net.addrinfo) (e : Net.entry)
    (evs : list Net.entry) (fd : Z) :
  listening res evs fd -> listening res (e :: evs) fd.
Proof.
  intros H. apply (listening_more res [e] evs [] fd) in H.
  now rewrite app_nil_r in H.
Qed.

Ltac exit_err :=
  let H := fresh in
  intros ? ? (H & ->); injection H as ->;
  split; [reflexivity|];
  repeat apply ends_with_err_app; apply ends_with_err_one; discriminate.

Ltac no_diverge :=
  let H := fresh in intros ? (H & _); discriminate H.

Ltac no_ret :=
  let H := fresh in intros ? ? (H & _); discriminate H.

(** A call followed by the test of its result. *)
Lemma run_of_checked {B} (c : Net.call) (fmt : string) (args : list Net.arg)
    (k : Net.M B) (h : Net.host) (Q : outcome B -> list Net.entry -> Prop) :
  fmt <> "socket" ->
  (forall v, 0 <= v ->
     run_of k (later h [Net.Sys c v])
       (fun o evs => Q o ([Net.Sys c v] ++ evs))) ->
  (forall evs, ends_with_err evs -> Q (Exit 1) evs) ->
  run_of (Net.bind (Net.sys_int c)
            (fun r => Net.bind (if r <? 0 then Net.err_sys fmt args else Net.ret tt)
                        (fun _ => k))) h Q.
Proof.
  intros Hf Hk He.
  run_step run_of_sys_int.
  intros r evs (Hr & ->). injection Hr as ->.
  set (v := Net.ret_val _).
  destruct (v <? 0) eqn:Hneg.
  - eapply run_of_bind; [apply run_of_err_sys | no_ret | | no_diverge].
    intros s evs (H & ->). injection H as ->.
    apply He. apply ends_with_err_app. now apply ends_with_err_one.
  - apply Z.ltb_ge in Hneg.
    run_step run_of_ret_eq. intros [] evs (_ & ->).
    rewrite later_later, app_nil_r.
    eapply run_of_weaken; [apply (Hk v Hneg)|].
    intros o evs H. cbn [app] in *. exact H.
Qed.

Lemma run_of_assoc {A B C} (m : Net.M A) (f : A -> Net.M B) (g : B -> Net.M C)
    (h : Net.host) (Q : outcome C -> list Net.entry -> Prop) :
  run_of (Net.bind m (fun x => Net.bind (f x) g)) h Q ->
  run_of (Net.bind (Net.bind m f) g) h Q.
Proof.
  unfold run_of, Net.bind. destruct (m h) as [[a|s|] h1]; auto.
Qed.

Ltac in_events :=
  cbn [app In]; repeat (first [left; reflexivity | right]).

(** The loop of [tcp_listener]: the array it builds and the sockets it
    leaves open. *)
Lemma tcp_listener_loop_run (s : list byte) (res : list Net.addrinfo) :
  forall fd_list fd_num allocated_fds fds0 h,
    array_holds fd_list fd_num allocated_fds fds0 ->
    run_of (Net.tcp_listener_loop s res fd_list fd_num allocated_fds) h
      (fun o evs =>
         match o with
         | Ret (fd_list', fd_num', allocated') =>
             exists fds1,
               array_holds fd_list' fd_num' allocated' (fds0 ++ fds1) /\
               (forall open, open_fds open evs = open ++ fds1) /\
               Forall (fun fd => 0 <= fd) fds1 /\
               Forall (listening res evs) fds1
         | Exit st => st = 1 /\ ends_with_err evs
         | Diverge => False
         end).
Proof.
  induction res as [|ai rest IH]; intros fd_list fd_num allocated_fds fds0 h Harr;
    cbn [Net.tcp_listener_loop].
  { apply run_of_ret. exists []. rewrite app_nil_r.
    split; [exact Harr|]. split; [|split; constructor].
    intros open. now rewrite app_nil_r. }
  run_step run_of_socket.
  intros fd evs (Hfd & ->). injection Hfd as ->.
  set (fd := Net.ret_val _).
  destruct (fd <? 0) eqn:Hneg.
  { eapply run_of_weaken; [apply (IH _ _ _ fds0 _ Harr)|].
    intros [[[fl n] al]| |] evs'; cbn beta iota; auto.
    - intros (fds1 & Ha & Hopen & Hpos & Hl).
      exists fds1. split; [exact Ha|]. split; [|split; [exact Hpos|]].
      + intros open. cbn [app]. rewrite open_fds_cons. cbn [track socket_of].
        rewrite Hneg. apply Hopen.
      + eapply Forall_impl; [|exact Hl]. intros x Hx. cbn [app].
        apply listening_cons, listening_res, Hx.
    - intros (-> & He). split; [reflexivity|]. now apply ends_with_err_app. }
  apply Z.ltb_ge in Hneg.
  cbv zeta.
  pose proof (array_holds_push fd_list fd_num allocated_fds fd fds0 Harr) as Hpush.
  destruct (if allocated_fds <? fd_num + 1 + 1 then _ else _)
    as [fd_list1 allocated1].
  assert (Htrack : forall open,
            track open (Net.Sys (socket_of ai) fd) = open ++ [fd]).
  { intros open. cbn [track socket_of].
    now replace (fd <? 0) with false by (symmetry; apply Z.ltb_ge; exact Hneg). }
  destruct (Net.ai_family ai =? Net.AF_INET6) eqn:H6.
  - apply run_of_assoc.
    apply run_of_checked; [discriminate | | intros evs He; split; auto;
                                            now repeat apply ends_with_err_app].
    intros v6 Hv6.
    apply run_of_checked; [discriminate | | intros evs He; split; auto;
                                            now repeat apply ends_with_err_app].
    intros vr Hvr.
    apply run_of_checked; [discriminate | | intros evs He; split; auto;
                                            now repeat apply ends_with_err_app].
    intros vb Hvb.
    apply run_of_checked; [discriminate | | intros evs He; split; auto;
                                            now repeat apply ends_with_err_app].
    intros vl Hvl.
    unfold Net.ai_print_addr_port.
    eapply run_of_bind; [apply print_addr_port_run | | |]; cbv zeta.
    2:{ intros st evs [(H & _) | (H & err & f & a & Herr & -> & Hf)]; [discriminate|].
        injection H as ->. split; [reflexivity|].
        repeat apply ends_with_err_app.
        exists [Net.Sys (name_of (Net.ai_addr ai)) err], f, a.
        split; [reflexivity|]. destruct Hf as [-> | ->]; discriminate. }
    2:{ intros evs [(H & _) | (H & _)]; discriminate. }
    intros a evs [(Ha & -> & Hlen) | (H & _)]; [|discriminate].
    run_step run_of_log. intros [] evs (_ & ->).
    eapply run_of_weaken; [apply (IH _ _ _ (fds0 ++ [fd]) _ Hpush)|].
    intros [[[fl n] al]| |] evs'; cbn beta iota; auto.
    + intros (fds1 & Harr1 & Hopen & Hpos & Hl).
      exists (fd :: fds1). rewrite <- app_assoc in Harr1. cbn [app] in Harr1.
      split; [exact Harr1|]. split; [|split; [now constructor|]].
      * intros open. cbn [app]. rewrite !open_fds_cons, Htrack. cbn [track].
        rewrite Hopen, <- app_assoc. reflexivity.
      * constructor.
        -- exists ai. split; [now left|]. split; [in_events|].
           split; [|split; [|split]].
           ++ intros _. exists v6. split; [in_events | exact Hv6].
           ++ exists vr. split; [in_events | exact Hvr].
           ++ exists vb. split; [in_events | exact Hvb].
           ++ exists vl. split; [in_events | exact Hvl].
        -- eapply Forall_impl; [|exact Hl]. intros x Hx. cbn [app].
           repeat apply listening_cons. apply listening_res, Hx.
    + intros (-> & He). split; [reflexivity|].
      now repeat apply ends_with_err_app.
  - apply Z.eqb_neq in H6.
    run_step run_of_ret_eq. intros [] evs (_ & ->).
    apply run_of_checked; [discriminate | | intros evs He; split; auto;
                                            now repeat apply ends_with_err_app].
    intros vr Hvr.
    apply run_of_checked; [discriminate | | intros evs He; split; auto;
                                            now repeat apply ends_with_err_app].
    intros vb Hvb.
    apply run_of_checked; [discriminate | | intros evs He; split; auto;
                                            now repeat apply ends_with_err_app].
    intros vl Hvl.
    unfold Net.ai_print_addr_port.
    eapply run_of_bind; [apply print_addr_port_run | | |]; cbv zeta.
    2:{ intros st evs [(H & _) | (H & err & f & a & Herr & -> & Hf)]; [discriminate|].
        injection H as ->. split; [reflexivity|].
        repeat apply ends_with_err_app.
        exists [Net.Sys (name_of (Net.ai_addr ai)) err], f, a.
        split; [reflexivity|]. destruct Hf as [-> | ->]; discriminate. }
    2:{ intros evs [(H & _) | (H & _)]; discriminate. }
    intros a evs [(Ha & -> & Hlen) | (H & _)]; [|discriminate].
    run_step run_of_log. intros [] evs (_ & ->).
    eapply run_of_weaken; [apply (IH _ _ _ (fds0 ++ [fd]) _ Hpush)|].
    intros [[[fl n] al]| |] evs'; cbn beta iota; auto.
    + intros (fds1 & Harr1 & Hopen & Hpos & Hl).
      exists (fd :: fds1). rewrite <- app_assoc in Harr1. cbn [app] in Harr1.
      split; [exact Harr1|]. split; [|split; [now constructor|]].
      * intros open. cbn [app]. rewrite !open_fds_cons, Htrack. cbn [track].
        rewrite Hopen, <- app_assoc. reflexivity.
      * constructor.
        -- exists ai. split; [now left|]. split; [in_events|].
           split; [|split; [|split]].
           ++ intros Hf. contradiction.
           ++ exists vr. split; [in_events | exact Hvr].
           ++ exists vb. split; [in_events | exact Hvb].
           ++ exists vl. split; [in_events | exact Hvl].
        -- eapply Forall_impl; [|exact Hl]. intros x Hx. cbn [app].
           repeat apply listening_cons. apply listening_res, Hx.
    + intros (-> & He). split; [reflexivity|].
      now repeat apply ends_with_err_app.
Qed.
(** [tcp_listener], in full. *)
Lemma tcp_listener_run (s : list byte) (h : Net.host) :
  run_of (Net.tcp_listener s) h
    (fun o evs =>
       match o with
       | Ret a =>
           exists fds junk address port,
             a = Some (map Some fds ++ Some (-1) :: junk) /\
             Forall (fun fd => 0 <= fd) fds /\
             open_fds [] evs = fds /\
             parse_address_port s = (address, Some port) /\
             Forall (listening
                       (Net.addrs
                          (Net.os h (Net.history h)
                             (Net.Getaddrinfo address (Some port) Net.AF_UNSPEC
                                Net.SOCK_STREAM
                                (Z.lor (Z.lor Net.AI_ADDRCONFIG Net.AI_PASSIVE)
                                       Net.AI_IDN))))
                       evs) fds
       | Exit st =>
           (st = 2 /\ snd (parse_address_port s) = None /\
            evs = [Net.Log log_err "Missing port in '%s'!" [Net.AStr (Some s)]]) \/
           (st = 1 /\ ends_with_err evs)
       | Diverge => False
       end).
Proof.
  unfold Net.tcp_listener.
  destruct (parse_address_port s) as [address port] eqn:Hparse.
  destruct port as [port|].
  2:{ eapply run_of_bind; [apply run_of_log_exit | | |].
      - intros ? ? (H & _). discriminate.
      - intros st evs (H & ->). injection H as ->. left. cbn [fst snd]. auto.
      - intros ? (H & _). discriminate. }
  run_step run_of_ret_eq. intros [] evs0 (_ & ->). cbn [app].
  rewrite later_nil.
  eapply run_of_bind; [apply lookup_run | | |]; cbv zeta.
  2:{ intros st evs [(H & _) | (H & err & f & a & Herr & -> & Hf)]; [discriminate|].
      injection H as ->. right. split; [reflexivity|].
      exists [Net.Sys (Net.Getaddrinfo address (Some port) Net.AF_UNSPEC
                         Net.SOCK_STREAM
                         (Z.lor (Z.lor Net.AI_ADDRCONFIG Net.AI_PASSIVE)
                                Net.AI_IDN)) err], f, a.
      split; [reflexivity|]. destruct Hf as [-> | ->]; discriminate. }
  2:{ intros evs [(H & _) | (H & _)]; discriminate. }
  intros res evs [(Hres & ->) | (H & _)]; [|discriminate].
  injection Hres as ->.
  assert (H0 : array_holds None 0 0 []) by (unfold array_holds; cbn; auto).
  eapply run_of_bind; [apply (tcp_listener_loop_run s _ None 0 0 [] _ H0) | | |];
    cbv beta.
  2:{ intros st evs (-> & He). right. split; [reflexivity|].
      now apply ends_with_err_app. }
  2:{ intros evs []. }
  intros [[fd_list fd_num] allocated_fds] evs (fds & Harr & Hopen & Hpos & Hl).
  cbn [app] in Harr.
  destruct (array_holds_end fd_list fd_num allocated_fds fds Harr) as (junk & ->).
  apply run_of_ret.
  exists fds, junk, address, port.
  split; [reflexivity|]. split; [exact Hpos|]. split; [|split; [reflexivity|]].
  - cbn [app]. rewrite app_nil_r, open_fds_cons. cbn [track]. apply (Hopen []).
  - eapply Forall_impl; [|exact Hl]. intros x Hx. cbn [app]. rewrite app_nil_r.
    now apply listening_cons.
Qed.


Lemma no_sockets_later (h : Net.host) (evs : list Net.entry) :
  no_sockets h -> no_sockets (later h evs).
Proof. intros H hist f t p. apply H. Qed.

Lemma tcp_listener_loop_none (s : list byte) (res : list Net.addrinfo) :
  forall fd_list fd_num allocated_fds h,
    no_sockets h ->
    fst (Net.tcp_listener_loop s res fd_list fd_num allocated_fds h)
    = Ret (fd_list, fd_num, allocated_fds).
Proof.
  induction res as [|ai rest IH]; intros fd_list fd_num allocated_fds h Hno;
    cbn [Net.tcp_listener_loop]; [reflexivity|].
  unfold Net.bind at 1. unfold Net.sys_socket, Net.bind at 1, Net.syscall, Net.ret at 1.
  replace (_ <? 0) with true by (symmetry; apply Z.ltb_lt; apply Hno).
  apply IH. intros hist f t p. apply Hno.
Qed.

Lemma udp_listener_loop_none (res : list Net.addrinfo) :
  forall h, no_sockets h -> fst (Net.udp_listener_loop res h) = Ret None.
Proof.
  induction res as [|ai rest IH]; intros h Hno;
    cbn [Net.udp_listener_loop]; [reflexivity|].
  unfold Net.bind at 1. unfold Net.sys_socket, Net.bind at 1, Net.syscall, Net.ret at 1.
  replace (_ <? 0) with true by (symmetry; apply Z.ltb_lt; apply Hno).
  apply IH. intros hist f t p. apply Hno.
Qed.

Lemma lookup_resolves (address port : option (list byte)) (socktype flags : Z)
    (h : Net.host) :
  resolves h ->
  Net.lookup address port socktype flags h
  = (Ret (Net.addrs (Net.os h (Net.history h)
                       (Net.Getaddrinfo address port Net.AF_UNSPEC socktype flags))),
     later h [Net.Sys (Net.Getaddrinfo address port Net.AF_UNSPEC socktype flags) 0]).
Proof.
  intros Hr. unfold Net.lookup, Net.bind, Net.syscall. rewrite Hr. reflexivity.
Qed.

(** X17.  On a system that resolves the name but refuses every
    [socket], and for a specification that has a port, [tcp_listener] does
    not fail: it returns the array that holds [-1] alone, no listening
    socket at all.  In the same situation [udp_listener] ends the process
    with status 1. *)
Theorem tcp_listener_without_sockets (s port : list byte) (h : Net.host) :
  snd (parse_address_port s) = Some port ->
  resolves h -> no_sockets h ->
  fst (Net.tcp_listener s h) = Ret (Some [Some (-1)]) /\
  fst (Net.udp_listener s h) = Exit 1.
Proof.
  intros Hport Hres Hno. unfold Net.tcp_listener, Net.udp_listener.
  destruct (parse_address_port s) as [address p]. cbn [snd] in Hport. subst p.
  split.
  - unfold Net.bind at 1 2. unfold Net.ret at 1.
    rewrite lookup_resolves by exact Hres.
    unfold Net.bind at 1.
    match goal with
    | |- context [Net.tcp_listener_loop ?s0 ?res ?a ?b ?c ?h1] =>
        pose proof (tcp_listener_loop_none s0 res a b c h1) as Hloop;
        destruct (Net.tcp_listener_loop s0 res a b c h1) as [o h2]
    end.
    cbn [fst] in Hloop. rewrite Hloop; [reflexivity|].
    apply no_sockets_later, Hno.
  - unfold Net.bind at 1 2. unfold Net.ret at 1.
    rewrite lookup_resolves by exact Hres.
    unfold Net.bind at 1.
    match goal with
    | |- context [Net.udp_listener_loop ?res ?h1] =>
        pose proof (udp_listener_loop_none res h1) as Hloop;
        destruct (Net.udp_listener_loop res h1) as [o h2]
    end.
    cbn [fst] in Hloop. rewrite Hloop; [reflexivity|].
    apply no_sockets_later, Hno.
Qed.

Lemma tcp_listener_without_sockets_witness :
  fst (Net.tcp_listener (String.list_byte_of_string "8080")
         (Net.mkHost
            (fun _ c =>
               match c with
               | Net.Socket _ _ _ => Net.mkReply (-1) 97 [] ([], []) [] (mkAddr 0 [])
               | _ => Net.mkReply 0 0 [Net.mkAddrinfo 2 1 6 (mkAddr 2 [])] ([], [])
                        [] (mkAddr 0 [])
               end) []))
  = Ret (Some [Some (-1)]) /\
  fst (Net.udp_listener (String.list_byte_of_string "8080")
         (Net.mkHost
            (fun _ c =>
               match c with
               | Net.Socket _ _ _ => Net.mkReply (-1) 97 [] ([], []) [] (mkAddr 0 [])
               | _ => Net.mkReply 0 0 [Net.mkAddrinfo 2 1 6 (mkAddr 2 [])] ([], [])
                        [] (mkAddr 0 [])
               end) []))
  = Exit 1.
Proof.
  apply (tcp_listener_without_sockets (String.list_byte_of_string "8080")
           (String.list_byte_of_string "8080")).
  - reflexivity.
  - intros hist n sv f t fl. reflexivity.
  - intros hist f t p. cbn. lia.
Defined.
Lemma conns_closed_app (a b : list Net.entry) :
  forall p, conns_closed p a = true ->
            conns_closed p (a ++ b) = conns_closed None b.
Proof.
  induction a as [|e a IH]; intros p H; cbn [app].
  - cbn in H. destruct p; [discriminate | reflexivity].
  - destruct e as [c v|l f x]; cbn [conns_closed] in H |- *; [|auto].
    destruct c; auto.
    + destruct p as [fd0|]; [|discriminate].
      apply andb_prop in H. destruct H as (H1 & H2). rewrite H1. cbn [andb]. auto.
    + destruct (v <? 0); [auto|]. destruct p; [discriminate | auto].
    + apply andb_prop in H. destruct H as (H1 & H2). rewrite H1. cbn [andb]. auto.
Qed.

Lemma conns_closed_both (a b : list Net.entry) :
  conns_closed None a = true -> conns_closed None b = true ->
  conns_closed None (a ++ b) = true.
Proof. intros Ha Hb. now rewrite (conns_closed_app a b None Ha). Qed.

Lemma set_nonblocking_run (socks : list Z) :
  forall h,
    run_of (Net.set_nonblocking socks) h
      (fun o evs =>
         match o with
         | Ret _ => conns_closed None evs = true
         | Exit st => st = 1
         | Diverge => False
         end).
Proof.
  induction socks as [|sock rest IH]; intros h; cbn [Net.set_nonblocking].
  { now apply run_of_ret. }
  apply run_of_checked; [discriminate | | auto].
  intros flags Hflags.
  apply run_of_checked; [discriminate | | auto].
  intros r Hr.
  eapply run_of_weaken; [apply IH|].
  intros [[]|st|] evs; cbn [app conns_closed]; auto.
Qed.

Lemma close_all_run (socks : list Z) :
  forall h,
    run_of (Net.close_all socks) h
      (fun o evs => o = Ret tt /\ closes socks evs).
Proof.
  induction socks as [|sock rest IH]; intros h; cbn [Net.close_all].
  { apply run_of_ret. split; [reflexivity | constructor]. }
  run_step run_of_sys_int. intros v evs (_ & ->).
  eapply run_of_weaken; [apply IH|].
  intros o evs (-> & Hc). split; [reflexivity|].
  cbn [app]. constructor; [eauto | exact Hc].
Qed.

(** The second loop of [accept_connections]. *)
Lemma accept_ready_run (all readfds socks : list Z) :
  forall h,
    run_of (Net.accept_ready all readfds socks) h
      (fun o evs =>
         match o with
         | Ret None => conns_closed None evs = true
         | Ret (Some fd) =>
             0 <= fd /\
             exists pre sock addr a tail,
               evs = pre ++ [Net.Sys (Net.Accept sock) fd;
                             Net.Sys (name_of addr) 0;
                             Net.Log log_notice "Received a TCP connection from %s"
                               [Net.AStr (Some a)];
                             Net.Sys Net.Fork 0] ++ tail /\
               In sock socks /\ closes all tail /\
               conns_closed None pre = true
         | Exit st => st = 1
         | Diverge => False
         end).
Proof.
  induction socks as [|sock rest IH]; intros h; cbn [Net.accept_ready].
  { now apply run_of_ret. }
  assert (Hskip : forall h0 e,
    conns_closed None [e] = true ->
    run_of (Net.accept_ready all readfds rest) h0
      (fun o evs =>
         match o with
         | Ret None => conns_closed None ([e] ++ evs) = true
         | Ret (Some fd) =>
             0 <= fd /\
             exists pre sock0 addr a tail,
               [e] ++ evs
               = pre ++ [Net.Sys (Net.Accept sock0) fd;
                         Net.Sys (name_of addr) 0;
                         Net.Log log_notice "Received a TCP connection from %s"
                           [Net.AStr (Some a)];
                         Net.Sys Net.Fork 0] ++ tail /\
               In sock0 (sock :: rest) /\ closes all tail /\
               conns_closed None pre = true
         | Exit st => st = 1
         | Diverge => False
         end)).
  { intros h0 e He. eapply run_of_weaken; [apply IH|].
    intros [[fd|]|st|] evs; auto.
    - intros (Hpos & pre & sock0 & addr & a & tail & -> & Hin & Hc & Hp).
      split; [exact Hpos|].
      exists ([e] ++ pre), sock0, addr, a, tail.
      split; [now rewrite <- app_assoc|]. split; [now right|]. split; [exact Hc|].
      now apply conns_closed_both.
    - intros Hp. now apply conns_closed_both. }
  destruct (negb (existsb (Z.eqb sock) readfds)).
  { eapply run_of_weaken; [apply IH|].
    intros [[fd|]|st|] evs; auto.
    intros (Hpos & pre & sock0 & addr & a & tail & -> & Hin & Hc & Hp).
    split; [exact Hpos|]. exists pre, sock0, addr, a, tail.
    split; [reflexivity|]. split; [now right | auto]. }
  run_step run_of_syscall.
  intros r evs (Hr & ->). injection Hr as ->.
  set (r := Net.os h (Net.history h) (Net.Accept sock)).
  cbv zeta.
  destruct (Net.ret_val r <? 0) eqn:Hneg.
  { destruct (Net.errno r =? Net.EAGAIN).
    - apply Hskip. cbn [conns_closed]. now rewrite Hneg.
    - eapply run_of_weaken; [apply run_of_err_sys|].
      intros o evs (-> & _). reflexivity. }
  apply Z.ltb_ge in Hneg.
  eapply run_of_bind; [apply print_addr_port_run | | |]; cbv zeta.
  2:{ intros st evs [(H & _) | (H & _)]; [discriminate|]. now injection H. }
  2:{ intros evs [(H & _) | (H & _)]; discriminate. }
  intros a evs [(Ha & -> & Hlen) | (H & _)]; [|discriminate].
  run_step run_of_log. intros [] evs (_ & ->).
  run_step run_of_sys_int. intros pid evs (Hpid & ->). injection Hpid as ->.
  set (pid := Net.ret_val _).
  destruct (pid <? 0) eqn:Hpneg.
  { eapply run_of_weaken; [apply run_of_err_sys|].
    intros o evs (-> & _). reflexivity. }
  destruct (pid >? 0) eqn:Hppos.
  - (* the parent *)
    run_step run_of_sys_int. intros v evs (Hv & ->). injection Hv as ->.
    set (v := Net.ret_val (Net.os _ _ (Net.Close _))).
    eapply run_of_weaken; [apply IH|].
    assert (Hpar : conns_closed None
                     ([Net.Sys (Net.Accept sock) (Net.ret_val r)] ++
                      [Net.Sys (name_of (Net.peer r)) 0] ++
                      [Net.Log log_notice "Received a TCP connection from %s"
                         [Net.AStr (Some a)]] ++
                      [Net.Sys Net.Fork pid] ++
                      [Net.Sys (Net.Close (Net.ret_val r)) v]) = true).
    { cbn [app conns_closed name_of].
      replace (Net.ret_val r <? 0) with false by (symmetry; now apply Z.ltb_ge).
      rewrite Z.eqb_refl.
      replace (0 <? pid) with true by (symmetry; apply Z.ltb_lt; lia).
      reflexivity. }
    intros [[fd|]|st|] evs; auto.
    + intros (Hpos & pre & sock0 & addr & a0 & tail & -> & Hin & Hc & Hp).
      split; [exact Hpos|].
      exists (([Net.Sys (Net.Accept sock) (Net.ret_val r)] ++
               [Net.Sys (name_of (Net.peer r)) 0] ++
               [Net.Log log_notice "Received a TCP connection from %s"
                  [Net.AStr (Some a)]] ++
               [Net.Sys Net.Fork pid] ++
               [Net.Sys (Net.Close (Net.ret_val r)) v]) ++ pre),
        sock0, addr, a0, tail.
      split; [|split; [now right | split; [exact Hc|]]].
      2:{ apply conns_closed_both; [exact Hpar | exact Hp]. }
      rewrite <- !app_assoc. reflexivity.
    + intros Hp.
      pose proof (conns_closed_both _ _ Hpar Hp) as H.
      rewrite <- !app_assoc in H. exact H.
  - (* the child *)
    assert (Hzero : pid = 0).
    { apply Z.ltb_ge in Hpneg. rewrite Z.gtb_ltb in Hppos.
      apply Z.ltb_ge in Hppos. lia. }
    run_step close_all_run. intros [] tail (_ & Hc).
    apply run_of_ret. split; [exact Hneg|].
    exists [], sock, (Net.peer r), a, tail.
    split; [|split; [now left | split; [exact Hc | reflexivity]]].
    rewrite Hzero. cbn [app]. now rewrite app_nil_r.
Qed.
(** [accept_connections], in full. *)
Lemma accept_connections_run (fuel : nat) (socks : list Z) :
  forall h,
    run_of (Net.accept_connections fuel socks) h
      (fun o evs =>
         match o with
         | Ret fd =>
             0 <= fd /\
             exists pre sock addr a tail,
               evs = pre ++ [Net.Sys (Net.Accept sock) fd;
                             Net.Sys (name_of addr) 0;
                             Net.Log log_notice "Received a TCP connection from %s"
                               [Net.AStr (Some a)];
                             Net.Sys Net.Fork 0] ++ tail /\
               In sock socks /\ closes socks tail /\
               conns_closed None pre = true
         | Exit st => st = 1
         | Diverge => conns_closed None evs = true
         end).
Proof.
  induction fuel as [|fuel IH]; intros h; cbn [Net.accept_connections].
  { exists []. split; [|reflexivity]. cbn. rewrite app_nil_r. now destruct h. }
  eapply run_of_bind; [apply set_nonblocking_run | | |]; cbv beta.
  2:{ intros st evs H. exact H. }
  2:{ intros evs []. }
  intros [] evs0 Hp0.
  run_step run_of_syscall.
  intros r evs (Hr & ->). injection Hr as ->.
  set (r := Net.os _ _ (Net.Select socks)).
  assert (Hadd : forall e mid evs,
            conns_closed None [e] = true ->
            conns_closed None mid = true ->
            conns_closed None evs = true ->
            conns_closed None (evs0 ++ [e] ++ mid ++ evs) = true).
  { intros e mid evs He Hmid Hevs. repeat apply conns_closed_both; auto. }
  assert (Hnext : forall mid h0,
    conns_closed None mid = true ->
    run_of (Net.accept_connections fuel socks) h0
      (fun o evs =>
         match o with
         | Ret fd =>
             0 <= fd /\
             exists pre sock addr a tail,
               evs0 ++ [Net.Sys (Net.Select socks) (Net.ret_val r)] ++ mid ++ evs
               = pre ++ [Net.Sys (Net.Accept sock) fd;
                         Net.Sys (name_of addr) 0;
                         Net.Log log_notice "Received a TCP connection from %s"
                           [Net.AStr (Some a)];
                         Net.Sys Net.Fork 0] ++ tail /\
               In sock socks /\ closes socks tail /\
               conns_closed None pre = true
         | Exit st => st = 1
         | Diverge =>
             conns_closed None
               (evs0 ++ [Net.Sys (Net.Select socks) (Net.ret_val r)] ++ mid ++ evs)
             = true
         end)).
  { intros mid h0 Hmid. eapply run_of_weaken; [apply IH|].
    intros [fd|st|] evs; auto.
    intros (Hpos & pre & sock & addr & a & tail & -> & Hin & Hc & Hp).
    split; [exact Hpos|].
    exists (evs0 ++ [Net.Sys (Net.Select socks) (Net.ret_val r)] ++ mid ++ pre),
      sock, addr, a, tail.
    split; [now rewrite <- !app_assoc|]. split; [exact Hin|]. split; [exact Hc|].
    now apply Hadd. }
  destruct (Net.ret_val r <? 0).
  { destruct ((Net.errno r =? Net.EINTR) || (Net.errno r =? Net.EAGAIN)).
    - apply (Hnext [] _ eq_refl).
    - eapply run_of_weaken; [apply run_of_err_sys|].
      intros o evs (-> & _). reflexivity. }
  cbv zeta.
  eapply run_of_bind; [apply accept_ready_run | | |]; cbv beta.
  2:{ intros st evs H. exact H. }
  2:{ intros evs []. }
  intros [fd|] evs.
  - intros (Hpos & pre & sock & addr & a & tail & -> & Hin & Hc & Hp).
    apply run_of_ret. split; [exact Hpos|].
    exists (evs0 ++ [Net.Sys (Net.Select socks) (Net.ret_val r)] ++ pre),
      sock, addr, a, tail.
    split; [|split; [exact Hin | split; [exact Hc|]]].
    + rewrite app_nil_r, <- !app_assoc. reflexivity.
    + pose proof (Hadd (Net.Sys (Net.Select socks) (Net.ret_val r)) [] pre
                    eq_refl eq_refl Hp) as H.
      exact H.
  - intros Hp. apply (Hnext evs _ Hp).
Qed.

(** X18.  [accept_connections] on any listening sockets and any system,
    for any number of passes of its loop.  It returns only in a child:
    the last [fork] returned 0, the value returned is the descriptor the
    last [accept] handed out on one of the listening sockets, and after
    the [fork] the process has closed every listening socket, once each
    and in order, and nothing else.  Before that, and for as long as the
    loop runs, the process is the parent: every [fork] returned a pid,
    each accepted connection was closed before the next [accept], and no
    listening socket was closed.  Any exit has status 1. *)
Theorem accept_connections_child (fuel : nat) (socks : list Z) :
  forall h,
    run_of (Net.accept_connections fuel socks) h
      (fun o evs =>
         match o with
         | Ret fd =>
             0 <= fd /\
             exists pre sock addr a tail,
               evs = pre ++ [Net.Sys (Net.Accept sock) fd;
                             Net.Sys (name_of addr) 0;
                             Net.Log log_notice "Received a TCP connection from %s"
                               [Net.AStr (Some a)];
                             Net.Sys Net.Fork 0] ++ tail /\
               In sock socks /\ closes socks tail /\
               conns_closed None pre = true
         | Exit st => st = 1
         | Diverge => conns_closed None evs = true
         end).
Proof. exact (accept_connections_run fuel socks). Qed.
Lemma parse_no_colon_missing (s : list byte) :
  ~ In ":"%byte s ->
  fst (parse_address_port s) = None \/ snd (parse_address_port s) = None.
Proof.
  intros Hs. unfold parse_address_port.
  destruct s as [|c0 rest]; [now left|].
  destruct (if Byte.eqb c0 "["%byte then strchr (c0 :: rest) "]"%byte else None)
    as [p|].
  - right. cbn [snd].
    rewrite (proj2 (strchr_none (skipn p (c0 :: rest)) ":"%byte)); [reflexivity|].
    intros Hin. apply Hs. rewrite <- (firstn_skipn p (c0 :: rest)).
    apply in_or_app. now right.
  - rewrite (proj2 (strchr_none (c0 :: rest) ":"%byte) Hs).
    destruct (forallb isdigit (c0 :: rest)); [now left | now right].
Qed.

(** X19.  A specification without colon is never enough for a client:
    [tcp_client] and [udp_client] end the process with status 2, with
    the message about the missing address or port and before any call to
    the system.  When it is not made of digits only, or is empty, the two
    listeners refuse it in the same way, with the message about the
    missing port. *)
Theorem spec_without_colon (s : list byte) (h : Net.host) :
  ~ In ":"%byte s ->
  (Net.tcp_client s h
   = (Exit 2, later h [Net.Log log_err "Missing address or port in '%s'!"
                         [Net.AStr (Some s)]]) /\
   Net.udp_client s h
   = (Exit 2, later h [Net.Log log_err "Missing address or port in '%s'!"
                         [Net.AStr (Some s)]])) /\
  (s = [] \/ forallb isdigit s = false ->
   Net.tcp_listener s h
   = (Exit 2, later h [Net.Log log_err "Missing port in '%s'!" [Net.AStr (Some s)]]) /\
   Net.udp_listener s h
   = (Exit 2, later h [Net.Log log_err "Missing port in '%s'!" [Net.AStr (Some s)]])).
Proof.
  intros Hs. split.
  - pose proof (parse_no_colon_missing s Hs) as Hm.
    unfold Net.tcp_client, Net.udp_client.
    destruct (parse_address_port s) as [[address|] [port|]]; cbn [fst snd] in Hm;
      try (destruct Hm; discriminate); split; reflexivity.
  - intros Hd.
    assert (Hport : snd (parse_address_port s) = None).
    { unfold parse_address_port.
      destruct s as [|c0 rest]; [reflexivity|].
      destruct (if Byte.eqb c0 "["%byte then strchr (c0 :: rest) "]"%byte else None)
        as [p|].
      - cbn [snd].
        rewrite (proj2 (strchr_none (skipn p (c0 :: rest)) ":"%byte)); [reflexivity|].
        intros Hin. apply Hs. rewrite <- (firstn_skipn p (c0 :: rest)).
        apply in_or_app. now right.
      - rewrite (proj2 (strchr_none (c0 :: rest) ":"%byte) Hs).
        destruct Hd as [Hd | Hd]; [discriminate|]. now rewrite Hd. }
    unfold Net.tcp_listener, Net.udp_listener.
    destruct (parse_address_port s) as [address [port|]]; cbn [snd] in Hport;
      [discriminate|]. split; reflexivity.
Qed.

Lemma spec_without_colon_witness :
  (Net.tcp_client (String.list_byte_of_string "example.com")
     numeric_host
   = (Exit 2,
      later numeric_host
        [Net.Log log_err "Missing address or port in '%s'!"
           [Net.AStr (Some (String.list_byte_of_string "example.com"))]]) /\
   Net.udp_client (String.list_byte_of_string "example.com")
     numeric_host
   = (Exit 2,
      later numeric_host
        [Net.Log log_err "Missing address or port in '%s'!"
           [Net.AStr (Some (String.list_byte_of_string "example.com"))]])) /\
  (String.list_byte_of_string "example.com" = [] \/
   forallb isdigit (String.list_byte_of_string "example.com") = false ->
   Net.tcp_listener (String.list_byte_of_string "example.com")
     numeric_host
   = (Exit 2,
      later numeric_host
        [Net.Log log_err "Missing port in '%s'!"
           [Net.AStr (Some (String.list_byte_of_string "example.com"))]]) /\
   Net.udp_listener (String.list_byte_of_string "example.com")
     numeric_host
   = (Exit 2,
      later numeric_host
        [Net.Log log_err "Missing port in '%s'!"
           [Net.AStr (Some (String.list_byte_of_string "example.com"))]])).
Proof.
  apply (spec_without_colon (String.list_byte_of_string "example.com")).
  cbn. intuition discriminate.
Defined.

(** X20.  What [print_addr_port] returns is never cut short by its
    buffer: it is the address and the port as [getnameinfo] gave them,
    with a colon between them and the address in brackets for an IPv6
    socket address.  [parse_address_port] takes that string apart again:
    for an address and a port that are not empty, a port without colon,
    and an address that has no closing bracket (IPv6) or neither colon
    nor opening bracket (otherwise), it gives back the same address and
    the same port. *)
Theorem print_addr_port_parses (addr : sockaddr_storage) (h : Net.host)
    (a : list byte) :
  fst (Net.print_addr_port addr h) = Ret a ->
  a = addr_port (ss_family addr) (fst (Net.names (name_reply h addr)))
        (snd (Net.names (name_reply h addr))) /\
  (fst (Net.names (name_reply h addr)) <> [] ->
   snd (Net.names (name_reply h addr)) <> [] ->
   ~ In ":"%byte (snd (Net.names (name_reply h addr))) ->
   (if ss_family addr =? Net.AF_INET6
    then ~ In "]"%byte (fst (Net.names (name_reply h addr)))
    else ~ In ":"%byte (fst (Net.names (name_reply h addr))) /\
         ~ In "["%byte (fst (Net.names (name_reply h addr)))) ->
   parse_address_port a
   = (Some (fst (Net.names (name_reply h addr))),
      Some (snd (Net.names (name_reply h addr))))).
Proof.
  intros Hret.
  destruct (print_addr_port_run addr h) as (evs & _ & Hp). cbv zeta in Hp.
  rewrite Hret in Hp.
  destruct Hp as [(Ha & _) | (H & _)]; [|discriminate].
  injection Ha as ->. split; [reflexivity|].
  generalize (fst (Net.names (name_reply h addr))),
    (snd (Net.names (name_reply h addr))).
  intros host port Hhost Hport Hpc Hshape.
  unfold addr_port. destruct (ss_family addr =? Net.AF_INET6).
  - (* [host]:port *)
    unfold parse_address_port.
    change (Byte.eqb "["%byte "["%byte) with true. cbv iota.
    assert (Hclose : strchr ("["%byte :: host ++ "]"%byte :: ":"%byte :: port) "]"%byte
                     = Some (S (length host))).
    { cbn [strchr]. change (Byte.eqb "["%byte "]"%byte) with false. cbv iota.
      rewrite (strchr_first host (":"%byte :: port) _ Hshape). reflexivity. }
    rewrite Hclose.
    replace (S (length host) - 0 - 1)%nat with (length host) by lia.
    cbn [skipn]. rewrite firstn_app_cons.
    replace (skipn (length host) (host ++ "]"%byte :: ":"%byte :: port))
      with ("]"%byte :: ":"%byte :: port).
    2:{ rewrite skipn_app, Nat.sub_diag, skipn_all. reflexivity. }
    cbn [strchr]. change (Byte.eqb "]"%byte ":"%byte) with false.
    change (Byte.eqb ":"%byte ":"%byte) with true. cbv iota. cbn [option_map].
    replace (S (length host) + 1 + 1)%nat with (S (length host + 1 + 1)) by lia.
    cbn [skipn].
    replace (skipn (length host + 1 + 1) (host ++ "]"%byte :: ":"%byte :: port))
      with port.
    2:{ rewrite <- Nat.add_assoc, skipn_app.
        replace (length host + (1 + 1) - length host)%nat with 2%nat by lia.
        rewrite skipn_all2 by lia. reflexivity. }
    destruct port; [contradiction | reflexivity].
  - (* host:port *)
    destruct Hshape as (Hhc & Hhb).
    unfold parse_address_port.
    destruct (host ++ ":"%byte :: port) as [|c0 rest] eqn:E.
    { destruct host; discriminate. }
    assert (Hnb : ~ bracketed (c0 :: rest)).
    { intros (r & Hr & _). injection Hr as -> _.
      destruct host as [|x host]; [contradiction|].
      injection E as -> _. apply Hhb. now left. }
    rewrite (not_bracketed_test c0 rest Hnb). rewrite <- E.
    rewrite (strchr_first host port _ Hhc).
    rewrite skipn_app_cons.
    rewrite (proj2 (strchr_none port _) Hpc).
    rewrite Nat.sub_0_r, firstn_app_cons.
    destruct host; [contradiction|]. destruct port; [contradiction | reflexivity].
Qed.

Lemma print_addr_port_parses_witness :
  String.list_byte_of_string "192.0.2.1:8080"
  = addr_port (ss_family (mkAddr 2 []))
      (fst (Net.names (name_reply numeric_host (mkAddr 2 []))))
      (snd (Net.names (name_reply numeric_host (mkAddr 2 [])))) /\
  (fst (Net.names (name_reply numeric_host (mkAddr 2 []))) <> [] ->
   snd (Net.names (name_reply numeric_host (mkAddr 2 []))) <> [] ->
   ~ In ":"%byte (snd (Net.names (name_reply numeric_host (mkAddr 2 [])))) ->
   (if ss_family (mkAddr 2 []) =? Net.AF_INET6
    then ~ In "]"%byte (fst (Net.names (name_reply numeric_host (mkAddr 2 []))))
    else ~ In ":"%byte (fst (Net.names (name_reply numeric_host (mkAddr 2 [])))) /\
         ~ In "["%byte (fst (Net.names (name_reply numeric_host (mkAddr 2 []))))) ->
   parse_address_port (String.list_byte_of_string "192.0.2.1:8080")
   = (Some (fst (Net.names (name_reply numeric_host (mkAddr 2 [])))),
      Some (snd (Net.names (name_reply numeric_host (mkAddr 2 [])))))).
Proof.
  apply (print_addr_port_parses (mkAddr 2 []) numeric_host).
  reflexivity.
Defined.

(** * The time stamp *)

Lemma strlen_text (s t : list byte) :
  text s -> strlen (s ++ x00 :: t) = length s.
Proof.
  induction 1 as [|x s Hx _ IH]; [reflexivity|].
  cbn [app strlen length].
  replace (Byte.eqb x x00) with false by (symmetry; now apply byte_eqb_neq).
  now rewrite IH.
Qed.

Lemma cstring_text (s t : list byte) :
  text s -> cstring (s ++ x00 :: t) = s.
Proof.
  intros H. unfold cstring. rewrite (strlen_text s t H).
  rewrite firstn_app, Nat.sub_diag, firstn_all. cbn [firstn]. apply app_nil_r.
Qed.

(** Writing behind the string a buffer holds. *)
Lemma put_behind (s t u : list byte) (n : nat) :
  n = length s -> (length u <= length t + 1)%nat ->
  put (s ++ x00 :: t) n u
  = s ++ u ++ skipn (length u) (x00 :: t) /\
  length (put (s ++ x00 :: t) n u) = length (s ++ x00 :: t).
Proof.
  intros -> Hu. unfold put.
  replace (length s + length u <=? length (s ++ x00 :: t))%nat with true.
  2:{ symmetry. apply Nat.leb_le. rewrite length_app. cbn [length]. lia. }
  rewrite firstn_app, Nat.sub_diag, firstn_all. cbn [firstn]. rewrite app_nil_r.
  rewrite skipn_app.
  rewrite (skipn_all2 s) by lia.
  replace (length s + length u - length s)%nat with (length u) by lia.
  cbn [app]. split; [reflexivity|].
  rewrite !length_app, length_skipn. cbn [length]. lia.
Qed.

Lemma digit_text (k : Z) : 0 <= k < 10 -> byte_of_Z (48 + k) <> x00.
Proof.
  intros Hk E. apply (f_equal Z_of_byte) in E.
  rewrite Z_of_byte_of_Z in E. rewrite Z.mod_small in E by lia.
  change (Z_of_byte x00) with 0 in E. lia.
Qed.

Lemma dec3_text (n : Z) : text (dec3 n).
Proof.
  unfold dec3, text.
  repeat constructor; apply digit_text; apply Z.mod_pos_bound; lia.
Qed.

Lemma put_app (p l u : list byte) (k n : nat) :
  n = (length p + k)%nat -> put (p ++ l) n u = p ++ put l k u.
Proof.
  intros ->. unfold put. rewrite length_app.
  replace (length p + k + length u <=? length p + length l)%nat
    with (k + length u <=? length l)%nat.
  2:{ destruct (k + length u <=? length l)%nat eqn:E; symmetry.
      - apply Nat.leb_le in E. apply Nat.leb_le. lia.
      - apply Nat.leb_gt in E. apply Nat.leb_gt. lia. }
  destruct (k + length u <=? length l)%nat; [|reflexivity].
  rewrite firstn_app, skipn_app.
  rewrite (firstn_all2 p) by lia. rewrite (skipn_all2 p) by lia.
  replace (length p + k - length p)%nat with k by lia.
  replace (length p + k + length u - length p)%nat with (k + length u)%nat by lia.
  cbn [app]. now rewrite <- app_assoc.
Qed.

Lemma peek_app (p l : list byte) (k n : nat) :
  n = (length p + k)%nat -> peek (p ++ l) n = peek l k.
Proof.
  intros ->. unfold peek. rewrite app_nth2 by lia. f_equal. lia.
Qed.

(** X21.  With a clock that works, a date of the usual 19 characters
    and an offset that [strftime] renders as a sign and four digits,
    [format_rfc3339_timestamp] stays within its 32 bytes and leaves the
    date, a dot, the three digits of the milliseconds, and an offset of
    seven characters: the sign, the two digits of the hours, a colon, the
    second digit of the hours once more, and the two digits of the
    minutes.  So [+0530] comes out as [+05:530]. *)
Theorem timestamp_offset (b date : list byte) (sg h1 h2 m1 m2 : byte)
    (sec nsec : Z) (c : clock) :
  length b = 32%nat -> length date = 19%nat -> text date ->
  text [sg; h1; h2; m1; m2] -> m1 <> ":"%byte ->
  0 <= nsec < 1000000000 ->
  clock_gettime c = Some (sec, nsec) ->
  localtime c sec = Some (date, [sg; h1; h2; m1; m2]) ->
  cstring (format_rfc3339_timestamp b 32 c)
  = date ++ "."%byte :: dec3 (nsec / 1000000)
         ++ [sg; h1; h2; ":"%byte; h2; m1; m2] /\
  length (format_rfc3339_timestamp b 32 c) = 32%nat.
Proof.
  intros Hb Hdate Htext Hzone Hm1 Hnsec Hclock Hlocal.
  unfold format_rfc3339_timestamp. rewrite Hclock, Hlocal.
  rewrite Z.quot_div_nonneg by lia.
  set (ms := dec3 (nsec / 1000000)).
  assert (Hms : text ms) by apply dec3_text.
  assert (Hmslen : length ms = 3%nat) by reflexivity.
  (* the date *)
  set (t1 := skipn 20 b).
  assert (Ht1 : length t1 = 12%nat).
  { unfold t1. rewrite length_skipn. lia. }
  assert (H1 : strftime_at b 0 32 date = date ++ x00 :: t1).
  { unfold strftime_at. rewrite Hdate. cbn [Nat.add Nat.leb].
    unfold put. rewrite length_app, Hdate, Hb. cbn [length Nat.add Nat.leb firstn app].
    rewrite <- app_assoc. reflexivity. }
  cbv zeta. rewrite H1.
  rewrite (strlen_text date t1 Htext), Hdate.
  cbn [Nat.sub].
  (* the milliseconds *)
  set (t2 := skipn 4 t1).
  assert (Ht2 : length t2 = 8%nat).
  { unfold t2. rewrite length_skipn. lia. }
  assert (H2 : snprintf_at (date ++ x00 :: t1) 19 13 ("."%byte :: ms)
               = (date ++ "."%byte :: ms) ++ x00 :: t2).
  { unfold snprintf_at.
    replace (firstn 12 ("."%byte :: ms)) with ("."%byte :: ms) by reflexivity.
    destruct (put_behind date t1 (("."%byte :: ms) ++ [x00]) 19) as (Hp & _).
    { now rewrite Hdate. }
    { cbn [length app]. rewrite length_app, Hmslen. cbn [length]. lia. }
    rewrite Hp. rewrite <- !app_assoc. reflexivity. }
  rewrite H2.
  set (p := date ++ "."%byte :: ms).
  assert (Hp : length p = 23%nat).
  { unfold p. rewrite length_app. cbn [length]. rewrite Hdate, Hmslen. reflexivity. }
  assert (Hptext : text p).
  { unfold p, text. apply Forall_app. split; [exact Htext|].
    constructor; [discriminate | exact Hms]. }
  rewrite (strlen_text p t2 Hptext), Hp.
  cbn [Nat.sub].
  (* the offset *)
  set (zone := [sg; h1; h2; m1; m2]).
  set (t3 := skipn 5 t2).
  assert (Ht3 : length t3 = 3%nat).
  { unfold t3. rewrite length_skipn. lia. }
  assert (H3 : strftime_at (p ++ x00 :: t2) 23 9 zone = (p ++ zone) ++ x00 :: t3).
  { unfold strftime_at. cbn [zone length Nat.add Nat.leb].
    destruct (put_behind p t2 (zone ++ [x00]) 23) as (Hq & _).
    { now rewrite Hp. }
    { cbn [zone length app]. lia. }
    fold zone. rewrite Hq. rewrite <- !app_assoc. reflexivity. }
  rewrite H3.
  assert (Hztext : text (p ++ zone)).
  { apply Forall_app. split; assumption. }
  rewrite (strlen_text (p ++ zone) t3 Hztext).
  rewrite length_app, Hp. cbn [zone length Nat.add Nat.sub Nat.leb andb].
  destruct t3 as [|j0 [|j1 [|j2 [|]]]]; cbn [length] in Ht3; try lia.
  rewrite <- app_assoc. cbn [zone app].
  rewrite (peek_app p _ 3 26) by (rewrite Hp; reflexivity).
  rewrite (peek_app p _ 2 25) by (rewrite Hp; reflexivity).
  rewrite (peek_app p _ 4 27) by (rewrite Hp; reflexivity).
  cbn [peek nth].
  replace (Byte.eqb m1 ":"%byte) with false by (symmetry; now apply byte_eqb_neq).
  cbn [negb].
  rewrite (put_app p _ [":"%byte] 3 26) by (rewrite Hp; reflexivity).
  cbn [put length Nat.add Nat.leb firstn skipn app].
  rewrite (put_app p _ [h2] 4 27) by (rewrite Hp; reflexivity).
  cbn [put length Nat.add Nat.leb firstn skipn app].
  rewrite (put_app p _ [m1] 5 28) by (rewrite Hp; reflexivity).
  cbn [put length Nat.add Nat.leb firstn skipn app].
  rewrite (put_app p _ [m2] 6 29) by (rewrite Hp; reflexivity).
  cbn [put length Nat.add Nat.leb firstn skipn app].
  rewrite (put_app p _ [x00] 7 30) by (rewrite Hp; reflexivity).
  cbn [put length Nat.add Nat.leb firstn skipn app].
  split.
  - change (p ++ [sg; h1; h2; ":"%byte; h2; m1; m2; x00; j2])
      with (p ++ [sg; h1; h2; ":"%byte; h2; m1; m2] ++ x00 :: [j2]).
    rewrite app_assoc. rewrite cstring_text.
    + unfold p. rewrite <- app_assoc. reflexivity.
    + apply Forall_app. split; [exact Hptext|].
      unfold zone in Hzone. inversion Hzone as [|? ? Hsg Hz1]; subst.
      inversion Hz1 as [|? ? Hh1 Hz2]; subst.
      inversion Hz2 as [|? ? Hh2 Hz3]; subst.
      inversion Hz3 as [|? ? Hm1' Hz4]; subst.
      inversion Hz4 as [|? ? Hm2 _]; subst.
      repeat constructor; auto; discriminate.
  - rewrite length_app, Hp. reflexivity.
Qed.

Lemma timestamp_offset_witness :
  cstring (format_rfc3339_timestamp (repeat x00 32) 32
             (mkClock (Some (0, 123456789))
                (fun _ => Some (String.list_byte_of_string "2024-05-06T07:08:09",
                                String.list_byte_of_string "+0530"))))
  = String.list_byte_of_string "2024-05-06T07:08:09"
      ++ "."%byte :: dec3 (123456789 / 1000000)
      ++ String.list_byte_of_string "+05:530" /\
  length (format_rfc3339_timestamp (repeat x00 32) 32
            (mkClock (Some (0, 123456789))
               (fun _ => Some (String.list_byte_of_string "2024-05-06T07:08:09",
                               String.list_byte_of_string "+0530")))) = 32%nat.
Proof.
  apply (timestamp_offset (repeat x00 32)
           (String.list_byte_of_string "2024-05-06T07:08:09")
           "+"%byte "0"%byte "5"%byte "3"%byte "0"%byte 0 123456789).
  - reflexivity.
  - reflexivity.
  - repeat constructor; discriminate.
  - repeat constructor; discriminate.
  - discriminate.
  - lia.
  - reflexivity.
  - reflexivity.
Defined.
(** * The idle time-outs *)

Lemma no_timeout_app (a b : list event) :
  no_timeout a -> no_timeout b -> no_timeout (a ++ b).
Proof. intros Ha Hb. apply Forall_app. now split. Qed.

Ltac not_timeout :=
  repeat constructor;
  try (intros [H | H]; discriminate H).

Lemma send_udp_packet_no_timeout (r : relay) (w : world) :
  exists evs,
    trace (snd (send_udp_packet r w)) = trace w ++ evs /\ no_timeout evs.
Proof.
  unfold send_udp_packet.
  destruct (ss_family (remote_udpaddr r) =? 0).
  { eexists. split; [reflexivity|]. not_timeout. }
  unfold sys_sendto, sys_getsockopt_so_error, log_printf, err_sys, bind,
    next_out, emit, ret, exit.
  destruct (out_res w) as [|[e|] rest]; cbn [out_res tcp_rx udp_rx trace snd].
  - eexists. split; [reflexivity|]. not_timeout.
  - destruct (negb (e =? ECONNREFUSED)); cbn [out_res tcp_rx udp_rx trace snd].
    + eexists. split; [rewrite <- app_assoc; reflexivity|]. not_timeout.
    + destruct rest as [|[e'|] rest']; cbn [out_res tcp_rx udp_rx trace snd];
        eexists; (split; [rewrite <- ?app_assoc; reflexivity|]); not_timeout.
  - eexists. split; [reflexivity|]. not_timeout.
Qed.

Lemma parse_step_no_timeout (r : relay) (w : world) :
  exists evs,
    trace (snd (parse_step r w)) = trace w ++ evs /\ no_timeout evs.
Proof.
  unfold parse_step. destruct (state r).
  - exists []. split; [cbn; now rewrite app_nil_r | constructor].
  - destruct (negb _); eexists; (split; [cbn; reflexivity|]); not_timeout.
  - exists []. split; [cbn; now rewrite app_nil_r | constructor].
  - unfold bind at 1. pose proof (send_udp_packet_no_timeout r w) as H.
    destruct (send_udp_packet r w) as [[[]| |] w1]; exact H.
Qed.

Lemma parse_loop_no_timeout (fuel : nat) :
  forall (r : relay) (w : world),
    exists evs,
      trace (snd (parse_loop fuel r w)) = trace w ++ evs /\ no_timeout evs.
Proof.
  induction fuel as [|fuel IH]; intros r w; cbn [parse_loop].
  { exists []. split; [cbn; now rewrite app_nil_r | constructor]. }
  destruct (_ >=? _).
  2:{ exists []. split; [cbn; now rewrite app_nil_r | constructor]. }
  unfold bind. destruct (parse_step_no_timeout r w) as (evs & Htr & Hev).
  destruct (parse_step r w) as [[r1| |] w1]; cbn [snd] in *; eauto.
  destruct (IH r1 w1) as (evs1 & Htr1 & Hev1).
  exists (evs ++ evs1). split; [now rewrite Htr1, Htr, app_assoc|].
  now apply no_timeout_app.
Qed.

Lemma tcp_to_udp_no_timeout (r : relay) (w : world) :
  exists evs,
    trace (snd (tcp_to_udp r w)) = trace w ++ evs /\ no_timeout evs.
Proof.
  unfold tcp_to_udp. set (r0 := init_parser r).
  unfold bind at 1, sys_read.
  destruct (tcp_rx w) as [|[l|e] rest].
  - eexists. split; [reflexivity|]. not_timeout.
  - assert (Hgen : forall data w1,
              trace w1 = trace w ++ [EvRead (tcp_sock r0) (0 + TCPBUFFERSIZE - buf_ptr r0)] ->
              exists evs,
                trace (snd ((if Z.of_nat (length data) =? 0
                             then log_printf_exit 0 log_notice
                                    "Remote closed the connection"
                             else parse_loop
                                    (loop_fuel
                                       (set_buffer r0
                                          (mem_write (buf r0) (buf_ptr r0) data)
                                          (buf_ptr r0 + Z.of_nat (length data))
                                          (packet_start r0)))
                                    (set_buffer r0
                                       (mem_write (buf r0) (buf_ptr r0) data)
                                       (buf_ptr r0 + Z.of_nat (length data))
                                       (packet_start r0))) w1))
                = trace w ++ evs /\ no_timeout evs).
    { intros data w1 Hw1. destruct (Z.of_nat (length data) =? 0).
      - eexists. split; [cbn; rewrite Hw1, <- app_assoc; reflexivity|]. not_timeout.
      - match goal with |- context [parse_loop ?f ?x w1] =>
          destruct (parse_loop_no_timeout f x w1) as (evs & Htr & Hev) end.
        eexists. split; [rewrite Htr, Hw1, <- app_assoc; reflexivity|].
        apply no_timeout_app; [not_timeout | exact Hev]. }
    destruct (Z.of_nat (length l) <=? 0 + TCPBUFFERSIZE - buf_ptr r0);
      apply Hgen; reflexivity.
  - eexists. split; [cbn; rewrite <- app_assoc; reflexivity|]. not_timeout.
Qed.

Lemma udp_to_tcp_no_timeout (r : relay) (w : world) :
  exists evs,
    trace (snd (udp_to_tcp r w)) = trace w ++ evs /\ no_timeout evs.
Proof.
  unfold udp_to_tcp, sys_recvfrom, sys_send, err_sys, bind, next_out, emit,
    ret, exit.
  destruct (udp_rx w) as [|[d from|e] rest];
    cbn [tcp_rx udp_rx out_res trace fst snd].
  - eexists. split; [reflexivity|]. not_timeout.
  - generalize (firstn (Z.to_nat UDPBUFFERSIZE) d). intros data.
    destruct (Z.of_nat (length data) =? 0);
      cbn [tcp_rx udp_rx out_res trace fst snd].
    + eexists. split; [reflexivity|]. not_timeout.
    + destruct (out_res w) as [|[e|] rest'];
        cbn [out_res tcp_rx udp_rx trace fst snd];
        eexists; (split; [rewrite <- ?app_assoc; reflexivity|]); not_timeout.
  - eexists. split; [rewrite <- app_assoc; reflexivity|]. not_timeout.
Qed.
Lemma lift_no_timeout {A} (m : M A) (s : Timed.session) :
  (forall w, exists evs, trace (snd (m w)) = trace w ++ evs /\ no_timeout evs) ->
  exists evs,
    trace (Timed.sockets (snd (Timed.lift m s)))
    = trace (Timed.sockets s) ++ evs /\ no_timeout evs /\
    Timed.selects (snd (Timed.lift m s)) = Timed.selects s.
Proof.
  intros H. unfold Timed.lift. destruct (H (Timed.sockets s)) as (evs & Htr & Hev).
  destruct (m (Timed.sockets s)) as [o w]. cbn [snd Timed.sockets Timed.selects] in *.
  eauto.
Qed.

Lemma calm_ret {A} (a : A) (s : Timed.session) (P : outcome A -> Prop) :
  P (Ret a) -> calm (Timed.ret a) s P.
Proof.
  intros HP. exists []. cbn. rewrite app_nil_r. repeat split; auto. constructor.
Qed.

Lemma calm_bind {A B} (m : Timed.T A) (k : A -> Timed.T B) (s : Timed.session)
    (P : outcome A -> Prop) (Q : outcome B -> Prop) :
  calm m s P ->
  (forall a s', P (Ret a) -> calm (k a) s' Q) ->
  (forall st, Q (Exit st)) -> Q Diverge ->
  calm (Timed.bind m k) s Q.
Proof.
  intros (evs & Htr & Hev & Hsel & HP) Hk He Hd. unfold calm, Timed.bind.
  destruct (m s) as [[a|st|] s1]; cbn [fst snd] in *.
  - destruct (Hk a s1 HP) as (evs' & Htr' & Hev' & Hsel' & HQ).
    exists (evs ++ evs'). rewrite Htr', Htr, app_assoc.
    repeat split; auto; [now apply no_timeout_app | congruence].
  - exists evs. repeat split; auto.
  - exists evs. repeat split; auto.
Qed.

Lemma calm_time (s : Timed.session) (P : outcome Z -> Prop) :
  (forall z, P (Ret z)) -> calm Timed.time s P.
Proof.
  intros HP. exists []. cbn. rewrite app_nil_r. repeat split; auto. constructor.
Qed.

Lemma calm_lift {A} (m : M A) (s : Timed.session) (P : outcome A -> Prop) :
  (forall w, exists evs, trace (snd (m w)) = trace w ++ evs /\ no_timeout evs) ->
  (forall o, P o) ->
  calm (Timed.lift m) s P.
Proof.
  intros H HP. destruct (lift_no_timeout m s H) as (evs & Htr & Hev & Hsel).
  exists evs. auto.
Qed.

(** One pass behind a [select] that had something to report, or with
    both time stamps at zero: no time-out, and a time stamp at zero stays
    there. *)
Lemma pass_calm (r : relay) (lu lt : Z) (tcp udp : bool) (s : Timed.session) :
  tcp || udp = true \/ (lu = 0 /\ lt = 0) ->
  calm (Timed.pass r lu lt tcp udp) s
    (fun o => forall r' lu' lt',
       o = Ret (r', lu', lt') -> (lu = 0 -> lu' = 0) /\ (lt = 0 -> lt' = 0)).
Proof.
  intros Hc. unfold Timed.pass.
  assert (Hu : negb (lu =? 0)
               && ((if tcp then 1 else 0) + (if udp then 1 else 0) =? 0) = false).
  { destruct Hc as [Hb | (-> & _)]; [|reflexivity].
    destruct tcp, udp; try discriminate; apply andb_false_r. }
  assert (Ht : negb (lt =? 0)
               && ((if tcp then 1 else 0) + (if udp then 1 else 0) =? 0) = false).
  { destruct Hc as [Hb | (_ & ->)]; [|reflexivity].
    destruct tcp, udp; try discriminate; apply andb_false_r. }
  cbv zeta. rewrite Hu, Ht.
  eapply calm_bind with (P := fun _ => True);
    [apply calm_ret; exact I | | intros; discriminate | intros; discriminate].
  intros [] s1 _.
  eapply calm_bind with (P := fun _ => True);
    [apply calm_ret; exact I | | intros; discriminate | intros; discriminate].
  intros [] s2 _.
  eapply calm_bind with
    (P := fun o => forall r1 lt1, o = Ret (r1, lt1) -> lt = 0 -> lt1 = 0);
    [ | | intros; discriminate | intros; discriminate].
  { destruct tcp.
    - eapply calm_bind with (P := fun _ => True);
        [apply calm_lift; [apply tcp_to_udp_no_timeout | auto] | |
         intros; discriminate | intros; discriminate].
      intros r' s3 _.
      destruct (lt =? 0) eqn:E; cbn [negb].
      + apply calm_ret. intros r1 lt1 H _. now injection H as _ <-; apply Z.eqb_eq.
      + eapply calm_bind with (P := fun _ => True);
          [apply calm_time; auto | | intros; discriminate | intros; discriminate].
        intros now s4 _. apply calm_ret. intros r1 lt1 _ H.
        rewrite H in E. discriminate.
    - apply calm_ret. intros r1 lt1 H. now injection H as _ <-. }
  intros [r1 lt1] s3 H1.
  eapply calm_bind with
    (P := fun o => forall r2 lu1, o = Ret (r2, lu1) -> lu = 0 -> lu1 = 0);
    [ | | intros; discriminate | intros; discriminate].
  { destruct udp.
    - eapply calm_bind with (P := fun _ => True);
        [apply calm_lift; [apply udp_to_tcp_no_timeout | auto] | |
         intros; discriminate | intros; discriminate].
      intros r' s4 _.
      destruct (lu =? 0) eqn:E; cbn [negb].
      + apply calm_ret. intros r2 lu1 H _. now injection H as _ <-; apply Z.eqb_eq.
      + eapply calm_bind with (P := fun _ => True);
          [apply calm_time; auto | | intros; discriminate | intros; discriminate].
        intros now s5 _. apply calm_ret. intros r2 lu1 _ H.
        rewrite H in E. discriminate.
    - apply calm_ret. intros r2 lu1 H. now injection H as _ <-. }
  intros [r2 lu1] s4 H2.
  apply calm_ret. intros r' lu' lt' H. injection H as <- <- <-.
  split; [apply (H2 r2 lu1 eq_refl) | apply (H1 r1 lt1 eq_refl)].
Qed.
Lemma loop_calm (fuel : nat) :
  forall (r : relay) (lu lt : Z) (s : Timed.session),
    Forall busy (Timed.selects s) \/ (lu = 0 /\ lt = 0) ->
    exists evs,
      trace (Timed.sockets (snd (Timed.loop fuel r lu lt s)))
      = trace (Timed.sockets s) ++ evs /\ no_timeout evs.
Proof.
  induction fuel as [|fuel IH]; intros r lu lt s Hc; cbn [Timed.loop].
  { exists []. split; [cbn; now rewrite app_nil_r | constructor]. }
  unfold Timed.bind at 1, Timed.sys_select.
  destruct (Timed.selects s) as [|x rest] eqn:Hsel.
  { exists []. split; [cbn; now rewrite app_nil_r | constructor]. }
  set (s1 := Timed.mkSession _ rest _ _).
  assert (Hc1 : Forall busy (Timed.selects s1) \/ (lu = 0 /\ lt = 0)).
  { destruct Hc as [Hb | Hz]; [left | now right].
    inversion Hb; subst. assumption. }
  destruct x as [errno | tcp udp].
  - destruct ((errno =? Timed.EINTR) || (errno =? Timed.EAGAIN)).
    + apply (IH r lu lt s1 Hc1).
    + eexists. split; [cbn; reflexivity|]. not_timeout.
  - assert (Hp : tcp || udp = true \/ (lu = 0 /\ lt = 0)).
    { destruct Hc as [Hb | Hz]; [left | now right].
      inversion Hb as [|? ? Hx _]; subst. destruct tcp, udp; auto; contradiction. }
    destruct (pass_calm r lu lt tcp udp s1 Hp) as (evs & Htr & Hev & Hs & HP).
    unfold Timed.bind.
    destruct (Timed.pass r lu lt tcp udp s1) as [[[[r' lu'] lt']|st|] s2];
      cbn [fst snd] in *; eauto.
    destruct (HP r' lu' lt' eq_refl) as (Hlu & Hlt).
    destruct (IH r' lu' lt' s2) as (evs' & Htr' & Hev').
    { rewrite Hs. destruct Hc1 as [Hb | (Hz1 & Hz2)]; [now left | right; auto]. }
    exists (evs ++ evs'). rewrite Htr', Htr, app_assoc.
    split; [reflexivity | now apply no_timeout_app].
Qed.

(** X22.  The idle time-outs of [main_loop] are looked at only when
    [select] comes back with nothing to read.  As long as every [select]
    reports a socket, or fails, the relay never exits on a time-out,
    whatever the clock says and however long one of the two directions
    has been silent; and a relay with both time-outs at zero never does,
    whatever [select] reports. *)
Theorem busy_never_times_out (fuel : nat) (r : relay) (s : Timed.session) :
  Forall busy (Timed.selects s) \/ (udp_timeout r = 0 /\ tcp_timeout r = 0) ->
  exists evs,
    trace (Timed.sockets (snd (Timed.main_loop fuel r s)))
    = trace (Timed.sockets s) ++ evs /\
    Forall (fun e => ~ timeout_log e) evs.
Proof.
  intros Hc. unfold Timed.main_loop.
  assert (Hgo : forall lu lt s1,
            Timed.selects s1 = Timed.selects s ->
            Timed.sockets s1 = Timed.sockets s ->
            (udp_timeout r = 0 -> lu = 0) -> (tcp_timeout r = 0 -> lt = 0) ->
            exists evs,
              trace (Timed.sockets (snd (Timed.loop fuel r lu lt s1)))
              = trace (Timed.sockets s) ++ evs /\ no_timeout evs).
  { intros lu lt s1 Hsel Hsock Hlu Hlt. rewrite <- Hsock.
    apply loop_calm. rewrite Hsel.
    destruct Hc as [Hb | (Hu & Ht)]; [now left | right; auto]. }
  unfold Timed.bind at 1.
  destruct (udp_timeout r =? 0) eqn:Eu; cbn [negb];
    unfold Timed.bind at 1;
    destruct (tcp_timeout r =? 0) eqn:Et; cbn [negb];
    unfold Timed.ret, Timed.time; apply Hgo; cbn; auto;
    intros H; rewrite H in *; discriminate.
Qed.

Lemma busy_never_times_out_witness :
  exists evs,
    trace (Timed.sockets
             (snd (Timed.main_loop 3
                     (server_relay default_handshake 4 3 1 (mkAddr 2 []))
                     (Timed.mkSession
                        (new_world [] [Dgram [x41] (mkAddr 2 [])])
                        [Timed.SelOk false true]
                        (fun n => 1000 + 3600 * Z.of_nat n) 0))))
    = trace (Timed.sockets
               (Timed.mkSession
                  (new_world [] [Dgram [x41] (mkAddr 2 [])])
                  [Timed.SelOk false true]
                  (fun n => 1000 + 3600 * Z.of_nat n) 0)) ++ evs /\
    Forall (fun e => ~ timeout_log e) evs.
Proof.
  apply (busy_never_times_out 3
           (server_relay default_handshake 4 3 1 (mkAddr 2 []))).
  left. repeat constructor.
Defined.

(** X23.  A relay whose only time-out is the one for datagrams, [T]
    seconds, and a [select] that comes back with nothing to read.  The
    clock is read once more and compared with the reading taken when
    [main_loop] started: when more than [T] seconds lie between the two
    the process exits with status 0 behind the notice of the time-out;
    when [T] seconds or less do, the loop goes on with the relay and the
    first reading unchanged. *)
Theorem idle_udp_timeout (fuel : nat) (r : relay) (s : Timed.session)
    (rest : list Timed.select_result) :
  udp_timeout r <> 0 -> tcp_timeout r = 0 ->
  Timed.selects s = Timed.SelOk false false :: rest ->
  Timed.clock s (Timed.ticks s) <> 0 ->
  (Timed.clock s (S (Timed.ticks s)) - Timed.clock s (Timed.ticks s)
   > udp_timeout r ->
   Timed.main_loop (S fuel) r s
   = (Exit 0,
      Timed.mkSession
        (add_trace (Timed.sockets s)
           [EvLog log_notice "Exiting after a %ds timeout for UDP input"])
        rest (Timed.clock s) (S (S (Timed.ticks s))))) /\
  (Timed.clock s (S (Timed.ticks s)) - Timed.clock s (Timed.ticks s)
   <= udp_timeout r ->
   Timed.main_loop (S fuel) r s
   = Timed.loop fuel r (Timed.clock s (Timed.ticks s)) 0
       (Timed.mkSession (Timed.sockets s) rest (Timed.clock s)
          (S (S (Timed.ticks s))))).
Proof.
  intros Hu Ht Hsel Hclock.
  destruct s as [w sel clk tk].
  cbn [Timed.sockets Timed.selects Timed.clock Timed.ticks] in *. subst sel.
  assert (Hstart : Timed.main_loop (S fuel) r (Timed.mkSession w
                     (Timed.SelOk false false :: rest) clk tk)
                   = Timed.bind (Timed.pass r (clk tk) 0 false false)
                       (fun x => let '(r', lu, lt) := x in
                                 Timed.loop fuel r' lu lt)
                       (Timed.mkSession w rest clk (S tk))).
  { unfold Timed.main_loop, Timed.bind at 1.
    replace (udp_timeout r =? 0) with false by (symmetry; now apply Z.eqb_neq).
    cbn [negb]. unfold Timed.time at 1.
    cbn [Timed.sockets Timed.selects Timed.clock Timed.ticks].
    unfold Timed.bind at 1. rewrite Ht. cbn [Z.eqb negb]. unfold Timed.ret at 1.
    cbn [Timed.loop]. unfold Timed.bind at 1, Timed.sys_select.
    cbn [Timed.sockets Timed.selects Timed.clock Timed.ticks]. reflexivity. }
  rewrite Hstart. clear Hstart.
  assert (Hpass : Timed.pass r (clk tk) 0 false false
                    (Timed.mkSession w rest clk (S tk))
                  = if clk (S tk) - clk tk >? udp_timeout r
                    then (Exit 0,
                          Timed.mkSession
                            (add_trace w
                               [EvLog log_notice
                                  "Exiting after a %ds timeout for UDP input"])
                            rest clk (S (S tk)))
                    else (Ret (r, clk tk, 0),
                          Timed.mkSession w rest clk (S (S tk)))).
  { unfold Timed.pass. cbn [Z.add Z.eqb andb negb].
    replace (clk tk =? 0) with false by (symmetry; now apply Z.eqb_neq).
    cbn [negb andb].
    unfold Timed.bind, Timed.time, Timed.ret.
    cbn [Timed.sockets Timed.selects Timed.clock Timed.ticks].
    destruct (clk (S tk) - clk tk >? udp_timeout r); reflexivity. }
  destruct (clk (S tk) - clk tk >? udp_timeout r) eqn:E.
  - rewrite Z.gtb_ltb in E. apply Z.ltb_lt in E.
    split; intros Hcmp; [|lia].
    unfold Timed.bind at 1. now rewrite Hpass.
  - rewrite Z.gtb_ltb in E. apply Z.ltb_ge in E.
    split; intros Hcmp; [lia|].
    unfold Timed.bind at 1. now rewrite Hpass.
Qed.

Lemma idle_udp_timeout_witness :
  (Timed.clock
     (Timed.mkSession (new_world [] []) [Timed.SelOk false false]
        (fun n => 100 + 10 * Z.of_nat n) 0) 1
   - Timed.clock
       (Timed.mkSession (new_world [] []) [Timed.SelOk false false]
          (fun n => 100 + 10 * Z.of_nat n) 0) 0
   > udp_timeout (client_relay default_handshake 4 3 5) ->
   Timed.main_loop 1 (client_relay default_handshake 4 3 5)
     (Timed.mkSession (new_world [] []) [Timed.SelOk false false]
        (fun n => 100 + 10 * Z.of_nat n) 0)
   = (Exit 0,
      Timed.mkSession
        (add_trace (new_world [] [])
           [EvLog log_notice "Exiting after a %ds timeout for UDP input"])
        [] (fun n => 100 + 10 * Z.of_nat n) 2)) /\
  (Timed.clock
     (Timed.mkSession (new_world [] []) [Timed.SelOk false false]
        (fun n => 100 + 10 * Z.of_nat n) 0) 1
   - Timed.clock
       (Timed.mkSession (new_world [] []) [Timed.SelOk false false]
          (fun n => 100 + 10 * Z.of_nat n) 0) 0
   <= udp_timeout (client_relay default_handshake 4 3 5) ->
   Timed.main_loop 1 (client_relay default_handshake 4 3 5)
     (Timed.mkSession (new_world [] []) [Timed.SelOk false false]
        (fun n => 100 + 10 * Z.of_nat n) 0)
   = Timed.loop 0 (client_relay default_handshake 4 3 5) 100 0
       (Timed.mkSession (new_world [] []) [] (fun n => 100 + 10 * Z.of_nat n) 2)).
Proof.
  apply (idle_udp_timeout 0 (client_relay default_handshake 4 3 5)
           (Timed.mkSession (new_world [] []) [Timed.SelOk false false]
              (fun n => 100 + 10 * Z.of_nat n) 0) []).
  - discriminate.
  - reflexivity.
  - reflexivity.
  - discriminate.
Defined.

(** * Socket activation and [main] *)

Lemma update_behind (l t : list (option Z)) (x : option Z) (v : Z) (n : nat) :
  n = length l -> Net.update (l ++ x :: t) n v = l ++ Some v :: t.
Proof.
  intros ->. induction l as [|y l IH]; cbn; [reflexivity | now rewrite IH].
Qed.

Lemma passed_fds_snoc (first : Z) (n : nat) :
  passed_fds first (S n) = passed_fds first n ++ [first + Z.of_nat n].
Proof.
  unfold passed_fds. rewrite seq_S, map_app. reflexivity.
Qed.

Lemma passed_fds_length (first : Z) (n : nat) : length (passed_fds first n) = n.
Proof. unfold passed_fds. now rewrite length_map, length_seq. Qed.

Lemma upto_end_passed (l : list Z) (t : list (option Z)) :
  Forall (fun fd => 0 <= fd) l ->
  Net.upto_end (map Some l ++ Some (-1) :: t) = l.
Proof.
  induction 1 as [|x l Hx _ IH]; [reflexivity|].
  cbn [map app Net.upto_end].
  replace (x =? -1) with false by (symmetry; apply Z.eqb_neq; lia).
  now rewrite IH.
Qed.

Lemma passed_fds_cons (first : Z) (n : nat) :
  passed_fds first (S n) = first :: passed_fds (first + 1) n.
Proof.
  unfold passed_fds. cbn [seq map]. f_equal; [lia|].
  rewrite <- seq_shift, map_map. apply map_ext. intros i. lia.
Qed.

(** The loop of [tcp_listener_sa], with [done] descriptors behind it:
    where it stops and what it has asked. *)
Lemma tcp_listener_sa_loop_calls (count : nat) :
  forall (done : nat) (h : Net.host),
    run_of (Net.tcp_listener_sa_loop count
              (Net.SD_LISTEN_FDS_START + Z.of_nat done)
              (Some (map Some (passed_fds Net.SD_LISTEN_FDS_START done)
                     ++ repeat None (count + 1)))
              (Z.of_nat done)) h
      (fun o evs =>
         exists k pre,
           sa_checked (passed_fds (Net.SD_LISTEN_FDS_START + Z.of_nat done) k) pre /\
           match o with
           | Ret (fds, fd_num) =>
               k = count /\ evs = pre /\
               fds = Some (map Some (passed_fds Net.SD_LISTEN_FDS_START (done + count))
                           ++ [None]) /\
               fd_num = Z.of_nat (done + count)
           | Exit st =>
               st = 2 /\ (k < count)%nat /\
               let fd := Net.SD_LISTEN_FDS_START + Z.of_nat done + Z.of_nat k in
               let v := Net.ret_val (Net.os h (Net.history h ++ pre) (sa_check fd)) in
               v <= 0 /\
               evs = pre ++ [Net.Sys (sa_check fd) v;
                             Net.Log log_err "TCP socket activation fd %d is not valid."
                               [Net.AInt fd]]
           | Diverge => False
           end).
Proof.
  induction count as [|count IH]; intros done h; cbn [Net.tcp_listener_sa_loop].
  { apply run_of_ret. exists 0%nat, []. split; [constructor|].
    rewrite Nat.add_0_r. auto. }
  run_step run_of_sys_int.
  intros r evs (Hr & ->). injection Hr as ->.
  set (fd0 := Net.SD_LISTEN_FDS_START + Z.of_nat done).
  change (Net.SdIsSocket fd0 Net.AF_UNSPEC Net.SOCK_STREAM 1) with (sa_check fd0).
  set (v0 := Net.ret_val (Net.os h (Net.history h) (sa_check fd0))).
  destruct (_ <=? 0) eqn:Hv; change ((v0 <=? 0) = true) in Hv
    || change ((v0 <=? 0) = false) in Hv.
  { eapply run_of_bind; [apply run_of_log_exit | | |].
    - intros ? ? (H & _). discriminate.
    - intros st evs (H & ->). injection H as <-.
      exists 0%nat, []. split; [constructor|].
      split; [reflexivity|]. split; [lia|]. cbv zeta.
      rewrite app_nil_r, Z.add_0_r. fold fd0 v0.
      split; [now apply Z.leb_le | reflexivity].
    - intros ? (H & _). discriminate. }
  apply Z.leb_gt in Hv.
  run_step run_of_ret_eq. intros [] evs (_ & ->).
  replace (Net.store _ _ _)
    with (Some (map Some (passed_fds Net.SD_LISTEN_FDS_START (S done))
                ++ repeat None (count + 1))).
  2:{ unfold Net.store. f_equal.
      rewrite Nat2Z.id.
      replace (S count + 1)%nat with (S (count + 1)) by lia. cbn [repeat].
      rewrite update_behind
        by (now rewrite length_map, passed_fds_length).
      rewrite passed_fds_snoc, map_app, <- app_assoc.
      reflexivity. }
  replace (fd0 + 1) with (Net.SD_LISTEN_FDS_START + Z.of_nat (S done))
    by (unfold fd0; lia).
  replace (Z.of_nat done + 1) with (Z.of_nat (S done)) by lia.
  eapply run_of_weaken; [apply IH|].
  intros o evs (k & pre & Hpre & H).
  exists (S k), (Net.Sys (sa_check fd0) v0 :: pre). split.
  { rewrite passed_fds_cons. constructor; [exists v0; auto|].
    replace (fd0 + 1) with (Net.SD_LISTEN_FDS_START + Z.of_nat (S done))
      by (unfold fd0; lia).
    exact Hpre. }
  destruct o as [[fds n]|st|]; [| |exact H].
  - destruct H as (-> & -> & -> & ->).
    replace (S done + count)%nat with (done + S count)%nat by lia.
    cbn [app]. auto.
  - destruct H as (-> & Hk & Hle & ->). cbv zeta in *.
    unfold later in *. cbn [Net.os Net.history] in *.
    rewrite <- !app_assoc in *. cbn [app] in *.
    replace (fd0 + Z.of_nat (S k))
      with (Net.SD_LISTEN_FDS_START + Z.of_nat (S done) + Z.of_nat k)
      by (unfold fd0; lia).
    split; [reflexivity|]. split; [lia|]. split; [exact Hle | reflexivity].
Qed.

Lemma later_all_listening (h : Net.host) (evs : list Net.entry) :
  all_listening h -> all_listening (later h evs).
Proof. intros H hist fd. apply H. Qed.

(** X24.  The sockets of socket activation.  For [num >= 0],
    [tcp_listener_sa] asks about each of the descriptors 3, 4, ... in
    turn, whether it is a listening stream socket, and makes no other
    call.  At the first answer that is not positive it logs the
    descriptor and ends the process with status 2; when all [num] answers
    are positive it returns an array of [num + 1] cells, all of them
    written, that holds these [num] descriptors and [-1] behind them.  So
    it returns whenever the system answers every question positively.
    [udp_listener_sa] ends the process with status 2 before any call
    unless [num] is 1; it then asks about descriptor 3 as a datagram
    socket, returns 3 on a positive answer and ends the process with
    status 2 otherwise. *)
Theorem socket_activation_descriptors (num : Z) (h : Net.host) :
  0 <= num ->
  run_of (Net.tcp_listener_sa num) h
    (fun o evs =>
       exists k pre,
         sa_checked (passed_fds 3 k) pre /\
         match o with
         | Ret a =>
             k = Z.to_nat num /\ evs = pre /\
             a = Some (map Some (passed_fds 3 k) ++ [Some (-1)]) /\
             Net.descriptors a = passed_fds 3 k
         | Exit st =>
             st = 2 /\ (k < Z.to_nat num)%nat /\
             let v := Net.ret_val
                        (Net.os h (Net.history h ++ pre)
                           (sa_check (3 + Z.of_nat k))) in
             v <= 0 /\
             evs = pre ++ [Net.Sys (sa_check (3 + Z.of_nat k)) v;
                           Net.Log log_err
                             "TCP socket activation fd %d is not valid."
                             [Net.AInt (3 + Z.of_nat k)]]
         | Diverge => False
         end) /\
  (all_listening h ->
   fst (Net.tcp_listener_sa num h)
   = Ret (Some (map Some (passed_fds 3 (Z.to_nat num)) ++ [Some (-1)]))) /\
  (num <> 1 ->
   Net.udp_listener_sa num h
   = (Exit 2,
      later h [Net.Log log_err
                 "UDP socket activation supports a single socket." []])) /\
  (num = 1 ->
   let c := Net.SdIsSocket 3 Net.AF_UNSPEC Net.SOCK_DGRAM (-1) in
   let v := Net.ret_val (Net.os h (Net.history h) c) in
   Net.udp_listener_sa num h
   = if v <=? 0
     then (Exit 2,
           later h [Net.Sys c v;
                    Net.Log log_err "UDP socket activation fd %d is not valid."
                      [Net.AInt 3]])
     else (Ret 3, later h [Net.Sys c v])).
Proof.
  intros Hnum.
  assert (Htcp : run_of (Net.tcp_listener_sa num) h
    (fun o evs =>
       exists k pre,
         sa_checked (passed_fds 3 k) pre /\
         match o with
         | Ret a =>
             k = Z.to_nat num /\ evs = pre /\
             a = Some (map Some (passed_fds 3 k) ++ [Some (-1)]) /\
             Net.descriptors a = passed_fds 3 k
         | Exit st =>
             st = 2 /\ (k < Z.to_nat num)%nat /\
             let v := Net.ret_val
                        (Net.os h (Net.history h ++ pre)
                           (sa_check (3 + Z.of_nat k))) in
             v <= 0 /\
             evs = pre ++ [Net.Sys (sa_check (3 + Z.of_nat k)) v;
                           Net.Log log_err
                             "TCP socket activation fd %d is not valid."
                             [Net.AInt (3 + Z.of_nat k)]]
         | Diverge => False
         end)).
  { unfold Net.tcp_listener_sa, Net.malloc.
    replace (Z.to_nat (num + 1)) with (Z.to_nat num + 1)%nat by lia.
    eapply run_of_bind;
      [apply (tcp_listener_sa_loop_calls (Z.to_nat num) 0 h) | | |]; cbv beta.
    2:{ intros st evs (k & pre & Hpre & H). exists k, pre.
        split; [exact Hpre|]. exact H. }
    2:{ intros evs (k & pre & _ & []). }
    intros [fds n] evs (k & pre & Hpre & -> & -> & -> & ->). cbn [Nat.add].
    apply run_of_ret. exists (Z.to_nat num), pre.
    change (Net.SD_LISTEN_FDS_START + Z.of_nat 0) with 3 in Hpre.
    split; [exact Hpre|].
    assert (Hstore : Net.store
                       (Some (map Some (passed_fds Net.SD_LISTEN_FDS_START
                                          (Z.to_nat num)) ++ [None]))
                       (Z.of_nat (Z.to_nat num)) (-1)
                     = Some (map Some (passed_fds 3 (Z.to_nat num)) ++ [Some (-1)])).
    { unfold Net.store. f_equal. rewrite Nat2Z.id.
      apply update_behind. now rewrite length_map, passed_fds_length. }
    rewrite Hstore. split; [reflexivity|]. split; [now rewrite app_nil_r|].
    split; [reflexivity|].
    unfold Net.descriptors. apply upto_end_passed.
    unfold passed_fds. apply Forall_forall. intros x Hx.
    apply in_map_iff in Hx. destruct Hx as (i & <- & _). lia. }
  split; [exact Htcp|]. split; [|split].
  - intros Hall. destruct Htcp as (evs & _ & k & pre & _ & H).
    destruct (fst (Net.tcp_listener_sa num h)) as [a|st|]; [| |contradiction].
    + destruct H as (-> & _ & -> & _). reflexivity.
    + destruct H as (_ & _ & Hle & _). cbv zeta in Hle.
      specialize (Hall (Net.history h ++ pre) (3 + Z.of_nat k)). lia.
  - intros Hne. unfold Net.udp_listener_sa. cbv zeta.
    replace (num =? 1) with false by (symmetry; now apply Z.eqb_neq).
    reflexivity.
  - intros ->. cbv zeta. unfold Net.udp_listener_sa. cbv zeta.
    change (negb (1 =? 1)) with false. cbv iota.
    unfold Net.bind at 1. unfold Net.ret at 1.
    unfold Net.bind at 1. unfold Net.sys_int at 1, Net.bind at 1.
    unfold Net.syscall at 1. cbv zeta. unfold Net.ret at 1.
    change Net.SD_LISTEN_FDS_START with 3.
    destruct (Net.ret_val _ <=? 0).
    + unfold Net.bind, Net.log_printf_exit, Net.bind, Net.record, Net.exit, later.
      cbn [Net.os Net.history]. now rewrite <- app_assoc.
    + reflexivity.
Qed.

Lemma socket_activation_descriptors_witness :
  run_of (Net.tcp_listener_sa 2) numeric_host
    (fun o evs =>
       exists k pre,
         sa_checked (passed_fds 3 k) pre /\
         match o with
         | Ret a =>
             k = Z.to_nat 2 /\ evs = pre /\
             a = Some (map Some (passed_fds 3 k) ++ [Some (-1)]) /\
             Net.descriptors a = passed_fds 3 k
         | Exit st =>
             st = 2 /\ (k < Z.to_nat 2)%nat /\
             let v := Net.ret_val
                        (Net.os numeric_host (Net.history numeric_host ++ pre)
                           (sa_check (3 + Z.of_nat k))) in
             v <= 0 /\
             evs = pre ++ [Net.Sys (sa_check (3 + Z.of_nat k)) v;
                           Net.Log log_err
                             "TCP socket activation fd %d is not valid."
                             [Net.AInt (3 + Z.of_nat k)]]
         | Diverge => False
         end) /\
  (all_listening numeric_host ->
   fst (Net.tcp_listener_sa 2 numeric_host)
   = Ret (Some (map Some (passed_fds 3 (Z.to_nat 2)) ++ [Some (-1)]))) /\
  (2 <> 1 ->
   Net.udp_listener_sa 2 numeric_host
   = (Exit 2,
      later numeric_host
        [Net.Log log_err
           "UDP socket activation supports a single socket." []])) /\
  (2 = 1 ->
   let c := Net.SdIsSocket 3 Net.AF_UNSPEC Net.SOCK_DGRAM (-1) in
   let v := Net.ret_val (Net.os numeric_host (Net.history numeric_host) c) in
   Net.udp_listener_sa 2 numeric_host
   = if v <=? 0
     then (Exit 2,
           later numeric_host
             [Net.Sys c v;
              Net.Log log_err "UDP socket activation fd %d is not valid."
                [Net.AInt 3]])
     else (Ret 3, later numeric_host [Net.Sys c v])).
Proof.
  apply (socket_activation_descriptors 2 numeric_host). lia.
Defined.

Lemma udp_listener_factory (s : list byte) (h : Net.host) :
  run_of (Net.udp_listener s) h (factory (fun fd => 0 <= fd)).
Proof.
  eapply run_of_weaken; [apply udp_listener_run|].
  intros [fd|st|] evs; cbn [factory]; auto.
  - intros (H & _). exact H.
  - intros [(-> & _) | (-> & _)]; auto.
Qed.

Lemma tcp_client_factory (s : list byte) (h : Net.host) :
  run_of (Net.tcp_client s) h (factory (fun fd => 0 <= fd)).
Proof.
  eapply run_of_weaken; [apply tcp_client_run|].
  intros [fd|st|] evs; cbn [factory]; auto.
  - intros (H & _). exact H.
  - intros [(-> & _) | (-> & _)]; auto.
Qed.

Lemma udp_client_factory (s : list byte) (h : Net.host) :
  run_of (Net.udp_client s) h (factory (fun x => 0 <= fst x)).
Proof.
  eapply run_of_weaken; [apply udp_client_run|].
  intros [[fd a]|st|] evs; cbn [factory fst]; auto.
  - intros (H & _). exact H.
  - intros [(-> & _) | (-> & _)]; auto.
Qed.

Lemma tcp_listener_factory (s : list byte) (h : Net.host) :
  run_of (Net.tcp_listener s) h (factory (fun _ => True)).
Proof.
  eapply run_of_weaken; [apply tcp_listener_run|].
  intros [a|st|] evs; cbn [factory]; auto.
  intros [(-> & _) | (-> & _)]; auto.
Qed.

Lemma timeout_field (t : Z) : (if negb (t =? 0) then t else 0) = t.
Proof. destruct (t =? 0) eqn:E; [apply Z.eqb_eq in E; now subst | reflexivity]. Qed.

Ltac factory_exit :=
  let H := fresh in
  intros ? ? H; cbn [factory] in H |- *; exact H.

(** X25.  [main] in client mode, started on its own: neither under
    inetd nor with sockets passed by socket activation, with the two
    addresses and the token that [parse_args] sets.  Behind [sd_notify]
    and [sd_listen_fds] it is [udp_listener] on the datagram address,
    then [tcp_client] on the stream address, and the relay it hands to
    [send_handshake] and [main_loop] is the client's relay the
    properties above start from, made of the descriptor [udp_listener]
    returned, the descriptor [tcp_client] returned, the token and the
    time-out: the time-out is on the datagram side only, no handshake is
    expected, the parser is not initialised, and there is no peer address
    yet.  An exit of either function is the exit of [main].  So [main]
    never follows a null address, the descriptors of the relay are not
    negative, and when it does not get that far the process ends with
    status 1 or 2. *)
Theorem main_client_relay (fuel : nat) (o : Main.opts) (u t token : list byte)
    (h : Net.host) :
  Main.is_server o = false -> Main.use_inetd o = false ->
  Main.udpaddr o = Some u -> Main.tcpaddr o = Some t ->
  Main.handshake o = Some token -> no_activation h ->
  Main.main fuel o h
  = Net.bind (Net.udp_listener u) (fun udp =>
    Net.bind (Net.tcp_client t) (fun tcp =>
    Net.ret (Some (client_relay token tcp udp (Main.timeout o)))))
      (later h [Net.Sys Net.SdNotify
                  (Net.ret_val (Net.os h (Net.history h) Net.SdNotify));
                Net.Sys Net.SdListenFds 0]) /\
  run_of (Main.main fuel o) h
    (fun out evs =>
       match out with
       | Ret (Some r) =>
           exists udp tcp,
             0 <= udp /\ 0 <= tcp /\
             r = client_relay token tcp udp (Main.timeout o)
       | Ret None => False
       | Exit st => st = 1 \/ st = 2
       | Diverge => False
       end).
Proof.
  intros Hserver Hinetd Hu Ht Htok Hact. split.
  { unfold Main.main. rewrite Hserver, Hinetd, Hu, Ht, Htok, timeout_field.
    unfold Net.bind at 1. unfold Net.sys_int at 1, Net.bind at 1, Net.syscall at 1.
    cbv zeta. unfold Net.ret at 1.
    unfold Net.bind at 1. unfold Net.bind at 1.
    unfold Net.sys_int at 1, Net.bind at 1, Net.syscall at 1.
    cbv zeta. unfold Net.ret at 1. cbn [Net.os Net.history].
    rewrite !Hact. change (negb (0 =? 0)) with false. cbv iota.
    unfold Main.with_address.
    unfold later. cbn [Net.os Net.history]. rewrite <- app_assoc. cbn [app].
    unfold Net.bind.
    destruct (Net.udp_listener u _) as [[udp|st|] h1]; try reflexivity.
    unfold Net.ret at 1.
    destruct (Net.tcp_client t h1) as [[tcp|st|] h2]; reflexivity. }
  unfold Main.main. rewrite Hserver, Hinetd, Hu, Ht, Htok, timeout_field.
  run_step run_of_sys_int. intros v0 evs0 (_ & ->).
  apply run_of_assoc.
  run_step run_of_sys_int. intros n evs (Hn & ->). injection Hn as ->.
  rewrite Hact. change (negb (0 =? 0)) with false. cbv iota.
  unfold Main.with_address.
  apply run_of_assoc.
  eapply run_of_bind; [apply udp_listener_factory | | |].
  2:{ intros st evs H. exact H. }
  2:{ intros evs []. }
  intros udp evs Hudp. cbn [factory] in Hudp.
  run_step run_of_ret_eq. intros x evs1 (Hx & ->). injection Hx as ->.
  apply run_of_assoc.
  eapply run_of_bind; [apply tcp_client_factory | | |].
  2:{ intros st evs' H. exact H. }
  2:{ intros evs' []. }
  intros tcp evs' Htcp. cbn [factory] in Htcp.
  run_step run_of_ret_eq. intros y evs2 (Hy & ->). injection Hy as ->.
  apply run_of_ret. exists udp, tcp. auto.
Qed.

Lemma main_client_relay_witness :
  Main.main 0
    (Main.mkOpts (Some (String.list_byte_of_string "5000"))
       (Some (String.list_byte_of_string "example.com:4000"))
       false false (Some default_handshake) 5)
    numeric_host
  = Net.bind (Net.udp_listener (String.list_byte_of_string "5000")) (fun udp =>
    Net.bind (Net.tcp_client (String.list_byte_of_string "example.com:4000"))
      (fun tcp =>
    Net.ret (Some (client_relay default_handshake tcp udp
                     (Main.timeout
                        (Main.mkOpts (Some (String.list_byte_of_string "5000"))
                           (Some (String.list_byte_of_string "example.com:4000"))
                           false false (Some default_handshake) 5))))))
      (later numeric_host
         [Net.Sys Net.SdNotify
            (Net.ret_val
               (Net.os numeric_host (Net.history numeric_host) Net.SdNotify));
          Net.Sys Net.SdListenFds 0]) /\
  run_of (Main.main 0
            (Main.mkOpts (Some (String.list_byte_of_string "5000"))
               (Some (String.list_byte_of_string "example.com:4000"))
               false false (Some default_handshake) 5))
    numeric_host
    (fun out evs =>
       match out with
       | Ret (Some r) =>
           exists udp tcp,
             0 <= udp /\ 0 <= tcp /\
             r = client_relay default_handshake tcp udp
                   (Main.timeout
                      (Main.mkOpts (Some (String.list_byte_of_string "5000"))
                         (Some (String.list_byte_of_string "example.com:4000"))
                         false false (Some default_handshake) 5))
       | Ret None => False
       | Exit st => st = 1 \/ st = 2
       | Diverge => False
       end).
Proof.
  apply (main_client_relay 0 _ (String.list_byte_of_string "5000")
           (String.list_byte_of_string "example.com:4000") default_handshake).
  - reflexivity.
  - reflexivity.
  - reflexivity.
  - reflexivity.
  - reflexivity.
  - intros hist. reflexivity.
Defined.

Lemma accept_connections_factory (fuel : nat) (socks : list Z) (h : Net.host) :
  run_of (Net.accept_connections fuel socks) h
    (fun o evs =>
       match o with
       | Ret fd => 0 <= fd
       | Exit st => st = 1
       | Diverge => True
       end).
Proof.
  eapply run_of_weaken; [apply accept_connections_run|].
  intros [fd|st|] evs; auto. intros (H & _). exact H.
Qed.

(** X26.  [main] in server mode, with the destination and the token that
    [parse_args] sets.  Behind [sd_notify] it installs the handler of
    [SIGCHLD], and a [sigaction] that fails ends the process with status
    1.  Under inetd it then is [udp_client] on the destination, and the
    relay has descriptor 0 as stream socket.  Started on its own with an
    address to listen on and no socket passed by socket activation, it is
    [tcp_listener] on that address, [accept_connections] on the
    descriptors of the array it returned, and in the child [udp_client]
    on the destination; the stream socket of the relay is the connection
    [accept_connections] returned.  Either way the relay handed to
    [main_loop] is the server's relay the properties above start from,
    with the descriptor and the peer address [udp_client] returned: the
    handshake is expected, the time-out is on the stream side only, and
    the parser is not initialised.  An exit of any of these functions is
    the exit of [main].  So the process never follows a null address; it
    ends with status 1 or 2 when a step fails, and only the accept loop
    can go on for ever. *)
Theorem main_server_relay (fuel : nat) (o : Main.opts) (u t token : list byte)
    (h : Net.host) :
  Main.is_server o = true -> Main.udpaddr o = Some u ->
  Main.handshake o = Some token ->
  (Main.use_inetd o = false -> no_activation h /\ Main.tcpaddr o = Some t) ->
  let e1 := Net.Sys Net.SdNotify
              (Net.ret_val (Net.os h (Net.history h) Net.SdNotify)) in
  let v2 := Net.ret_val (Net.os h (Net.history h ++ [e1])
                           (Net.Sigaction Net.SIGCHLD)) in
  let e2 := Net.Sys (Net.Sigaction Net.SIGCHLD) v2 in
  let sockets tcp :=
    Net.bind (Net.udp_client u) (fun x =>
    Net.ret (Some (server_relay token tcp (fst x) (Main.timeout o) (snd x)))) in
  (v2 = -1 ->
   Main.main fuel o h
   = (Exit 1, later h [e1; e2; Net.Log log_err "sigaction" []])) /\
  (v2 <> -1 -> Main.use_inetd o = true ->
   Main.main fuel o h = sockets 0 (later h [e1; e2])) /\
  (v2 <> -1 -> Main.use_inetd o = false ->
   Main.main fuel o h
   = Net.bind (Net.tcp_listener t) (fun a =>
     Net.bind (Net.accept_connections fuel (Net.descriptors a)) (fun tcp =>
     sockets tcp))
       (later h [e1; e2; Net.Sys Net.SdListenFds 0])) /\
  run_of (Main.main fuel o) h
    (fun out evs =>
       match out with
       | Ret (Some r) =>
           exists tcp udp dest,
             0 <= tcp /\ 0 <= udp /\
             (Main.use_inetd o = true -> tcp = 0) /\
             r = server_relay token tcp udp (Main.timeout o) dest
       | Ret None => False
       | Exit st => st = 1 \/ st = 2
       | Diverge => Main.use_inetd o = false
       end).
Proof.
  intros Hserver Hu Htok Hown e1 v2 e2 sockets.
  assert (Hsock : forall tcp h0,
    Net.bind (Main.with_address (Some u) Net.udp_client)
      (fun x =>
         match x with
         | None => Net.ret None
         | Some (udp_sock, remote_udpaddr) =>
             Net.ret (Some (mkRelay remote_udpaddr udp_sock tcp true
                              (firstn 32 token) 0 (Main.timeout o)
                              (buf relay_zero) 0 0 0 uninitialized))
         end) h0
    = sockets tcp h0).
  { intros tcp h0. unfold sockets, Main.with_address, Net.bind.
    destruct (Net.udp_client u h0) as [[[udp dest]|st|] h1]; reflexivity. }
  assert (Hstart : forall k : unit -> Net.M (option relay),
    Net.bind (Net.sys_int Net.SdNotify)
      (fun _ => Net.bind (Net.sys_int (Net.Sigaction Net.SIGCHLD))
         (fun r => Net.bind (if r =? -1 then Net.err_sys "sigaction" []
                             else Net.ret tt) k)) h
    = if v2 =? -1
      then (Exit 1, later h [e1; e2; Net.Log log_err "sigaction" []])
      else k tt (later h [e1; e2])).
  { intros k.
    unfold Net.bind at 1. unfold Net.sys_int at 1, Net.bind at 1, Net.syscall at 1.
    cbv zeta. unfold Net.ret at 1.
    unfold Net.bind at 1.
    unfold Net.sys_int at 1, Net.bind at 1, Net.syscall at 1.
    cbv zeta. unfold Net.ret at 1. cbn [Net.os Net.history].
    fold e1. fold v2. fold e2. unfold later.
    destruct (v2 =? -1).
    - unfold Net.bind, Net.err_sys, Net.bind, Net.record, Net.exit.
      cbn [Net.os Net.history]. rewrite <- !app_assoc. reflexivity.
    - unfold Net.bind at 1. unfold Net.ret at 1. rewrite <- app_assoc.
      reflexivity. }
  split; [|split; [|split]].
  - intros Hv. unfold Main.main. rewrite Hserver, Hu, Htok, timeout_field.
    rewrite Hstart, Hv. reflexivity.
  - intros Hv Hinetd. unfold Main.main.
    rewrite Hserver, Hu, Htok, timeout_field, Hinetd, Hstart.
    replace (v2 =? -1) with false by (symmetry; now apply Z.eqb_neq).
    unfold Net.bind at 1. unfold Net.ret at 1. apply Hsock.
  - intros Hv Hinetd. destruct (Hown Hinetd) as (Hact & Ht).
    unfold Main.main.
    rewrite Hserver, Hu, Htok, timeout_field, Hinetd, Ht, Hstart.
    replace (v2 =? -1) with false by (symmetry; now apply Z.eqb_neq).
    unfold Net.bind at 1. unfold Net.bind at 1.
    unfold Net.sys_int at 1, Net.bind at 1, Net.syscall at 1.
    cbv zeta. unfold Net.ret at 1. unfold later. cbn [Net.os Net.history].
    rewrite !Hact. change (negb (0 =? 0)) with false. cbv iota.
    rewrite <- app_assoc. cbn [app].
    unfold sockets, Main.with_address, Net.bind, Net.ret.
    destruct (Net.tcp_listener t _) as [[a|st|] h1]; try reflexivity.
    destruct (Net.accept_connections fuel (Net.descriptors a) h1)
      as [[fd|st|] h2]; try reflexivity.
    destruct (Net.udp_client u h2) as [[[udp dest]|st|] h3]; reflexivity.
  - unfold Main.main. rewrite Hserver, Hu, Htok, timeout_field.
    run_step run_of_sys_int. intros v0 evs0 (_ & ->).
    run_step run_of_sys_int. intros sa evs1 (_ & ->).
    destruct (sa =? -1).
    { eapply run_of_bind; [apply run_of_err_sys | | |].
      - intros ? ? (H & _). discriminate.
      - intros st evs (H & _). injection H as ->. now left.
      - intros ? (H & _). discriminate. }
    run_step run_of_ret_eq. intros [] evs2 (_ & ->).
    assert (Hrest : forall tcp h0,
      0 <= tcp -> (Main.use_inetd o = true -> tcp = 0) ->
      run_of
        (Net.bind (Main.with_address (Some u) Net.udp_client)
           (fun u0 =>
              match u0 with
              | Some (udp_sock, remote_udpaddr) =>
                  Net.ret (Some (mkRelay remote_udpaddr udp_sock tcp true
                                   (firstn 32 token) 0 (Main.timeout o)
                                   (buf relay_zero) 0 0 0 uninitialized))
              | None => Net.ret None
              end)) h0
        (fun out evs =>
           match out with
           | Ret (Some r) =>
               exists tcp udp dest,
                 0 <= tcp /\ 0 <= udp /\
                 (Main.use_inetd o = true -> tcp = 0) /\
                 r = server_relay token tcp udp (Main.timeout o) dest
           | Ret None => False
           | Exit st => st = 1 \/ st = 2
           | Diverge => Main.use_inetd o = false
           end)).
    { intros tcp h0 Hpos Hzero. unfold Main.with_address.
      apply run_of_assoc.
      eapply run_of_bind; [apply udp_client_factory | | |].
      2:{ intros st evs H. exact H. }
      2:{ intros evs []. }
      intros [udp dest] evs Hudp. cbn [factory fst] in Hudp.
      run_step run_of_ret_eq. intros x evs' (Hx & ->). injection Hx as ->.
      apply run_of_ret. exists tcp, udp, dest. auto. }
    destruct (Main.use_inetd o) eqn:Hinetd.
    + run_step run_of_ret_eq. intros x evs (Hx & ->). injection Hx as ->.
      eapply run_of_weaken; [apply (Hrest 0); [lia | auto]|].
      intros out evs H. exact H.
    + destruct (Hown eq_refl) as (Hact & Ht). rewrite Ht.
      apply run_of_assoc.
      run_step run_of_sys_int. intros n evs (Hn & ->). injection Hn as ->.
      rewrite Hact. change (negb (0 =? 0)) with false. cbv iota.
      unfold Main.with_address at 1.
      do 2 apply run_of_assoc.
      eapply run_of_bind; [apply tcp_listener_factory | | |].
      2:{ intros st evs H. exact H. }
      2:{ intros evs []. }
      intros a evs _.
      run_step run_of_ret_eq. intros x evs' (Hx & ->). injection Hx as ->.
      cbv beta iota. apply run_of_assoc.
      eapply run_of_bind; [apply accept_connections_factory | | |]; cbv beta.
      2:{ intros st evs3 ->. now left. }
      2:{ intros evs3 _. reflexivity. }
      intros fd evs3 Hfd.
      run_step run_of_ret_eq. intros z evs4 (Hz & ->). injection Hz as ->.
      eapply run_of_weaken; [apply (Hrest fd); [exact Hfd | discriminate]|].
      intros out evs5 H. exact H.
Qed.

Lemma main_server_relay_witness :
  Main.main 1
    (Main.mkOpts (Some (String.list_byte_of_string "192.0.2.1:5000"))
       (Some (String.list_byte_of_string "4000"))
       true false (Some default_handshake) 0)
    numeric_host
  = Net.bind (Net.tcp_listener (String.list_byte_of_string "4000")) (fun a =>
    Net.bind (Net.accept_connections 1 (Net.descriptors a)) (fun tcp =>
    Net.bind (Net.udp_client (String.list_byte_of_string "192.0.2.1:5000"))
      (fun x =>
    Net.ret (Some (server_relay default_handshake tcp (fst x) 0 (snd x))))))
      (later numeric_host
         [Net.Sys Net.SdNotify 0; Net.Sys (Net.Sigaction Net.SIGCHLD) 0;
          Net.Sys Net.SdListenFds 0]) /\
  run_of (Main.main 1
            (Main.mkOpts (Some (String.list_byte_of_string "192.0.2.1:5000"))
               (Some (String.list_byte_of_string "4000"))
               true false (Some default_handshake) 0))
    numeric_host
    (fun out evs =>
       match out with
       | Ret (Some r) =>
           exists tcp udp dest,
             0 <= tcp /\ 0 <= udp /\
             (false = true -> tcp = 0) /\
             r = server_relay default_handshake tcp udp 0 dest
       | Ret None => False
       | Exit st => st = 1 \/ st = 2
       | Diverge => false = false
       end).
Proof.
  destruct (main_server_relay 1
              (Main.mkOpts (Some (String.list_byte_of_string "192.0.2.1:5000"))
                 (Some (String.list_byte_of_string "4000"))
                 true false (Some default_handshake) 0)
              (String.list_byte_of_string "192.0.2.1:5000")
              (String.list_byte_of_string "4000") default_handshake
              numeric_host eq_refl eq_refl eq_refl
              (fun _ => conj (fun _ => eq_refl) eq_refl))
    as (_ & _ & Hown & Hrun).
  split; [|exact Hrun].
  apply Hown; [discriminate | reflexivity].
Defined.

(** * The socket factories on a given system *)

Lemma print_addr_port_named (a : sockaddr_storage) (h : Net.host) :
  named h a ->
  exists text,
    Net.print_addr_port a h = (Ret text, later h [Net.Sys (name_of a) 0]).
Proof.
  intros Hn. destruct (Hn (Net.history h)) as (Hz & Hh & Hs). cbv zeta in *.
  unfold Net.print_addr_port. unfold Net.bind at 1. unfold Net.sys_getnameinfo.
  fold (name_of a). cbv beta zeta iota. rewrite Hz.
  replace (Z.of_nat (length (fst (Net.names (Net.os h (Net.history h) (name_of a)))))
           <? 1025) with true by (symmetry; now apply Z.ltb_lt).
  replace (Z.of_nat (length (snd (Net.names (Net.os h (Net.history h) (name_of a)))))
           <? 32) with true by (symmetry; now apply Z.ltb_lt).
  cbn [andb negb Z.eqb]. change (0 =? Net.EAI_SYSTEM) with false. cbv iota.
  unfold Net.bind, Net.ret.
  destruct (ss_family a =? Net.AF_INET6); eexists; reflexivity.
Qed.

Lemma lookup_answer (address port : option (list byte)) (socktype flags : Z)
    (h : Net.host) :
  let c := resolve address port socktype flags in
  (Net.ret_val (answer h c) = 0 ->
   Net.lookup address port socktype flags h
   = (Ret (Net.addrs (answer h c)), later h [Net.Sys c 0])) /\
  (Net.ret_val (answer h c) <> 0 ->
   exists f a,
     Net.lookup address port socktype flags h
     = (Exit 1, later h [Net.Sys c (Net.ret_val (answer h c)); Net.Log log_err f a])).
Proof.
  cbv zeta. unfold Net.lookup, answer, resolve, later. split.
  - intros Hz. unfold Net.bind, Net.syscall. cbv beta zeta iota.
    rewrite Hz. reflexivity.
  - intros Hne. unfold Net.bind at 1. unfold Net.syscall. cbv beta zeta iota.
    destruct (_ =? Net.EAI_SYSTEM).
    + do 2 eexists. unfold Net.err_sys, Net.bind, Net.record, Net.exit.
      cbn [Net.os Net.history]. rewrite <- app_assoc. reflexivity.
    + destruct (_ =? 0) eqn:Ez; [apply Z.eqb_eq in Ez; contradiction|].
      do 2 eexists. unfold Net.log_printf_exit, Net.bind, Net.record, Net.exit.
      cbn [negb Net.os Net.history]. rewrite <- app_assoc. reflexivity.
Qed.

(** The loop of [tcp_client] over addresses that refuse the connection. *)
Lemma tcp_client_loop_refused (tried : list Net.addrinfo) :
  forall (rest : list Net.addrinfo) (h : Net.host),
    Forall (fun bad => refuses h (Net.ai_addr bad)) tried ->
    exists pre,
      none_connected pre /\ open_fds [] pre = [] /\
      Net.tcp_client_loop (tried ++ rest) h
      = Net.tcp_client_loop rest (later h pre).
Proof.
  induction tried as [|bad tried IH]; intros rest h Hall.
  { exists []. split; [intros ? ? ? []|]. split; [reflexivity|].
    cbn [app]. now rewrite later_nil. }
  inversion Hall as [|? ? Hbad Hrest]; subst.
  cbn [app Net.tcp_client_loop].
  unfold Net.bind at 1. unfold Net.sys_socket, Net.bind at 1, Net.syscall.
  cbv zeta. unfold Net.ret at 1. fold (socket_of bad).
  set (fd := Net.ret_val (Net.os h (Net.history h) (socket_of bad))).
  fold (later h [Net.Sys (socket_of bad) fd]).
  destruct (fd <? 0) eqn:Hneg.
  { destruct (IH rest (later h [Net.Sys (socket_of bad) fd]) Hrest)
      as (pre & Hnc & Hopen & Hrun).
    exists (Net.Sys (socket_of bad) fd :: pre). split; [|split].
    - intros f a v [H | H]; [discriminate | eapply Hnc; eauto].
    - cbn [open_fds fold_left track socket_of]. rewrite Hneg. exact Hopen.
    - rewrite Hrun, later_later. reflexivity. }
  unfold Net.bind at 1. unfold Net.sys_int at 1, Net.bind at 1, Net.syscall.
  cbv zeta. unfold Net.ret at 1.
  set (c := Net.ret_val (Net.os _ _ (Net.Connect fd (Net.ai_addr bad)))).
  assert (Hc : c <> 0) by apply Hbad.
  replace (c =? 0) with false by (symmetry; now apply Z.eqb_neq).
  unfold Net.bind at 1. unfold Net.sys_int at 1, Net.bind at 1, Net.syscall.
  cbv zeta. unfold Net.ret at 1. cbn [Net.os Net.history later].
  set (x := Net.ret_val (Net.os _ _ (Net.Close fd))).
  set (evs := [Net.Sys (socket_of bad) fd;
               Net.Sys (Net.Connect fd (Net.ai_addr bad)) c;
               Net.Sys (Net.Close fd) x]).
  destruct (IH rest (later h evs) Hrest) as (pre & Hnc & Hopen & Hrun).
  exists (evs ++ pre). split; [|split].
  - apply none_connected_app; [|exact Hnc].
    intros f a v Hin. unfold evs in Hin. cbn [In] in Hin.
    destruct Hin as [H | [H | [H | []]]]; try discriminate.
    injection H as _ _ <-. exact Hc.
  - rewrite open_fds_app. unfold evs.
    cbn [open_fds fold_left track socket_of remove_first]. rewrite Hneg.
    cbn [app remove_first]. rewrite Z.eqb_refl. exact Hopen.
  - rewrite <- later_later, <- Hrun. unfold later, evs.
    cbn [Net.os Net.history]. rewrite <- !app_assoc. reflexivity.
Qed.

Lemma bind_ret_eq {A B} (m : Net.M A) (k : A -> Net.M B) (h h' : Net.host) (a : A) :
  m h = (Ret a, h') -> Net.bind m k h = k a h'.
Proof. intros H. unfold Net.bind. now rewrite H. Qed.

Lemma bind_exit_eq {A B} (m : Net.M A) (k : A -> Net.M B) (h h' : Net.host) (st : Z) :
  m h = (Exit st, h') -> Net.bind m k h = (Exit st, h').
Proof. intros H. unfold Net.bind. now rewrite H. Qed.

Lemma log_exit_eq {A} (st : Z) (lvl : log_level) (fmt : string)
    (args : list Net.arg) (h : Net.host) :
  @Net.log_printf_exit A st lvl fmt args h = (Exit st, later h [Net.Log lvl fmt args]).
Proof. reflexivity. Qed.

Lemma err_sys_eq {A} (fmt : string) (args : list Net.arg) (h : Net.host) :
  @Net.err_sys A fmt args h = (Exit 1, later h [Net.Log log_err fmt args]).
Proof. reflexivity. Qed.

Lemma log_eq (lvl : log_level) (fmt : string) (args : list Net.arg) (h : Net.host) :
  Net.log_printf lvl fmt args h = (Ret tt, later h [Net.Log lvl fmt args]).
Proof. reflexivity. Qed.

Lemma ret_eq {A} (a : A) (h : Net.host) : Net.ret a h = (Ret a, h).
Proof. reflexivity. Qed.

Lemma later_app (h : Net.host) (a b : list Net.entry) :
  later (later h a) b = later h (a ++ b).
Proof. unfold later. cbn [Net.os Net.history]. now rewrite app_assoc. Qed.

(** The loop of [tcp_client] at an address that accepts the connection. *)
Lemma tcp_client_loop_accepted (ai : Net.addrinfo) (rest : list Net.addrinfo)
    (h : Net.host) :
  socket_given h ai -> accepts h (Net.ai_addr ai) ->
  exists fd,
    0 <= fd /\
    Net.tcp_client_loop (ai :: rest) h
    = (Ret (Some (ai, fd)),
       later h [Net.Sys (socket_of ai) fd;
                Net.Sys (Net.Connect fd (Net.ai_addr ai)) 0]).
Proof.
  intros Hsock Hacc. cbn [Net.tcp_client_loop].
  unfold Net.bind at 1. unfold Net.sys_socket, Net.bind at 1, Net.syscall.
  cbv zeta. unfold Net.ret at 1. fold (socket_of ai).
  set (fd := Net.ret_val (Net.os h (Net.history h) (socket_of ai))).
  assert (Hfd : 0 <= fd) by apply Hsock.
  exists fd. split; [exact Hfd|].
  replace (fd <? 0) with false by (symmetry; now apply Z.ltb_ge).
  unfold Net.bind at 1. unfold Net.sys_int at 1, Net.bind at 1, Net.syscall.
  cbv zeta. unfold Net.ret at 1. cbn [Net.os Net.history].
  rewrite Hacc. change (0 =? 0) with true. cbv iota.
  unfold Net.ret, later. cbn [Net.os Net.history]. now rewrite <- app_assoc.
Qed.

(** X13.  [tcp_client] on any specification and any system.  A
    specification that lacks the address or the port ends the process
    with status 2 before any call is made.  Otherwise the two are
    handed to [getaddrinfo], and an answer other than 0 ends the process
    with status 1 behind its report.  When the addresses in front of one
    that accepts the connection all refuse it, the descriptor made for
    that one is returned, behind its [connect], the [getnameinfo] of its
    address and the log line; whatever was made for the addresses in
    front has been closed again.  When every address refuses the
    connection, the process ends with status 1 behind
    "Cannot connect to", no socket left open.  And whatever the system
    answers: a descriptor that is returned is that of the first socket
    whose [connect] succeeded and the only one left open, an exit has
    status 1 or 2, and status 2 comes with nothing but the report of the
    missing part. *)
Theorem tcp_client_connects (s : list byte) (h : Net.host) :
  ((fst (parse_address_port s) = None \/ snd (parse_address_port s) = None) ->
   Net.tcp_client s h
   = (Exit 2,
      later h [Net.Log log_err "Missing address or port in '%s'!"
                 [Net.AStr (Some s)]])) /\
  (forall address port,
     parse_address_port s = (Some address, Some port) ->
     let c := resolve (Some address) (Some port) Net.SOCK_STREAM
                (Z.lor Net.AI_ADDRCONFIG Net.AI_IDN) in
     (Net.ret_val (answer h c) <> 0 ->
      exists f a,
        Net.tcp_client s h
        = (Exit 1,
           later h [Net.Sys c (Net.ret_val (answer h c)); Net.Log log_err f a])) /\
     (Net.ret_val (answer h c) = 0 ->
      Forall (fun bad => refuses h (Net.ai_addr bad)) (Net.addrs (answer h c)) ->
      exists pre,
        none_connected pre /\ open_fds [] pre = [] /\
        Net.tcp_client s h
        = (Exit 1,
           later h (Net.Sys c 0 :: pre
                    ++ [Net.Log log_err "Cannot connect to %s"
                          [Net.AStr (Some s)]]))) /\
     (forall tried ai rest,
        Net.ret_val (answer h c) = 0 ->
        Net.addrs (answer h c) = tried ++ ai :: rest ->
        Forall (fun bad => refuses h (Net.ai_addr bad)) tried ->
        socket_given h ai -> accepts h (Net.ai_addr ai) ->
        named h (Net.ai_addr ai) ->
        exists pre fd text,
          none_connected pre /\ open_fds [] pre = [] /\ 0 <= fd /\
          Net.tcp_client s h
          = (Ret fd,
             later h (Net.Sys c 0 :: pre
                      ++ [Net.Sys (socket_of ai) fd;
                          Net.Sys (Net.Connect fd (Net.ai_addr ai)) 0;
                          Net.Sys (name_of (Net.ai_addr ai)) 0;
                          Net.Log log_info "TCP connection opened to %s"
                            [Net.AStr (Some text)]])))) /\
  run_of (Net.tcp_client s) h
    (fun o evs =>
       match o with
       | Ret fd =>
           0 <= fd /\ open_fds [] evs = [fd] /\
           exists address port ai pre a,
             parse_address_port s = (Some address, Some port) /\
             evs = Net.Sys (Net.Getaddrinfo (Some address) (Some port)
                              Net.AF_UNSPEC Net.SOCK_STREAM
                              (Z.lor Net.AI_ADDRCONFIG Net.AI_IDN)) 0
                   :: pre
                   ++ [Net.Sys (socket_of ai) fd;
                       Net.Sys (Net.Connect fd (Net.ai_addr ai)) 0;
                       Net.Sys (name_of (Net.ai_addr ai)) 0;
                       Net.Log log_info "TCP connection opened to %s"
                         [Net.AStr (Some a)]] /\
             none_connected pre
       | Exit st =>
           (st = 2 /\
            (fst (parse_address_port s) = None \/
             snd (parse_address_port s) = None) /\
            evs = [Net.Log log_err "Missing address or port in '%s'!"
                     [Net.AStr (Some s)]]) \/
           (st = 1 /\ exists pre f a,
               evs = pre ++ [Net.Log log_err f a] /\
               (f = "Cannot connect to %s" ->
                open_fds [] pre = [] /\ none_connected pre))
       | Diverge => False
       end).
Proof.
  split; [|split; [|exact (tcp_client_run s h)]].
  - intros Hmiss. unfold Net.tcp_client.
    destruct (parse_address_port s) as [[address|] [port|]]; cbn [fst snd] in Hmiss;
      try (destruct Hmiss; discriminate);
      (erewrite bind_exit_eq; [reflexivity | apply log_exit_eq]).
  - intros address port Hparse c.
    assert (Hstart : forall res h1,
      Net.lookup (Some address) (Some port) Net.SOCK_STREAM
        (Z.lor Net.AI_ADDRCONFIG Net.AI_IDN) h = (Ret res, h1) ->
      Net.tcp_client s h
      = Net.bind (Net.tcp_client_loop res)
          (fun found =>
             match found with
             | None => Net.err_sys "Cannot connect to %s" [Net.AStr (Some s)]
             | Some (ai, fd) =>
                 Net.bind (Net.ai_print_addr_port ai) (fun a =>
                 Net.bind (Net.log_printf log_info "TCP connection opened to %s"
                             [Net.AStr (Some a)]) (fun _ => Net.ret fd))
             end) h1).
    { intros res h1 Hl. unfold Net.tcp_client. rewrite Hparse.
      erewrite bind_ret_eq by apply ret_eq.
      erewrite bind_ret_eq by exact Hl. reflexivity. }
    destruct (lookup_answer (Some address) (Some port) Net.SOCK_STREAM
                (Z.lor Net.AI_ADDRCONFIG Net.AI_IDN) h) as (Hok & Hfail).
    fold c in Hok, Hfail.
    split; [|split].
    + intros Hne. destruct (Hfail Hne) as (f & a & Hl). exists f, a.
      unfold Net.tcp_client. rewrite Hparse.
      erewrite bind_ret_eq by apply ret_eq.
      erewrite bind_exit_eq by exact Hl. reflexivity.
    + intros Hz Hall. rewrite (Hstart _ _ (Hok Hz)).
      destruct (tcp_client_loop_refused (Net.addrs (answer h c)) []
                  (later h [Net.Sys c 0]) Hall) as (pre & Hnc & Hopen & Hrun).
      rewrite app_nil_r in Hrun. cbn [Net.tcp_client_loop] in Hrun.
      exists pre. split; [exact Hnc|]. split; [exact Hopen|].
      erewrite bind_ret_eq by (rewrite Hrun; apply ret_eq). cbv beta iota.
      rewrite err_sys_eq, !later_app. reflexivity.
    + intros tried ai rest Hz Haddrs Hall Hsock Hacc Hname.
      rewrite (Hstart _ _ (Hok Hz)), Haddrs.
      destruct (tcp_client_loop_refused tried (ai :: rest)
                  (later h [Net.Sys c 0]) Hall) as (pre & Hnc & Hopen & Hrun).
      destruct (tcp_client_loop_accepted ai rest
                  (later (later h [Net.Sys c 0]) pre) Hsock Hacc)
        as (fd & Hfd & Hloop).
      rewrite <- Hrun in Hloop.
      destruct (print_addr_port_named (Net.ai_addr ai)
                  (later (later (later h [Net.Sys c 0]) pre)
                     [Net.Sys (socket_of ai) fd;
                      Net.Sys (Net.Connect fd (Net.ai_addr ai)) 0]) Hname)
        as (text & Hprint).
      exists pre, fd, text. split; [exact Hnc|]. split; [exact Hopen|].
      split; [exact Hfd|].
      erewrite bind_ret_eq by exact Hloop. cbv beta iota.
      unfold Net.ai_print_addr_port.
      erewrite bind_ret_eq by exact Hprint.
      erewrite bind_ret_eq by apply log_eq.
      rewrite ret_eq, !later_app. cbn [app]. rewrite <- ?app_assoc. reflexivity.
Qed.

Lemma tcp_client_connects_witness :
  exists pre fd text,
    none_connected pre /\ open_fds [] pre = [] /\ 0 <= fd /\
    Net.tcp_client (String.list_byte_of_string "example.com:4000") numeric_host
    = (Ret fd,
       later numeric_host
         (Net.Sys (resolve (Some (String.list_byte_of_string "example.com"))
                     (Some (String.list_byte_of_string "4000")) Net.SOCK_STREAM
                     (Z.lor Net.AI_ADDRCONFIG Net.AI_IDN)) 0
          :: pre
          ++ [Net.Sys (socket_of (Net.mkAddrinfo 2 1 6 (mkAddr 2 [x7f]))) fd;
              Net.Sys (Net.Connect fd (mkAddr 2 [x7f])) 0;
              Net.Sys (name_of (mkAddr 2 [x7f])) 0;
              Net.Log log_info "TCP connection opened to %s"
                [Net.AStr (Some text)]])).
Proof.
  apply (proj2 (proj2 (proj1 (proj2
           (tcp_client_connects
              (String.list_byte_of_string "example.com:4000") numeric_host))
           (String.list_byte_of_string "example.com")
           (String.list_byte_of_string "4000") eq_refl))
         [] (Net.mkAddrinfo 2 1 6 (mkAddr 2 [x7f])) []).
  - reflexivity.
  - reflexivity.
  - constructor.
  - intros hist. cbn. lia.
  - intros hist fd. reflexivity.
  - intros hist. cbn. lia.
Defined.

(** The loop of [udp_listener] over addresses that cannot be bound. *)
Lemma udp_listener_loop_failed (tried : list Net.addrinfo) :
  forall (rest : list Net.addrinfo) (h : Net.host),
    Forall (fun bad => bind_fails h (Net.ai_addr bad)) tried ->
    exists pre,
      none_bound pre /\ open_fds [] pre = [] /\
      Net.udp_listener_loop (tried ++ rest) h
      = Net.udp_listener_loop rest (later h pre).
Proof.
  induction tried as [|bad tried IH]; intros rest h Hall.
  { exists []. split; [intros ? ? ? []|]. split; [reflexivity|].
    cbn [app]. now rewrite later_nil. }
  inversion Hall as [|? ? Hbad Hrest]; subst.
  cbn [app Net.udp_listener_loop].
  unfold Net.bind at 1. unfold Net.sys_socket, Net.bind at 1, Net.syscall.
  cbv zeta. unfold Net.ret at 1. fold (socket_of bad).
  set (fd := Net.ret_val (Net.os h (Net.history h) (socket_of bad))).
  fold (later h [Net.Sys (socket_of bad) fd]).
  destruct (fd <? 0) eqn:Hneg.
  { destruct (IH rest (later h [Net.Sys (socket_of bad) fd]) Hrest)
      as (pre & Hnc & Hopen & Hrun).
    exists (Net.Sys (socket_of bad) fd :: pre). split; [|split].
    - intros f a v [H | H]; [discriminate | eapply Hnc; eauto].
    - cbn [open_fds fold_left track socket_of]. rewrite Hneg. exact Hopen.
    - rewrite Hrun, later_later. reflexivity. }
  unfold Net.bind at 1. unfold Net.sys_int at 1, Net.bind at 1, Net.syscall.
  cbv zeta. unfold Net.ret at 1.
  set (c := Net.ret_val (Net.os _ _ (Net.Bind fd (Net.ai_addr bad)))).
  assert (Hc : c <> 0) by apply Hbad.
  replace (c =? 0) with false by (symmetry; now apply Z.eqb_neq).
  unfold Net.bind at 1. unfold Net.sys_int at 1, Net.bind at 1, Net.syscall.
  cbv zeta. unfold Net.ret at 1. cbn [Net.os Net.history later].
  set (x := Net.ret_val (Net.os _ _ (Net.Close fd))).
  set (evs := [Net.Sys (socket_of bad) fd;
               Net.Sys (Net.Bind fd (Net.ai_addr bad)) c;
               Net.Sys (Net.Close fd) x]).
  destruct (IH rest (later h evs) Hrest) as (pre & Hnc & Hopen & Hrun).
  exists (evs ++ pre). split; [|split].
  - apply none_bound_app; [|exact Hnc].
    intros f a v Hin. unfold evs in Hin. cbn [In] in Hin.
    destruct Hin as [H | [H | [H | []]]]; try discriminate.
    injection H as _ _ <-. exact Hc.
  - rewrite open_fds_app. unfold evs.
    cbn [open_fds fold_left track socket_of remove_first]. rewrite Hneg.
    cbn [app remove_first]. rewrite Z.eqb_refl. exact Hopen.
  - rewrite <- later_later, <- Hrun. unfold later, evs.
    cbn [Net.os Net.history]. rewrite <- !app_assoc. reflexivity.
Qed.

(** The loop of [udp_listener] at an address that can be bound. *)
Lemma udp_listener_loop_bound (ai : Net.addrinfo) (rest : list Net.addrinfo)
    (h : Net.host) :
  socket_given h ai -> binds h (Net.ai_addr ai) ->
  exists fd,
    0 <= fd /\
    Net.udp_listener_loop (ai :: rest) h
    = (Ret (Some (ai, fd)),
       later h [Net.Sys (socket_of ai) fd;
                Net.Sys (Net.Bind fd (Net.ai_addr ai)) 0]).
Proof.
  intros Hsock Hacc. cbn [Net.udp_listener_loop].
  unfold Net.bind at 1. unfold Net.sys_socket, Net.bind at 1, Net.syscall.
  cbv zeta. unfold Net.ret at 1. fold (socket_of ai).
  set (fd := Net.ret_val (Net.os h (Net.history h) (socket_of ai))).
  assert (Hfd : 0 <= fd) by apply Hsock.
  exists fd. split; [exact Hfd|].
  replace (fd <? 0) with false by (symmetry; now apply Z.ltb_ge).
  unfold Net.bind at 1. unfold Net.sys_int at 1, Net.bind at 1, Net.syscall.
  cbv zeta. unfold Net.ret at 1. cbn [Net.os Net.history].
  rewrite Hacc. change (0 =? 0) with true. cbv iota.
  unfold Net.ret, later. cbn [Net.os Net.history]. now rewrite <- app_assoc.
Qed.

(** X14.  [udp_listener] on any specification and any system.  A
    specification without port ends the process with status 2 before any
    call is made.  Otherwise the port goes to [getaddrinfo] with the
    address, which may be missing and is then passed as a null pointer
    with [AI_PASSIVE] set; an answer other than 0 ends the process with
    status 1 behind its report.  When the addresses in front of one that
    can be bound all fail to bind, the descriptor made for that one is
    returned, behind its [bind], the [getnameinfo] of its address and
    the log line; whatever was made for the addresses in front has been
    closed again.  When no address can be bound, the process ends with
    status 1 behind "Cannot bind to", no socket left open.  And whatever
    the system answers: a descriptor that is returned is that of the
    first socket whose [bind] succeeded and the only one left open, an
    exit has status 1 or 2, and status 2 comes with nothing but the
    report of the missing port. *)
Theorem udp_listener_binds (s : list byte) (h : Net.host) :
  (snd (parse_address_port s) = None ->
   Net.udp_listener s h
   = (Exit 2,
      later h [Net.Log log_err "Missing port in '%s'!" [Net.AStr (Some s)]])) /\
  (forall address port,
     parse_address_port s = (address, Some port) ->
     let c := resolve address (Some port) Net.SOCK_DGRAM
                (Z.lor (Z.lor Net.AI_ADDRCONFIG Net.AI_PASSIVE) Net.AI_IDN) in
     (Net.ret_val (answer h c) <> 0 ->
      exists f a,
        Net.udp_listener s h
        = (Exit 1,
           later h [Net.Sys c (Net.ret_val (answer h c)); Net.Log log_err f a])) /\
     (Net.ret_val (answer h c) = 0 ->
      Forall (fun bad => bind_fails h (Net.ai_addr bad)) (Net.addrs (answer h c)) ->
      exists pre,
        none_bound pre /\ open_fds [] pre = [] /\
        Net.udp_listener s h
        = (Exit 1,
           later h (Net.Sys c 0 :: pre
                    ++ [Net.Log log_err "Cannot bind to %s"
                          [Net.AStr (Some s)]]))) /\
     (forall tried ai rest,
        Net.ret_val (answer h c) = 0 ->
        Net.addrs (answer h c) = tried ++ ai :: rest ->
        Forall (fun bad => bind_fails h (Net.ai_addr bad)) tried ->
        socket_given h ai -> binds h (Net.ai_addr ai) ->
        named h (Net.ai_addr ai) ->
        exists pre fd text,
          none_bound pre /\ open_fds [] pre = [] /\ 0 <= fd /\
          Net.udp_listener s h
          = (Ret fd,
             later h (Net.Sys c 0 :: pre
                      ++ [Net.Sys (socket_of ai) fd;
                          Net.Sys (Net.Bind fd (Net.ai_addr ai)) 0;
                          Net.Sys (name_of (Net.ai_addr ai)) 0;
                          Net.Log log_info "Listening for UDP connections on %s"
                            [Net.AStr (Some text)]])))) /\
  run_of (Net.udp_listener s) h
    (fun o evs =>
       match o with
       | Ret fd =>
           0 <= fd /\ open_fds [] evs = [fd] /\
           exists address port ai pre a,
             parse_address_port s = (address, Some port) /\
             evs = Net.Sys (Net.Getaddrinfo address (Some port)
                              Net.AF_UNSPEC Net.SOCK_DGRAM
                              (Z.lor (Z.lor Net.AI_ADDRCONFIG Net.AI_PASSIVE)
                                     Net.AI_IDN)) 0
                   :: pre
                   ++ [Net.Sys (socket_of ai) fd;
                       Net.Sys (Net.Bind fd (Net.ai_addr ai)) 0;
                       Net.Sys (name_of (Net.ai_addr ai)) 0;
                       Net.Log log_info "Listening for UDP connections on %s"
                         [Net.AStr (Some a)]] /\
             none_bound pre
       | Exit st =>
           (st = 2 /\ snd (parse_address_port s) = None /\
            evs = [Net.Log log_err "Missing port in '%s'!" [Net.AStr (Some s)]]) \/
           (st = 1 /\ exists pre f a,
               evs = pre ++ [Net.Log log_err f a] /\
               (f = "Cannot bind to %s" ->
                open_fds [] pre = [] /\ none_bound pre))
       | Diverge => False
       end).
Proof.
  split; [|split; [|exact (udp_listener_run s h)]].
  - intros Hmiss. unfold Net.udp_listener.
    destruct (parse_address_port s) as [address [port|]]; cbn [snd] in Hmiss;
      [discriminate|].
    erewrite bind_exit_eq; [reflexivity | apply log_exit_eq].
  - intros address port Hparse c.
    assert (Hstart : forall res h1,
      Net.lookup address (Some port) Net.SOCK_DGRAM
        (Z.lor (Z.lor Net.AI_ADDRCONFIG Net.AI_PASSIVE) Net.AI_IDN) h
      = (Ret res, h1) ->
      Net.udp_listener s h
      = Net.bind (Net.udp_listener_loop res)
          (fun found =>
             match found with
             | None => Net.err_sys "Cannot bind to %s" [Net.AStr (Some s)]
             | Some (ai, fd) =>
                 Net.bind (Net.ai_print_addr_port ai) (fun a =>
                 Net.bind (Net.log_printf log_info
                             "Listening for UDP connections on %s"
                             [Net.AStr (Some a)]) (fun _ => Net.ret fd))
             end) h1).
    { intros res h1 Hl. unfold Net.udp_listener. rewrite Hparse.
      erewrite bind_ret_eq by apply ret_eq.
      erewrite bind_ret_eq by exact Hl. reflexivity. }
    destruct (lookup_answer address (Some port) Net.SOCK_DGRAM
                (Z.lor (Z.lor Net.AI_ADDRCONFIG Net.AI_PASSIVE) Net.AI_IDN) h)
      as (Hok & Hfail).
    fold c in Hok, Hfail.
    split; [|split].
    + intros Hne. destruct (Hfail Hne) as (f & a & Hl). exists f, a.
      unfold Net.udp_listener. rewrite Hparse.
      erewrite bind_ret_eq by apply ret_eq.
      erewrite bind_exit_eq by exact Hl. reflexivity.
    + intros Hz Hall. rewrite (Hstart _ _ (Hok Hz)).
      destruct (udp_listener_loop_failed (Net.addrs (answer h c)) []
                  (later h [Net.Sys c 0]) Hall) as (pre & Hnc & Hopen & Hrun).
      rewrite app_nil_r in Hrun. cbn [Net.udp_listener_loop] in Hrun.
      exists pre. split; [exact Hnc|]. split; [exact Hopen|].
      erewrite bind_ret_eq by (rewrite Hrun; apply ret_eq). cbv beta iota.
      rewrite err_sys_eq, !later_app. reflexivity.
    + intros tried ai rest Hz Haddrs Hall Hsock Hacc Hname.
      rewrite (Hstart _ _ (Hok Hz)), Haddrs.
      destruct (udp_listener_loop_failed tried (ai :: rest)
                  (later h [Net.Sys c 0]) Hall) as (pre & Hnc & Hopen & Hrun).
      destruct (udp_listener_loop_bound ai rest
                  (later (later h [Net.Sys c 0]) pre) Hsock Hacc)
        as (fd & Hfd & Hloop).
      rewrite <- Hrun in Hloop.
      destruct (print_addr_port_named (Net.ai_addr ai)
                  (later (later (later h [Net.Sys c 0]) pre)
                     [Net.Sys (socket_of ai) fd;
                      Net.Sys (Net.Bind fd (Net.ai_addr ai)) 0]) Hname)
        as (text & Hprint).
      exists pre, fd, text. split; [exact Hnc|]. split; [exact Hopen|].
      split; [exact Hfd|].
      erewrite bind_ret_eq by exact Hloop. cbv beta iota.
      unfold Net.ai_print_addr_port.
      erewrite bind_ret_eq by exact Hprint.
      erewrite bind_ret_eq by apply log_eq.
      rewrite ret_eq, !later_app. cbn [app]. rewrite <- ?app_assoc. reflexivity.
Qed.

Lemma udp_listener_binds_witness :
  exists pre fd text,
    none_bound pre /\ open_fds [] pre = [] /\ 0 <= fd /\
    Net.udp_listener (String.list_byte_of_string "5000") numeric_host
    = (Ret fd,
       later numeric_host
         (Net.Sys (resolve None (Some (String.list_byte_of_string "5000"))
                     Net.SOCK_DGRAM
                     (Z.lor (Z.lor Net.AI_ADDRCONFIG Net.AI_PASSIVE) Net.AI_IDN)) 0
          :: pre
          ++ [Net.Sys (socket_of (Net.mkAddrinfo 2 1 6 (mkAddr 2 [x7f]))) fd;
              Net.Sys (Net.Bind fd (mkAddr 2 [x7f])) 0;
              Net.Sys (name_of (mkAddr 2 [x7f])) 0;
              Net.Log log_info "Listening for UDP connections on %s"
                [Net.AStr (Some text)]])).
Proof.
  apply (proj2 (proj2 (proj1 (proj2
           (udp_listener_binds (String.list_byte_of_string "5000") numeric_host))
           None (String.list_byte_of_string "5000") eq_refl))
         [] (Net.mkAddrinfo 2 1 6 (mkAddr 2 [x7f])) []).
  - reflexivity.
  - reflexivity.
  - constructor.
  - intros hist. cbn. lia.
  - intros hist fd. reflexivity.
  - intros hist. cbn. lia.
Defined.

(** The loop of [udp_client] over addresses the system has no socket
    for. *)
Lemma udp_client_loop_refused (tried : list Net.addrinfo) :
  forall (rest : list Net.addrinfo) (h : Net.host),
    Forall (socket_refused h) tried ->
    exists pre,
      Forall socket_failed pre /\ length pre = length tried /\
      Net.udp_client_loop (tried ++ rest) h
      = Net.udp_client_loop rest (later h pre).
Proof.
  induction tried as [|bad tried IH]; intros rest h Hall.
  { exists []. split; [constructor|]. split; [reflexivity|].
    cbn [app]. now rewrite later_nil. }
  inversion Hall as [|? ? Hbad Hrest]; subst.
  cbn [app Net.udp_client_loop].
  unfold Net.bind at 1. unfold Net.sys_socket, Net.bind at 1, Net.syscall.
  cbv zeta. unfold Net.ret at 1. fold (socket_of bad).
  set (fd := Net.ret_val (Net.os h (Net.history h) (socket_of bad))).
  fold (later h [Net.Sys (socket_of bad) fd]).
  assert (Hfd : fd < 0) by apply Hbad.
  replace (fd <? 0) with true by (symmetry; now apply Z.ltb_lt).
  destruct (IH rest (later h [Net.Sys (socket_of bad) fd]) Hrest)
    as (pre & Hf & Hlen & Hrun).
  exists (Net.Sys (socket_of bad) fd :: pre). split; [|split].
  - constructor; [exists bad, fd; auto | exact Hf].
  - cbn [length]. now rewrite Hlen.
  - rewrite Hrun, later_later. reflexivity.
Qed.

(** X15.  [udp_client] on any specification and any system.  A
    specification that lacks the address or the port ends the process
    with status 2 before any call is made.  Otherwise the two are
    handed to [getaddrinfo], and an answer other than 0 ends the process
    with status 1 behind its report.  The socket returned is the one
    made for the first address the system has a socket for, one
    [socket] call having failed for each address in front of it, and
    that address is returned with it as the peer address, behind its
    [getnameinfo] and the log line: nothing is bound or connected.  When
    the system has no socket for any address, the process ends with
    status 1 behind the report "socket".  And whatever the system
    answers: a socket that is returned is the only one open, an exit has
    status 1 or 2, and status 2 comes with nothing but the report of the
    missing part. *)
Theorem udp_client_first_socket (s : list byte) (h : Net.host) :
  ((fst (parse_address_port s) = None \/ snd (parse_address_port s) = None) ->
   Net.udp_client s h
   = (Exit 2,
      later h [Net.Log log_err "Missing address or port in '%s'!"
                 [Net.AStr (Some s)]])) /\
  (forall address port,
     parse_address_port s = (Some address, Some port) ->
     let c := resolve (Some address) (Some port) Net.SOCK_DGRAM
                (Z.lor Net.AI_ADDRCONFIG Net.AI_IDN) in
     (Net.ret_val (answer h c) <> 0 ->
      exists f a,
        Net.udp_client s h
        = (Exit 1,
           later h [Net.Sys c (Net.ret_val (answer h c)); Net.Log log_err f a])) /\
     (Net.ret_val (answer h c) = 0 ->
      Forall (socket_refused h) (Net.addrs (answer h c)) ->
      exists pre,
        Forall socket_failed pre /\
        length pre = length (Net.addrs (answer h c)) /\
        Net.udp_client s h
        = (Exit 1,
           later h (Net.Sys c 0 :: pre ++ [Net.Log log_err "socket" []]))) /\
     (forall tried ai rest,
        Net.ret_val (answer h c) = 0 ->
        Net.addrs (answer h c) = tried ++ ai :: rest ->
        Forall (socket_refused h) tried ->
        socket_given h ai -> named h (Net.ai_addr ai) ->
        exists pre fd text,
          Forall socket_failed pre /\ length pre = length tried /\ 0 <= fd /\
          Net.udp_client s h
          = (Ret (fd, Net.ai_addr ai),
             later h (Net.Sys c 0 :: pre
                      ++ [Net.Sys (socket_of ai) fd;
                          Net.Sys (name_of (Net.ai_addr ai)) 0;
                          Net.Log log_debug "The UDP destination is %s"
                            [Net.AStr (Some text)]])))) /\
  run_of (Net.udp_client s) h
    (fun o evs =>
       match o with
       | Ret (fd, remote) =>
           0 <= fd /\ open_fds [] evs = [fd] /\
           exists address port ai pre a,
             parse_address_port s = (Some address, Some port) /\
             remote = Net.ai_addr ai /\
             evs = Net.Sys (Net.Getaddrinfo (Some address) (Some port)
                              Net.AF_UNSPEC Net.SOCK_DGRAM
                              (Z.lor Net.AI_ADDRCONFIG Net.AI_IDN)) 0
                   :: pre
                   ++ [Net.Sys (socket_of ai) fd;
                       Net.Sys (name_of (Net.ai_addr ai)) 0;
                       Net.Log log_debug "The UDP destination is %s"
                         [Net.AStr (Some a)]] /\
             Forall socket_failed pre
       | Exit st =>
           (st = 2 /\
            (fst (parse_address_port s) = None \/
             snd (parse_address_port s) = None) /\
            evs = [Net.Log log_err "Missing address or port in '%s'!"
                     [Net.AStr (Some s)]]) \/
           (st = 1 /\ exists pre f a, evs = pre ++ [Net.Log log_err f a])
       | Diverge => False
       end).
Proof.
  split; [|split; [|exact (udp_client_run s h)]].
  - intros Hmiss. unfold Net.udp_client.
    destruct (parse_address_port s) as [[address|] [port|]]; cbn [fst snd] in Hmiss;
      try (destruct Hmiss; discriminate);
      (erewrite bind_exit_eq; [reflexivity | apply log_exit_eq]).
  - intros address port Hparse c.
    assert (Hstart : forall res h1,
      Net.lookup (Some address) (Some port) Net.SOCK_DGRAM
        (Z.lor Net.AI_ADDRCONFIG Net.AI_IDN) h = (Ret res, h1) ->
      Net.udp_client s h
      = Net.bind (Net.udp_client_loop res)
          (fun found =>
             match found with
             | None => Net.err_sys "socket" []
             | Some (ai, fd) =>
                 Net.bind (Net.ai_print_addr_port ai) (fun a =>
                 Net.bind (Net.log_printf log_debug "The UDP destination is %s"
                             [Net.AStr (Some a)])
                   (fun _ => Net.ret (fd, Net.ai_addr ai)))
             end) h1).
    { intros res h1 Hl. unfold Net.udp_client. rewrite Hparse.
      erewrite bind_ret_eq by apply ret_eq.
      erewrite bind_ret_eq by exact Hl. reflexivity. }
    destruct (lookup_answer (Some address) (Some port) Net.SOCK_DGRAM
                (Z.lor Net.AI_ADDRCONFIG Net.AI_IDN) h) as (Hok & Hfail).
    fold c in Hok, Hfail.
    split; [|split].
    + intros Hne. destruct (Hfail Hne) as (f & a & Hl). exists f, a.
      unfold Net.udp_client. rewrite Hparse.
      erewrite bind_ret_eq by apply ret_eq.
      erewrite bind_exit_eq by exact Hl. reflexivity.
    + intros Hz Hall. rewrite (Hstart _ _ (Hok Hz)).
      destruct (udp_client_loop_refused (Net.addrs (answer h c)) []
                  (later h [Net.Sys c 0]) Hall) as (pre & Hf & Hlen & Hrun).
      rewrite app_nil_r in Hrun. cbn [Net.udp_client_loop] in Hrun.
      exists pre. split; [exact Hf|]. split; [exact Hlen|].
      erewrite bind_ret_eq by (rewrite Hrun; apply ret_eq). cbv beta iota.
      rewrite err_sys_eq, !later_app. reflexivity.
    + intros tried ai rest Hz Haddrs Hall Hsock Hname.
      rewrite (Hstart _ _ (Hok Hz)), Haddrs.
      destruct (udp_client_loop_refused tried (ai :: rest)
                  (later h [Net.Sys c 0]) Hall) as (pre & Hf & Hlen & Hrun).
      set (h2 := later (later h [Net.Sys c 0]) pre) in *.
      set (fd := Net.ret_val (Net.os h2 (Net.history h2) (socket_of ai))).
      assert (Hfd : 0 <= fd) by apply Hsock.
      assert (Hloop : Net.udp_client_loop (ai :: rest) h2
                      = (Ret (Some (ai, fd)), later h2 [Net.Sys (socket_of ai) fd])).
      { cbn [Net.udp_client_loop].
        unfold Net.bind at 1. unfold Net.sys_socket, Net.bind at 1, Net.syscall.
        cbv zeta. unfold Net.ret at 1. fold (socket_of ai). fold fd.
        replace (fd <? 0) with false by (symmetry; now apply Z.ltb_ge).
        reflexivity. }
      rewrite <- Hrun in Hloop.
      destruct (print_addr_port_named (Net.ai_addr ai)
                  (later h2 [Net.Sys (socket_of ai) fd]) Hname)
        as (text & Hprint).
      exists pre, fd, text. split; [exact Hf|]. split; [exact Hlen|].
      split; [exact Hfd|].
      erewrite bind_ret_eq by exact Hloop. cbv beta iota.
      unfold Net.ai_print_addr_port.
      erewrite bind_ret_eq by exact Hprint.
      erewrite bind_ret_eq by apply log_eq.
      unfold h2.
      rewrite ret_eq, !later_app. cbn [app]. rewrite <- ?app_assoc. reflexivity.
Qed.

Lemma udp_client_first_socket_witness :
  exists pre fd text,
    Forall socket_failed pre /\ length pre = length (@nil Net.addrinfo) /\
    0 <= fd /\
    Net.udp_client (String.list_byte_of_string "192.0.2.1:5000") numeric_host
    = (Ret (fd, mkAddr 2 [x7f]),
       later numeric_host
         (Net.Sys (resolve (Some (String.list_byte_of_string "192.0.2.1"))
                     (Some (String.list_byte_of_string "5000")) Net.SOCK_DGRAM
                     (Z.lor Net.AI_ADDRCONFIG Net.AI_IDN)) 0
          :: pre
          ++ [Net.Sys (socket_of (Net.mkAddrinfo 2 1 6 (mkAddr 2 [x7f]))) fd;
              Net.Sys (name_of (mkAddr 2 [x7f])) 0;
              Net.Log log_debug "The UDP destination is %s"
                [Net.AStr (Some text)]])).
Proof.
  apply (proj2 (proj2 (proj1 (proj2
           (udp_client_first_socket
              (String.list_byte_of_string "192.0.2.1:5000") numeric_host))
           (String.list_byte_of_string "192.0.2.1")
           (String.list_byte_of_string "5000") eq_refl))
         [] (Net.mkAddrinfo 2 1 6 (mkAddr 2 [x7f])) []).
  - reflexivity.
  - reflexivity.
  - constructor.
  - intros hist. cbn. lia.
  - intros hist. cbn. lia.
Defined.

Lemma returns_bind {A B} (m : Net.M A) (k : A -> Net.M B) (h : Net.host)
    (P : A -> Prop) (Q : B -> Prop) :
  returns m h P ->
  (forall a evs, P a -> returns (k a) (later h evs) Q) ->
  returns (Net.bind m k) h Q.
Proof.
  intros (a & evs & Hm & HP) Hk.
  destruct (Hk a evs HP) as (b & evs' & Hb & HQ).
  exists b, (evs ++ evs'). split; [|exact HQ].
  rewrite (bind_ret_eq _ _ _ _ _ Hm), Hb, later_app. reflexivity.
Qed.

Lemma returns_ret {A} (a : A) (h : Net.host) (P : A -> Prop) :
  P a -> returns (Net.ret a) h P.
Proof. intros HP. exists a, []. now rewrite later_nil. Qed.

Lemma returns_sys_int (c : Net.call) (h : Net.host) :
  returns (Net.sys_int c) h (fun v => v = Net.ret_val (Net.os h (Net.history h) c)).
Proof. do 2 eexists. split; reflexivity. Qed.

Lemma returns_checked {B} (c : Net.call) (fmt : string) (args : list Net.arg)
    (k : Net.M B) (h : Net.host) (Q : B -> Prop) :
  0 <= Net.ret_val (Net.os h (Net.history h) c) ->
  (forall evs, returns k (later h evs) Q) ->
  returns (Net.bind (Net.sys_int c)
             (fun r => Net.bind (if r <? 0 then Net.err_sys fmt args
                                 else Net.ret tt) (fun _ => k)))
    h Q.
Proof.
  intros Hpos Hk.
  eapply returns_bind; [apply returns_sys_int|].
  intros v evs ->.
  replace (_ <? 0) with false by (symmetry; now apply Z.ltb_ge).
  eapply returns_bind with (P := fun _ => True); [now apply returns_ret|].
  intros _ evs' _. rewrite later_app. apply Hk.
Qed.

(** The loop of [tcp_listener] on a system where every call on a socket
    succeeds: it comes to its end. *)
Lemma tcp_listener_loop_returns (s : list byte) (res : list Net.addrinfo) :
  forall (fd_list : Net.int_array) (fd_num allocated_fds : Z) (h : Net.host),
    listens h -> Forall (fun ai => named h (Net.ai_addr ai)) res ->
    returns (Net.tcp_listener_loop s res fd_list fd_num allocated_fds) h
      (fun _ => True).
Proof.
  induction res as [|ai rest IH]; intros fd_list fd_num allocated_fds h Hl Hn;
    cbn [Net.tcp_listener_loop].
  { now apply returns_ret. }
  inversion Hn as [|? ? Hai Hrest]; subst.
  eapply returns_bind with (P := fun _ => True).
  { do 2 eexists. split; [reflexivity | exact I]. }
  intros fd evs0 _.
  destruct (fd <? 0); [apply IH; assumption|].
  cbv zeta.
  eapply returns_bind with (P := fun _ => True).
  { destruct (Net.ai_family ai =? Net.AF_INET6); [|now apply returns_ret].
    eapply returns_bind; [apply returns_sys_int|].
    intros v evs ->.
    replace (_ <? 0) with false by (symmetry; apply Z.ltb_ge; apply Hl).
    now apply returns_ret. }
  intros _ evs1 _.
  apply returns_checked; [apply Hl|]. intros evs2.
  apply returns_checked; [apply Hl|]. intros evs3.
  apply returns_checked; [apply Hl|]. intros evs4.
  destruct (allocated_fds <? fd_num + 1 + 1).
  - eapply returns_bind with (P := fun _ => True).
    { unfold Net.ai_print_addr_port.
      destruct (print_addr_port_named (Net.ai_addr ai)
                  (later (later (later (later (later h evs0) evs1) evs2) evs3) evs4)
                  Hai) as (text & Hp).
      do 2 eexists. split; [exact Hp | exact I]. }
    intros a evs5 _.
    eapply returns_bind with (P := fun _ => True).
    { do 2 eexists. split; [apply log_eq | exact I]. }
    intros _ evs6 _. apply IH; assumption.
  - eapply returns_bind with (P := fun _ => True).
    { unfold Net.ai_print_addr_port.
      destruct (print_addr_port_named (Net.ai_addr ai)
                  (later (later (later (later (later h evs0) evs1) evs2) evs3) evs4)
                  Hai) as (text & Hp).
      do 2 eexists. split; [exact Hp | exact I]. }
    intros a evs5 _.
    eapply returns_bind with (P := fun _ => True).
    { do 2 eexists. split; [apply log_eq | exact I]. }
    intros _ evs6 _. apply IH; assumption.
Qed.

(** X16.  [tcp_listener] on any specification and any system.  A
    specification without port ends the process with status 2 before any
    call is made.  Otherwise the port goes to [getaddrinfo] with the
    address, which may be missing, and an answer other than 0 ends the
    process with status 1 behind its report.  On a system where setting
    an option, binding and listening always succeed and every resolved
    address has a name, the function returns.  When it returns, the
    array it returns is never null: it holds the descriptors of the
    listening sockets, in the order of the addresses, and [-1] behind
    them, within the cells that were allocated.  Each descriptor is that
    of a socket made for one of the resolved addresses, set to
    [IPV6_V6ONLY] when the address is an IPv6 one and to [SO_REUSEADDR],
    bound to that address and listening with a backlog of 128; these are
    the sockets left open.  An exit has status 2, with nothing but the
    report of the missing port, or status 1 behind the report of a failed
    call, which is never the report ["socket"] of the test made on the
    array. *)
Theorem tcp_listener_array (s : list byte) (h : Net.host) :
  (snd (parse_address_port s) = None ->
   Net.tcp_listener s h
   = (Exit 2,
      later h [Net.Log log_err "Missing port in '%s'!" [Net.AStr (Some s)]])) /\
  (forall address port,
     parse_address_port s = (address, Some port) ->
     let c := resolve address (Some port) Net.SOCK_STREAM
                (Z.lor (Z.lor Net.AI_ADDRCONFIG Net.AI_PASSIVE) Net.AI_IDN) in
     (Net.ret_val (answer h c) <> 0 ->
      exists f a,
        Net.tcp_listener s h
        = (Exit 1,
           later h [Net.Sys c (Net.ret_val (answer h c)); Net.Log log_err f a])) /\
     (Net.ret_val (answer h c) = 0 -> listens h ->
      Forall (fun ai => named h (Net.ai_addr ai)) (Net.addrs (answer h c)) ->
      exists a, fst (Net.tcp_listener s h) = Ret a)) /\
  run_of (Net.tcp_listener s) h
    (fun o evs =>
       match o with
       | Ret a =>
           exists fds junk address port,
             a = Some (map Some fds ++ Some (-1) :: junk) /\
             Forall (fun fd => 0 <= fd) fds /\
             open_fds [] evs = fds /\
             parse_address_port s = (address, Some port) /\
             Forall (listening
                       (Net.addrs
                          (Net.os h (Net.history h)
                             (Net.Getaddrinfo address (Some port) Net.AF_UNSPEC
                                Net.SOCK_STREAM
                                (Z.lor (Z.lor Net.AI_ADDRCONFIG Net.AI_PASSIVE)
                                       Net.AI_IDN))))
                       evs) fds
       | Exit st =>
           (st = 2 /\ snd (parse_address_port s) = None /\
            evs = [Net.Log log_err "Missing port in '%s'!" [Net.AStr (Some s)]]) \/
           (st = 1 /\ ends_with_err evs)
       | Diverge => False
       end).
Proof.
  split; [|split; [|exact (tcp_listener_run s h)]].
  - intros Hmiss. unfold Net.tcp_listener.
    destruct (parse_address_port s) as [address [port|]]; cbn [snd] in Hmiss;
      [discriminate|].
    erewrite bind_exit_eq; [reflexivity | apply log_exit_eq].
  - intros address port Hparse c.
    destruct (lookup_answer address (Some port) Net.SOCK_STREAM
                (Z.lor (Z.lor Net.AI_ADDRCONFIG Net.AI_PASSIVE) Net.AI_IDN) h)
      as (Hok & Hfail).
    fold c in Hok, Hfail. split.
    + intros Hne. destruct (Hfail Hne) as (f & a & Hl). exists f, a.
      unfold Net.tcp_listener. rewrite Hparse.
      erewrite bind_ret_eq by apply ret_eq.
      erewrite bind_exit_eq by exact Hl. reflexivity.
    + intros Hz Hl Hn.
      destruct (tcp_listener_loop_returns s (Net.addrs (answer h c)) None 0 0
                  (later h [Net.Sys c 0]) Hl Hn)
        as ([[fd_list fd_num] allocated_fds] & evs & Hloop & _).
      pose proof (tcp_listener_run s h) as (evs' & Hh & Hrun).
      revert Hh Hrun. unfold Net.tcp_listener. rewrite Hparse.
      erewrite bind_ret_eq by apply ret_eq.
      erewrite bind_ret_eq by exact (Hok Hz).
      erewrite bind_ret_eq by exact Hloop. cbv beta iota zeta.
      destruct (Net.store _ fd_num (-1)) as [l|].
      { intros _ _. eexists. reflexivity. }
      rewrite err_sys_eq, !later_app. cbn [fst snd].
      intros Hh [(H2 & _) | (_ & pre & f & a & Hevs & Hf)]; [discriminate|].
      exfalso. apply Hf.
      unfold later in Hh. injection Hh as Hh. apply app_inv_head in Hh.
      rewrite Hevs in Hh.
      change (Net.Sys c 0 :: evs ++ [Net.Log log_err "socket" []])
        with ((Net.Sys c 0 :: evs) ++ [Net.Log log_err "socket" []]) in Hh.
      apply app_inj_tail in Hh. destruct Hh as (_ & Hlog).
      injection Hlog as <- _. reflexivity.
Qed.

Lemma tcp_listener_array_witness :
  exists a,
    fst (Net.tcp_listener (String.list_byte_of_string "4000") numeric_host)
    = Ret a.
Proof.
  apply (proj2 (proj1 (proj2
           (tcp_listener_array (String.list_byte_of_string "4000") numeric_host))
           None (String.list_byte_of_string "4000") eq_refl)).
  - reflexivity.
  - intros hist. repeat split; intros; cbn; lia.
  - repeat constructor; cbn; lia.
Defined.

(** * How [main_loop] ends *)

Lemma ends_ret {A} (a : A) (s : Timed.session) (P : A -> Prop) :
  P a -> ends (Timed.ret a) s P.
Proof. intros HP. split; [reflexivity | exact HP]. Qed.

Lemma ends_bind {A B} (m : Timed.T A) (k : A -> Timed.T B) (s : Timed.session)
    (P : A -> Prop) (Q : B -> Prop) :
  ends m s P ->
  (forall a s1, P a -> Timed.selects s1 = Timed.selects s -> ends (k a) s1 Q) ->
  ends (Timed.bind m k) s Q.
Proof.
  intros (Hsel & Hm) Hk. unfold ends, Timed.bind in *.
  destruct (m s) as [[a|st|] s1]; cbn [fst snd] in *.
  - destruct (Hk a s1 Hm Hsel) as (Hsel' & Hq). split; [congruence | exact Hq].
  - split; assumption.
  - split; assumption.
Qed.

Lemma ends_time (s : Timed.session) : ends Timed.time s (fun _ => True).
Proof. split; [reflexivity | exact I]. Qed.

Lemma ends_lift {A} (m : M A) (s : Timed.session) (P : A -> Prop) :
  settles (fst (m (Timed.sockets s))) (snd (m (Timed.sockets s))) P ->
  ends (Timed.lift m) s P.
Proof.
  intros H. unfold ends, Timed.lift.
  destruct (m (Timed.sockets s)) as [o w]. cbn [fst snd] in *.
  split; [reflexivity | exact H].
Qed.

Lemma ends_timeout (msg : string) (s : Timed.session) (P : unit -> Prop) :
  timeout_log (EvLog log_notice msg) ->
  ends (Timed.lift (log_printf_exit 0 log_notice msg)) s P.
Proof.
  intros Hmsg. apply ends_lift. cbn.
  do 2 eexists. split; [reflexivity|]. right. auto.
Qed.

Lemma tcp_to_udp_settles (r : relay) (w : world) :
  relay_ok r ->
  settles (fst (tcp_to_udp r w)) (snd (tcp_to_udp r w)) relay_ok.
Proof.
  intros (Hlen & Hr).
  destruct (tcp_rx w) as [|i rest] eqn:Hrx.
  - unfold tcp_to_udp, bind, sys_read. rewrite Hrx. cbn [fst snd settles].
    do 2 eexists. split; [reflexivity|]. left. split; [eauto | reflexivity].
  - assert (Hne : tcp_rx w <> []) by (rewrite Hrx; discriminate).
    destruct (tcp_to_udp_end r w Hlen Hr Hne) as (Hnd & He & _ & Hret).
    destruct (tcp_to_udp r w) as [[r'| st|] w']; cbn [fst snd settles] in *.
    + destruct (Hret r' w' eq_refl) as (Hok & Hl & _). split; auto.
    + destruct He as (t & e & Ht & He). exists t, e. split; [exact Ht | now left].
    + contradiction.
Qed.

Lemma udp_to_tcp_settles (r : relay) (w : world) :
  relay_ok r ->
  settles (fst (udp_to_tcp r w)) (snd (udp_to_tcp r w)) relay_ok.
Proof.
  intros Hr.
  destruct (udp_rx w) as [|i rest] eqn:Hrx.
  - unfold udp_to_tcp, bind, sys_recvfrom. rewrite Hrx. cbn [fst snd settles].
    do 2 eexists. split; [reflexivity|]. right. split; [eauto | reflexivity].
  - assert (Hne : udp_rx w <> []) by (rewrite Hrx; discriminate).
    destruct (udp_to_tcp_end r w Hne) as (Hnd & He & _).
    pose proof (udp_to_tcp_relay r) as Hrel.
    destruct (udp_to_tcp r w) as [[r'| st|] w'] eqn:E; cbn [fst snd settles] in *.
    + destruct (Hrel r' w w' E) as [-> | (a & ->)]; exact Hr.
    + destruct He as (t & e & Ht & He). exists t, e. split; [exact Ht | now left].
    + contradiction.
Qed.

(** One pass behind [select]: it settles, and the relay it returns is in
    order. *)
Lemma pass_ends (r : relay) (lu lt : Z) (tcp udp : bool) (s : Timed.session) :
  relay_ok r ->
  ends (Timed.pass r lu lt tcp udp) s (fun x => relay_ok (fst (fst x))).
Proof.
  intros Hr. unfold Timed.pass. cbv zeta.
  eapply ends_bind with (P := fun _ => True).
  { destruct (negb (lu =? 0) && _); [|now apply ends_ret].
    eapply ends_bind; [apply ends_time|]. intros now s1 _ _.
    destruct (_ >? _); [|now apply ends_ret].
    apply ends_timeout. now left. }
  intros [] s1 _ _.
  eapply ends_bind with (P := fun _ => True).
  { destruct (negb (lt =? 0) && _); [|now apply ends_ret].
    eapply ends_bind; [apply ends_time|]. intros now s2 _ _.
    destruct (_ >? _); [|now apply ends_ret].
    apply ends_timeout. now right. }
  intros [] s2 _ _.
  eapply ends_bind with (P := fun x => relay_ok (fst x)).
  { destruct tcp; [|now apply ends_ret].
    eapply ends_bind; [apply ends_lift; apply tcp_to_udp_settles; exact Hr|].
    intros r' s3 Hr' _.
    destruct (negb (lt =? 0)); [|now apply ends_ret].
    eapply ends_bind; [apply ends_time|]. intros now s4 _ _.
    now apply ends_ret. }
  intros [r1 lt1] s3 Hr1 _. cbn [fst] in Hr1.
  eapply ends_bind with (P := fun x => relay_ok (fst x)).
  { destruct udp; [|now apply ends_ret].
    eapply ends_bind; [apply ends_lift; apply udp_to_tcp_settles; exact Hr1|].
    intros r' s4 Hr' _.
    destruct (negb (lu =? 0)); [|now apply ends_ret].
    eapply ends_bind; [apply ends_time|]. intros now s5 _ _.
    now apply ends_ret. }
  intros [r2 lu1] s4 Hr2 _. cbn [fst] in Hr2.
  now apply ends_ret.
Qed.

(** The [while (1)] of [main_loop] with more passes than [select] has
    results to report. *)
Lemma loop_ends (fuel : nat) :
  forall (r : relay) (lu lt : Z) (s : Timed.session),
    relay_ok r -> (length (Timed.selects s) < fuel)%nat ->
    match Timed.loop fuel r lu lt s with
    | (Ret _, s') => Timed.selects s' = []
    | (Exit st, s') =>
        exists t e, trace (Timed.sockets s') = t ++ [e] /\ end_reason st e
    | (Diverge, s') => blocked (Timed.sockets s')
    end.
Proof.
  induction fuel as [|fuel IH]; intros r lu lt s Hr Hfuel; [lia|].
  cbn [Timed.loop]. unfold Timed.bind at 1, Timed.sys_select.
  destruct (Timed.selects s) as [|x rest] eqn:Hsel.
  { cbn. exact Hsel. }
  cbn [length] in Hfuel.
  set (s1 := Timed.mkSession (Timed.sockets s) rest (Timed.clock s) (Timed.ticks s)).
  destruct x as [errno|tcp udp].
  - destruct ((errno =? Timed.EINTR) || (errno =? Timed.EAGAIN)).
    + apply IH; [exact Hr | cbn; lia].
    + cbn. do 2 eexists. split; [reflexivity|]. left. cbn. auto.
  - destruct (pass_ends r lu lt tcp udp s1 Hr) as (Hs & Hp).
    unfold Timed.bind.
    destruct (Timed.pass r lu lt tcp udp s1) as [[[[r' lu'] lt']|st|] s2];
      cbn [fst snd settles] in *.
    + apply IH; [exact Hp | rewrite Hs; cbn; lia].
    + exact Hp.
    + exact Hp.
Qed.

(** X10.  How [main_loop] ends, for a relay as [main] sets it up,
    whatever [select] reports, whatever the sockets hold, whatever the
    output calls answer and whatever the clock shows.  With more passes
    than [select] has results to report, the loop comes to the end of
    these results, or the process exits, or it sits in a [read] or a
    [recvfrom] on a socket that [select] reported and that has nothing
    queued.  An exit comes right behind the message that gives its
    reason: status 0 follows "Remote closed the connection", a bad
    handshake or one of the two idle time-outs, status 1 follows the
    report of a failed call.  No other status is used. *)
Theorem main_loop_ends (fuel : nat) (r : relay) (s : Timed.session) :
  state r = uninitialized -> length (buf r) = Z.to_nat TCPBUFFERSIZE ->
  (length (Timed.selects s) < fuel)%nat ->
  match Timed.main_loop fuel r s with
  | (Ret _, s') => Timed.selects s' = []
  | (Exit st, s') =>
      exists t e, trace (Timed.sockets s') = t ++ [e] /\ end_reason st e
  | (Diverge, s') => blocked (Timed.sockets s')
  end.
Proof.
  intros Hst Hlen Hfuel. unfold Timed.main_loop.
  assert (Hr : relay_ok r) by (split; auto).
  unfold Timed.bind.
  destruct (negb (udp_timeout r =? 0)); destruct (negb (tcp_timeout r =? 0));
    cbn [Timed.time Timed.ret]; apply loop_ends; auto.
Qed.

Lemma main_loop_ends_witness :
  match Timed.main_loop 2 (client_relay default_handshake 4 3 5)
          (Timed.mkSession (new_world [] []) [Timed.SelOk false false]
             (fun n => Z.of_nat (100 + 10 * n)) 0) with
  | (Ret _, s') => Timed.selects s' = []
  | (Exit st, s') =>
      exists t e, trace (Timed.sockets s') = t ++ [e] /\ end_reason st e
  | (Diverge, s') => blocked (Timed.sockets s')
  end.
Proof.
  apply (main_loop_ends 2 (client_relay default_handshake 4 3 5)).
  - reflexivity.
  - exact relay_zero_buf_length.
  - cbn. lia.
Defined.
